(* ===== verification/_CoqProject ===== *)
-Q . S2P
Prelude.v
Bytes.v
Interfaces.v
Toy.v
Fs.v
VaultError.v
Utf8.v
Json.v
BoundedHttp.v
Storage.v
Pack.v
Chunking.v
ChunkFormat.v
VaultEncryption.v
PasskeyError.v
CryptoError.v
Canonical.v
Challenge.v
Master.v
Certs.v
CertWire.v
Signing.v
Grant.v
Succession.v
Broadcast.v
RepoEncryption.v
Batch.v
Pipeline.v
Remote.v
Concurrent.v
Users.v
MultiUser.v
KeyWrap.v
AtRest.v
Identity.v
Keystore.v
Crash.v
Transfer.v
Account.v
MachineId.v
Words.v
Recovery.v
CloudBackup.v
Credentials.v
OsKeyring.v
Verification.v
Jwt.v
JsonTypes.v
Ffi.v
Legacy.v
Engine.v
Installation.v
Flows.v
Enrolment.v
