(* ===== verification/Prelude.v ===== *)
(** * Verification development for the gitcellar-crypto workspace

    The workspace encrypts Git repositories for an untrusted cloud.  Its crates:
    [vault-core] cuts data into chunks, seals and packs them and talks to
    storage; [passkey-core] keeps a user's identity, recovery phrase, tokens and
    user directories; [gitcellar-crypto] derives a repository's keys, signs
    grants, certificates, successions and broadcasts, and backs an identity up;
    [gitcellar-identity] fixes GitCellar's configuration; [bounded-http] reads
    responses under a ceiling.  Below [src/] is left out of the paths.

    ** Files, and the code they model

    Foundations (no component of their own):
    - [Prelude]: [result], [run], the stateful-error monad [sbind], loops with
      fuel, list lemmas, tactics.  [Bytes], [Utf8]: byte strings, machine
      integers, the string functions of the Rust standard library.
    - [Interfaces]: a class of operations and a class of laws per third-party
      crate.  [Toy]: an instance of each, with which the witnesses compute.
    - [Fs]: the part of [std::fs] used, over an explicit file tree.
    - [Json]: documents as trees, and what serde's derived implementations read
      from and print to them; the text itself is a parameter.

    vault-core ([vault-core/src/]):
    - [VaultError] [error.rs]; [Chunking] [chunking.rs] (modules [ChunkEngine],
      [StreamChunker], [ChunkKeying]); [ChunkFormat] [chunk_format.rs];
      [VaultEncryption] [encryption.rs] (modules [XChaChaChunkEngine] and
      [AesEncryptionEngine], the trait as the class [EncryptionEngine]); [Pack]
      [pack.rs]; [Storage] [storage/] (modules [FileStorage], [S3]);
      [Ffi] [ffi.rs], the C interface over an explicit heap.
    - [BoundedHttp] [bounded-http/src/lib.rs], which [Storage] calls.

    passkey-core ([passkey-core/src/]):
    - [PasskeyError] [error.rs]; [Users] [paths/]; [MultiUser] [multi_user/];
      [KeyWrap] [keywrap.rs]; [Identity] [identity/]; [Words] and [Recovery]
      [recovery/]; [Credentials] [credential_store/]; [Challenge],
      [Verification], [Jwt], [MachineId] [auth/].

    gitcellar-crypto ([gitcellar-crypto/src/]) and gitcellar-identity:
    - [CryptoError] [error.rs]; [Canonical] [canonical.rs]; [Master]
      [master.rs]; [Certs] [device_cert.rs] and [revocation_cert.rs], and
      [CertWire] their serde implementations, field by field;
      [Signing], [RepoEncryption] and [Engine] [encryption.rs]; [Grant]
      [grant_signing.rs]; [Succession] [identity_succession.rs]; [Broadcast]
      [broadcast.rs]; [Keystore] [keystore.rs]; [Transfer] [transfer.rs];
      [CloudBackup] [cloud_backup.rs]; [Legacy] [legacy_extract.rs]; [Account]
      [lib.rs] of both crates; [Engine] also the calls of
      [gitcellar-identity/src/lib.rs].

    All crates: [JsonTypes], the JSON form of every serialized type, field by
    field (those of [transfer.rs] are in [Transfer]).

    Compositions, which specify how the operations are used together and have
    no source of their own: [Pipeline] (chunk, seal, pack, fetch), [Remote] (the
    same over any storage backend that keeps [StorageContract], which both
    backends do), [Concurrent] (writers and readers of one backend, interleaved,
    over the same contract), [Flows] (a repository key granted as a JSON bundle, received
    and used), [Enrolment] (from a recovery phrase to enrolled devices), [Installation]
    (any sequence of the operations on users, with the invariants of every state
    it reaches), [AtRest] (any life of a machine whose processes seal and open
    files at rest), [OsKeyring] (the protection key, through [KeyringLpkStore]
    of [keywrap.rs], beside the login session in one OS keyring).

    Concurrency and crashes: [Concurrent], above, where an operation of the
    backend is one step; [Batch] runs the batch helpers of [encryption.rs]
    as tasks of a pool, one step each, under every schedule; [KeyWrap]'s race
    steps two minting processes; [Crash] cuts the keystore's writes short at any
    point and restarts.

    ** How state and effects are modelled

    A function that can fail returns [result E A] with the source's error type
    as [E]; an error's payload is kept, a message as its format string (the
    keyring's own text is spliced in where the code searches it).  One
    that can panic or loop returns [run A].  One that changes the world takes
    and returns it: the file tree ([fs]), the process ([KeyWrap.Host]: the
    cached protection key, the files, the OS keyring's slot and the random
    generator), a credential backend, a provider, or the C heap.  Integers are
    [Z], wrapped where the width can be exceeded ([wrap32], [wrap64]).

    The crates' ciphers, hashes, signatures, OpenPGP, BIP39, JWT, serializers,
    Unicode tables and keyrings are parameters.  What is assumed of them is
    documented behaviour: opening what was sealed, verifying what was signed,
    lengths, parsing what was printed.  Nothing is assumed about forgery or
    collision; where a property turns on it, the statement names the forgery
    ([VaultEncryption.xchacha_identity_binding]) or asks for the concrete
    values to be distinct ([Remote.remote_roundtrip]).

    ** What the theorems show

    - The pipeline: chunking terminates, tiles and reassembles; feeding in
      pieces cuts as the whole buffer does; packing places every distinct chunk
      once and within the size bounds; sealing and opening invert, bound to the
      chunk's identity, and a batch of tasks ends in order whatever its
      schedule; together, a holder of the repository key reads back what another
      published, through either storage backend, while others write and read.
    - Trust: certificates, grants, successions, manifests and challenges are
      accepted exactly when their signer, fields and sequence are right, and
      their canonical encodings determine their fields; certificates and
      grant bundles decode to what was encoded, within the widths of their types.
    - Keys at rest: what is written is sealed or nothing is; a minted
      protection key is never silently replaced, and what it sealed opens for
      the life of the machine, whatever the session does to its own entries of
      the keyring; what each interleaving of two minting processes leaves; the
      device keystore meets its contract, and survives crashes (but not two first
      launches at once, [Crash.generation_race]).
    - Accounts: user paths stay in the users directory; the state machine's
      verdict and its repair; any sequence of user operations keeps the file
      tree well-formed and other users' directories as they were; sessions,
        tokens, machine ids; the details a user saved under any build; identities, transfers and cloud backups come back, also from
      a re-typed recovery phrase.
    - The boundary: any permitted sequence of C calls is memory-safe, whatever
      is reachable can be released; a response is read within its ceiling.

    ** Fuel

    A chunking loop gets [fuel_of n] steps for [n] bytes, at least one step per
    byte, since a boundary is positive when the minimum size is
    ([chunk_data_reassemble] and [emit_chunks_spec] prove it enough;
    [zero_min_size_diverges] that no fuel is, for a zero minimum).  [Pack]'s
    ladder search gets one step per size up to the content ([step_for_spec]).
    Grouping the words of a phrase gets the length of the list.  All other
    recursion is structural.  A batch of [n] tasks ends within [4 n + 1] steps
    ([Batch.parallel_sealing]).

    ** Not modelled

    Logging; wiping of secrets and file modes; allocation failure; concurrent
    C calls on one handle; symbolic links below the users directory (a
    parameter answers [canonicalize]); what the disk holds after a power cut
    that loses completed writes ([Crash] keeps them; the sources never sync); the
    test-only overrides of [keywrap.rs]; [Default] and [Debug]
    implementations; the text of JSON and CBOR and of timestamps (parameters);
    [master.rs]'s unused [verify_loose], [ffi.rs]'s constant [vault_version]; the
    .NET bindings, build scripts, examples, fuzz targets and tests.  The
    [key_directory] module is behind a feature and its file is not in the tree,
    so the conversions of [grant_signing.rs] into its types are left out. *)

From stdpp Require Export prelude gmap list strings fin_maps.
From Stdlib Require Export ZArith Lia.

#[global] Open Scope Z_scope.

(** ** Fallible computations

    [result E A] is Rust's [Result<A, E>].  [run A] adds the two ways a Rust
    call can fail to return at all: it panics, or (a loop whose fuel was too
    small) no result has been produced yet. *)

Inductive result (E A : Type) : Type :=
  | Ok (a : A)
  | Err (e : E).
Arguments Ok {E A} _.
Arguments Err {E A} _.

Inductive run (A : Type) : Type :=
  | Done (a : A)
  | Panic (why : string)
  | OutOfFuel.
Arguments Done {A} _.
Arguments Panic {A} _.
Arguments OutOfFuel {A}.

Definition rbind {E A B} (m : result E A) (k : A -> result E B) : result E B :=
  match m with Ok a => k a | Err e => Err e end.

Definition run_bind {A B} (m : run A) (k : A -> run B) : run B :=
  match m with
  | Done a => k a
  | Panic w => Panic w
  | OutOfFuel => OutOfFuel
  end.

(** [map_err] and [ok_or] of the Rust standard library. *)
Definition map_err {E F A} (f : E -> F) (m : result E A) : result F A :=
  match m with Ok a => Ok a | Err e => Err (f e) end.

Definition ok_or {E A} (o : option A) (e : E) : result E A :=
  match o with Some a => Ok a | None => Err e end.

(** [Option::expect]. *)
Definition expect {A} (o : option A) (why : string) : run A :=
  match o with Some x => Done x | None => Panic why end.

Definition is_ok {E A} (m : result E A) : bool :=
  match m with Ok _ => true | Err _ => false end.

Definition is_err {E A} (m : result E A) : bool := negb (is_ok m).

Declare Scope gc_scope.
Delimit Scope gc_scope with gc.

(** [let? x := m in k] is Rust's [let x = m?; k]; [let! x := m in k] sequences
    two calls either of which may panic. *)
Notation "'let?' p := m 'in' k" := (rbind m (fun p => k))
  (at level 10, p pattern, m at level 200, k at level 200) : gc_scope.
Notation "'let!' p := m 'in' k" := (run_bind m (fun p => k))
  (at level 10, p pattern, m at level 200, k at level 200) : gc_scope.

#[global] Open Scope gc_scope.

#[export] Instance result_eq_dec {E A} `{EqDecision E, EqDecision A} :
  EqDecision (result E A).
Proof. solve_decision. Defined.

#[export] Instance run_eq_dec {A} `{EqDecision A} : EqDecision (run A).
Proof. solve_decision. Defined.

Lemma rbind_Ok_inv {E A B} (m : result E A) (k : A -> result E B) b :
  rbind m k = Ok b -> exists a, m = Ok a /\ k a = Ok b.
Proof. destruct m as [a|e]; simpl; [eauto | discriminate]. Qed.

Lemma rbind_Err_inv {E A B} (m : result E A) (k : A -> result E B) e :
  rbind m k = Err e -> m = Err e \/ exists a, m = Ok a /\ k a = Err e.
Proof. destruct m as [a|e']; simpl; [eauto | intros [= ->]; auto]. Qed.

Lemma run_bind_Done_inv {A B} (m : run A) (k : A -> run B) b :
  run_bind m k = Done b -> exists a, m = Done a /\ k a = Done b.
Proof. destruct m; simpl; [eauto | discriminate | discriminate]. Qed.

Lemma is_ok_true {E A} (m : result E A) : is_ok m = true <-> exists a, m = Ok a.
Proof. destruct m; simpl; split; [eauto | done | done | intros [? [=]]]. Qed.

Lemma is_err_true {E A} (m : result E A) : is_err m = true <-> exists e, m = Err e.
Proof. destruct m; simpl; split; [done | intros [? [=]] | eauto | done]. Qed.

(** Invert every hypothesis that says a monadic computation returned a value. *)
Ltac inv_bind :=
  repeat match goal with
  | H : rbind _ _ = Ok _ |- _ =>
      apply rbind_Ok_inv in H; destruct H as (? & ? & H)
  | H : run_bind _ _ = Done _ |- _ =>
      apply run_bind_Done_inv in H; destruct H as (? & ? & H)
  | H : Ok _ = Ok _ |- _ => injection H as H; try subst
  | H : Err _ = Err _ |- _ => injection H as H; try subst
  | H : Done _ = Done _ |- _ => injection H as H; try subst
  | H : Ok _ = Err _ |- _ => discriminate H
  | H : Err _ = Ok _ |- _ => discriminate H
  end.

(** Turn boolean comparisons on [Z] in hypotheses and goal into propositions. *)
Ltac zbool :=
  repeat match goal with
  | H : (_ <? _) = true |- _ => apply Z.ltb_lt in H
  | H : (_ <? _) = false |- _ => apply Z.ltb_ge in H
  | H : (_ <=? _) = true |- _ => apply Z.leb_le in H
  | H : (_ <=? _) = false |- _ => apply Z.leb_gt in H
  | H : (_ =? _) = true |- _ => apply Z.eqb_eq in H
  | H : (_ =? _) = false |- _ => apply Z.eqb_neq in H
  | H : (_ >? _) = _ |- _ => rewrite Z.gtb_ltb in H
  | H : (_ >=? _) = _ |- _ => rewrite Z.geb_leb in H
  | H : (_ && _)%bool = true |- _ => apply andb_true_iff in H; destruct H
  | H : (_ || _)%bool = false |- _ => apply orb_false_iff in H; destruct H
  | H : negb _ = true |- _ => apply negb_true_iff in H
  | H : negb _ = false |- _ => apply negb_false_iff in H
  end.

(** Case on the boolean [Z] comparison the goal is stuck on. *)
Ltac zcase :=
  match goal with
  | |- context [?a <? ?b] => destruct (Z.ltb_spec a b)
  | |- context [?a <=? ?b] => destruct (Z.leb_spec a b)
  | |- context [?a =? ?b] => destruct (Z.eqb_spec a b)
  end.

(** A decidable closed proposition, by evaluation. *)
Ltac by_eval := apply (bool_decide_unpack _); vm_compute; exact I.

(** ** State

    [stateful S E A] is a fallible call that reads and changes a state [S]: the
    state it leaves is returned on success and on failure.  [let* x := m in k]
    is [let x = m?; k]. *)

Definition stateful (S E A : Type) : Type := S -> result E A * S.

Definition sret {S E A} (m : result E A) : stateful S E A := fun s => (m, s).

Definition sbind {S E A B} (m : stateful S E A) (k : A -> stateful S E B) : stateful S E B :=
  fun s => match m s with (Ok a, s') => k a s' | (Err e, s') => (Err e, s') end.

Definition smap_err {S E F A} (f : E -> F) (m : stateful S E A) : stateful S F A :=
  fun s => let '(r, s') := m s in (map_err f r, s').

(** A question about the state. *)
Definition asks {S E A} (f : S -> A) : stateful S E A := fun s => (Ok (f s), s).

Notation "'let*' p := m 'in' k" := (sbind m (fun p => k))
  (at level 10, p pattern, m at level 200, k at level 200) : gc_scope.

Lemma sbind_inv {S E A B} (m : stateful S E A) (k : A -> stateful S E B) s r s' :
  sbind m k s = (r, s') ->
  (exists a s1, m s = (Ok a, s1) /\ k a s1 = (r, s')) \/
  (exists e, m s = (Err e, s') /\ r = Err e).
Proof. unfold sbind. destruct (m s) as [[a|e] s1]; [eauto | intros [= <- <-]; eauto]. Qed.

Lemma sbind_Ok_inv {S E A B} (m : stateful S E A) (k : A -> stateful S E B) s b s' :
  sbind m k s = (Ok b, s') -> exists a s1, m s = (Ok a, s1) /\ k a s1 = (Ok b, s').
Proof. intros [H|(e & _ & H)]%sbind_inv; [done | discriminate]. Qed.

Lemma sbind_Ok {S E A B} (m : stateful S E A) (k : A -> stateful S E B) s a s1 :
  m s = (Ok a, s1) -> sbind m k s = k a s1.
Proof. unfold sbind. by intros ->. Qed.

Lemma sbind_Err {S E A B} (m : stateful S E A) (k : A -> stateful S E B) s e s1 :
  m s = (Err e, s1) -> sbind m k s = (Err e, s1).
Proof. unfold sbind. by intros ->. Qed.

(** An invariant of the state that every call of a sequence keeps. *)
Lemma sbind_state {S E A B} (P : S -> Prop) (m : stateful S E A) (k : A -> stateful S E B) s :
  P (m s).2 -> (forall a s', P s' -> P (k a s').2) -> P (sbind m k s).2.
Proof. unfold sbind. destruct (m s) as [[a|e] s1]; cbn; auto. Qed.

(** ** Loops

    [loop body n s] runs [body] at most [n] times from [s]; [inl] is the state
    to continue with, [inr] the result.  The fuel is binary, so a bound such as
    [2^64] costs nothing to write and only the iterations taken are computed. *)

Section Loop.
  Context {S R : Type}.
  Variable body : S -> S + R.

Fixpoint loop (fuel : positive) (s : S) : S + R :=
  match fuel with
  | xH => body s
  | xO p => match loop p s with inl s' => loop p s' | inr r => inr r end
  | xI p =>
      match body s with
      | inl s' => match loop p s' with inl s'' => loop p s'' | inr r => inr r end
      | inr r => inr r
      end
  end.

(** The same with unary fuel, for reasoning. *)
Fixpoint loop_nat (n : nat) (s : S) : S + R :=
  match n with
  | O => inl s
  | Datatypes.S n => match body s with inl s' => loop_nat n s' | inr r => inr r end
  end.

Lemma loop_nat_add n m s :
  loop_nat (n + m) s =
  match loop_nat n s with inl s' => loop_nat m s' | inr r => inr r end.
Proof.
  revert s; induction n as [|n IH]; intros s; simpl; [done|].
  destruct (body s); [apply IH | done].
Qed.

Lemma loop_loop_nat p s : loop p s = loop_nat (Pos.to_nat p) s.
Proof.
  revert s; induction p as [p IH|p IH|]; intros s; cbn [loop].
  - rewrite Pos2Nat.inj_xI. cbn [loop_nat]. destruct (body s) as [s'|r]; [|done].
    replace (2 * Pos.to_nat p)%nat
      with (Pos.to_nat p + Pos.to_nat p)%nat by lia.
    rewrite loop_nat_add, IH. destruct (loop_nat _ s'); [apply IH | done].
  - rewrite Pos2Nat.inj_xO.
    replace (2 * Pos.to_nat p)%nat with (Pos.to_nat p + Pos.to_nat p)%nat by lia.
    rewrite loop_nat_add, IH. destruct (loop_nat _ s); [apply IH | done].
  - change (Pos.to_nat 1) with 1%nat. simpl. by destruct (body s).
Qed.

Lemma loop_nat_total (P : S -> Prop) (Q : R -> Prop) (m : S -> Z) n s :
  (forall s, P s -> match body s with
                    | inl s' => P s' /\ 0 <= m s' < m s
                    | inr r => Q r
                    end) ->
  P s -> m s < Z.of_nat n -> 0 <= m s -> exists r, loop_nat n s = inr r /\ Q r.
Proof.
  intros Hstep. revert s. induction n as [|n IH]; intros s HP Hm H0; [lia|].
  simpl. specialize (Hstep s HP). destruct (body s) as [s'|r]; [|eauto].
  destruct Hstep as [HP' Hlt]. apply IH; [done | lia | lia].
Qed.

(** Total correctness: an invariant, a postcondition, and a measure below the
    fuel that decreases on every iteration. *)
Lemma loop_total (P : S -> Prop) (Q : R -> Prop) (m : S -> Z) p s :
  (forall s, P s -> match body s with
                    | inl s' => P s' /\ 0 <= m s' < m s
                    | inr r => Q r
                    end) ->
  P s -> 0 <= m s < Zpos p -> exists r, loop p s = inr r /\ Q r.
Proof.
  intros Hstep HP Hm. rewrite loop_loop_nat.
  apply (loop_nat_total P Q m); [done | done | lia | lia].
Qed.

(** Partial correctness, and the state at the moment the loop was left. *)
Lemma loop_inv (P : S -> Prop) p s r :
  (forall s s', P s -> body s = inl s' -> P s') ->
  P s -> loop p s = inr r -> exists s', P s' /\ body s' = inr r.
Proof.
  intros Hstep. rewrite loop_loop_nat. generalize (Pos.to_nat p) as n.
  intros n; revert s; induction n as [|n IH]; intros s HP; simpl; [done|].
  destruct (body s) as [s'|r'] eqn:E; [eauto|]. intros [= ->]; eauto.
Qed.

(** Divergence: an invariant under which the body never leaves the loop. *)
Lemma loop_diverges (P : S -> Prop) p s :
  (forall s, P s -> exists s', body s = inl s' /\ P s') ->
  P s -> exists s', loop p s = inl s'.
Proof.
  intros Hstep. rewrite loop_loop_nat. generalize (Pos.to_nat p) as n.
  intros n; revert s; induction n as [|n IH]; intros s HP; simpl; [eauto|].
  destruct (Hstep s HP) as (s' & -> & HP'). eauto.
Qed.

(** More fuel never changes a result. *)
Lemma loop_mono p q s r : loop p s = inr r -> (p <= q)%positive -> loop q s = inr r.
Proof.
  rewrite !loop_loop_nat. intros H Hle.
  replace (Pos.to_nat q) with (Pos.to_nat p + (Pos.to_nat q - Pos.to_nat p))%nat by lia.
  by rewrite loop_nat_add, H.
Qed.

(** One unfolding: with enough fuel a loop is its body followed by the loop. *)
Lemma loop_unfold p s s' r :
  body s = inl s' -> loop p s' = inr r -> loop (Pos.succ p) s = inr r.
Proof.
  rewrite !loop_loop_nat, Pos2Nat.inj_succ. simpl. by intros -> ->.
Qed.

(** Two runs that both return agree. *)
Lemma loop_agree p q s r r' : loop p s = inr r -> loop q s = inr r' -> r = r'.
Proof.
  intros Hp Hq. destruct (Pos.leb_spec p q) as [Hle|Hlt].
  - apply (loop_mono _ q) in Hp; [congruence | done].
  - apply (loop_mono _ p) in Hq; [congruence | by apply Pos.lt_le_incl].
Qed.

End Loop.

(** A loop whose body may itself panic or run out of fuel. *)
Definition while {S R} (body : S -> S + run R) (fuel : positive) (s : S) : run R :=
  match loop body fuel s with inl _ => OutOfFuel | inr r => r end.

(** Fuel for a loop known to take fewer than [z] iterations. *)
Definition fuel_of (z : Z) : positive := Z.to_pos (z + 1).

Lemma fuel_of_spec z : 0 <= z -> Zpos (fuel_of z) = z + 1.
Proof. intros. unfold fuel_of. rewrite Z2Pos.id; lia. Qed.

(** The [Done]-postcondition form of {!loop_total}. *)
Lemma while_total {S R} (body : S -> S + run R) (P : S -> Prop) (Q : R -> Prop)
    (m : S -> Z) p s :
  (forall s, P s -> match body s with
                    | inl s' => P s' /\ 0 <= m s' < m s
                    | inr r => exists x, r = Done x /\ Q x
                    end) ->
  P s -> 0 <= m s < Zpos p -> exists x, while body p s = Done x /\ Q x.
Proof.
  intros Hstep HP Hm. unfold while.
  destruct (loop_total body P (fun r => exists x, r = Done x /\ Q x) m p s)
    as (r & -> & x & -> & HQ); eauto.
Qed.

(** ** List lemmas shared by the components *)

Abbreviation Zlen l := (Z.of_nat (length l)).

Lemma Zlen_app {A} (l k : list A) : Zlen (l ++ k) = Zlen l + Zlen k.
Proof. rewrite length_app; lia. Qed.

Lemma Zlen_nonneg {A} (l : list A) : 0 <= Zlen l.
Proof. lia. Qed.

Lemma Zlen_zero_iff {A} (l : list A) : Zlen l = 0 <-> l = [].
Proof. destruct l; simpl; split; [done | done | lia | done]. Qed.

(** Rust's [&v[a..b]] for in-range bounds. *)
Definition slice {A} (a b : Z) (l : list A) : list A :=
  take (Z.to_nat (b - a)) (drop (Z.to_nat a) l).

Lemma slice_app_mid {A} (l1 l2 l3 : list A) a b :
  a = Zlen l1 -> b = a + Zlen l2 -> slice a b (l1 ++ l2 ++ l3) = l2.
Proof.
  intros -> ->. unfold slice.
  replace (Z.to_nat (Zlen l1)) with (length l1) by lia.
  rewrite drop_app_length.
  replace (Z.to_nat (Zlen l1 + Zlen l2 - Zlen l1)) with (length l2) by lia.
  apply take_app_length.
Qed.

Lemma concat_snoc {A} (ls : list (list A)) l : concat (ls ++ [l]) = concat ls ++ l.
Proof. rewrite concat_app. simpl. by rewrite app_nil_r. Qed.

(** Lists without a common element. *)
Lemma concat_NoDup_ne {A} (ls : list (list A)) i j a b x y :
  NoDup (concat ls) -> ls !! i = Some a -> ls !! j = Some b -> i <> j ->
  x ∈ a -> y ∈ b -> x <> y.
Proof.
  revert i j. induction ls as [|l ls IH]; intros i j Hnd Hi Hj Hne Hx Hy; [done|].
  cbn in Hnd. apply NoDup_app in Hnd as (_ & Hsep & Hnd).
  assert (Hin : forall n z c, ls !! n = Some c -> z ∈ c -> z ∈ concat ls).
  { intros n z c Hn Hz. apply list_elem_of_In, in_concat. exists c.
    split; apply list_elem_of_In; [by eapply list_elem_of_lookup_2|done]. }
  destruct i as [|i], j as [|j]; cbn in Hi, Hj; [done| | |].
  - injection Hi as ->. intros ->. by eapply Hsep, Hin.
  - injection Hj as ->. intros ->. by eapply Hsep, Hin.
  - eapply (IH i j); eauto.
Qed.

Create HintDb gc discriminated.
#[export] Hint Resolve Zlen_nonneg : gc.
