(* ===== verification/Bytes.v ===== *)
(** Byte strings and fixed-width integers, as the Rust sources use them.

    A [Vec<u8>], a [&[u8]] and a [String] (its UTF-8 bytes) are all [bytes].
    Integers are [Z] with their width written out where it can be exceeded.
    The file models the standard-library operations the sources call:
    [to_le_bytes], [from_le_bytes], decimal [to_string], [split], [find],
    [starts_with] and the ASCII character classes. *)

From S2P Require Import Prelude.
From coqutil Require Import Byte Word.LittleEndianList.
From Stdlib Require Strings.String Strings.Ascii.
From Stdlib Require Import DecimalString DecimalPos DecimalZ.

Abbreviation byte := Byte.byte.
Abbreviation bytes := (list Byte.byte).

#[export] Instance byte_eq_dec : EqDecision byte := Byte.byte_eq_dec.

#[export] Program Instance byte_countable : Countable byte :=
  inj_countable Byte.to_N Byte.of_N _.
Next Obligation. intros x. apply Byte.of_to_N. Qed.

(** The value of a byte, [0..255]. *)
Definition u8 (c : byte) : Z := byte.unsigned c.

(** [z as u8]. *)
Definition as_u8 (z : Z) : byte := byte.of_Z z.

(** A Rust string or byte-string literal. *)
Definition b (s : string) : bytes := String.list_byte_of_string s.

(** The bytes of a [String], in a message. *)
Definition text (s : bytes) : string := String.string_of_list_byte s.

(** The ranges of machine integers. *)
Definition is_u32 (z : Z) : Prop := 0 <= z < 2 ^ 32.
Definition is_u64 (z : Z) : Prop := 0 <= z < 2 ^ 64.
Definition is_i64 (z : Z) : Prop := - 2 ^ 63 <= z < 2 ^ 63.

(** Widths. [usize] is 64 bits (a 64-bit target). *)
Definition U32_MAX : Z := 2 ^ 32 - 1.
Definition U64_MAX : Z := 2 ^ 64 - 1.
Definition USIZE_MAX : Z := 2 ^ 64 - 1.

Definition wrap32 (z : Z) : Z := z mod 2 ^ 32.
Definition wrap64 (z : Z) : Z := z mod 2 ^ 64.

Definition in_u32 (z : Z) : Prop := 0 <= z <= U32_MAX.
Definition in_u64 (z : Z) : Prop := 0 <= z <= U64_MAX.
Definition in_i64 (z : Z) : Prop := - 2 ^ 63 <= z < 2 ^ 63.
Definition in_usize (z : Z) : Prop := 0 <= z <= USIZE_MAX.

(** [usize::checked_add] and [usize::try_from(u64)]. *)
Definition checked_add_usize (x y : Z) : option Z :=
  if x + y <=? USIZE_MAX then Some (x + y) else None.

Definition usize_try_from (z : Z) : option Z :=
  if z <=? USIZE_MAX then Some z else None.

(** [to_le_bytes] / [from_le_bytes] on [n] bytes. *)
Definition to_le_bytes (n : nat) (z : Z) : bytes := le_split n z.
Definition from_le_bytes (bs : bytes) : Z := le_combine bs.

(** [to_be_bytes] / [from_be_bytes]. *)
Definition to_be_bytes (n : nat) (z : Z) : bytes := rev (le_split n z).
Definition from_be_bytes (bs : bytes) : Z := le_combine (rev bs).

(** Decimal [to_string] of an integer. *)
Definition dec (z : Z) : bytes := b (NilZero.string_of_int (Z.to_int z)).

(** [str::parse::<i64>]: an optional sign and digits, in range. *)
Definition parse_i64 (s : bytes) : option Z :=
  let z := match s with
           | Byte.x2b :: s => Z.of_uint <$> NilZero.uint_of_string (String.string_of_list_byte s)
           | _ => Z.of_int <$> NilZero.int_of_string (String.string_of_list_byte s)
           end in
  match z with
  | Some z => if (- 2 ^ 63 <=? z) && (z <? 2 ^ 63) then Some z else None
  | None => None
  end.

(** ASCII classes. *)
Definition is_digit (c : byte) : bool := (48 <=? u8 c) && (u8 c <=? 57).
Definition is_lower (c : byte) : bool := (97 <=? u8 c) && (u8 c <=? 122).
Definition is_upper (c : byte) : bool := (65 <=? u8 c) && (u8 c <=? 90).
Definition is_ascii_alphanumeric (c : byte) : bool :=
  is_digit c || is_lower c || is_upper c.
Definition is_ascii_hexdigit (c : byte) : bool :=
  is_digit c || ((97 <=? u8 c) && (u8 c <=? 102)) || ((65 <=? u8 c) && (u8 c <=? 70)).
Definition is_lower_hex (c : byte) : bool :=
  is_digit c || ((97 <=? u8 c) && (u8 c <=? 102)).

Definition to_ascii_lowercase_byte (c : byte) : byte :=
  if is_upper c then as_u8 (u8 c + 32) else c.
Definition to_ascii_lowercase (s : bytes) : bytes := map to_ascii_lowercase_byte s.
Definition eq_ignore_ascii_case (s t : bytes) : bool :=
  bool_decide (to_ascii_lowercase s = to_ascii_lowercase t).

Definition NUL : byte := Byte.x00.
Definition NL : byte := Byte.x0a.
Definition COLON : byte := Byte.x3a.
Definition DASH : byte := Byte.x2d.

(** [s.starts_with(p)], [s.ends_with(p)], [s.strip_prefix(p)]. *)
Fixpoint strip_prefix {A} `{EqDecision A} (p s : list A) : option (list A) :=
  match p, s with
  | [], _ => Some s
  | x :: p, y :: s => if decide (x = y) then strip_prefix p s else None
  | _ :: _, [] => None
  end.
Definition starts_with {A} `{EqDecision A} (p s : list A) : bool :=
  match strip_prefix p s with Some _ => true | None => false end.
Definition ends_with {A} `{EqDecision A} (p s : list A) : bool :=
  starts_with (rev p) (rev s).

(** [s.find(p)]: the byte index of the first occurrence. *)
Fixpoint find_sub {A} `{EqDecision A} (p s : list A) : option Z :=
  if starts_with p s then Some 0
  else match s with
       | [] => None
       | _ :: s => match find_sub p s with Some i => Some (i + 1) | None => None end
       end.
Definition contains_sub {A} `{EqDecision A} (p s : list A) : bool :=
  match find_sub p s with Some _ => true | None => false end.

(** [s.as_bytes().contains(&c)]. *)
Definition contains_byte (c : byte) (s : bytes) : bool := bool_decide (c ∈ s).

(** [s.split(c).collect::<Vec<_>>()]: always at least one part. *)
Fixpoint split_on (c : byte) (s : bytes) : list bytes :=
  match s with
  | [] => [[]]
  | x :: s =>
      if decide (x = c) then [] :: split_on c s
      else match split_on c s with
           | [] => [[x]]
           | p :: ps => (x :: p) :: ps
           end
  end.

(** [parts.join(sep)]. *)
Fixpoint join (sep : bytes) (parts : list bytes) : bytes :=
  match parts with
  | [] => []
  | [p] => p
  | p :: ps => p ++ sep ++ join sep ps
  end.

(** [str::replace] of one byte by another. *)
Definition replace_byte (x y : byte) (s : bytes) : bytes :=
  map (fun c => if decide (c = x) then y else c) s.

(** [str::trim_matches(c)]. *)
Fixpoint drop_byte (c : byte) (s : bytes) : bytes :=
  match s with
  | x :: s' => if decide (x = c) then drop_byte c s' else s
  | [] => []
  end.
Definition trim_matches (c : byte) (s : bytes) : bytes :=
  rev (drop_byte c (rev (drop_byte c s))).

(** The order of Rust strings, and [sort] on a vector of them. *)
Fixpoint bytes_leb (s t : bytes) : bool :=
  match s, t with
  | [], _ => true
  | _ :: _, [] => false
  | x :: s, y :: t => if u8 x <? u8 y then true else if u8 y <? u8 x then false else bytes_leb s t
  end.
Fixpoint insert_sorted (s : bytes) (l : list bytes) : list bytes :=
  match l with
  | [] => [s]
  | t :: l' => if bytes_leb s t then s :: l else t :: insert_sorted s l'
  end.
Definition sort_strings (l : list bytes) : list bytes := foldr insert_sorted [] l.

(** ** Lemmas *)

Lemma u8_range c : 0 <= u8 c < 256.
Proof. apply byte.unsigned_range. Qed.

Lemma u8_inj c d : u8 c = u8 d -> c = d.
Proof. apply byte.unsigned_inj. Qed.

Lemma u8_as_u8 z : 0 <= z < 256 -> u8 (as_u8 z) = z.
Proof.
  intros. unfold u8, as_u8. rewrite byte.unsigned_of_Z. unfold byte.wrap.
  apply Z.mod_small. lia.
Qed.

Lemma as_u8_u8 c : as_u8 (u8 c) = c.
Proof. apply byte.of_Z_unsigned. Qed.

#[export] Hint Resolve u8_range : gc.

Lemma b_app s t : b (String.append s t) = b s ++ b t.
Proof.
  unfold b, String.list_byte_of_string. induction s as [|a s IH]; simpl; [done|].
  by f_equal.
Qed.

Lemma length_to_le_bytes n z : length (to_le_bytes n z) = n.
Proof. apply length_le_split. Qed.

Lemma length_to_be_bytes n z : length (to_be_bytes n z) = n.
Proof. unfold to_be_bytes. rewrite length_rev. apply length_le_split. Qed.

Lemma from_to_le_bytes n z : 0 <= z < 2 ^ (Z.of_nat n * 8) ->
  from_le_bytes (to_le_bytes n z) = z.
Proof. intros. unfold from_le_bytes, to_le_bytes. rewrite le_combine_split. by apply Z.mod_small. Qed.

Lemma from_to_be_bytes n z : 0 <= z < 2 ^ (Z.of_nat n * 8) ->
  from_be_bytes (to_be_bytes n z) = z.
Proof.
  intros. unfold from_be_bytes, to_be_bytes. rewrite rev_involutive, le_combine_split.
  by apply Z.mod_small.
Qed.

Lemma to_le_bytes_inj n x y :
  0 <= x < 2 ^ (Z.of_nat n * 8) -> 0 <= y < 2 ^ (Z.of_nat n * 8) ->
  to_le_bytes n x = to_le_bytes n y -> x = y.
Proof.
  intros Hx Hy H. rewrite <- (from_to_le_bytes n x), <- (from_to_le_bytes n y) by done.
  by rewrite H.
Qed.

Lemma wrap64_small z : in_u64 z -> wrap64 z = z.
Proof. unfold in_u64, U64_MAX, wrap64. intros. apply Z.mod_small. lia. Qed.

Lemma wrap32_small z : in_u32 z -> wrap32 z = z.
Proof. unfold in_u32, U32_MAX, wrap32. intros. apply Z.mod_small. lia. Qed.

Lemma wrap64_range z : 0 <= wrap64 z < 2 ^ 64.
Proof. unfold wrap64. apply Z.mod_pos_bound. lia. Qed.

Lemma wrap32_range z : 0 <= wrap32 z < 2 ^ 32.
Proof. unfold wrap32. apply Z.mod_pos_bound. lia. Qed.

(** Prefixes. *)
Section Prefix.
  Context {A : Type} `{EqDecision A}.
  Implicit Types p s r : list A.

Lemma strip_prefix_Some p s r : strip_prefix p s = Some r <-> s = p ++ r.
Proof.
  revert s; induction p as [|x p IH]; intros s; simpl; [naive_solver|].
  destruct s as [|y s]; [done|].
  destruct (decide (x = y)) as [->|Hne].
  - rewrite IH. split; [by intros -> | by intros [= ->]].
  - split; [done | by intros [= ->]].
Qed.

Lemma starts_with_true p s : starts_with p s = true <-> exists r, s = p ++ r.
Proof.
  unfold starts_with. destruct (strip_prefix p s) as [r|] eqn:E.
  - apply strip_prefix_Some in E. naive_solver.
  - split; [done|]. intros [r ->].
    assert (H : strip_prefix p (p ++ r) = Some r) by by apply strip_prefix_Some.
    congruence.
Qed.

Lemma starts_with_app p r : starts_with p (p ++ r) = true.
Proof. apply starts_with_true; eauto. Qed.

Lemma find_sub_Some p s i :
  find_sub p s = Some i ->
  exists l r, s = l ++ p ++ r /\ i = Zlen l.
Proof.
  revert i; induction s as [|x s IH]; intros i; simpl.
  - destruct (starts_with p []) eqn:E; [|done]. intros [= <-].
    apply starts_with_true in E as [r E]. exists [], r. eauto.
  - destruct (starts_with p (x :: s)) eqn:E.
    + intros [= <-]. apply starts_with_true in E as [r E]. exists [], r. eauto.
    + destruct (find_sub p s) as [j|]; [|done]. intros [= <-].
      destruct (IH j eq_refl) as (l & r & -> & ->).
      exists (x :: l), r. split; [done|]. simpl. lia.
Qed.

(** The first occurrence: no earlier position matches. *)
Lemma find_sub_first p l r :
  (forall l1 l2, l = l1 ++ l2 -> l2 <> [] -> starts_with p (l2 ++ p ++ r) = false) ->
  find_sub p (l ++ p ++ r) = Some (Zlen l).
Proof.
  induction l as [|x l IH]; intros Hno; cbn [app].
  - destruct (p ++ r) eqn:E; simpl; rewrite <- E, starts_with_app; done.
  - simpl. pose proof (Hno [] (x :: l) eq_refl ltac:(done)) as H0. simpl in H0.
    rewrite H0, IH.
    + f_equal. lia.
    + intros l1 l2 ->. apply (Hno (x :: l1) l2). done.
Qed.

Lemma find_sub_None_no p l r : find_sub p (l ++ p ++ r) <> None.
Proof.
  induction l as [|x l IH]; cbn [app].
  - destruct (p ++ r) eqn:E; simpl; rewrite <- E, starts_with_app; done.
  - simpl. destruct (starts_with p (x :: l ++ p ++ r)); [done|].
    by destruct (find_sub p (l ++ p ++ r)).
Qed.

Lemma find_sub_le p l r i : find_sub p (l ++ p ++ r) = Some i -> i <= Zlen l.
Proof.
  revert i; induction l as [|x l IH]; intros i; cbn [app].
  - destruct (p ++ r) eqn:E; simpl; rewrite <- E, starts_with_app; intros [= <-]; lia.
  - simpl. destruct (starts_with p (x :: l ++ p ++ r)); [intros [= <-]; lia|].
    destruct (find_sub p (l ++ p ++ r)) as [j|]; [|done]. intros [= <-].
    specialize (IH j eq_refl). lia.
Qed.

Lemma contains_sub_true p s : contains_sub p s = true <-> exists l r, s = l ++ p ++ r.
Proof.
  unfold contains_sub. split.
  - destruct (find_sub p s) eqn:E; [|done]. apply find_sub_Some in E as (l & r & -> & _). eauto.
  - intros (l & r & ->). pose proof (find_sub_None_no p l r).
    by destruct (find_sub p (l ++ p ++ r)).
Qed.
End Prefix.

(** Splitting a list at the first occurrence of a separator is unique. *)
Lemma sep_unique {A} (c : A) (l1 l2 r1 r2 : list A) :
  c ∉ l1 -> c ∉ l2 -> l1 ++ c :: r1 = l2 ++ c :: r2 -> l1 = l2 /\ r1 = r2.
Proof.
  revert l2; induction l1 as [|x l1 IH]; intros [|y l2] H1 H2 E; simplify_eq/=.
  - done.
  - exfalso. apply H2. constructor.
  - exfalso. apply H1. constructor.
  - apply not_elem_of_cons in H1 as [_ H1], H2 as [_ H2].
    by destruct (IH l2 H1 H2 ltac:(done)) as [-> ->].
Qed.

Lemma app_inj_length {A} (l1 l2 r1 r2 : list A) :
  length l1 = length l2 -> l1 ++ r1 = l2 ++ r2 -> l1 = l2 /\ r1 = r2.
Proof. intros Hl H. by apply app_inj_1 in H. Qed.

(** Decimal printing: injective, and made of digits and a sign. *)
Lemma uint_string_digits u :
  Forall (fun c => is_digit c = true) (b (NilEmpty.string_of_uint u)).
Proof. induction u; simpl; constructor; done. Qed.

Lemma dec_chars z : Forall (fun c => is_digit c = true \/ c = DASH) (dec z).
Proof.
  assert (Hu : forall u, Forall (fun c => is_digit c = true \/ c = DASH)
                           (b (NilZero.string_of_uint u))).
  { intros u. destruct u; [by repeat constructor; left|..];
      (eapply Forall_impl; [apply uint_string_digits | by left]). }
  unfold dec. destruct (Z.to_int z) as [u|u]; [apply Hu|].
  change (b (NilZero.string_of_int (Decimal.Neg u)))
    with (DASH :: b (NilZero.string_of_uint u)).
  constructor; [by right | apply Hu].
Qed.

Lemma dec_no_colon z : COLON ∉ dec z.
Proof.
  intros Hin. pose proof (dec_chars z) as H. rewrite Forall_forall in H.
  destruct (H _ Hin) as [H'|H']; [vm_compute in H' | ]; discriminate.
Qed.

Lemma b_inj s t : b s = b t -> s = t.
Proof.
  unfold b. intros H. rewrite <- (String.string_of_list_byte_of_string s),
    <- (String.string_of_list_byte_of_string t). by rewrite H.
Qed.

Lemma dec_int z : NilZero.int_of_string (NilZero.string_of_int (Z.to_int z)) = Some (Z.to_int z).
Proof.
  apply NilZero.isi; destruct z; simpl; try done;
    intros [= E]; by apply (DecimalPos.Unsigned.to_uint_nonnil p).
Qed.

(** Decimal text is read back. *)
Lemma parse_i64_dec z : in_i64 z -> parse_i64 (dec z) = Some z.
Proof.
  unfold in_i64. intros Hz. unfold parse_i64.
  assert (E : Z.of_int <$> NilZero.int_of_string (String.string_of_list_byte (dec z)) = Some z).
  { unfold dec, b. rewrite String.string_of_list_byte_of_string, dec_int. cbn. by rewrite DecimalZ.of_to. }
  assert (Hr : (- 2 ^ 63 <=? z) && (z <? 2 ^ 63) = true) by lia.
  pose proof (dec_chars z) as Hc. destruct (dec z) as [|c s]; [by rewrite E, Hr|].
  apply Forall_cons in Hc as [Hc _].
  destruct c; try (rewrite E, Hr; reflexivity). destruct Hc as [Hc|Hc]; discriminate Hc.
Qed.

Lemma dec_inj x y : dec x = dec y -> x = y.
Proof.
  unfold dec. intros H%b_inj. pose proof (dec_int x) as E1. rewrite H, dec_int in E1.
  injection E1 as E1. symmetry in E1. by apply DecimalZ.to_int_inj.
Qed.

(** ** Splitting and joining *)

Lemma split_on_ne c s : split_on c s <> [].
Proof. destruct s as [|x s]; cbn; [done|]. destruct (decide _); [done|]. by destruct (split_on c s). Qed.

Lemma join_split c s : join [c] (split_on c s) = s.
Proof.
  induction s as [|x s IH]; [done|]. cbn [split_on]. destruct (decide (x = c)) as [->|Hx].
  - destruct (split_on c s) as [|p ps] eqn:E; [by apply split_on_ne in E|].
    change (join [c] ([] :: p :: ps)) with ([] ++ [c] ++ join [c] (p :: ps)). by rewrite IH.
  - destruct (split_on c s) as [|p ps] eqn:E; [by apply split_on_ne in E|].
    destruct ps; cbn in *; congruence.
Qed.

Lemma split_on_parts c s : Forall (fun p => c ∉ p) (split_on c s).
Proof.
  induction s as [|x s IH]; cbn [split_on].
  - constructor; [apply not_elem_of_nil | done].
  - destruct (decide (x = c)) as [->|Hx]; [constructor; [apply not_elem_of_nil|done]|].
    destruct (split_on c s) as [|p ps]; [by repeat constructor; apply not_elem_of_cons; split; [done | apply not_elem_of_nil]|].
    apply Forall_cons in IH as [Hp Hps]. constructor; [|done].
    apply not_elem_of_cons. done.
Qed.

Lemma split_on_elems c s : Forall (fun p => forall x, x ∈ p -> x ∈ s) (split_on c s).
Proof.
  induction s as [|x s IH]; cbn [split_on]; [by constructor|].
  assert (IH' : Forall (fun p => forall y, y ∈ p -> y ∈ x :: s) (split_on c s))
    by (eapply Forall_impl; [exact IH|]; intros p Hp y Hy; right; auto).
  destruct (decide (x = c)) as [->|Hx]; [constructor; [by intros y ?%elem_of_nil|done]|].
  destruct (split_on c s) as [|p ps].
  - constructor; [|constructor]. intros y ->%list_elem_of_singleton. by left.
  - apply Forall_cons in IH' as [Hp Hps]. constructor; [|done].
    intros y [->|Hy]%elem_of_cons; [by left | auto].
Qed.

Lemma split_on_no c s : (c ∉ s) -> split_on c s = [s].
Proof.
  induction s as [|x s IH]; intros Hn; cbn; [done|].
  apply not_elem_of_cons in Hn as [Hx Hs]. rewrite decide_False by done.
  by rewrite IH.
Qed.

Lemma split_on_app c s t : (c ∉ s) -> split_on c (s ++ c :: t) = s :: split_on c t.
Proof.
  induction s as [|x s IH]; intros Hn; cbn.
  - by rewrite decide_True.
  - apply not_elem_of_cons in Hn as [Hx Hs]. rewrite decide_False by done.
    by rewrite IH.
Qed.
