(* ===== verification/Interfaces.v ===== *)
(** Interfaces to the third-party crates the sources call.

    Each crate is a class of operations, a parameter of every definition that
    uses it, and a class of laws, the documented behaviour the theorems rely
    on.  No definition of the development fixes what a cipher, a hash or a
    random generator computes; [Toy] instantiates every class to run the
    model on concrete inputs. *)

From S2P Require Import Prelude Bytes.

(** ** [hex] and the [{:x}] formatting of a digest *)

Class HexOps : Type := {
  hex_encode : bytes -> bytes;
  hex_decode : bytes -> option bytes;
  lower_hex : bytes -> bytes;
}.

Class HexLaws `{HexOps} : Prop := {
  hex_decode_encode x : hex_decode (hex_encode x) = Some x;
  hex_decode_Some s x : hex_decode s = Some x -> hex_encode x = to_ascii_lowercase s;
  hex_encode_length x : length (hex_encode x) = (2 * length x)%nat;
  hex_encode_chars x : Forall (fun c => is_lower_hex c = true) (hex_encode x);
  lower_hex_encode x : lower_hex x = hex_encode x;
}.

(** ** [sha2], [hmac], [blake3], [hkdf] *)

Class HashOps : Type := {
  sha256 : bytes -> bytes;
  hmac_sha256 : bytes -> bytes -> bytes;       (* key, message *)
  blake3_keyed : bytes -> bytes -> bytes;      (* key, message *)
  (* [Hkdf::<Sha256>::new(salt, ikm).expand(info, out)] *)
  hkdf_sha256 : option bytes -> bytes -> bytes -> nat -> option bytes;
}.

Class HashLaws `{HashOps} : Prop := {
  sha256_length m : length (sha256 m) = 32%nat;
  hmac_sha256_length k m : length (hmac_sha256 k m) = 32%nat;
  blake3_keyed_length k m : length (blake3_keyed k m) = 32%nat;
  (* expand fails only past 255 blocks of 32 bytes *)
  hkdf_sha256_Some salt ikm info n :
    Z.of_nat n <= 8160 -> exists out, hkdf_sha256 salt ikm info n = Some out /\ length out = n;
}.

(** ** [argon2]: Argon2id with memory (KiB), passes, lanes and output length *)

Class Argon2Ops : Type := {
  argon2id : Z -> Z -> Z -> nat -> bytes -> bytes -> option bytes;  (* passphrase, salt *)
}.

Class Argon2Laws `{Argon2Ops} : Prop := {
  argon2id_length m t p n pass salt out :
    argon2id m t p n pass salt = Some out -> length out = n;
}.

(** ** [rand]: a generator state threaded through every draw *)

Class RngOps (R : Type) : Type := {
  fill_bytes : nat -> R -> bytes * R;
  shuffle : forall {A : Type}, list A -> R -> list A * R;
}.

Class RngLaws (R : Type) `{RngOps R} : Prop := {
  fill_bytes_length n (r : R) : length (fill_bytes n r).1 = n;
  shuffle_perm {A} (l : list A) (r : R) : (shuffle l r).1 ≡ₚ l;
}.

(** ** AEAD ciphers: [chacha20poly1305] and [aes-gcm]

    [aead_encrypt alg key nonce aad pt] and [aead_decrypt alg key nonce aad ct];
    both ciphers append a 16-byte tag. *)

Inductive aead_alg : Type := XChaCha20Poly1305 | Aes256Gcm.

Definition TAG_LEN : Z := 16.

(** The longest plaintext a cipher accepts, in bytes. *)
Definition aead_max (alg : aead_alg) : Z :=
  match alg with
  | XChaCha20Poly1305 => 2 ^ 38 - 64
  | Aes256Gcm => 2 ^ 36
  end.

Definition aead_nonce_len (alg : aead_alg) : nat :=
  match alg with XChaCha20Poly1305 => 24 | Aes256Gcm => 12 end.

Class AeadOps : Type := {
  aead_encrypt : aead_alg -> bytes -> bytes -> bytes -> bytes -> option bytes;
  aead_decrypt : aead_alg -> bytes -> bytes -> bytes -> bytes -> option bytes;
}.

Class AeadLaws `{AeadOps} : Prop := {
  aead_decrypt_encrypt alg k n a p c :
    aead_encrypt alg k n a p = Some c -> aead_decrypt alg k n a c = Some p;
  aead_encrypt_decrypt alg k n a c p :
    aead_decrypt alg k n a c = Some p -> aead_encrypt alg k n a p = Some c;
  aead_encrypt_length alg k n a p c :
    aead_encrypt alg k n a p = Some c -> Zlen c = Zlen p + TAG_LEN;
  aead_encrypt_Some alg k n a p :
    Zlen p <= aead_max alg -> is_Some (aead_encrypt alg k n a p);
}.

(** ** [base64], the standard alphabet *)

Class Base64Ops : Type := {
  b64_encode : bytes -> bytes;
  b64_decode : bytes -> option bytes;
}.

Class Base64Laws `{Base64Ops} : Prop := {
  b64_decode_encode x : b64_decode (b64_encode x) = Some x;
  b64_encode_nil x : b64_encode x = [] -> x = [];
  b64_encode_chars x : Forall (fun c => 33 <= u8 c < 127) (b64_encode x);
}.

(** ** [ed25519_dalek]

    [ed_point] is whether [VerifyingKey::from_bytes] accepts the 32 bytes. *)

Class Ed25519Ops : Type := {
  ed_public : bytes -> bytes;                               (* of a 32-byte seed *)
  ed_sign : bytes -> bytes -> bytes;                        (* seed, message *)
  ed_point : bytes -> bool;
  ed_verify_strict : bytes -> bytes -> bytes -> bool;       (* key, message, signature *)
}.

Class Ed25519Laws `{Ed25519Ops} : Prop := {
  ed_public_length sk : length (ed_public sk) = 32%nat;
  ed_sign_length sk m : length (ed_sign sk m) = 64%nat;
  ed_point_public sk : ed_point (ed_public sk) = true;
  ed_verify_sign sk m : ed_verify_strict (ed_public sk) m (ed_sign sk m) = true;
}.

(** ** Serializers: [ciborium] and [serde_json] on one type *)

Class Codec (A : Type) : Type := {
  ser : A -> option bytes;
  de : bytes -> option A;
}.

Class CodecLaws (A : Type) `{Codec A} : Prop := {
  de_ser (x : A) bs : ser x = Some bs -> de bs = Some x;
  ser_total (x : A) : is_Some (ser x);
}.

(** ** The Unicode tables of [char::to_uppercase], on a character given as its
    UTF-8 bytes, and of [char::is_alphanumeric] and [str::to_lowercase] (which has
    a contextual rule) *)

Class UnicodeOps : Type := {
  char_to_uppercase : bytes -> bytes;
  str_to_lowercase : bytes -> bytes;
  char_is_alphanumeric : bytes -> bool;
}.

Definition to_ascii_uppercase_byte (c : byte) : byte :=
  if is_lower c then as_u8 (u8 c - 32) else c.

Class UnicodeLaws `{UnicodeOps} : Prop := {
  char_to_uppercase_ascii c :
    u8 c < 128 -> char_to_uppercase [c] = [to_ascii_uppercase_byte c];
  str_to_lowercase_ascii s :
    Forall (fun c => u8 c < 128) s -> str_to_lowercase s = to_ascii_lowercase s;
  char_is_alphanumeric_ascii c :
    u8 c < 128 -> char_is_alphanumeric [c] = is_ascii_alphanumeric c;
}.

(** ** [sequoia_openpgp]: what the sources read of a certificate

    A key of a certificate as its [with_policy] iterator shows it. *)

Inductive secret_material : Type :=
  | UnencryptedEcdh (scalar : bytes)
  | UnencryptedOther
  | EncryptedSecret.

Record key_view : Type := {
  kv_supported : bool;
  kv_alive : bool;
  kv_revoked : bool;
  kv_for_transport : bool;
  kv_for_storage : bool;
  kv_for_signing : bool;
  kv_secret : option secret_material;
  kv_handle : bytes;
}.

(** The layers of a parsed message; a signature group lists whether each of its
    signatures verified. *)
Inductive message_layer : Type :=
  | LayerEncryption
  | LayerCompression
  | LayerSignatureGroup (good : list bool).

Class PgpOps (Cert : Type) : Type := {
  cert_parse : bytes -> option Cert;          (* ASCII armor or binary *)
  cert_fingerprint : Cert -> bytes;           (* [Fingerprint::to_hex] *)
  cert_keys : Cert -> list key_view;
  cert_public_armor : Cert -> option bytes;
  key_sign_detached : key_view -> bytes -> option bytes;
  (* the message structure a detached verifier reports for a certificate, the
     data and a signature; [None] if the signature does not parse *)
  detached_layers : Cert -> bytes -> bytes -> option (list message_layer);
  pgp_encrypt : list key_view -> bytes -> option bytes;
}.

(** A signature made with a usable signing key of a certificate verifies under
    the certificate's exported armor. *)
Class PgpLaws (Cert : Type) `{PgpOps Cert} : Prop := {
  pgp_export_parse c armor :
    cert_public_armor c = Some armor ->
    exists pub, cert_parse armor = Some pub /\
      forall k data sig, k ∈ cert_keys c -> key_sign_detached k data = Some sig ->
        detached_layers pub data sig = Some [LayerSignatureGroup [true]];
}.

(** Encrypted messages: the encrypted-session-key packets a parser finds, and
    what a key recovers from a message through one of them (the layers the
    structure check sees, and the literal data). *)
Class PgpMessageOps : Type := {
  msg_pkesks : bytes -> option (list bytes);
  pkesk_open : key_view -> bytes -> bytes -> option (list message_layer * bytes);
}.

(** A message encrypted to some keys opens with each of them, to its plaintext
    under one encryption layer, and with no session key to anything else.  What
    a key opens depends on its identity and secret, not on its validity. *)
Class PgpMessageLaws (Cert : Type) `{PgpOps Cert, PgpMessageOps} : Prop := {
  msg_encrypt_open ks data msg :
    pgp_encrypt ks data = Some msg ->
    exists pkesks, msg_pkesks msg = Some pkesks /\
      (forall k k', k ∈ ks -> kv_handle k' = kv_handle k -> is_Some (kv_secret k') ->
         exists p, p ∈ pkesks /\ is_Some (pkesk_open k' p msg)) /\
      (forall k p x, pkesk_open k p msg = Some x -> x = ([LayerEncryption], data));
}.

Section Lemmas.
  Context `{HexLaws}.

Lemma hex_encode_inj x y : hex_encode x = hex_encode y -> x = y.
Proof.
  intros E. pose proof (hex_decode_encode x) as Hx.
  rewrite E, hex_decode_encode in Hx. congruence.
Qed.

Lemma lower_hex_length x : length (lower_hex x) = (2 * length x)%nat.
Proof. rewrite lower_hex_encode. apply hex_encode_length. Qed.

Lemma hex_decode_lower_hex x : hex_decode (lower_hex x) = Some x.
Proof. rewrite lower_hex_encode. apply hex_decode_encode. Qed.
End Lemmas.
