(* ===== verification/Toy.v ===== *)
(** Concrete instances of the interfaces, used to run the model.

    They satisfy the laws and nothing more: the hash is a checksum, the
    cipher appends a keyed checksum, the generator counts.  The hexadecimal
    codec is the real one. *)

From S2P Require Import Prelude Bytes Interfaces.

Section Hex.

Definition nib (n : Z) : byte := if n <? 10 then as_u8 (48 + n) else as_u8 (87 + n).

Definition unnib (c : byte) : option Z :=
  if is_digit c then Some (u8 c - 48)
  else if (97 <=? u8 c) && (u8 c <=? 102) then Some (u8 c - 87)
  else if (65 <=? u8 c) && (u8 c <=? 70) then Some (u8 c - 55)
  else None.

Fixpoint toy_hex_encode (x : bytes) : bytes :=
  match x with
  | [] => []
  | c :: x => nib (u8 c / 16) :: nib (u8 c mod 16) :: toy_hex_encode x
  end.

Fixpoint toy_hex_decode (s : bytes) : option bytes :=
  match s with
  | [] => Some []
  | [_] => None
  | h :: l :: s =>
      match unnib h, unnib l, toy_hex_decode s with
      | Some a, Some c, Some x => Some (as_u8 (a * 16 + c) :: x)
      | _, _, _ => None
      end
  end.
End Hex.

#[export] Instance toy_hex : HexOps := {|
  hex_encode := toy_hex_encode;
  hex_decode := toy_hex_decode;
  lower_hex := toy_hex_encode;
|}.

(** All 256 bytes, to decide a property of a byte by evaluation. *)
Definition all_bytes : list byte := map (fun n => as_u8 (Z.of_nat n)) (seq 0 256).

Lemma all_bytes_complete c : c ∈ all_bytes.
Proof.
  unfold all_bytes. apply list_elem_of_fmap. exists (Z.to_nat (u8 c)).
  pose proof (u8_range c). split; [by rewrite Z2Nat.id, as_u8_u8 by lia|].
  apply elem_of_seq. lia.
Qed.

Lemma byte_forall (P : byte -> bool) :
  forallb P all_bytes = true -> forall c, P c = true.
Proof.
  intros HP c. rewrite forallb_forall in HP. apply HP, list_elem_of_In, all_bytes_complete.
Qed.

Lemma nib_pair_decode c :
  unnib (nib (u8 c / 16)) = Some (u8 c / 16) /\
  unnib (nib (u8 c mod 16)) = Some (u8 c mod 16).
Proof.
  pose proof (byte_forall (fun c =>
    bool_decide (unnib (nib (u8 c / 16)) = Some (u8 c / 16)) &&
    bool_decide (unnib (nib (u8 c mod 16)) = Some (u8 c mod 16))) eq_refl c) as E.
  simpl in E. apply andb_true_iff in E as [E1 E2].
  by apply bool_decide_eq_true in E1, E2.
Qed.

Lemma nib_lower_hex c :
  is_lower_hex (nib (u8 c / 16)) = true /\ is_lower_hex (nib (u8 c mod 16)) = true.
Proof.
  pose proof (byte_forall (fun c =>
    is_lower_hex (nib (u8 c / 16)) && is_lower_hex (nib (u8 c mod 16))) eq_refl c) as E.
  by apply andb_true_iff in E.
Qed.

Lemma unnib_lower c n :
  unnib c = Some n -> 0 <= n < 16 /\ nib n = to_ascii_lowercase_byte c.
Proof.
  pose proof (byte_forall (fun c => match unnib c with
    | Some n => (0 <=? n) && (n <? 16) && bool_decide (nib n = to_ascii_lowercase_byte c)
    | None => true end) eq_refl c) as E.
  simpl in E. intros Hn. rewrite Hn in E.
  apply andb_true_iff in E as [E E3]. apply andb_true_iff in E as [E1 E2]. zbool.
  apply bool_decide_eq_true in E3. done.
Qed.

Lemma toy_hex_decode_encode x : toy_hex_decode (toy_hex_encode x) = Some x.
Proof.
  induction x as [|c x IH]; [done|]. cbn [toy_hex_encode toy_hex_decode].
  destruct (nib_pair_decode c) as [-> ->]. rewrite IH.
  replace (u8 c / 16 * 16 + u8 c mod 16) with (u8 c)
    by (pose proof (Z.div_mod (u8 c) 16); lia).
  by rewrite as_u8_u8.
Qed.

Lemma toy_hex_decode_lower n s x :
  (length s <= n)%nat -> toy_hex_decode s = Some x -> toy_hex_encode x = to_ascii_lowercase s.
Proof.
  revert s x; induction n as [|n IH]; intros [|h [|l s]] x Hn E; simpl in *; simplify_eq/=; try lia; try done.
  destruct (unnib h) as [a|] eqn:Ha; [|done]. destruct (unnib l) as [c|] eqn:Hc; [|done].
  destruct (toy_hex_decode s) as [y|] eqn:Hy; [|done]. injection E as <-.
  apply unnib_lower in Ha as [Ra <-], Hc as [Rc <-].
  cbn [toy_hex_encode]. rewrite u8_as_u8 by lia.
  replace ((a * 16 + c) / 16) with a by (rewrite Z.div_add_l by lia; rewrite Z.div_small by lia; lia).
  replace ((a * 16 + c) mod 16) with c
    by (rewrite Z.add_comm, Z.mod_add by lia; rewrite Z.mod_small; lia).
  rewrite (IH s y) by (done || lia). done.
Qed.

#[export] Instance toy_hex_laws : HexLaws.
Proof.
  split; simpl.
  - apply toy_hex_decode_encode.
  - intros s x. by apply (toy_hex_decode_lower (length s)).
  - intros x. induction x; simpl; lia.
  - intros x. induction x as [|c x IH]; simpl; constructor;
      [apply nib_lower_hex | constructor; [apply nib_lower_hex | done]].
  - done.
Qed.

(** A 32-byte checksum. *)
Definition checksum (m : bytes) : bytes :=
  to_le_bytes 32 (foldl (fun acc c => (acc * 257 + u8 c + 1) mod 2 ^ 61) 7 m).

#[export] Instance toy_hash : HashOps := {|
  sha256 := checksum;
  hmac_sha256 k m := checksum (k ++ NUL :: m);
  blake3_keyed k m := checksum (m ++ NUL :: k);
  hkdf_sha256 salt ikm info n :=
    if Z.of_nat n <=? 8160
    then Some (take n (checksum (info ++ NUL :: ikm) ++ replicate n NUL)) else None;
|}.

#[export] Instance toy_hash_laws : HashLaws.
Proof.
  split; intros; try apply length_to_le_bytes.
  unfold hkdf_sha256; cbn [toy_hash].
  replace (Z.of_nat n <=? 8160) with true by (symmetry; by apply Z.leb_le).
  eexists; split; [done|].
  rewrite length_take, length_app, length_replicate. lia.
Qed.

#[export] Instance toy_argon2 : Argon2Ops := {|
  argon2id m t p n pass salt :=
    if (length salt <? 8)%nat then None
    else Some (take n (checksum (pass ++ NUL :: salt) ++ replicate n NUL));
|}.

#[export] Instance toy_argon2_laws : Argon2Laws.
Proof.
  split; cbn [argon2id toy_argon2]; intros m t p n pass salt out. destruct (length salt <? 8)%nat; [done|].
  intros <-%Some_inj. rewrite length_take, length_app, length_replicate. lia.
Qed.

(** A counting generator; [shuffle] reverses. *)
#[export] Instance toy_rng : RngOps Z := {|
  fill_bytes n r := (replicate n (as_u8 (r mod 256)), r + 1);
  shuffle A l r := (rev l, r + 1);
|}.

#[export] Instance toy_rng_laws : RngLaws Z.
Proof.
  split; intros; simpl; [apply length_replicate|].
  rewrite <- Permutation_rev. done.
Qed.

(** Ciphertext is the plaintext and the first half of a checksum. *)
Definition toy_tag (alg : aead_alg) (k n a p : bytes) : bytes :=
  take 16 (checksum (k ++ n ++ p ++ a ++ match alg with XChaCha20Poly1305 => [NUL] | _ => [] end)).

#[export] Instance toy_aead : AeadOps := {|
  aead_encrypt alg k n a p :=
    if Zlen p <=? aead_max alg then Some (p ++ toy_tag alg k n a p) else None;
  aead_decrypt alg k n a c :=
    let p := take (length c - 16) c in
    if (16 <=? Zlen c) && (Zlen p <=? aead_max alg)
       && bool_decide (drop (length c - 16) c = toy_tag alg k n a p)
    then Some p else None;
|}.

Lemma toy_tag_length alg k n a p : length (toy_tag alg k n a p) = 16%nat.
Proof.
  unfold toy_tag, checksum.
  rewrite length_take, length_to_le_bytes. done.
Qed.

#[export] Instance toy_aead_laws : AeadLaws.
Proof.
  split; simpl; intros alg k n a.
  - intros p c. destruct (Zlen p <=? _) eqn:Hp; [|done]. intros [= <-].
    rewrite length_app, toy_tag_length, Nat.add_sub, take_app_length, drop_app_length, Hp.
    rewrite bool_decide_true by done.
    replace (16 <=? _) with true by (symmetry; apply Z.leb_le; lia). done.
  - intros c p. destruct (16 <=? Zlen c) eqn:H1; [|done]. cbn [andb].
    destruct (Zlen _ <=? _) eqn:H2; [|done]. cbn [andb].
    case_bool_decide as H3; [|done]. intros [= <-]. rewrite H2.
    f_equal. rewrite <- H3. apply take_drop.
  - intros p c. destruct (Zlen p <=? _) eqn:Hp; [|done]. intros [= <-].
    rewrite Zlen_app, toy_tag_length. done.
  - intros p Hp. apply Z.leb_le in Hp. rewrite Hp. eauto.
Qed.

(** Base64 stands in as hexadecimal. *)
#[export] Instance toy_base64 : Base64Ops := {|
  b64_encode := toy_hex_encode;
  b64_decode := toy_hex_decode;
|}.

#[export] Instance toy_base64_laws : Base64Laws.
Proof.
  split; [apply toy_hex_decode_encode | by intros [|? ?] |].
  intros x. refine (Forall_impl _ _ _ (hex_encode_chars x) _). intros c Hc.
  pose proof (byte_forall (fun c => negb (is_lower_hex c) || ((33 <=? u8 c) && (u8 c <? 127)))
    eq_refl c) as E. cbn beta in E. rewrite Hc in E. cbn [negb orb] in E. by zbool.
Qed.

(** Signatures are checksums keyed by the public key, which hides nothing. *)
Definition toy_public (sk : bytes) : bytes := checksum (NUL :: sk).

#[export] Instance toy_ed25519 : Ed25519Ops := {|
  ed_public := toy_public;
  ed_sign sk m := checksum (toy_public sk ++ m) ++ checksum m;
  ed_point pk := Zlen pk =? 32;
  ed_verify_strict pk m sig := bool_decide (sig = checksum (pk ++ m) ++ checksum m);
|}.

#[export] Instance toy_ed25519_laws : Ed25519Laws.
Proof.
  split; intros; [apply length_to_le_bytes | | | ].
  - cbn [ed_sign toy_ed25519]. unfold checksum. by rewrite length_app, !length_to_le_bytes.
  - cbn [ed_point ed_public toy_ed25519]. unfold toy_public, checksum.
    by rewrite length_to_le_bytes.
  - cbn [ed_sign ed_verify_strict ed_public toy_ed25519]. by rewrite bool_decide_true.
Qed.

(** Case mapping of ASCII only. *)
#[export] Instance toy_unicode : UnicodeOps := {|
  char_to_uppercase := map to_ascii_uppercase_byte;
  str_to_lowercase := to_ascii_lowercase;
  char_is_alphanumeric c := match c with [c] => is_ascii_alphanumeric c | _ => false end;
|}.

#[export] Instance toy_unicode_laws : UnicodeLaws.
Proof. by split. Qed.

(** A certificate is its own fingerprint, and has one key of each kind. *)
Definition toy_key (transport signing : bool) (c : bytes) : key_view :=
  {| kv_supported := true; kv_alive := true; kv_revoked := false;
     kv_for_transport := transport; kv_for_storage := transport; kv_for_signing := signing;
     kv_secret := Some (UnencryptedEcdh (checksum c)); kv_handle := c |}.

#[export] Instance toy_pgp : PgpOps bytes := {|
  cert_parse armor := match armor with [] => None | _ => Some armor end;
  cert_fingerprint c := map to_ascii_uppercase_byte (toy_hex_encode c);
  cert_keys c := [toy_key true false c; toy_key false true c];
  cert_public_armor c := match c with [] => None | _ => Some c end;
  key_sign_detached k data := Some (checksum (kv_handle k ++ NUL :: data));
  detached_layers c data sig :=
    Some [LayerSignatureGroup [bool_decide (sig = checksum (c ++ NUL :: data))]];
  pgp_encrypt _ data := Some data;
|}.

#[export] Instance toy_pgp_laws : PgpLaws bytes.
Proof.
  split. intros c armor Ha. exists armor. destruct c as [|x c]; [done|].
  injection Ha as <-. split; [done|]. intros k data sig Hk [= <-].
  cbn [detached_layers toy_pgp]. rewrite bool_decide_true; [done|].
  apply elem_of_cons in Hk as [->|Hk]; [done|]. apply elem_of_cons in Hk as [->|Hk]; [done|].
  by apply elem_of_nil in Hk.
Qed.

#[export] Instance toy_messages : PgpMessageOps := {|
  msg_pkesks _ := Some [[]];
  pkesk_open _ _ msg := Some ([LayerEncryption], msg);
|}.

#[export] Instance toy_message_laws : PgpMessageLaws bytes.
Proof.
  split. intros ks data msg [= <-]. exists [[]]. split; [done|]. split.
  - intros k k' _ _ _. exists []. split; [by left | by eexists].
  - by intros k p x [= <-].
Qed.

(** A codec for any countable type, one byte per bit of its code. *)
Fixpoint pos_bits (p : positive) : bytes :=
  match p with
  | xH => []
  | xO p => as_u8 0 :: pos_bits p
  | xI p => as_u8 1 :: pos_bits p
  end.
Fixpoint bits_pos (s : bytes) : positive :=
  match s with
  | [] => xH
  | c :: s => if u8 c =? 0 then xO (bits_pos s) else xI (bits_pos s)
  end.

Lemma bits_pos_bits p : bits_pos (pos_bits p) = p.
Proof. induction p as [p IH|p IH|]; cbn; by rewrite ?IH. Qed.

Definition countable_codec {A} `{Countable A} : Codec A := {|
  ser x := Some (pos_bits (encode x));
  de s := decode (bits_pos s);
|}.

#[export] Instance countable_codec_laws {A} `{Countable A} : @CodecLaws A countable_codec.
Proof.
  split; cbn.
  - intros x bs [= <-]. rewrite bits_pos_bits. apply decode_encode.
  - intros x. eauto.
Qed.
