(* ===== verification/Fs.v ===== *)
(** The part of [std::fs] the sources use, over an explicit file system.

    A path is its list of components, root first; no component is [..] and
    there are no symbolic links.  An entry may be [Denied]: present, and
    failing every access with an error other than "not found", which is how
    the theorems about failing closed see a permission or I/O error. *)

From S2P Require Import Prelude Bytes.

Abbreviation path := (list bytes).

Inductive node : Type :=
  | File (content : bytes)
  | Dir
  | Denied.

Definition SLASH : byte := Byte.x2f.

(** The components of a path string; empty and [.] components vanish. *)
Definition components (p : bytes) : path :=
  filter (fun c => c <> [] /\ c <> b ".") (split_on SLASH p).

(** [PathBuf::join]: an absolute argument replaces the base. *)
Definition path_join (base : path) (p : bytes) : path :=
  if starts_with [SLASH] p then components p else base ++ components p.

#[export] Instance node_eq_dec : EqDecision node.
Proof. solve_decision. Defined.

Definition fs : Type := gmap (list bytes) node.

(** [std::io::ErrorKind], as far as the sources distinguish. *)
Inductive io_error : Type := NotFound | OtherIo.

#[export] Instance io_error_eq_dec : EqDecision io_error.
Proof. solve_decision. Defined.

Definition io (A : Type) : Type := result io_error A.

(** The root directory always exists. *)
Definition node_at (f : fs) (p : path) : option node :=
  match p with [] => Some Dir | _ => f !! p end.

Definition parent (p : path) : option path :=
  match p with [] => None | _ => Some (take (length p - 1) p) end.

Definition file_name (p : path) : option bytes := last p.

Definition exists_ (f : fs) (p : path) : bool :=
  match node_at f p with Some _ => true | None => false end.
Definition is_dir (f : fs) (p : path) : bool :=
  match node_at f p with Some Dir => true | _ => false end.
Definition is_file (f : fs) (p : path) : bool :=
  match node_at f p with Some (File _) => true | _ => false end.

Definition fs_read (f : fs) (p : path) : io bytes :=
  match node_at f p with
  | Some (File c) => Ok c
  | Some _ => Err OtherIo
  | None => Err NotFound
  end.

(** [create_dir_all]: every prefix becomes a directory, unless one is in use. *)
Fixpoint mkdirs (f : fs) (ps : list path) : io fs :=
  match ps with
  | [] => Ok f
  | p :: ps =>
      match node_at f p with
      | Some Dir => mkdirs f ps
      | Some _ => Err OtherIo
      | None => mkdirs (<[p := Dir]> f) ps
      end
  end.

Definition prefixes (p : path) : list path := map (fun n => take n p) (seq 1 (length p)).

Definition create_dir_all (f : fs) (p : path) : io fs := mkdirs f (prefixes p).

Definition fs_write (f : fs) (p : path) (c : bytes) : io fs :=
  match parent p with
  | None => Err OtherIo
  | Some d =>
      match node_at f d with
      | Some Dir =>
          match node_at f p with
          | Some (File _) | None => Ok (<[p := File c]> f)
          | Some _ => Err OtherIo
          end
      | Some _ => Err OtherIo
      | None => Err NotFound
      end
  end.

Definition remove_file (f : fs) (p : path) : io fs :=
  match node_at f p with
  | Some (File _) => Ok (delete p f)
  | Some _ => Err OtherIo
  | None => Err NotFound
  end.

(** [rename]: replaces an existing file. *)
Definition rename (f : fs) (p q : path) : io fs :=
  match node_at f p with
  | Some (File c) =>
      match fs_write (delete p f) q c with
      | Ok f' => Ok f'
      | Err e => Err e
      end
  | Some _ => Err OtherIo
  | None => Err NotFound
  end.

(** [q] is [p] or lies below it. *)
Definition under (p q : path) : bool := starts_with p q.

(** [remove_dir_all]: fails on an undeletable entry, before deleting anything. *)
Definition remove_dir_all (f : fs) (p : path) : io fs :=
  match node_at f p with
  | Some Dir =>
      if bool_decide (map_Forall (fun q n => under p q = true -> n <> Denied) f)
      then Ok (filter (fun kv => under p kv.1 = false) f)
      else Err OtherIo
  | Some _ => Err OtherIo
  | None => Err NotFound
  end.

(** The names in a directory, in some order. *)
Definition child_of (p q : path) : option bytes :=
  match strip_prefix p q with Some [n] => Some n | _ => None end.
Definition read_dir (f : fs) (p : path) : io (list bytes) :=
  match node_at f p with
  | Some Dir => Ok (omap (child_of p) (map_to_list f).*1)
  | Some _ => Err OtherIo
  | None => Err NotFound
  end.

(** ** Lemmas *)

Lemma node_at_ne f p : p <> [] -> node_at f p = f !! p.
Proof. by destruct p. Qed.

Lemma parent_snoc p n : parent (p ++ [n]) = Some p.
Proof.
  unfold parent. destruct (p ++ [n]) eqn:E; [by destruct p|]. rewrite <- E.
  rewrite length_app. cbn. rewrite Nat.add_sub. by rewrite take_app_length.
Qed.

Lemma node_at_insert_ne f p q n : p <> q -> p <> [] -> node_at (<[p := n]> f) q = node_at f q.
Proof. intros Hne Hp. destruct q; [done|]. rewrite !node_at_ne by done. by apply lookup_insert_ne. Qed.

Lemma node_at_insert f p n : p <> [] -> node_at (<[p := n]> f) p = Some n.
Proof. intros Hp. rewrite node_at_ne by done. apply lookup_insert_eq. Qed.

Lemma node_at_delete f p : p <> [] -> node_at (delete p f) p = None.
Proof. intros Hp. rewrite node_at_ne by done. apply lookup_delete_eq. Qed.

Lemma node_at_delete_ne f p q : p <> q -> node_at (delete p f) q = node_at f q.
Proof. intros Hne. destruct q; [done|]. rewrite !node_at_ne by done. by apply lookup_delete_ne. Qed.

Lemma fs_read_ok f p c : fs_read f p = Ok c <-> node_at f p = Some (File c).
Proof. unfold fs_read. destruct (node_at f p) as [[?| |]|]; naive_solver. Qed.

Lemma exists_read f p c : fs_read f p = Ok c -> exists_ f p = true.
Proof. unfold exists_. by intros ->%fs_read_ok. Qed.

Lemma fs_read_not_found f p : fs_read f p = Err NotFound <-> node_at f p = None.
Proof. unfold fs_read. destruct (node_at f p) as [[?| |]|]; naive_solver. Qed.

(** A write that succeeds changes exactly the file written. *)
Lemma fs_write_ok f p c f' :
  fs_write f p c = Ok f' -> p <> [] /\ f' = <[p := File c]> f.
Proof.
  unfold fs_write, parent. destruct p as [|x p]; [done|].
  destruct (node_at f (take _ _)) as [[?| |]|]; try done.
  destruct (node_at f (x :: p)) as [[?| |]|]; try done; intros [= <-]; done.
Qed.

Lemma fs_read_write f p c f' q :
  fs_write f p c = Ok f' -> fs_read f' q = if decide (q = p) then Ok c else fs_read f q.
Proof.
  intros [Hp ->]%fs_write_ok. unfold fs_read. destruct (decide (q = p)) as [->|Hne].
  - by rewrite node_at_insert.
  - by rewrite node_at_insert_ne.
Qed.

Lemma fs_write_snoc f d n c :
  is_dir f d = true -> (forall x, node_at f (d ++ [n]) = Some x -> exists y, x = File y) ->
  fs_write f (d ++ [n]) c = Ok (<[d ++ [n] := File c]> f).
Proof.
  unfold is_dir, fs_write. intros Hd Hn. rewrite parent_snoc.
  destruct (node_at f d) as [[?| |]|]; try done.
  destruct (node_at f (d ++ [n])) as [x|]; [|done]. by destruct (Hn x eq_refl) as [y ->].
Qed.

(** [create_dir_all] turns missing prefixes into directories and nothing else. *)
Lemma mkdirs_ok ps : forall f f',
  Forall (fun p => p <> []) ps -> mkdirs f ps = Ok f' ->
  (forall p, p ∈ ps -> node_at f' p = Some Dir) /\
  (forall q, node_at f' q = node_at f q \/ (node_at f q = None /\ q ∈ ps /\ node_at f' q = Some Dir)).
Proof.
  induction ps as [|p ps IH]; intros f f' Hne; cbn [mkdirs].
  { intros [= <-]. split; [by intros ? ?%elem_of_nil | auto]. }
  apply Forall_cons in Hne as [Hp Hps].
  destruct (node_at f p) as [[?| |]|] eqn:E; try done; intros H.
  - destruct (IH _ _ Hps H) as [H1 H2]. split.
    + intros q [->|Hq]%elem_of_cons; [|auto]. destruct (H2 p) as [->|(? & _)]; congruence.
    + intros q. destruct (H2 q) as [|(? & ? & ?)]; [auto | right; split; [done|]; split; [by right|done]].
  - destruct (IH _ _ Hps H) as [H1 H2].
    assert (Hpd : node_at f' p = Some Dir).
    { destruct (H2 p) as [->|(Hn & _)]; rewrite node_at_insert in *; done. }
    split.
    + intros q [->|Hq]%elem_of_cons; auto.
    + intros q. destruct (decide (q = p)) as [->|Hqp].
      * right. split; [done|]. split; [left|done].
      * rewrite <- (node_at_insert_ne f p q Dir) by done.
        destruct (H2 q) as [|(? & ? & ?)]; [auto | right; split; [done|]; split; [by right|done]].
Qed.

Lemma prefixes_ne p : Forall (fun q => q <> []) (prefixes p).
Proof.
  unfold prefixes. apply Forall_forall. intros q (n & -> & Hn)%list_elem_of_fmap.
  apply elem_of_seq in Hn. destruct p; [cbn in Hn; lia|]. by destruct n; [lia|].
Qed.

Lemma prefixes_self p : p <> [] -> p ∈ prefixes p.
Proof.
  intros Hp. unfold prefixes. apply list_elem_of_fmap. exists (length p).
  split; [by rewrite firstn_all|]. apply elem_of_seq. destruct p; [done|cbn; lia].
Qed.

Lemma create_dir_all_ok f p f' :
  create_dir_all f p = Ok f' ->
  is_dir f' p = true /\
  (forall q, fs_read f q <> Err NotFound -> node_at f' q = node_at f q) /\
  (forall q c, fs_read f' q = Ok c <-> fs_read f q = Ok c).
Proof.
  intros H. destruct (mkdirs_ok _ _ _ (prefixes_ne p) H) as [H1 H2]. split; [|split].
  - unfold is_dir. destruct (decide (p = [])) as [->|Hp]; [done|].
    by rewrite (H1 p (prefixes_self p Hp)).
  - intros q Hq. destruct (H2 q) as [|(Hn & _)]; [done|]. by apply fs_read_not_found in Hn.
  - intros q c. rewrite !fs_read_ok. destruct (H2 q) as [->|(Hn & _ & Hd)]; [done|].
    by rewrite Hn, Hd.
Qed.

(** It succeeds when no prefix is a file (or denied). *)
Lemma create_dir_all_total f p :
  (forall q, q ∈ prefixes p -> node_at f q = None \/ node_at f q = Some Dir) ->
  exists f', create_dir_all f p = Ok f'.
Proof.
  unfold create_dir_all. generalize (prefixes p) as ps, (prefixes_ne p) as Hne.
  intros ps Hne. revert f. induction Hne as [|q ps Hq _ IH]; intros f Hf; cbn [mkdirs]; [eauto|].
  destruct (Hf q ltac:(left)) as [->| ->].
  - apply IH. intros q' Hq'. destruct (decide (q = q')) as [->|Hne].
    + right. by apply node_at_insert.
    + rewrite node_at_insert_ne by done. apply Hf. by right.
  - apply IH. intros q' Hq'. apply Hf. by right.
Qed.

Lemma remove_file_ok f p f' :
  remove_file f p = Ok f' -> p <> [] /\ f' = delete p f /\ exists c, node_at f p = Some (File c).
Proof.
  unfold remove_file. destruct (node_at f p) as [[c| |]|] eqn:E; try done.
  intros [= <-]. split; [by intros ->|]. eauto.
Qed.

(** Directories survive writes, renames and [create_dir_all] itself, which
    therefore does nothing the second time. *)
Lemma fs_write_dir f p c f' q :
  fs_write f p c = Ok f' -> node_at f q = Some Dir -> node_at f' q = Some Dir.
Proof.
  unfold fs_write. destruct p as [|x p]; [done|]. cbn [parent].
  destruct (node_at f (take _ _)) as [[?| |]|]; try done.
  destruct (node_at f (x :: p)) as [[?| |]|] eqn:E; try done; intros [= <-] Hq;
    (rewrite node_at_insert_ne; [done | congruence | done]).
Qed.

Lemma rename_ok f p q f' :
  rename f p q = Ok f' ->
  exists c, node_at f p = Some (File c) /\ fs_write (delete p f) q c = Ok f'.
Proof.
  unfold rename. destruct (node_at f p) as [[c| |]|]; try done.
  destruct (fs_write (delete p f) q c) eqn:E; [|done]. intros [= <-]. eauto.
Qed.

Lemma rename_dir f p q f' d :
  rename f p q = Ok f' -> node_at f d = Some Dir -> node_at f' d = Some Dir.
Proof.
  intros (c & Hp & Hw)%rename_ok Hd. apply (fs_write_dir _ _ _ _ _ Hw).
  rewrite node_at_delete_ne; congruence.
Qed.

Lemma create_dir_all_prefixes f p f' q :
  create_dir_all f p = Ok f' -> q ∈ prefixes p -> node_at f' q = Some Dir.
Proof. intros H Hq. destruct (mkdirs_ok _ _ _ (prefixes_ne p) H) as [Hd _]. auto. Qed.

Lemma create_dir_all_id f p :
  (forall q, q ∈ prefixes p -> node_at f q = Some Dir) -> create_dir_all f p = Ok f.
Proof.
  unfold create_dir_all. induction (prefixes p) as [|q ps IH]; intros Hd; [done|]. cbn [mkdirs].
  rewrite (Hd q) by left. apply IH. intros q' Hq'. apply Hd. by right.
Qed.

(** Writing beside the target and renaming: the target has the contents, the
    temporary file is gone, nothing else changed. *)
Lemma write_rename f f1 f2 tmp t c q :
  tmp <> t -> fs_write f tmp c = Ok f1 -> rename f1 tmp t = Ok f2 ->
  fs_read f2 q = if decide (q = t) then Ok c
                 else if decide (q = tmp) then Err NotFound else fs_read f q.
Proof.
  intros Hne Hw (c' & Hc & Hw2)%rename_ok. pose proof (fs_write_ok _ _ _ _ Hw) as [Hp _].
  rewrite (fs_read_write _ _ _ _ q Hw2). destruct (decide (q = t)) as [->|Hqt].
  - f_equal. apply fs_read_ok in Hc. rewrite (fs_read_write _ _ _ _ tmp Hw) in Hc.
    rewrite decide_True in Hc by done. congruence.
  - destruct (decide (q = tmp)) as [->|Hqp].
    + apply fs_read_not_found. by apply node_at_delete.
    + transitivity (fs_read f1 q).
      * unfold fs_read. by rewrite node_at_delete_ne by done.
      * by rewrite (fs_read_write _ _ _ _ q Hw), decide_False.
Qed.
