(* ===== verification/VaultError.v ===== *)
(** [vault-core/src/error.rs]: the error type and its FFI error codes.

    The payload of a variant is the message; where the source formats values
    into it, the model keeps the format string. *)

From S2P Require Import Prelude Bytes.

Inductive VaultError : Type :=
  | Chunking (m : string)
  | Encryption (m : string)
  | Decryption (m : string)
  | Key (m : string)
  | Storage (m : string)
  | Network (m : string)
  | Config (m : string)
  | Io (m : string)
  | InvalidArgument (m : string)
  | NotSupported (m : string)
  | Internal (m : string).

#[export] Instance VaultError_eq_dec : EqDecision VaultError.
Proof. solve_decision. Defined.

Definition VaultResult (A : Type) : Type := result VaultError A.

Definition to_error_code (e : VaultError) : Z :=
  match e with
  | Chunking _ => 1
  | Encryption _ => 2
  | Decryption _ => 3
  | Key _ => 4
  | Storage _ => 5
  | Network _ => 6
  | Config _ => 7
  | Io _ => 8
  | InvalidArgument _ => 9
  | NotSupported _ => 10
  | Internal _ => 99
  end.

Definition from_error_code (code : Z) (message : string) : VaultError :=
  match code with
  | 1 => Chunking message
  | 2 => Encryption message
  | 3 => Decryption message
  | 4 => Key message
  | 5 => Storage message
  | 6 => Network message
  | 7 => Config message
  | 8 => Io message
  | 9 => InvalidArgument message
  | 10 => NotSupported message
  | _ => Internal message
  end.

(** [Display] *)
Definition to_string (e : VaultError) : string :=
  match e with
  | Chunking m => "Chunking error: " +:+ m
  | Encryption m => "Encryption error: " +:+ m
  | Decryption m => "Decryption error: " +:+ m
  | Key m => "Key error: " +:+ m
  | Storage m => "Storage error: " +:+ m
  | Network m => "Network error: " +:+ m
  | Config m => "Configuration error: " +:+ m
  | Io m => "I/O error: " +:+ m
  | InvalidArgument m => "Invalid argument: " +:+ m
  | NotSupported m => "Not supported: " +:+ m
  | Internal m => "Internal error: " +:+ m
  end.

(** The message a variant carries. *)
Definition error_message (e : VaultError) : string :=
  match e with
  | Chunking m | Encryption m | Decryption m | Key m | Storage m | Network m
  | Config m | Io m | InvalidArgument m | NotSupported m | Internal m => m
  end.

Lemma from_to_error_code e : from_error_code (to_error_code e) (error_message e) = e.
Proof. by destruct e. Qed.

Lemma to_error_code_nonzero e : to_error_code e <> 0.
Proof. by destruct e. Qed.

Lemma to_from_error_code code m :
  1 <= code <= 10 -> to_error_code (from_error_code code m) = code.
Proof.
  intros. assert (code ∈ [1;2;3;4;5;6;7;8;9;10]) as Hin.
  { rewrite !elem_of_cons. lia. }
  repeat (apply elem_of_cons in Hin as [->|Hin]; [done|]). by apply elem_of_nil in Hin.
Qed.
