(* ===== verification/Utf8.v ===== *)
(** UTF-8 as the Rust standard library reads it: [from_utf8],
    [from_utf8_lossy], the characters of a string, and [trim]. *)

From S2P Require Import Prelude Bytes.

Definition in_range (lo hi : Z) (c : byte) : bool := (lo <=? u8 c) && (u8 c <=? hi).
Definition is_cont (c : byte) : bool := in_range 128 191 c.

(** The first character of a byte string: [(true, n)] is a scalar value of [n]
    bytes, [(false, n)] a maximal invalid sequence of [n] bytes. *)
Definition utf8_first (s : bytes) : option (bool * nat) :=
  match s with
  | [] => None
  | c0 :: s =>
      let two lo hi :=
        match s with
        | c1 :: _ => if in_range lo hi c1 then (true, 2%nat) else (false, 1%nat)
        | [] => (false, 1%nat)
        end in
      let three lo hi :=
        match s with
        | c1 :: s =>
            if in_range lo hi c1 then
              match s with
              | c2 :: _ => if is_cont c2 then (true, 3%nat) else (false, 2%nat)
              | [] => (false, 2%nat)
              end
            else (false, 1%nat)
        | [] => (false, 1%nat)
        end in
      let four lo hi :=
        match s with
        | c1 :: s =>
            if in_range lo hi c1 then
              match s with
              | c2 :: s =>
                  if is_cont c2 then
                    match s with
                    | c3 :: _ => if is_cont c3 then (true, 4%nat) else (false, 3%nat)
                    | [] => (false, 3%nat)
                    end
                  else (false, 2%nat)
              | [] => (false, 2%nat)
              end
            else (false, 1%nat)
        | [] => (false, 1%nat)
        end in
      Some
        (let x := u8 c0 in
         if x <? 128 then (true, 1%nat)
         else if (194 <=? x) && (x <=? 223) then two 128 191
         else if x =? 224 then three 160 191
         else if x =? 237 then three 128 159
         else if (225 <=? x) && (x <=? 239) then three 128 191
         else if x =? 240 then four 144 191
         else if (241 <=? x) && (x <=? 243) then four 128 191
         else if x =? 244 then four 128 143
         else (false, 1%nat))
  end.

(** The pieces of a byte string, valid characters and invalid sequences. *)
Fixpoint utf8_pieces (fuel : nat) (s : bytes) : list (bool * bytes) :=
  match fuel with
  | O => []
  | S fuel =>
      match utf8_first s with
      | None => []
      | Some (ok, n) => (ok, take n s) :: utf8_pieces fuel (drop n s)
      end
  end.

(** [str::chars], each character as its bytes. *)
Definition chars (s : bytes) : list bytes := map snd (utf8_pieces (length s) s).

(** [String::from_utf8(v).is_ok()]. *)
Definition valid_utf8 (s : bytes) : bool := forallb fst (utf8_pieces (length s) s).

Definition from_utf8 (s : bytes) : option bytes := if valid_utf8 s then Some s else None.

(** U+FFFD. *)
Definition REPLACEMENT : bytes := [as_u8 239; as_u8 191; as_u8 189].

Definition from_utf8_lossy (s : bytes) : bytes :=
  concat (map (fun p : bool * bytes => if p.1 then p.2 else REPLACEMENT) (utf8_pieces (length s) s)).

(** The code point of a character given as its bytes. *)
Definition code_point (c : bytes) : Z :=
  match map u8 c with
  | [a] => a
  | [a; x] => (a - 192) * 64 + (x - 128)
  | [a; x; y] => ((a - 224) * 64 + (x - 128)) * 64 + (y - 128)
  | [a; x; y; z] => (((a - 240) * 64 + (x - 128)) * 64 + (y - 128)) * 64 + (z - 128)
  | _ => 65533
  end.

(** [char::is_whitespace]: the Unicode property White_Space. *)
Definition is_whitespace (cp : Z) : bool :=
  ((9 <=? cp) && (cp <=? 13)) || (cp =? 32) || (cp =? 133) || (cp =? 160)
  || (cp =? 5760) || ((8192 <=? cp) && (cp <=? 8202)) || (cp =? 8232) || (cp =? 8233)
  || (cp =? 8239) || (cp =? 8287) || (cp =? 12288).

Fixpoint drop_ws (cs : list bytes) : list bytes :=
  match cs with
  | [] => []
  | c :: cs' => if is_whitespace (code_point c) then drop_ws cs' else cs
  end.

(** [str::trim]. *)
Definition trim_chars (cs : list bytes) : list bytes := rev (drop_ws (rev (drop_ws cs))).
Definition trim (s : bytes) : bytes := concat (trim_chars (chars s)).

(** [str::split_whitespace]: the maximal runs of non-whitespace characters. *)
Fixpoint split_ws (cs : list bytes) (cur : list bytes) : list bytes :=
  match cs with
  | [] => match cur with [] => [] | _ => [concat cur] end
  | c :: cs =>
      if is_whitespace (code_point c)
      then match cur with [] => split_ws cs [] | _ => concat cur :: split_ws cs [] end
      else split_ws cs (cur ++ [c])
  end.
Definition split_whitespace (s : bytes) : list bytes := split_ws (chars s) [].

(** ** Lemmas *)

Lemma utf8_first_pos s ok n : utf8_first s = Some (ok, n) -> (1 <= n <= length s)%nat.
Proof.
  unfold utf8_first. destruct s as [|c0 s]; [done|]. intros E. injection E as E.
  repeat match type of E with
  | context [if ?x then _ else _] => destruct x
  | context [match ?x with [] => _ | _ => _ end] => destruct x
  end; injection E as <- <-; simpl; lia.
Qed.

Lemma utf8_pieces_concat fuel s :
  (length s <= fuel)%nat -> concat (map snd (utf8_pieces fuel s)) = s.
Proof.
  revert s; induction fuel as [|fuel IH]; intros s Hf; cbn [utf8_pieces].
  { by destruct s; [|cbn in Hf; lia]. }
  destruct (utf8_first s) as [[ok n]|] eqn:E.
  - apply utf8_first_pos in E as Hn. cbn [map concat snd].
    rewrite IH; [apply take_drop | rewrite length_drop; lia].
  - by destruct s.
Qed.

Lemma chars_concat s : concat (chars s) = s.
Proof. by apply utf8_pieces_concat. Qed.

Lemma from_utf8_lossy_valid s : valid_utf8 s = true -> from_utf8_lossy s = s.
Proof.
  unfold valid_utf8, from_utf8_lossy. intros Hv.
  rewrite <- (utf8_pieces_concat (length s) s) at 3 by done.
  f_equal. apply map_ext_in. intros [ok c] Hin.
  rewrite forallb_forall in Hv. specialize (Hv _ Hin). cbn in Hv. by subst.
Qed.

(** A valid prefix is read the same whatever follows it. *)
Lemma utf8_first_app s t n :
  utf8_first s = Some (true, n) -> utf8_first (s ++ t) = Some (true, n).
Proof.
  destruct s as [|c0 s]; [done|]. unfold utf8_first. cbn [app].
  destruct s as [|c1 [|c2 [|c3 s]]]; cbn [app]; intros E;
    repeat match type of E with
    | context [if ?x then _ else _] => destruct x; [|]
    end; first [done | by injection E as <-].
Qed.

(** An ASCII string is one character per byte. *)
Lemma utf8_first_ascii c s : u8 c < 128 -> utf8_first (c :: s) = Some (true, 1%nat).
Proof. intros H%Z.ltb_lt. unfold utf8_first. by rewrite H. Qed.

Lemma utf8_pieces_ascii fuel s :
  Forall (fun c => u8 c < 128) s -> (length s <= fuel)%nat ->
  utf8_pieces fuel s = map (fun c => (true, [c])) s.
Proof.
  intros Hs. revert fuel. induction Hs as [|c s Hc Hs IH]; intros fuel Hf.
  - by destruct fuel.
  - destruct fuel as [|fuel]; [cbn in Hf; lia|]. cbn [utf8_pieces].
    rewrite utf8_first_ascii by done. cbn [take drop map]. f_equal. apply IH. cbn in Hf. lia.
Qed.

Lemma chars_ascii s : Forall (fun c => u8 c < 128) s -> chars s = map (fun c => [c]) s.
Proof.
  intros Hs. unfold chars. rewrite utf8_pieces_ascii by done. by rewrite map_map.
Qed.

Lemma valid_utf8_ascii s : Forall (fun c => u8 c < 128) s -> valid_utf8 s = true.
Proof.
  intros Hs. unfold valid_utf8. rewrite utf8_pieces_ascii by done.
  apply forallb_forall. intros x (c & <- & _)%in_map_iff. done.
Qed.

Lemma drop_ws_plain cs :
  Forall (fun c => is_whitespace (code_point c) = false) cs -> drop_ws cs = cs.
Proof. destruct 1 as [|c cs Hc _]; cbn; [done|]. by rewrite Hc. Qed.

(** Trimming ASCII text without white space changes nothing. *)
Lemma trim_ascii s :
  Forall (fun c => u8 c < 128) s -> Forall (fun c => is_whitespace (u8 c) = false) s -> trim s = s.
Proof.
  intros Ha Hw. unfold trim. rewrite chars_ascii by done. unfold trim_chars.
  assert (Hp : Forall (fun c => is_whitespace (code_point c) = false) (map (fun c => [c]) s))
    by (by apply Forall_map).
  rewrite (drop_ws_plain _ Hp), drop_ws_plain, rev_involutive by (by apply Forall_rev).
  by rewrite <- chars_ascii, chars_concat.
Qed.

(** Fuel beyond the length changes nothing. *)
Lemma utf8_pieces_fuel n m s :
  (length s <= n)%nat -> (length s <= m)%nat -> utf8_pieces n s = utf8_pieces m s.
Proof.
  revert m s; induction n as [|n IH]; intros [|m] s Hn Hm; cbn [utf8_pieces]; try done;
    try (by destruct s; [|cbn in *; lia]).
  destruct (utf8_first s) as [[ok k]|] eqn:E; [|done]. apply utf8_first_pos in E.
  f_equal. apply IH; rewrite length_drop; lia.
Qed.

Lemma utf8_pieces_app s t n :
  valid_utf8 s = true -> (length (s ++ t) <= n)%nat ->
  utf8_pieces n (s ++ t) = utf8_pieces (length s) s ++ utf8_pieces (length t) t.
Proof.
  unfold valid_utf8. remember (length s) as k eqn:Hk.
  assert (Hle : (length s <= k)%nat) by lia. clear Hk.
  revert s n Hle; induction k as [|k IH]; intros s n Hle Hv Hn.
  { destruct s; [|cbn in Hle; lia]. apply utf8_pieces_fuel; cbn in *; lia. }
  cbn [utf8_pieces] in *. destruct (utf8_first s) as [[ok j]|] eqn:E.
  - cbn [forallb fst] in Hv. apply andb_true_iff in Hv as [-> Hv].
    pose proof (utf8_first_pos _ _ _ E) as Hj. rewrite length_app in Hn.
    destruct n as [|n]; [lia|]. cbn [utf8_pieces]. rewrite (utf8_first_app _ t _ E).
    rewrite take_app_le, drop_app_le by lia. cbn [app]. f_equal. apply IH; [|done|].
    + rewrite length_drop. lia.
    + rewrite length_app, length_drop. lia.
  - destruct s; [|done]. apply utf8_pieces_fuel; cbn in *; lia.
Qed.

Lemma chars_app s t : valid_utf8 s = true -> chars (s ++ t) = chars s ++ chars t.
Proof. intros Hs. unfold chars. by rewrite (utf8_pieces_app s t), map_app. Qed.

Lemma valid_utf8_app s t :
  valid_utf8 s = true -> valid_utf8 t = true -> valid_utf8 (s ++ t) = true.
Proof.
  intros Hs Ht. unfold valid_utf8. rewrite (utf8_pieces_app s t), forallb_app by done.
  by apply andb_true_iff.
Qed.

Definition ascii_space (c : byte) : bool := (u8 c <? 128) && is_whitespace (u8 c).
Definition ascii_visible (c : byte) : bool := (u8 c <? 128) && negb (is_whitespace (u8 c)).

(** Text between visible characters, with white space around it, trims to the
    text. *)
Lemma trim_framed l x m y r :
  forallb ascii_space l = true -> forallb ascii_space r = true ->
  ascii_visible x = true -> ascii_visible y = true -> valid_utf8 m = true ->
  trim (l ++ (x :: m ++ [y]) ++ r) = x :: m ++ [y].
Proof.
  intros Hl Hr Hx Hy Hm.
  assert (Ha : forall s, forallb ascii_space s = true -> Forall (fun c => u8 c < 128) s).
  { intros s Hs. apply Forall_forall. intros c Hc%list_elem_of_In. rewrite forallb_forall in Hs.
    specialize (Hs c Hc). unfold ascii_space in Hs. by zbool. }
  assert (Hd : forall s cs, forallb ascii_space s = true ->
            drop_ws (map (fun c => [c]) s ++ cs) = drop_ws cs).
  { intros s cs. induction s as [|c s IH]; [done|]. cbn [forallb]. intros [Hc Hs]%andb_true_iff.
    unfold ascii_space in Hc. apply andb_true_iff in Hc as [_ Hc]. cbn. rewrite Hc. auto. }
  unfold ascii_visible in Hx, Hy. zbool.
  change (x :: m ++ [y]) with ([x] ++ m ++ [y]). unfold trim, trim_chars.
  rewrite <- !app_assoc, !chars_app by (done || apply valid_utf8_ascii; auto).
  rewrite (chars_ascii l), (chars_ascii r), (chars_ascii [x]), (chars_ascii [y]) by auto.
  rewrite Hd by done. cbn [map app drop_ws code_point].
  change (code_point [x]) with (u8 x). replace (is_whitespace (u8 x)) with false by done.
  replace (rev ([x] :: chars m ++ [y] :: map (fun c => [c]) r))
    with (map (fun c => [c]) (rev r) ++ [y] :: rev (chars m) ++ [[x]])
    by (cbn [rev]; rewrite rev_app_distr; cbn [rev]; by rewrite map_rev, <- !app_assoc).
  rewrite Hd by (apply forallb_forall; intros c Hc%in_rev; rewrite forallb_forall in Hr; auto).
  cbn [drop_ws]. change (code_point [y]) with (u8 y).
  replace (is_whitespace (u8 y)) with false by done.
  cbn [rev]. rewrite rev_app_distr, rev_involutive. cbn [rev app concat].
  by rewrite concat_app, chars_concat.
Qed.

(** ** Words between white space *)

(** A non-empty run of visible ASCII characters. *)
Definition word_like (w : bytes) : Prop := w <> [] /\ forallb ascii_visible w = true.

Lemma word_like_ascii w : forallb ascii_visible w = true -> Forall (fun c => u8 c < 128) w.
Proof.
  intros Hw. apply Forall_forall. intros c Hc%list_elem_of_In. rewrite forallb_forall in Hw.
  specialize (Hw c Hc). unfold ascii_visible in Hw. by zbool.
Qed.

Lemma split_ws_visible w cs cur :
  forallb ascii_visible w = true ->
  split_ws (map (fun c => [c]) w ++ cs) cur = split_ws cs (cur ++ map (fun c => [c]) w).
Proof.
  revert cur; induction w as [|c w IH]; intros cur; [by rewrite app_nil_r|].
  cbn [forallb map app split_ws]. intros [Hc Hw]%andb_true_iff.
  change (code_point [c]) with (u8 c).
  assert (is_whitespace (u8 c) = false) as -> by (unfold ascii_visible in Hc; by zbool).
  rewrite IH by done. by rewrite <- app_assoc.
Qed.

Lemma concat_singletons (w : bytes) : concat (map (fun c => [c]) w) = w.
Proof. induction w as [|c w IH]; cbn; by rewrite ?IH. Qed.

Lemma split_whitespace_word w : word_like w -> split_whitespace w = [w].
Proof.
  intros [Hn Hw]. unfold split_whitespace. rewrite chars_ascii by (by apply word_like_ascii).
  rewrite <- (app_nil_r (map _ w)), split_ws_visible by done. cbn [app split_ws].
  rewrite <- (concat_singletons w) at 2. by destruct w.
Qed.

Lemma split_whitespace_cons w c s :
  word_like w -> ascii_space c = true ->
  split_whitespace (w ++ c :: s) = w :: split_whitespace s.
Proof.
  intros [Hn Hw] Hc. unfold split_whitespace. unfold ascii_space in Hc. zbool.
  rewrite chars_app by (by apply valid_utf8_ascii, word_like_ascii).
  change (c :: s) with ([c] ++ s). rewrite chars_app by (apply valid_utf8_ascii; by repeat constructor).
  rewrite (chars_ascii w), (chars_ascii [c]) by (first [by apply word_like_ascii | by repeat constructor]).
  rewrite split_ws_visible by done. cbn [map app split_ws].
  change (code_point [c]) with (u8 c). replace (is_whitespace (u8 c)) with true by done.
  rewrite concat_singletons. by destruct w.
Qed.

Lemma split_whitespace_skip c s :
  ascii_space c = true -> split_whitespace (c :: s) = split_whitespace s.
Proof.
  intros Hc. unfold split_whitespace, ascii_space in *. zbool.
  change (c :: s) with ([c] ++ s). rewrite chars_app by (apply valid_utf8_ascii; by repeat constructor).
  rewrite (chars_ascii [c]) by (by constructor). cbn [map app split_ws].
  change (code_point [c]) with (u8 c). by replace (is_whitespace (u8 c)) with true by done.
Qed.

Lemma split_whitespace_join_app sep ws c s :
  Forall word_like ws -> ascii_space sep = true -> ascii_space c = true ->
  split_whitespace (join [sep] ws ++ c :: s) = ws ++ split_whitespace s.
Proof.
  intros Hws Hsep Hc. induction Hws as [|w ws Hw Hws IH]; [by apply split_whitespace_skip|].
  destruct ws as [|w' ws]; cbn [join].
  - by apply split_whitespace_cons.
  - rewrite <- !app_assoc. cbn [app]. rewrite split_whitespace_cons by done.
    change (w :: split_whitespace (join [sep] (w' :: ws) ++ c :: s) = w :: (w' :: ws) ++ split_whitespace s).
    by rewrite IH.
Qed.

Lemma split_whitespace_join sep ws :
  Forall word_like ws -> ascii_space sep = true -> split_whitespace (join [sep] ws) = ws.
Proof.
  intros Hws Hsep. induction Hws as [|w ws Hw Hws IH]; [done|].
  destruct ws as [|w' ws]; cbn [join]; [by apply split_whitespace_word|].
  cbn [app]. rewrite split_whitespace_cons by done.
  change (w :: split_whitespace (join [sep] (w' :: ws)) = w :: w' :: ws). by rewrite IH.
Qed.

Lemma split_ws_likes s cur :
  Forall (fun c => u8 c < 128) s -> forallb ascii_visible cur = true ->
  Forall word_like (split_ws (map (fun c => [c]) s) (map (fun c => [c]) cur)).
Proof.
  intros Hs. revert cur; induction Hs as [|c s Hc Hs IH]; intros cur Hcur; cbn [map split_ws].
  - destruct cur as [|x cur]; [constructor|]. cbn [map]. constructor; [|constructor].
    rewrite <- (map_cons (fun c => [c])), concat_singletons. done.
  - change (code_point [c]) with (u8 c). destruct (is_whitespace (u8 c)) eqn:Hw.
    + destruct cur as [|x cur]; [by apply (IH [])|]. cbn [map]. constructor; [|by apply (IH [])].
      rewrite <- (map_cons (fun c => [c])), concat_singletons. done.
    + specialize (IH (cur ++ [c])). rewrite map_app in IH. apply IH.
      rewrite forallb_app, Hcur. cbn. unfold ascii_visible. rewrite Hw.
      apply Z.ltb_lt in Hc. by rewrite Hc.
Qed.

(** The words of an ASCII text. *)
Lemma split_whitespace_likes s :
  Forall (fun c => u8 c < 128) s -> Forall word_like (split_whitespace s).
Proof. intros Hs. unfold split_whitespace. rewrite chars_ascii by done. by apply (split_ws_likes s []). Qed.
