(* ===== verification/Json.v ===== *)
(** JSON, as the sources use [serde_json] and serde's derived implementations.

    Text is a parameter ([JsonOps]); a document is a tree, whose objects keep
    their fields as written.  The readers are what a derived implementation does
    with a tree: a structure is an object, read by field name (an unknown name is
    passed over, a known one may not be repeated), or an array, read by position;
    an enumeration without data is its name; a missing [Option] is [None]. *)

From S2P Require Import Prelude Bytes Utf8 Interfaces Toy.

(** Integers in the range of [u64] and [i64]; any other number is a float. *)
Inductive json : Type :=
  | JNull
  | JBool (v : bool)
  | JInt (z : Z)
  | JFloat (text : bytes)
  | JString (s : bytes)
  | JArray (l : list json)
  | JObject (fields : list (bytes * json)).

Class JsonOps : Type := {
  json_parse : bytes -> option json;
  json_to_string : json -> bytes;
  json_to_string_pretty : json -> bytes;
}.

Definition json_int (z : Z) : bool := (- 2 ^ 63 <=? z) && (z <? 2 ^ 64).

(** A tree that prints to what it was parsed from: integers, no floats. *)
Fixpoint json_plain (v : json) : bool :=
  match v with
  | JInt z => json_int z
  | JFloat _ => false
  | JArray l => forallb json_plain l
  | JObject fs => forallb (fun kv => json_plain kv.2) fs
  | _ => true
  end.

(** Both printers print the tree; the pretty form of an object is UTF-8 text in
    braces. *)
Class JsonLaws `{JsonOps} : Prop := {
  json_parse_print v : json_plain v = true -> json_parse (json_to_string v) = Some v;
  json_parse_pretty v : json_plain v = true -> json_parse (json_to_string_pretty v) = Some v;
  json_pretty_braces fs : exists m,
    json_to_string_pretty (JObject fs) = b "{" ++ m ++ b "}" /\ valid_utf8 m = true;
}.

(** ** [serde_json::Value]: of a repeated field the last stays *)

Definition json_get (k : bytes) (v : json) : option json :=
  match v with
  | JObject fields =>
      match find (fun kv => bool_decide (kv.1 = k)) (rev fields) with
      | Some kv => Some kv.2
      | None => None
      end
  | _ => None
  end.
Definition as_bool (v : json) : option bool := match v with JBool x => Some x | _ => None end.
Definition as_str (v : json) : option bytes := match v with JString s => Some s | _ => None end.
Definition is_object (v : json) : bool := match v with JObject _ => true | _ => false end.

(** ** Derived readers *)

(** An integer of a machine type: out of range is an error. *)
Definition as_int (lo hi : Z) (v : json) : option Z :=
  match v with JInt z => if (lo <=? z) && (z <? hi) then Some z else None | _ => None end.
Definition as_u32 : json -> option Z := as_int 0 (2 ^ 32).
Definition as_u64 : json -> option Z := as_int 0 (2 ^ 64).
Definition as_i64 : json -> option Z := as_int (- 2 ^ 63) (2 ^ 63).

Fixpoint all_read {A} (read : json -> option A) (l : list json) : option (list A) :=
  match l with
  | [] => Some []
  | v :: l => a ← read v; r ← all_read read l; Some (a :: r)
  end.

Definition as_list {A} (read : json -> option A) (v : json) : option (list A) :=
  match v with JArray l => all_read read l | _ => None end.

(** A variant without data is its name, or an object of its name and [null]. *)
Definition as_variant {A} (name : A -> bytes) (all : list A) (v : json) : option A :=
  s ← match v with JString s => Some s | JObject [(s, JNull)] => Some s | _ => None end;
  find (fun a => bool_decide (name a = s)) all.

(** The fields of a structure with these names, of which the first [need] have
    to be there in an array. *)
Definition as_struct (names : list bytes) (need : nat) (v : json) : option (list (bytes * json)) :=
  match v with
  | JObject fs => Some fs
  | JArray l =>
      if (need <=? length l)%nat && (length l <=? length names)%nat then Some (zip names l) else None
  | _ => None
  end.

(** The value of a field: [None] when it is repeated, [Some None] when absent. *)
Definition lookup_field (name : bytes) (fs : list (bytes * json)) : option (option json) :=
  match List.filter (fun kv => bool_decide (kv.1 = name)) fs with
  | [] => Some None
  | [(_, v)] => Some (Some v)
  | _ => None
  end.

Section Fields.
  Context {A : Type} (read : json -> option A).

Definition required (name : bytes) (fs : list (bytes * json)) : option A :=
  o ← lookup_field name fs; v ← o; read v.

Definition defaulted (dflt : A) (name : bytes) (fs : list (bytes * json)) : option A :=
  o ← lookup_field name fs; match o with None => Some dflt | Some v => read v end.

Definition as_option (v : json) : option (option A) :=
  match v with JNull => Some None | _ => Some <$> read v end.

Definition optional (name : bytes) (fs : list (bytes * json)) : option (option A) :=
  o ← lookup_field name fs; match o with None => Some None | Some v => as_option v end.
End Fields.

(** ** Derived printers *)

Definition of_option {A} (print : A -> json) (o : option A) : json :=
  match o with Some a => print a | None => JNull end.

(** [skip_serializing_if = "Option::is_none"] *)
Definition unless_none {A} (name : bytes) (print : A -> json) (o : option A) : list (bytes * json) :=
  match o with Some a => [(name, print a)] | None => [] end.

(** ** The codec of a type: print its tree, read the parsed tree *)

Definition json_codec {A} `{JsonOps} (print : json -> bytes) (tree : A -> json)
    (read : json -> option A) : Codec A := {|
  ser a := Some (print (tree a));
  de s := json_parse s ≫= read;
|}.

(** ** Lemmas *)

Lemma as_int_Some lo hi v z : as_int lo hi v = Some z <-> v = JInt z /\ lo <= z < hi.
Proof.
  unfold as_int. destruct v as [| |x| | | |]; try (split; [done|by intros [? _]]).
  destruct ((lo <=? x) && (x <? hi)) eqn:E; split; try done.
  - intros [= <-]. split; [done|lia].
  - by intros [[= ->] _].
  - intros [[= ->] ?]. lia.
Qed.

Lemma as_u32_back z : is_u32 z -> as_u32 (JInt z) = Some z.
Proof. intros ?. by apply as_int_Some. Qed.
Lemma as_u64_back z : is_u64 z -> as_u64 (JInt z) = Some z.
Proof. intros ?. by apply as_int_Some. Qed.
Lemma as_i64_back z : is_i64 z -> as_i64 (JInt z) = Some z.
Proof. intros ?. by apply as_int_Some. Qed.

(** Such an integer prints as one. *)
Lemma json_int_typed z : is_u32 z \/ is_u64 z \/ is_i64 z -> json_int z = true.
Proof. unfold json_int, is_u32, is_u64, is_i64. lia. Qed.

Lemma all_read_back {A} (print : A -> json) read l :
  (forall a, read (print a) = Some a) -> all_read read (map print l) = Some l.
Proof. intros Hr. induction l as [|a l IH]; [done|]. cbn. by rewrite Hr, IH. Qed.

Lemma json_codec_back {A} `{JsonLaws} (tree : A -> json) read a s :
  json_plain (tree a) = true -> read (tree a) = Some a ->
  (ser (Codec := json_codec json_to_string tree read) a = Some s ->
     de (Codec := json_codec json_to_string tree read) s = Some a) /\
  (ser (Codec := json_codec json_to_string_pretty tree read) a = Some s ->
     de (Codec := json_codec json_to_string_pretty tree read) s = Some a).
Proof.
  intros Hp Hr. split; cbn; intros [= <-].
  - by rewrite json_parse_print.
  - by rewrite json_parse_pretty.
Qed.

(** A type all of whose values have a plain tree that reads back. *)
Lemma json_codec_laws {A} `{JsonLaws} print (tree : A -> json) read :
  print = json_to_string \/ print = json_to_string_pretty ->
  (forall a, json_plain (tree a) = true) -> (forall a, read (tree a) = Some a) ->
  @CodecLaws A (json_codec print tree read).
Proof.
  intros Hpr Hp Hr. split; [|by eexists].
  intros a s E. destruct (json_codec_back tree read a s (Hp a) (Hr a)) as [H1 H2].
  destruct Hpr as [->| ->]; auto.
Qed.

(** ** A stand-in for the text: the code of the tree, in braces *)

Definition json_leaf : Type := unit + bool + (Z + bool * bytes).

Fixpoint json_tree (v : json) : gen_tree json_leaf :=
  match v with
  | JNull => GenLeaf (inl (inl tt))
  | JBool x => GenLeaf (inl (inr x))
  | JInt z => GenLeaf (inr (inl z))
  | JFloat t => GenLeaf (inr (inr (true, t)))
  | JString s => GenLeaf (inr (inr (false, s)))
  | JArray l => GenNode 0 (map json_tree l)
  | JObject fs => GenNode 1 (map (fun kv => GenNode 2 [GenLeaf (inr (inr (false, kv.1))); json_tree kv.2]) fs)
  end.

Fixpoint tree_json (t : gen_tree json_leaf) : json :=
  match t with
  | GenLeaf (inl (inl _)) => JNull
  | GenLeaf (inl (inr x)) => JBool x
  | GenLeaf (inr (inl z)) => JInt z
  | GenLeaf (inr (inr (true, t))) => JFloat t
  | GenLeaf (inr (inr (false, s))) => JString s
  | GenNode 0 l => JArray (map tree_json l)
  | GenNode _ l =>
      JObject (map (fun t => match t with
                             | GenNode _ [GenLeaf (inr (inr (_, k))); v] => (k, tree_json v)
                             | _ => ([], JNull)
                             end) l)
  end.

Fixpoint tree_json_tree (v : json) : tree_json (json_tree v) = v.
Proof.
  destruct v as [| | | | |l|fs]; try reflexivity; cbn; f_equal.
  - induction l as [|v l IH]; [reflexivity|]. cbn. by rewrite (tree_json_tree v), IH.
  - induction fs as [|[k v] fs IH]; [reflexivity|]. cbn. by rewrite (tree_json_tree v), IH.
Qed.

Definition toy_print (v : json) : bytes := b "{" ++ pos_bits (encode (json_tree v)) ++ b "}".
Definition toy_parse (s : bytes) : option json :=
  tree_json <$> decode (bits_pos (take (length s - 2) (drop 1 s))).

Lemma toy_parse_print v : toy_parse (toy_print v) = Some v.
Proof.
  unfold toy_parse, toy_print. set (p := pos_bits _).
  change (drop 1 (b "{" ++ p ++ b "}")) with (p ++ b "}").
  replace (length _ - 2)%nat with (length p) by (rewrite !length_app; cbn; lia).
  subst p. rewrite take_app_length, bits_pos_bits, decode_encode. cbn. by rewrite tree_json_tree.
Qed.

Lemma pos_bits_ascii p : Forall (fun c => u8 c < 128) (pos_bits p).
Proof. induction p; constructor; first [done | by vm_compute]. Qed.

Definition toy_json : JsonOps := {|
  json_parse := toy_parse;
  json_to_string := toy_print;
  json_to_string_pretty := toy_print;
|}.

Lemma toy_json_laws : @JsonLaws toy_json.
Proof.
  split; cbn [json_parse json_to_string json_to_string_pretty toy_json].
  - intros v _. apply toy_parse_print.
  - intros v _. apply toy_parse_print.
  - intros fs. eexists. split; [reflexivity|]. apply valid_utf8_ascii, pos_bits_ascii.
Qed.

(** ** Tactics *)

(** Look up the fields of a structure whose names are known. *)
Ltac json_field :=
  match goal with
  | |- context [lookup_field ?n ?fs] =>
      let E := fresh in
      first [ eassert (lookup_field n fs = Some (Some _)) as E by reflexivity
            | assert (lookup_field n fs = Some None) as E by reflexivity ];
      rewrite E; clear E; cbn [mbind option_bind]
  end.

(** Read back what was printed. *)
Ltac json_back :=
  unfold required, optional, defaulted; cbn [as_struct mbind option_bind]; repeat json_field;
  rewrite ?as_u32_back, ?as_u64_back, ?as_i64_back by done;
  cbn [as_option as_str as_bool as_list mbind option_bind fmap option_fmap option_map].

Ltac json_plain :=
  cbn; rewrite ?json_int_typed by auto; done.
