(* ===== verification/BoundedHttp.v ===== *)
(** [bounded-http/src/lib.rs]: reading a response body under a ceiling.

    A response is what an arbitrary, hostile peer makes it: a declared length
    (or none) and a sequence of body reads, each of which may fail. *)

From S2P Require Import Prelude Bytes Utf8.

Definition DEFAULT_MAX_OBJECT_BYTES : Z := 64 * 1024 * 1024.
Definition DEFAULT_MAX_DIAGNOSTIC_BYTES : Z := 64 * 1024.

Inductive BoundedReadError : Type :=
  | DeclaredTooLarge (declared max : Z)
  | StreamedTooLarge (max : Z)
  | Io (e : string).

Record Response : Type := {
  status : Z;
  content_length : option Z;
  body : list (result string bytes);
}.

(** The [while let] loop; [data] is what has been buffered.  The second
    component is what was left unread. *)
Fixpoint read_loop (max : Z) (data : bytes) (reads : list (result string bytes))
    : result BoundedReadError bytes * list (result string bytes) :=
  match reads with
  | [] => (Ok data, [])
  | Err e :: reads => (Err (Io e), reads)
  | Ok chunk :: reads =>
      if Zlen data + Zlen chunk >? max then (Err (StreamedTooLarge max), reads)
      else read_loop max (data ++ chunk) reads
  end.

Definition read_body_bounded (response : Response) (max : Z) : result BoundedReadError bytes :=
  match content_length response with
  | Some declared =>
      if declared >? max then Err (DeclaredTooLarge declared max)
      else (read_loop max [] (body response)).1
  | None => (read_loop max [] (body response)).1
  end.

Definition read_text_bounded (response : Response) (max : Z) : bytes :=
  match read_body_bounded response max with
  | Ok bs => from_utf8_lossy bs
  | Err (DeclaredTooLarge declared max) =>
      b "<error body suppressed: declared " ++ dec declared ++ b " bytes, over the "
        ++ dec max ++ b "-byte diagnostic ceiling>"
  | Err (StreamedTooLarge max) =>
      b "<error body truncated at the " ++ dec max ++ b "-byte diagnostic ceiling>"
  | Err (Io e) => b "<error body unreadable: " ++ b e ++ b ">"
  end.

(** ** Properties *)

(** The buffer never holds more than the ceiling; the loop stops at the first
    read that fails or would exceed it. *)
Lemma read_loop_spec max reads : forall data,
  Zlen data <= max ->
  match read_loop max data reads with
  | (Ok out, rest) => exists cs, reads = map Ok cs /\ rest = [] /\
      out = data ++ concat cs /\ Zlen out <= max
  | (Err (StreamedTooLarge m), rest) => m = max /\
      exists cs c, reads = map Ok cs ++ Ok c :: rest /\
        Zlen (data ++ concat cs) <= max < Zlen (data ++ concat cs) + Zlen c
  | (Err (Io e), rest) =>
      exists cs, reads = map Ok cs ++ Err e :: rest /\ Zlen (data ++ concat cs) <= max
  | (Err (DeclaredTooLarge _ _), _) => False
  end.
Proof.
  induction reads as [|[c|e] reads IH]; intros data Hd; cbn [read_loop].
  - exists []. cbn. by rewrite app_nil_r.
  - rewrite Z.gtb_ltb. destruct (Z.ltb_spec max (Zlen data + Zlen c)) as [Hlt|Hge].
    + split; [done|]. exists [], c. cbn. rewrite app_nil_r. by split.
    + specialize (IH (data ++ c) ltac:(rewrite Zlen_app; lia)).
      destruct (read_loop max (data ++ c) reads) as [[out|[d m|m|e]] rest].
      * destruct IH as (cs & -> & -> & -> & Ho). exists (c :: cs). cbn.
        by rewrite <- app_assoc in *.
      * done.
      * destruct IH as (-> & cs & c' & -> & Hb). split; [done|]. exists (c :: cs), c'.
        cbn. by rewrite <- app_assoc in Hb.
      * destruct IH as (cs & -> & Hb). exists (c :: cs). cbn. by rewrite <- app_assoc in Hb.
  - exists []. cbn. by rewrite app_nil_r.
Qed.

Lemma read_body_bounded_ok r max data :
  0 <= max -> read_body_bounded r max = Ok data -> Zlen data <= max.
Proof.
  intros Hmax. unfold read_body_bounded. pose proof (read_loop_spec max (body r) [] Hmax) as Hs.
  destruct (read_loop max [] (body r)) as [[out|e] rest]; cbn.
  - destruct Hs as (cs & _ & _ & _ & Ho). destruct (content_length r) as [d|].
    + by destruct (d >? max); [|intros [= <-]].
    + by intros [= <-].
  - destruct (content_length r) as [d|]; [by destruct (d >? max)|done].
Qed.

(** Whatever a peer declares and sends, [read_body_bounded] returns the whole
    body exactly when the declared length (if any) and the actual total are
    within the ceiling and no read fails.  Otherwise it stops at the declared
    length, or at the first read that fails or passes the ceiling, with at most
    [max] bytes buffered. *)
Theorem read_body_bounded_spec r max :
  0 <= max ->
  match read_body_bounded r max with
  | Ok data => exists cs, body r = map Ok cs /\ data = concat cs /\ Zlen data <= max /\
      (forall d, content_length r = Some d -> d <= max)
  | Err (DeclaredTooLarge d m) => content_length r = Some d /\ max < d /\ m = max
  | Err (StreamedTooLarge m) => m = max /\ exists cs c rest,
      body r = map Ok cs ++ Ok c :: rest /\
      Zlen (concat cs) <= max < Zlen (concat cs) + Zlen c
  | Err (Io e) => exists cs rest, body r = map Ok cs ++ Err e :: rest /\
      Zlen (concat cs) <= max
  end.
Proof.
  intros Hmax. unfold read_body_bounded. pose proof (read_loop_spec max (body r) [] Hmax) as Hs.
  destruct (read_loop max [] (body r)) as [res rest]. cbn [fst].
  assert (Hd : forall d, content_length r = Some d -> (d >? max) = false -> d <= max).
  { intros d _ Hg. rewrite Z.gtb_ltb in Hg. zbool. lia. }
  destruct (content_length r) as [d|].
  - destruct (d >? max) eqn:Hg.
    { rewrite Z.gtb_ltb in Hg. zbool. done. }
    destruct res as [out|[? ?|m|e]]; [|done| |].
    + destruct Hs as (cs & -> & _ & -> & Ho). exists cs. split; [done|]. split; [done|].
      split; [done|]. intros ? [= ->]. by apply Hd.
    + destruct Hs as (-> & cs & c & E & Hb). eauto 10.
    + destruct Hs as (cs & E & Hb). eauto.
  - destruct res as [out|[? ?|m|e]]; [|done| |].
    + destruct Hs as (cs & -> & _ & -> & Ho). exists cs. done.
    + destruct Hs as (-> & cs & c & E & Hb). eauto 10.
    + destruct Hs as (cs & E & Hb). eauto.
Qed.

Lemma read_body_bounded_spec_witness :
  read_body_bounded {| status := 200; content_length := None;
                       body := [Ok (b "abc"); Ok (b "defg")] |} 5 = Err (StreamedTooLarge 5) /\ 5 = 5.
Proof.
  pose proof (read_body_bounded_spec {| status := 200; content_length := None;
    body := [Ok (b "abc"); Ok (b "defg")] |} 5 ltac:(lia)) as H.
  split; [reflexivity|]. exact (proj1 H).
Defined.
