(* ===== verification/Storage.v ===== *)
(** [vault-core/src/storage]: the [StorageBackend] trait and its two
    implementations, [FileStorage] (a directory) and [S3Storage] (an
    S3-compatible provider, which is the adversary).

    A backend's operations thread the state of the world behind it: the file
    system for one, the provider for the other. *)

From S2P Require Import Prelude Bytes Utf8 Fs Interfaces Toy VaultError BoundedHttp.

Class StorageBackend (W S : Type) : Type := {
  upload : S -> bytes -> bytes -> W -> VaultResult unit * W;
  download : S -> bytes -> W -> VaultResult bytes * W;
  exists_path : S -> bytes -> W -> VaultResult bool * W;
  list_prefix : S -> bytes -> W -> VaultResult (list bytes) * W;
  delete_path : S -> bytes -> W -> VaultResult unit * W;
  backend_name : S -> bytes;
}.

Definition BACKSLASH : byte := Byte.x5c.

Module FileStorage.

Record t : Type := { root : path }.

Definition full_path (s : t) (p : bytes) : path := path_join (root s) p.

Definition new (root : path) (f : fs) : VaultResult t * fs :=
  match create_dir_all f root with
  | Ok f => (Ok {| root := root |}, f)
  | Err _ => (Err (Storage "Failed to create storage directory {:?}: {}"), f)
  end.

Definition upload_impl (s : t) (p data : bytes) (f : fs) : VaultResult unit * fs :=
  let fp := full_path s p in
  let made :=
    match parent fp with
    | Some dir => create_dir_all f dir
    | None => Ok f
    end in
  match made with
  | Err _ => (Err (Storage "Failed to create directory {:?}: {}"), f)
  | Ok f =>
      match fs_write f fp data with
      | Err _ => (Err (Storage "Failed to write {:?}: {}"), f)
      | Ok f => (Ok tt, f)
      end
  end.

Definition download_impl (s : t) (p : bytes) (f : fs) : VaultResult bytes * fs :=
  (map_err (fun e => if decide (e = NotFound) then Storage "File not found: {:?}"
                     else Storage "Failed to read {:?}: {}") (fs_read f (full_path s p)), f).

Definition exists_impl (s : t) (p : bytes) (f : fs) : VaultResult bool * fs :=
  (Ok (exists_ f (full_path s p)), f).

Definition list_impl (s : t) (prefix : bytes) (f : fs) : VaultResult (list bytes) * fs :=
  let search_path := full_path s prefix in
  let '(dir_path, file_prefix) :=
    if is_dir f search_path then (search_path, [])
    else (default (root s) (parent search_path),
          match file_name search_path with Some n => from_utf8_lossy n | None => [] end) in
  if negb (exists_ f dir_path) then (Ok [], f)
  else
    match read_dir f dir_path with
    | Err _ => (Err (Storage "Failed to read directory {:?}: {}"), f)
    | Ok entries =>
        (Ok (omap (fun n =>
               let name := from_utf8_lossy n in
               if bool_decide (file_prefix = []) || starts_with file_prefix name then
                 match strip_prefix (root s) (dir_path ++ [n]) with
                 | Some relative =>
                     Some (replace_byte BACKSLASH SLASH
                             (from_utf8_lossy (join [SLASH] relative)))
                 | None => None
                 end
               else None) entries), f)
    end.

Definition delete_impl (s : t) (p : bytes) (f : fs) : VaultResult unit * fs :=
  match remove_file f (full_path s p) with
  | Ok f => (Ok tt, f)
  | Err e =>
      (Err (if decide (e = NotFound) then Storage "File not found: {:?}"
            else Storage "Failed to delete {:?}: {}"), f)
  end.

#[global] Instance backend : StorageBackend fs t := {|
  upload := upload_impl;
  download := download_impl;
  exists_path := exists_impl;
  list_prefix := list_impl;
  delete_path := delete_impl;
  backend_name _ := b "file";
|}.
End FileStorage.

(** What the S3 backend uses of [reqwest], [url], [urlencoding], [chrono] and
    [regex_lite]: [http_send] is the provider, an arbitrary function of the
    request and of its own state. *)
Record Request : Type := {
  req_method : bytes;
  req_url : bytes;
  req_headers : list (bytes * bytes);
  req_body : bytes;
}.

Record Url : Type := { url_host : option bytes; url_path : bytes; url_query : option bytes }.

Class S3Env (W : Type) : Type := {
  http_send : Request -> W -> result string Response * W;
  utc_now : W -> bytes * bytes;       (* "%Y%m%d" and "%Y%m%dT%H%M%SZ" of one instant *)
  url_parse : bytes -> option Url;
  url_encode : bytes -> bytes;
  key_captures : bytes -> list bytes; (* group 1 of [<Key>([^<]+)</Key>] *)
}.

Module S3.

Record S3Config : Type := {
  endpoint : bytes;
  bucket : bytes;
  access_key_id : bytes;
  secret_access_key : bytes;
  region : bytes;
  prefix : option bytes;
  max_object_bytes : Z;
}.

Definition b2 (key_id app_key bucket region : bytes) : S3Config :=
  {| endpoint := b "https://s3." ++ region ++ b ".backblazeb2.com"; bucket := bucket;
     access_key_id := key_id; secret_access_key := app_key; region := region;
     prefix := None; max_object_bytes := DEFAULT_MAX_OBJECT_BYTES |}.

Definition wasabi (access_key secret_key bucket region : bytes) : S3Config :=
  {| endpoint := b "https://s3." ++ region ++ b ".wasabisys.com"; bucket := bucket;
     access_key_id := access_key; secret_access_key := secret_key; region := region;
     prefix := None; max_object_bytes := DEFAULT_MAX_OBJECT_BYTES |}.

Definition aws (access_key secret_key bucket region : bytes) : S3Config :=
  {| endpoint := b "https://s3." ++ region ++ b ".amazonaws.com"; bucket := bucket;
     access_key_id := access_key; secret_access_key := secret_key; region := region;
     prefix := None; max_object_bytes := DEFAULT_MAX_OBJECT_BYTES |}.

Definition minio (endpoint access_key secret_key bucket : bytes) : S3Config :=
  {| endpoint := endpoint; bucket := bucket;
     access_key_id := access_key; secret_access_key := secret_key; region := b "us-east-1";
     prefix := None; max_object_bytes := DEFAULT_MAX_OBJECT_BYTES |}.

Definition with_prefix (c : S3Config) (p : bytes) : S3Config :=
  {| endpoint := endpoint c; bucket := bucket c; access_key_id := access_key_id c;
     secret_access_key := secret_access_key c; region := region c;
     prefix := Some (trim_matches SLASH p); max_object_bytes := max_object_bytes c |}.

Definition with_max_object_bytes (c : S3Config) (m : Z) : S3Config :=
  {| endpoint := endpoint c; bucket := bucket c; access_key_id := access_key_id c;
     secret_access_key := secret_access_key c; region := region c;
     prefix := prefix c; max_object_bytes := m |}.

Definition object_key (c : S3Config) (p : bytes) : bytes :=
  match prefix c with
  | Some pre => pre ++ b "/" ++ p
  | None => p
  end.

Definition object_url (c : S3Config) (key : bytes) : bytes :=
  endpoint c ++ b "/" ++ bucket c ++ b "/" ++ key.

Section Ops.
  Context `{HashOps, HexOps} {W : Type} `{S3Env W}.

Definition SIGNED_HEADERS : bytes := b "host;x-amz-content-sha256;x-amz-date".

Definition canonical_request (method uri query host payload_hash amz_date : bytes) : bytes :=
  let canonical_headers := sort_strings
    [b "host:" ++ host; b "x-amz-content-sha256:" ++ payload_hash; b "x-amz-date:" ++ amz_date] in
  method ++ [NL] ++ uri ++ [NL] ++ query ++ [NL] ++ (join [NL] canonical_headers ++ [NL])
    ++ [NL] ++ SIGNED_HEADERS ++ [NL] ++ payload_hash.

(** The four-step derived key. *)
Definition signing_key (c : S3Config) (date_stamp : bytes) : bytes :=
  let k_date := hmac_sha256 (b "AWS4" ++ secret_access_key c) date_stamp in
  let k_region := hmac_sha256 k_date (region c) in
  let k_service := hmac_sha256 k_region (b "s3") in
  hmac_sha256 k_service (b "aws4_request").

Definition sign_request (c : S3Config) (method url payload_hash : bytes) (w : W)
    : VaultResult (list (bytes * bytes)) :=
  let '(date_stamp, amz_date) := utc_now w in
  let? parsed_url := ok_or (url_parse url) (Network "Invalid URL: {}") in
  let? host := ok_or (url_host parsed_url) (Network "URL has no host") in
  let request := canonical_request method (url_path parsed_url)
                   (default [] (url_query parsed_url)) host payload_hash amz_date in
  let credential_scope := date_stamp ++ b "/" ++ region c ++ b "/s3/aws4_request" in
  let string_to_sign := b "AWS4-HMAC-SHA256" ++ [NL] ++ amz_date ++ [NL] ++ credential_scope
                          ++ [NL] ++ lower_hex (sha256 request) in
  let signature := hex_encode (hmac_sha256 (signing_key c date_stamp) string_to_sign) in
  let authorization := b "AWS4-HMAC-SHA256 Credential=" ++ access_key_id c ++ b "/"
                         ++ credential_scope ++ b ", SignedHeaders=" ++ SIGNED_HEADERS
                         ++ b ", Signature=" ++ signature in
  Ok [(b "Authorization", authorization); (b "x-amz-date", amz_date);
      (b "x-amz-content-sha256", payload_hash); (b "Host", host)].

Definition payload_hash (data : bytes) : bytes := lower_hex (sha256 data).

Definition is_success (r : Response) : bool := (200 <=? status r) && (status r <=? 299).
Definition NOT_FOUND : Z := 404.

(** Sign a request and send it: the part the five operations share. *)
Definition signed_send (c : S3Config) (method url data : bytes) (what : string) (w : W)
    : VaultResult Response * W :=
  match sign_request c method url (payload_hash data) w with
  | Err e => (Err e, w)
  | Ok headers =>
      let '(resp, w) := http_send {| req_method := method; req_url := url;
                                     req_headers := headers; req_body := data |} w in
      (map_err (fun _ => Network what) resp, w)
  end.

Definition upload_impl (c : S3Config) (p data : bytes) (w : W) : VaultResult unit * W :=
  let key := object_key c p in
  let url := object_url c key in
  let '(resp, w) := signed_send c (b "PUT") url data "Upload request failed: {}" w in
  (let? response := resp in
   if negb (is_success response) then Err (Storage "Upload failed with status {}: {}")
   else Ok tt, w).

Definition download_impl (c : S3Config) (p : bytes) (w : W) : VaultResult bytes * W :=
  let key := object_key c p in
  let url := object_url c key in
  let '(resp, w) := signed_send c (b "GET") url [] "Download request failed: {}" w in
  (let? response := resp in
   if status response =? NOT_FOUND then Err (Storage "Object not found: s3://{}/{}")
   else if negb (is_success response) then Err (Storage "Download failed with status {}: {}")
   else
     map_err (fun e => match e with
                       | BoundedHttp.Io _ => Network "Failed to read response body: {}"
                       | _ => Storage "refusing s3://{}/{}: {}"
                       end)
       (read_body_bounded response (max_object_bytes c)), w).

Definition exists_impl (c : S3Config) (p : bytes) (w : W) : VaultResult bool * W :=
  let key := object_key c p in
  let url := object_url c key in
  let '(resp, w) := signed_send c (b "HEAD") url [] "HEAD request failed: {}" w in
  (let? response := resp in
   Ok (is_success response), w).

(** The listed key, with the configured prefix removed where it is there. *)
Definition relative_key (c : S3Config) (key : bytes) : bytes :=
  match prefix c with
  | Some p => default key (strip_prefix (p ++ b "/") key)
  | None => key
  end.

Definition list_impl (c : S3Config) (pre : bytes) (w : W) : VaultResult (list bytes) * W :=
  let full_prefix := object_key c pre in
  let url := endpoint c ++ b "/" ++ bucket c ++ b "?list-type=2&prefix=" ++ url_encode full_prefix in
  let '(resp, w) := signed_send c (b "GET") url [] "List request failed: {}" w in
  (let? response := resp in
   if negb (is_success response) then Err (Storage "List failed with status {}: {}")
   else
     let? bs := map_err (fun _ => Network "Failed to read list response: {}")
                  (read_body_bounded response (max_object_bytes c)) in
     Ok (map (relative_key c) (key_captures (from_utf8_lossy bs))), w).

Definition delete_impl (c : S3Config) (p : bytes) (w : W) : VaultResult unit * W :=
  let key := object_key c p in
  let url := object_url c key in
  let '(resp, w) := signed_send c (b "DELETE") url [] "Delete request failed: {}" w in
  (let? response := resp in
   if negb (is_success response) && negb (status response =? NOT_FOUND)
   then Err (Storage "Delete failed with status {}: {}")
   else Ok tt, w).

#[global] Instance backend : StorageBackend W S3Config := {|
  upload := upload_impl;
  download := download_impl;
  exists_path := exists_impl;
  list_prefix := list_impl;
  delete_path := delete_impl;
  backend_name _ := b "s3";
|}.
End Ops.
End S3.

(** ** Properties *)

(** The abstract view of a file store: what a download returns. *)
Definition file_get (s : FileStorage.t) (f : fs) (p : bytes) : option bytes :=
  match (download s p f).1 with Ok d => Some d | Err _ => None end.

Lemma file_get_Some s f p d :
  file_get s f p = Some d <-> fs_read f (FileStorage.full_path s p) = Ok d.
Proof.
  unfold file_get. cbn. destruct (fs_read f _); cbn; split; congruence.
Qed.

Lemma file_get_ext s f f' p q :
  FileStorage.full_path s p = q -> (forall d, fs_read f q = Ok d <-> fs_read f' q = Ok d) ->
  file_get s f p = file_get s f' p.
Proof.
  intros Hq H. destruct (file_get s f p) as [d|] eqn:E.
  - symmetry. apply file_get_Some. rewrite Hq. apply H. rewrite <- Hq. by apply file_get_Some.
  - destruct (file_get s f' p) as [d|] eqn:E'; [|done].
    apply file_get_Some in E'. rewrite Hq in E'. apply H in E'. rewrite <- Hq in E'.
    apply file_get_Some in E'. congruence.
Qed.

(** The directory backend implements a key-value store, keyed by the
    resolved path: an upload that succeeds is what later downloads of that path
    return and leaves every other path alone, a delete that succeeds removes
    exactly that path, and an operation that fails, a download, an existence
    check or a listing changes no stored value. *)
Theorem file_storage_refines_kv s f p d q :
  let same := bool_decide (FileStorage.full_path s q = FileStorage.full_path s p) in
  (let '(r, f') := upload s p d f in
   file_get s f' q = if is_ok r then (if same then Some d else file_get s f q)
                     else file_get s f q) /\
  (let '(r, f') := delete_path s p f in
   file_get s f' q = if is_ok r then (if same then None else file_get s f q)
                     else file_get s f q) /\
  (download s p f).2 = f /\ (exists_path s p f).2 = f /\ (list_prefix s p f).2 = f.
Proof.
  cbn zeta. split; [|split; [|split; [done|split; [done|]]]].
  - cbn. unfold FileStorage.upload_impl.
    set (made := match parent _ with Some dir => create_dir_all f dir | None => Ok f end).
    assert (Hm : forall f1, made = Ok f1 ->
      forall x c, fs_read f1 x = Ok c <-> fs_read f x = Ok c).
    { unfold made. destruct (parent _) as [dir|]; [|by intros f1 [= <-]].
      intros f1 Hf1. by apply create_dir_all_ok in Hf1 as (_ & _ & H). }
    destruct made as [f1|e]; [|done]. specialize (Hm f1 eq_refl).
    assert (Hget : file_get s f1 q = file_get s f q)
      by (by eapply file_get_ext).
    destruct (fs_write f1 _ d) as [f2|e] eqn:Ew; [|done]. cbn.
    case_bool_decide as Hq.
    + apply file_get_Some. rewrite (fs_read_write _ _ _ _ _ Ew), Hq. by rewrite decide_True.
    + rewrite <- Hget. eapply file_get_ext; [done|]. intros x.
      rewrite (fs_read_write _ _ _ _ _ Ew), decide_False by done. done.
  - cbn. unfold FileStorage.delete_impl.
    destruct (remove_file f _) as [f1|e] eqn:Er; [|done]. cbn.
    apply remove_file_ok in Er as (Hne & -> & _). case_bool_decide as Hq.
    + destruct (file_get s _ q) as [x|] eqn:E; [|done]. apply file_get_Some, fs_read_ok in E.
      rewrite Hq, node_at_delete in E by done. done.
    + eapply file_get_ext; [done|]. intros x. rewrite !fs_read_ok.
      by rewrite node_at_delete_ne.
  - cbn. unfold FileStorage.list_impl. destruct (is_dir f _); cbn;
      destruct (negb _); [done| |done|]; by destruct (read_dir f _).
Qed.

(** Deleting what is not there is an error here (the comment in the source says
    otherwise, and the S3 backend does otherwise). *)
Lemma file_delete_missing s f p :
  fs_read f (FileStorage.full_path s p) = Err NotFound ->
  delete_path s p f = (Err (Storage "File not found: {:?}"), f).
Proof.
  intros Hn%fs_read_not_found. cbn. unfold FileStorage.delete_impl, remove_file. by rewrite Hn.
Qed.

(** A listing is one directory level, subdirectories included: not the stored
    paths that start with the prefix. *)
Lemma file_list_one_level :
  let s := {| FileStorage.root := [b "r"] |} in
  let f := (upload s (b "chunks/a") (b "x") {[ [b "r"] := Dir ]}).2 in
  file_get s f (b "chunks/a") = Some (b "x") /\
  (list_prefix s [] f).1 = Ok [b "chunks"] /\
  (list_prefix s (b "ch") f).1 = Ok [b "chunks"].
Proof. by vm_compute. Qed.

Section S3Properties.
  Context `{HashOps, HexOps} {W : Type} `{S3Env W}.


(** Listing undoes [object_key]: the key under which a path was stored is
    reported as that path, with and without a configured prefix; a key outside
    the prefix is reported whole. *)
Theorem s3_key_roundtrip c p :
  S3.relative_key c (S3.object_key c p) = p /\
  (forall key pre, S3.prefix c = Some pre -> starts_with (pre ++ b "/") key = false ->
     S3.relative_key c key = key).
Proof.
  unfold S3.relative_key, S3.object_key. split.
  - destruct (S3.prefix c) as [pre|]; [|done].
    assert (E : strip_prefix (pre ++ b "/") (pre ++ b "/" ++ p) = Some p)
      by (apply strip_prefix_Some; by rewrite <- app_assoc).
    by rewrite E.
  - intros key pre -> Hs. unfold starts_with in Hs. by destruct (strip_prefix _ key).
Qed.
End S3Properties.

(** A provider that answers every request with a body of 4 bytes. *)
Definition toy_s3 : S3Env unit := {|
  http_send _ w := (Ok {| status := 200; content_length := None; body := [Ok (b "blob")] |}, w);
  utc_now _ := (b "20260101", b "20260101T000000Z");
  url_parse u := Some {| url_host := Some (b "h"); url_path := u; url_query := None |};
  url_encode u := u;
  key_captures _ := [];
|}.

Definition demo_s3 : S3.S3Config :=
  S3.with_max_object_bytes (S3.b2 (b "id") (b "key") (b "bucket") (b "us-west")) 8.


Lemma s3_key_roundtrip_witness :
  S3.relative_key (S3.with_prefix demo_s3 (b "/backups/")) (b "elsewhere") = b "elsewhere".
Proof.
  apply (proj2 (s3_key_roundtrip (S3.with_prefix demo_s3 (b "/backups/")) [])) with (pre := b "backups");
    reflexivity.
Defined.
