(* ===== verification/Pack.v ===== *)
(** [vault-core/src/pack.rs]: packing encrypted chunks into padded blobs.

    [PadLadder] is the geometric ladder of stored sizes, [pad_pack] the filler,
    [pack_chunks] the random assignment of chunks to packs with its index, and
    [slice_chunk] the reader's side.  [layout] is the abstract view of a batch:
    which chunks, in which order, each pack holds. *)

From S2P Require Import Prelude Bytes Interfaces Toy VaultError.

(** ** Definitions *)

Definition DEFAULT_TARGET_PACK_SIZE : Z := 4 * 1024 * 1024.

Definition PAD_LADDER_FLOOR : Z := 256 * 1024.

Record PadLadder : Type := {
  floor : Z;
  growth_num : Z;
  growth_den : Z;
}.

(** The fields are [usize]. *)
Definition ladder_wf (l : PadLadder) : Prop :=
  in_usize (floor l) /\ in_usize (growth_num l) /\ in_usize (growth_den l).

Definition PadLadder_DEFAULT : PadLadder :=
  {| floor := PAD_LADDER_FLOOR; growth_num := 5; growth_den := 4 |}.

(** The step after [step]; the product is taken in [u128], where it fits. *)
Definition next_step (l : PadLadder) (step : Z) : Z :=
  let next := Z.min (step * growth_num l / Z.max (growth_den l) 1) USIZE_MAX in
  if next >? step then next else step + 1.

Definition step_for (l : PadLadder) (len : Z) : run Z :=
  while (fun step => if step <? len then inl (next_step l step) else inr (Done step))
    (fuel_of len) (Z.max (floor l) 1).

Definition PACK_ID_HEX_LEN : Z := 64.

Record PackLocation : Type := {
  pack_id : bytes;
  offset : Z;
  loc_length : Z;
}.

Record BuiltPack : Type := {
  built_id : bytes;
  built_bytes : bytes;
}.

Definition size (p : BuiltPack) : Z := Zlen (built_bytes p).

Record PackSet : Type := {
  packs : list BuiltPack;
  index : list (bytes * PackLocation);
}.

(** [char::from_digit(d, 16)] for [d < 16]. *)
Definition from_digit16 (d : Z) : byte := if d <? 10 then as_u8 (48 + d) else as_u8 (87 + d).

Section Packing.
  Context {R : Type} `{RngOps R}.

Definition pad_pack (content : bytes) (ladder : PadLadder) (r : R) : run (bytes * R) :=
  let! step := step_for ladder (Zlen content) in
  if step >? Zlen content then
    let '(filler, r) := fill_bytes (Z.to_nat (step - Zlen content)) r in
    Done (content ++ filler, r)
  else Done (content, r).

Definition random_pack_id (r : R) : bytes * R :=
  let '(raw, r) := fill_bytes 32 r in
  (concat (map (fun c => [from_digit16 (Z.shiftr (u8 c) 4);
                          from_digit16 (Z.land (u8 c) 15)]) raw), r).

(** The locals of [pack_chunks]. *)
Record pack_state : Type := {
  st_packs : list BuiltPack;
  st_index : list (bytes * PackLocation);
  st_seen : gset bytes;
  st_cur_id : option bytes;
  st_cur_bytes : bytes;
  st_rng : R;
}.

Definition pack_init (r : R) : pack_state :=
  {| st_packs := []; st_index := []; st_seen := ∅;
     st_cur_id := None; st_cur_bytes := []; st_rng := r |}.

(** Seal the open pack: pad it, push it, take its id. *)
Definition seal_open (st : pack_state) : run pack_state :=
  let! (bytes, r) := pad_pack (st_cur_bytes st) PadLadder_DEFAULT (st_rng st) in
  match st_cur_id st with
  | None => Panic "open pack has an id"
  | Some id =>
      Done {| st_packs := st_packs st ++ [{| built_id := id; built_bytes := bytes |}];
              st_index := st_index st; st_seen := st_seen st;
              st_cur_id := None; st_cur_bytes := []; st_rng := r |}
  end.

(** [cur_id.get_or_insert_with(|| random_pack_id(rng)).clone()]. *)
Definition open_id (st : pack_state) : bytes * R :=
  match st_cur_id st with
  | Some id => (id, st_rng st)
  | None => random_pack_id (st_rng st)
  end.

(** One iteration of the loop over the shuffled chunks. *)
Definition pack_step (target : Z) (st : pack_state) (chunk : bytes * bytes) : run pack_state :=
  let '(name, blob) := chunk in
  if decide (name ∈ st_seen st) then Done st
  else
    let! st :=
      if negb (bool_decide (st_cur_bytes st = []))
         && (Zlen (st_cur_bytes st) + Zlen blob >? target)
      then seal_open st else Done st in
    let '(id, r) := open_id st in
    Done {| st_packs := st_packs st;
            st_index := st_index st ++
              [(name, {| pack_id := id; offset := Zlen (st_cur_bytes st);
                         loc_length := wrap32 (Zlen blob) |})];
            st_seen := {[name]} ∪ st_seen st;
            st_cur_id := Some id;
            st_cur_bytes := st_cur_bytes st ++ blob;
            st_rng := r |}.

Fixpoint pack_fold (target : Z) (st : pack_state) (chunks : list (bytes * bytes))
    : run pack_state :=
  match chunks with
  | [] => Done st
  | c :: chunks => let! st := pack_step target st c in pack_fold target st chunks
  end.

(** The final flush. *)
Definition pack_flush (st : pack_state) : run (PackSet * R) :=
  match st_cur_id st with
  | Some id =>
      if bool_decide (st_cur_bytes st = [])
      then Done ({| packs := st_packs st; index := st_index st |}, st_rng st)
      else
        let! (bytes, r) := pad_pack (st_cur_bytes st) PadLadder_DEFAULT (st_rng st) in
        Done ({| packs := st_packs st ++ [{| built_id := id; built_bytes := bytes |}];
                 index := st_index st |}, r)
  | None => Done ({| packs := st_packs st; index := st_index st |}, st_rng st)
  end.

Definition pack_chunks (chunks : list (bytes * bytes)) (target_pack_size : Z) (r : R)
    : run (PackSet * R) :=
  let target := Z.max target_pack_size 1 in
  let '(chunks, r) := shuffle chunks r in
  let! st := pack_fold target (pack_init r) chunks in
  pack_flush st.
End Packing.

Definition slice_chunk (pack_bytes : bytes) (loc : PackLocation) : VaultResult bytes :=
  let? start := ok_or (usize_try_from (offset loc))
                  (Decryption "pack offset {} overflows usize") in
  let? fin := ok_or (checked_add_usize start (loc_length loc))
                (Decryption "pack slice end overflows (offset {} + length {})") in
  if fin >? Zlen pack_bytes
  then Err (Decryption "pack slice [{start}..{end}] out of bounds for pack of {} bytes (pack_id {}): corrupt or mismatched manifest")
  else Ok (slice start fin pack_bytes).

(** ** The ladder *)

Section Ladder.
  Variable l : PadLadder.
  Hypothesis Hwf : ladder_wf l.

Definition ladder_start : Z := Z.max (floor l) 1.

(** The [k]-th step of the ladder. *)
Definition ladder_step (k : nat) : Z := Nat.iter k (next_step l) ladder_start.

Lemma next_step_gt s : s < next_step l s.
Proof. unfold next_step. rewrite Z.gtb_ltb. zcase; lia. Qed.

Lemma next_step_le_usize s : s < USIZE_MAX -> next_step l s <= USIZE_MAX.
Proof. intros. unfold next_step. rewrite Z.gtb_ltb. zcase; lia. Qed.

Lemma ladder_step_mono j k : (j < k)%nat -> ladder_step j < ladder_step k.
Proof.
  induction 1 as [|k _ IH]; [apply next_step_gt|].
  pose proof (next_step_gt (ladder_step k)). unfold ladder_step at 2. simpl.
  fold (ladder_step k). lia.
Qed.

Lemma ladder_start_pos : 1 <= ladder_start <= USIZE_MAX.
Proof. destruct Hwf as ([? ?] & _). unfold ladder_start, USIZE_MAX in *. lia. Qed.

(** [step_for] returns, and what it returns is the first step that holds [len]. *)
Lemma step_for_spec len :
  in_usize len ->
  exists k, step_for l len = Done (ladder_step k) /\
    len <= ladder_step k <= USIZE_MAX /\
    forall j, (j < k)%nat -> ladder_step j < len.
Proof.
  intros [Hlen0 Hlen]. pose proof ladder_start_pos as Hs.
  destruct (while_total
    (fun step => if step <? len then inl (next_step l step) else inr (Done step))
    (fun s => exists k, s = ladder_step k /\ 1 <= s <= USIZE_MAX /\
                        forall j, (j < k)%nat -> ladder_step j < len)
    (fun s => exists k, s = ladder_step k /\ len <= s <= USIZE_MAX /\
                        forall j, (j < k)%nat -> ladder_step j < len)
    (fun s => Z.max 0 (len - s)) (fuel_of len) ladder_start) as (s & E & k & -> & Hk & Hj).
  - intros s (k & -> & Hs' & Hj). zcase.
    + pose proof (next_step_gt (ladder_step k)). split; [|lia].
      exists (Datatypes.S k). split; [done|]. split.
      { pose proof (next_step_le_usize (ladder_step k)). lia. }
      intros j Hj'. destruct (decide (j = k)) as [->|]; [lia | apply Hj; lia].
    + exists (ladder_step k). split; [done|]. exists k. split; [done|]. split; [lia|done].
  - exists 0%nat. split; [done|]. split; [lia|]. lia.
  - rewrite fuel_of_spec by lia. lia.
  - exists k. split; [exact E|]. done.
Qed.

Lemma step_for_total len :
  in_usize len -> exists s, step_for l len = Done s /\ len <= s <= USIZE_MAX.
Proof. intros (k & E & Hk & _)%step_for_spec. eauto. Qed.
End Ladder.

Lemma default_ladder_wf : ladder_wf PadLadder_DEFAULT.
Proof. by vm_compute. Qed.

(** One step of the production ladder grows by at most a quarter. *)
Lemma default_next_step s :
  PAD_LADDER_FLOOR <= s < USIZE_MAX -> 4 * next_step PadLadder_DEFAULT s <= 5 * s.
Proof.
  unfold next_step, PAD_LADDER_FLOOR, PadLadder_DEFAULT; simpl. intros Hs.
  change (Z.max 4 1) with 4.
  pose proof (Z.mul_div_le (s * 5) 4 ltac:(lia)). rewrite Z.gtb_ltb. zcase; [lia|].
  assert (s + 1 <= s * 5 / 4) by (apply Z.div_le_lower_bound; lia). lia.
Qed.

Lemma default_ladder_ge k : PAD_LADDER_FLOOR <= ladder_step PadLadder_DEFAULT k.
Proof.
  induction k as [|k IH]; [done|].
  pose proof (ladder_step_mono PadLadder_DEFAULT k (Datatypes.S k) ltac:(lia)). lia.
Qed.

(** ** The layout of a batch *)

(** The blobs of some chunks, in order. *)
Definition content (cs : list (bytes * bytes)) : bytes := concat (map snd cs).

(** The index entries of chunks laid end to end from [off] in pack [id]. *)
Fixpoint locate (id : bytes) (off : Z) (cs : list (bytes * bytes))
    : list (bytes * PackLocation) :=
  match cs with
  | [] => []
  | (name, blob) :: cs =>
      (name, {| pack_id := id; offset := off; loc_length := wrap32 (Zlen blob) |})
        :: locate id (off + Zlen blob) cs
  end.

Record layout : Type := {
  lay_id : bytes;
  lay_chunks : list (bytes * bytes);
  lay_filler : bytes;
}.

Definition lay_pack (y : layout) : BuiltPack :=
  {| built_id := lay_id y; built_bytes := content (lay_chunks y) ++ lay_filler y |}.

Definition lay_index (y : layout) : list (bytes * PackLocation) :=
  locate (lay_id y) 0 (lay_chunks y).

(** A pack holds at most the target, or one chunk that is larger (and possibly
    zero-length blobs before it). *)
Definition fits (target : Z) (cs : list (bytes * bytes)) : Prop :=
  Zlen (content cs) <= target \/ exists e c, cs = e ++ [c] /\ content e = [].

Definition id_ok (id : bytes) : Prop :=
  Zlen id = PACK_ID_HEX_LEN /\ Forall (fun c => is_lower_hex c = true) id.

Record layout_ok (target : Z) (y : layout) : Prop := {
  lay_id_ok : id_ok (lay_id y);
  lay_nonempty : content (lay_chunks y) <> [];
  lay_fits : fits target (lay_chunks y);
  lay_padded :
    step_for PadLadder_DEFAULT (Zlen (content (lay_chunks y))) = Done (size (lay_pack y));
}.

(** [cs] is [all] with later repetitions of a name left out. *)
Record deduped (all cs : list (bytes * bytes)) : Prop := {
  dd_nodup : NoDup cs.*1;
  dd_names n : n ∈ cs.*1 <-> n ∈ all.*1;
  dd_incl : cs ⊆ all;
}.

Lemma content_app cs cs' : content (cs ++ cs') = content cs ++ content cs'.
Proof. unfold content. by rewrite map_app, concat_app. Qed.

Lemma locate_app id off cs cs' :
  locate id off (cs ++ cs') = locate id off cs ++ locate id (off + Zlen (content cs)) cs'.
Proof.
  revert off; induction cs as [|[n bl] cs IH]; intros off.
  - cbn. by rewrite Z.add_0_r.
  - cbn [locate app]. rewrite IH. do 3 f_equal.
    change (content ((n, bl) :: cs)) with (bl ++ content cs). rewrite Zlen_app. lia.
Qed.

Lemma locate_names id off cs : (locate id off cs).*1 = cs.*1.
Proof.
  revert off; induction cs as [|[n bl] cs IH]; intros off; [done|]. simpl. by rewrite IH.
Qed.

Lemma locate_inv id off cs n loc :
  (n, loc) ∈ locate id off cs ->
  exists cs1 bl cs2, cs = cs1 ++ (n, bl) :: cs2 /\
    loc = {| pack_id := id; offset := off + Zlen (content cs1);
             loc_length := wrap32 (Zlen bl) |}.
Proof.
  revert off; induction cs as [|[m bl] cs IH]; intros off; cbn [locate].
  { by intros ?%elem_of_nil. }
  intros [[= -> ->]|Hin]%elem_of_cons.
  - exists [], bl, cs. cbn. by rewrite Z.add_0_r.
  - destruct (IH _ Hin) as (cs1 & bl' & cs2 & -> & ->).
    exists ((m, bl) :: cs1), bl', cs2. split; [done|]. f_equal.
    change (content ((m, bl) :: cs1)) with (bl ++ content cs1). rewrite Zlen_app. lia.
Qed.

(** Each entry of a laid-out pack names the bytes of its chunk. *)
Lemma locate_slice id cs filler n loc :
  (n, loc) ∈ locate id 0 cs -> Forall (fun c => Zlen c.2 <= U32_MAX) cs ->
  Zlen (content cs ++ filler) <= USIZE_MAX ->
  exists bl, (n, bl) ∈ cs /\ pack_id loc = id /\
    slice_chunk (content cs ++ filler) loc = Ok bl.
Proof.
  intros (cs1 & bl & cs2 & -> & ->)%locate_inv Hbl Htot.
  exists bl. split; [apply elem_of_app; right; constructor|]. split; [done|].
  apply Forall_app in Hbl as [_ Hbl]. apply Forall_cons in Hbl as [Hbl _]. cbn in Hbl.
  assert (Hw : wrap32 (Zlen bl) = Zlen bl) by (apply wrap32_small; unfold in_u32; lia).
  assert (E : content (cs1 ++ (n, bl) :: cs2) ++ filler
              = content cs1 ++ bl ++ (content cs2 ++ filler)).
  { rewrite content_app. change (content ((n, bl) :: cs2)) with (bl ++ content cs2).
    by rewrite <- !app_assoc. }
  rewrite E in *. rewrite !Zlen_app in Htot.
  unfold slice_chunk, usize_try_from, checked_add_usize. cbn [offset loc_length].
  rewrite Hw, Z.add_0_l.
  replace (Zlen (content cs1) <=? USIZE_MAX) with true by (symmetry; apply Z.leb_le; lia).
  cbn [ok_or rbind].
  replace (Zlen (content cs1) + Zlen bl <=? USIZE_MAX) with true
    by (symmetry; apply Z.leb_le; lia).
  cbn [ok_or rbind]. rewrite Z.gtb_ltb, !Zlen_app.
  zcase; [lia|]. f_equal. by apply slice_app_mid.
Qed.

(** ** The invariant of the packing loop *)

Section Invariant.
  Context {R : Type} `{RngLaws R}.
  Variable target : Z.
  Hypothesis Htarget : 1 <= target.

Lemma from_digit16_lower d : 0 <= d < 16 -> is_lower_hex (from_digit16 d) = true.
Proof.
  intros. assert (d ∈ [0;1;2;3;4;5;6;7;8;9;10;11;12;13;14;15]) as Hin.
  { rewrite !elem_of_cons. lia. }
  repeat (apply elem_of_cons in Hin as [->|Hin]; [done|]). by apply elem_of_nil in Hin.
Qed.

Lemma random_pack_id_ok (r : R) : id_ok (random_pack_id r).1.
Proof.
  unfold random_pack_id. pose proof (fill_bytes_length 32 r) as Hl.
  destruct (fill_bytes 32 r) as [raw r']. simpl in *. split.
  - replace PACK_ID_HEX_LEN with (2 * Zlen raw) by (rewrite Hl; done).
    clear Hl. induction raw as [|c raw IH]; [done|]. simpl in *. lia.
  - clear Hl. induction raw as [|c raw IH]; [constructor|]. simpl.
    pose proof (u8_range c). repeat constructor; [| |exact IH]; apply from_digit16_lower.
    + rewrite Z.shiftr_div_pow2 by lia. change (2 ^ 4) with 16.
      split; [apply Z.div_pos; lia | apply Z.div_lt_upper_bound; lia].
    + change 15 with (Z.ones 4). rewrite Z.land_ones by lia. apply Z.mod_pos_bound. lia.
Qed.

Lemma pad_pack_spec (bs : bytes) (r : R) :
  in_usize (Zlen bs) ->
  exists filler r', pad_pack bs PadLadder_DEFAULT r = Done (bs ++ filler, r') /\
    step_for PadLadder_DEFAULT (Zlen bs) = Done (Zlen (bs ++ filler)).
Proof.
  intros Hbs. unfold pad_pack.
  destruct (step_for_total _ default_ladder_wf _ Hbs) as (s & -> & Hs). cbn [run_bind].
  rewrite Z.gtb_ltb. zcase.
  - pose proof (fill_bytes_length (Z.to_nat (s - Zlen bs)) r) as Hl.
    destruct (fill_bytes _ r) as [f r']. simpl in Hl. exists f, r'. split; [done|].
    f_equal. rewrite Zlen_app, Hl. lia.
  - exists [], r. rewrite app_nil_r. split; [done|]. f_equal. lia.
Qed.

Record pack_inv (st : pack_state (R:=R)) (closed : list layout)
    (opened : list (bytes * bytes)) : Prop := {
  pi_packs : st_packs st = map lay_pack closed;
  pi_closed : Forall (layout_ok target) closed;
  pi_index : st_index st = concat (map lay_index closed) ++
    match st_cur_id st with Some id => locate id 0 opened | None => [] end;
  pi_cur : match st_cur_id st with Some id => id_ok id | None => opened = [] end;
  pi_bytes : st_cur_bytes st = content opened;
  pi_fits : fits target opened;
}.

Definition inv_chunks (closed : list layout) (opened : list (bytes * bytes)) :=
  concat (map lay_chunks closed) ++ opened.

Lemma seal_open_inv st closed opened :
  pack_inv st closed opened -> st_cur_bytes st <> [] ->
  in_usize (Zlen (st_cur_bytes st)) ->
  exists st' y, seal_open st = Done st' /\ lay_chunks y = opened /\
    pack_inv st' (closed ++ [y]) [] /\ st_seen st' = st_seen st.
Proof.
  intros [Hp Hc Hi Hid Hb Hf] Hne Hu. unfold seal_open.
  rewrite Hb in *.
  destruct (pad_pack_spec _ (st_rng st) Hu) as (filler & r' & -> & Hpad). cbn [run_bind].
  destruct (st_cur_id st) as [id|] eqn:Eid.
  2:{ by subst opened. }
  set (y := {| lay_id := id; lay_chunks := opened; lay_filler := filler |}).
  eexists _, y. split; [done|]. split; [done|]. split; [|done]. split; simpl.
  - by rewrite Hp, map_app.
  - apply Forall_app. split; [done|]. constructor; [|constructor]. by split.
  - rewrite app_nil_r, Hi, map_app. cbn [map]. by rewrite concat_snoc.
  - done.
  - done.
  - left. simpl. lia.
Qed.

Lemma open_id_spec (st : pack_state (R:=R)) id r closed opened :
  pack_inv st closed opened -> open_id st = (id, r) ->
  id_ok id /\ st_index st = concat (map lay_index closed) ++ locate id 0 opened.
Proof.
  intros [_ _ Hi Hid _ _]. unfold open_id. destruct (st_cur_id st) as [id'|].
  - by intros [= <- _].
  - intros E. split.
    + change id with (id, r).1. rewrite <- E. apply random_pack_id_ok.
    + subst opened. by rewrite Hi.
Qed.

(** Appending a chunk to the open pack, when it fits. *)
Lemma append_inv st closed opened n bl seen :
  pack_inv st closed opened ->
  (content opened = [] \/ Zlen (content opened) + Zlen bl <= target) ->
  let '(id, r) := open_id st in
  pack_inv
    {| st_packs := st_packs st;
       st_index := st_index st ++
         [(n, {| pack_id := id; offset := Zlen (st_cur_bytes st);
                 loc_length := wrap32 (Zlen bl) |})];
       st_seen := seen; st_cur_id := Some id;
       st_cur_bytes := st_cur_bytes st ++ bl; st_rng := r |}
    closed (opened ++ [(n, bl)]).
Proof.
  intros Hinv Hfit. destruct (open_id st) as [id r] eqn:E.
  destruct (open_id_spec _ _ _ _ _ Hinv E) as [Hid Hix].
  destruct Hinv as [Hp Hc _ _ Hb Hf]. split; simpl.
  - done.
  - done.
  - rewrite Hix, <- app_assoc, locate_app, Hb. done.
  - done.
  - rewrite Hb, content_app. cbn. by rewrite app_nil_r.
  - destruct Hfit as [He | Hle].
    + right. eauto.
    + left. rewrite content_app, Zlen_app. cbn. rewrite app_nil_r. done.
Qed.

(** The invariant with the chunks consumed so far. *)
Record fold_inv (st : pack_state (R:=R)) (all : list (bytes * bytes))
    (closed : list layout) (opened : list (bytes * bytes)) : Prop := {
  fi_inv : pack_inv st closed opened;
  fi_dedup : deduped all (inv_chunks closed opened);
  fi_seen n : n ∈ st_seen st <-> n ∈ (inv_chunks closed opened).*1;
}.

Lemma inv_chunks_open closed opened n bl :
  inv_chunks closed (opened ++ [(n, bl)]) = inv_chunks closed opened ++ [(n, bl)].
Proof. unfold inv_chunks. by rewrite app_assoc. Qed.

Lemma inv_chunks_seal closed opened y :
  lay_chunks y = opened -> inv_chunks (closed ++ [y]) [] = inv_chunks closed opened.
Proof.
  intros <-. unfold inv_chunks. rewrite map_app. cbn [map].
  by rewrite concat_snoc, app_nil_r.
Qed.

Lemma deduped_skip all cs n bl :
  deduped all cs -> n ∈ cs.*1 -> deduped (all ++ [(n, bl)]) cs.
Proof.
  intros [Hnd Hn Hi] Hin. split; [done| |].
  - intros m. rewrite Hn, fmap_app, elem_of_app. cbn. rewrite list_elem_of_singleton.
    split; [auto|]. intros [?| ->]; [done|]. by apply Hn.
  - intros x Hx. apply elem_of_app. left. by apply Hi.
Qed.

Lemma deduped_take all cs n bl :
  deduped all cs -> n ∉ cs.*1 -> deduped (all ++ [(n, bl)]) (cs ++ [(n, bl)]).
Proof.
  intros [Hnd Hn Hi] Hin. split.
  - rewrite fmap_app. apply NoDup_app. split; [done|]. split.
    + intros x Hx. cbn. rewrite list_elem_of_singleton. by intros ->.
    + apply NoDup_singleton.
  - intros m. rewrite !fmap_app, !elem_of_app. by rewrite Hn.
  - intros x. rewrite !elem_of_app. intros [?|?]; [left; by apply Hi | by right].
Qed.

Lemma content_opened_le closed opened :
  Zlen (content opened) <= Zlen (content (inv_chunks closed opened)).
Proof. unfold inv_chunks. rewrite content_app, Zlen_app. lia. Qed.

Lemma pack_step_spec st all closed opened n bl :
  fold_inv st all closed opened ->
  Zlen (content (inv_chunks closed opened)) + Zlen bl <= USIZE_MAX ->
  exists st' closed' opened', pack_step target st (n, bl) = Done st' /\
    fold_inv st' (all ++ [(n, bl)]) closed' opened' /\
    Zlen (content (inv_chunks closed' opened'))
      <= Zlen (content (inv_chunks closed opened)) + Zlen bl.
Proof.
  intros [Hinv Hdd Hseen] Hsz. unfold pack_step.
  destruct (decide (n ∈ st_seen st)) as [Hin|Hin].
  { exists st, closed, opened. split; [done|]. split; [|lia]. split; [done| |done].
    apply deduped_skip; [done|]. by apply Hseen. }
  rewrite Hseen in Hin. pose proof (content_opened_le closed opened) as Hle.
  assert (Hpush : exists st1 closed1 opened1,
    (if negb (bool_decide (st_cur_bytes st = []))
        && (Zlen (st_cur_bytes st) + Zlen bl >? target)
     then seal_open st else Done st) = Done st1 /\ pack_inv st1 closed1 opened1 /\
    (content opened1 = [] \/ Zlen (content opened1) + Zlen bl <= target) /\
    inv_chunks closed1 opened1 = inv_chunks closed opened /\ st_seen st1 = st_seen st).
  { rewrite Z.gtb_ltb, (pi_bytes _ _ _ Hinv). case_bool_decide as Hb; cbn [negb andb].
    { exists st, closed, opened. auto. }
    zcase.
    - rewrite <- (pi_bytes _ _ _ Hinv) in Hb.
      destruct (seal_open_inv _ _ _ Hinv Hb) as (st1 & y & E1 & Ey & Hi1 & Es1).
      { rewrite (pi_bytes _ _ _ Hinv). split; lia. }
      exists st1, (closed ++ [y]), []. rewrite (inv_chunks_seal _ opened) by done.
      split; [done|]. auto.
    - exists st, closed, opened. auto. }
  destruct Hpush as (st1 & closed1 & opened1 & E1 & Hi1 & Hfit & Ec & Es).
  rewrite E1. cbn [run_bind].
  pose proof (append_inv _ _ _ n bl ({[n]} ∪ st_seen st1) Hi1 Hfit) as Ha.
  destruct (open_id st1) as [id r]. eexists _, closed1, (opened1 ++ [(n, bl)]).
  split; [done|]. rewrite inv_chunks_open, Ec. split.
  - split; [done| |]; rewrite inv_chunks_open, Ec.
    + by apply deduped_take.
    + intros m. cbn [st_seen]. rewrite Es, fmap_app, elem_of_app, elem_of_union, elem_of_singleton.
      cbn. rewrite list_elem_of_singleton, Hseen. tauto.
  - rewrite content_app, Zlen_app. cbn. rewrite app_nil_r. lia.
Qed.

Lemma pack_fold_spec chunks : forall st all closed opened,
  fold_inv st all closed opened ->
  Zlen (content (inv_chunks closed opened)) + Zlen (content chunks) <= USIZE_MAX ->
  exists st' closed' opened', pack_fold target st chunks = Done st' /\
    fold_inv st' (all ++ chunks) closed' opened' /\
    Zlen (content (inv_chunks closed' opened')) <= USIZE_MAX.
Proof.
  induction chunks as [|[n bl] chunks IH]; intros st all closed opened Hf Hsz.
  - exists st, closed, opened. rewrite app_nil_r. cbn in Hsz. split; [done|]. split; [done|lia].
  - change (content ((n, bl) :: chunks)) with (bl ++ content chunks) in Hsz.
    rewrite Zlen_app in Hsz.
    destruct (pack_step_spec st all closed opened n bl Hf ltac:(lia))
      as (st1 & c1 & o1 & E1 & Hf1 & Hle1).
    cbn [pack_fold]. rewrite E1. cbn [run_bind].
    destruct (IH st1 (all ++ [(n, bl)]) c1 o1 Hf1 ltac:(lia)) as (st2 & c2 & o2 & E2 & Hf2 & Hl2).
    exists st2, c2, o2. rewrite <- app_assoc in Hf2. auto.
Qed.

Lemma fold_inv_init (r : R) : fold_inv (pack_init r) [] [] [].
Proof.
  split; [split; cbn; auto; left; cbn; lia | | set_solver].
  split; [constructor | done | done].
Qed.
End Invariant.

(** What [pack_chunks] produces, for any generator: packs that follow a layout
    of the deduplicated batch, and the index of that layout.  [rest] holds the
    zero-length blobs of a last pack that stayed empty and was not flushed. *)
Record packed (target : Z) (chunks : list (bytes * bytes)) (ps : PackSet)
    (closed : list layout) (rest_id : bytes) (rest : list (bytes * bytes)) : Prop := {
  pk_packs : packs ps = map lay_pack closed;
  pk_layout : Forall (layout_ok target) closed;
  pk_index : index ps = concat (map lay_index closed) ++ locate rest_id 0 rest;
  pk_rest : content rest = [];
  pk_dedup : deduped chunks (concat (map lay_chunks closed) ++ rest);
  pk_size : Zlen (content (concat (map lay_chunks closed))) <= USIZE_MAX;
}.

Lemma content_perm_length cs cs' : cs ≡ₚ cs' -> length (content cs) = length (content cs').
Proof.
  unfold content. induction 1; simpl; rewrite ?length_app in *; lia.
Qed.

Lemma deduped_perm all all' cs : all ≡ₚ all' -> deduped all cs -> deduped all' cs.
Proof.
  intros Hp [Hnd Hn Hi]. split; [done| |].
  - intros n. by rewrite Hn, Hp.
  - intros x Hx. rewrite <- Hp. by apply Hi.
Qed.

Lemma pack_chunks_packed {R} `{RngLaws R} chunks target (r : R) :
  Zlen (content chunks) <= USIZE_MAX ->
  exists ps r' closed rest_id rest,
    pack_chunks chunks target r = Done (ps, r') /\
    packed (Z.max target 1) chunks ps closed rest_id rest.
Proof.
  intros Hsz. unfold pack_chunks. pose proof (shuffle_perm chunks r) as Hp.
  destruct (shuffle chunks r) as [sh r1]. simpl in Hp.
  set (tgt := Z.max target 1). assert (Htgt : 1 <= tgt) by (subst tgt; lia).
  destruct (pack_fold_spec tgt Htgt sh (pack_init r1) [] [] [] (fold_inv_init _ Htgt r1))
    as (st & closed & opened & -> & [Hi Hdd Hseen] & Htot).
  { cbn. rewrite (content_perm_length _ _ Hp). done. }
  cbn [run_bind app] in *. apply (deduped_perm _ chunks) in Hdd; [|by symmetry].
  unfold pack_flush. destruct (st_cur_id st) as [id|] eqn:Eid.
  - case_bool_decide as Hb.
    + eexists _, _, closed, id, opened. split; [done|].
      pose proof Hi as [Hpk Hc Hix _ Hby _]. rewrite Eid in Hix. split; cbn; try done.
      * by rewrite <- Hby.
      * unfold inv_chunks in Htot. rewrite content_app, Zlen_app in Htot. lia.
    + destruct (seal_open_inv tgt Htgt st closed opened Hi Hb) as (st1 & y & E1 & Ey & Hi1 & _).
      { rewrite (pi_bytes _ _ _ _ Hi). split; [lia|].
        etrans; [apply content_opened_le | exact Htot]. }
      unfold seal_open in E1. rewrite Eid in E1.
      destruct (pad_pack (st_cur_bytes st) PadLadder_DEFAULT (st_rng st)) as [[bs r2]| |]; [|done|done].
      cbn [run_bind] in E1 |- *. injection E1 as <-.
      destruct Hi1 as [Hpk Hc Hix _ _ _]. cbn in Hpk, Hix.
      eexists _, _, (closed ++ [y]), id, []. split; [done|]. split; cbn; try done.
      * pose proof (inv_chunks_seal closed opened y Ey) as Es. unfold inv_chunks in Es at 1.
        by rewrite Es.
      * pose proof (inv_chunks_seal closed opened y Ey) as Es. unfold inv_chunks in Es at 1.
        rewrite app_nil_r in Es. by rewrite Es.
  - eexists _, _, closed, [], []. split; [done|].
    pose proof Hi as [Hpk Hc Hix Hid Hby _]. rewrite Eid in Hix, Hid. subst opened.
    split; cbn; try done. unfold inv_chunks in Htot. by rewrite app_nil_r in Htot.
Qed.

(** ** Properties *)

Lemma packed_index_names target chunks ps closed rest_id rest :
  packed target chunks ps closed rest_id rest ->
  (index ps).*1 = (concat (map lay_chunks closed) ++ rest).*1.
Proof.
  intros Hpk. rewrite (pk_index _ _ _ _ _ _ Hpk), !fmap_app, locate_names. f_equal.
  clear Hpk. induction closed as [|y closed IH]; [done|]. cbn [map concat].
  rewrite !fmap_app, IH. unfold lay_index. by rewrite locate_names.
Qed.

(** With no zero-length blob every index entry lies in a flushed pack. *)
Lemma packed_rest_nil target chunks ps closed rest_id rest :
  packed target chunks ps closed rest_id rest ->
  Forall (fun c => 1 <= Zlen c.2) chunks -> rest = [].
Proof.
  intros [_ _ _ Hr [_ _ Hi] _] Hne. destruct rest as [|[n bl] rest]; [done|].
  rewrite Forall_forall in Hne.
  assert ((n, bl) ∈ chunks) as Hin
    by (apply Hi, elem_of_app; right; constructor).
  apply Hne in Hin. cbn in Hin, Hr. apply app_eq_nil in Hr as [-> _]. cbn in Hin. lia.
Qed.

Lemma layout_content_le y closed :
  y ∈ closed ->
  Zlen (content (lay_chunks y)) <= Zlen (content (concat (map lay_chunks closed))).
Proof.
  intros (l1 & l2 & ->)%list_elem_of_split. rewrite map_app, concat_app. cbn [map concat].
  rewrite !content_app, !Zlen_app. lia.
Qed.

(** A laid-out pack fits a [usize]. *)
Lemma layout_size_le target chunks ps closed rest_id rest y :
  packed target chunks ps closed rest_id rest -> y ∈ closed ->
  size (lay_pack y) <= USIZE_MAX.
Proof.
  intros [_ Hl _ _ _ Hsz] Hy. rewrite Forall_forall in Hl.
  pose proof (Hl y Hy) as [_ _ _ Hpad]. pose proof (layout_content_le y closed Hy).
  destruct (step_for_total _ default_ladder_wf (Zlen (content (lay_chunks y))))
    as (s & Es & Hs); [split; lia|].
  rewrite Hpad in Es. injection Es as ->. lia.
Qed.

(** For every ladder and every length, [PadLadder::step_for] returns; the
    result is a step of the ladder, holds the content, fits a [usize], and no
    smaller step of the ladder holds it. *)
Theorem step_for_smallest l len :
  ladder_wf l -> in_usize len ->
  exists s, step_for l len = Done s /\ len <= s <= USIZE_MAX /\
    (exists k, s = ladder_step l k) /\
    forall k, len <= ladder_step l k -> s <= ladder_step l k.
Proof.
  intros Hwf Hlen. destruct (step_for_spec l Hwf len Hlen) as (k & E & Hb & Hmin).
  exists (ladder_step l k). split; [done|]. split; [done|]. split; [by exists k|].
  intros j Hj. destruct (Nat.lt_total j k) as [Hlt|[->|Hgt]]; [|lia|].
  - apply Hmin in Hlt. lia.
  - pose proof (ladder_step_mono l _ _ Hgt). lia.
Qed.

Lemma step_for_smallest_witness :
  exists s, step_for {| floor := 0; growth_num := 1; growth_den := 0 |} 7 = Done s /\ 7 <= s.
Proof.
  destruct (step_for_smallest {| floor := 0; growth_num := 1; growth_den := 0 |} 7)
    as (s & E & Hs & _); [by vm_compute | by vm_compute | eauto].
  exists s. split; [exact E | apply Hs].
Defined.

(** The production ladder stores content of at most 256 KiB at exactly
    256 KiB, and longer content at less than 1.25 times its length. *)
Theorem step_for_default_bound len :
  in_usize len ->
  exists s, step_for PadLadder_DEFAULT len = Done s /\
    (len <= PAD_LADDER_FLOOR -> s = PAD_LADDER_FLOOR) /\
    (PAD_LADDER_FLOOR < len -> len <= s /\ 4 * s < 5 * len).
Proof.
  intros Hlen.
  destruct (step_for_spec _ default_ladder_wf len Hlen) as (k & E & Hb & Hmin).
  exists (ladder_step PadLadder_DEFAULT k). split; [done|]. split; intros Hf.
  - destruct k as [|k]; [done|]. pose proof (Hmin 0%nat ltac:(lia)) as H0.
    change (ladder_step PadLadder_DEFAULT 0) with PAD_LADDER_FLOOR in H0. lia.
  - split; [lia|]. destruct k as [|k].
    { change (ladder_step PadLadder_DEFAULT 0) with PAD_LADDER_FLOOR in Hb. lia. }
    pose proof (Hmin k ltac:(lia)) as Hk. pose proof (default_ladder_ge k).
    destruct Hlen. pose proof (default_next_step (ladder_step PadLadder_DEFAULT k)).
    unfold ladder_step at 1. simpl. fold (ladder_step PadLadder_DEFAULT k). lia.
Qed.

Lemma step_for_default_bound_witness :
  exists s, step_for PadLadder_DEFAULT 300000 = Done s /\ 4 * s < 5 * 300000.
Proof.
  destruct (step_for_default_bound 300000) as (s & E & _ & Hs); [by vm_compute|].
  exists s. split; [exact E|]. apply Hs. reflexivity.
Defined.

(** Every entry of the index reads back its blob, when no blob is empty. *)
Lemma pack_chunks_read_back {R} `{RngLaws R} chunks target (r : R) :
  Forall (fun c => 1 <= Zlen c.2 <= U32_MAX) chunks ->
  Zlen (content chunks) <= USIZE_MAX ->
  exists ps r', pack_chunks chunks target r = Done (ps, r') /\
    NoDup (index ps).*1 /\
    (forall n, n ∈ (index ps).*1 <-> n ∈ chunks.*1) /\
    forall n loc, (n, loc) ∈ index ps ->
      exists blob p, (n, blob) ∈ chunks /\ p ∈ packs ps /\
        built_id p = pack_id loc /\ slice_chunk (built_bytes p) loc = Ok blob.
Proof.
  intros Hne Hsz. destruct (pack_chunks_packed chunks target r Hsz)
    as (ps & r' & closed & rid & rest & E & Hpk).
  exists ps, r'. split; [done|]. rewrite (packed_index_names _ _ _ _ _ _ Hpk).
  assert (rest = []) as ->.
  { eapply packed_rest_nil; [done|]. eapply Forall_impl; [exact Hne|]. cbn. lia. }
  pose proof (fun y => layout_size_le _ _ _ _ _ _ y Hpk) as Hsize.
  destruct Hpk as [Hp Hl Hi _ [Hnd Hn Hincl] _]. split; [done|]. split; [done|].
  intros n loc. rewrite Hi, Hp. cbn. rewrite app_nil_r in *. intros Hin.
  apply list_elem_of_In, in_concat in Hin as (ix & Hix & Hin).
  apply in_map_iff in Hix as (y & <- & Hy%list_elem_of_In). apply list_elem_of_In in Hin.
  assert (Hsub : lay_chunks y ⊆ chunks).
  { intros x Hx. apply Hincl, list_elem_of_In, in_concat. exists (lay_chunks y).
    split; [by apply in_map, list_elem_of_In | by apply list_elem_of_In]. }
  destruct (locate_slice (lay_id y) (lay_chunks y) (lay_filler y) n loc)
    as (bl & Hbl & Hid & Hs); [done | | by apply (Hsize y) |].
  - apply Forall_forall. intros x Hx. rewrite Forall_forall in Hne.
    apply Hsub, Hne in Hx. lia.
  - exists bl, (lay_pack y). split; [by apply Hsub|]. split; [|done].
    apply list_elem_of_In, in_map, list_elem_of_In. done.
Qed.

Definition demo_chunks : list (bytes * bytes) :=
  [(b "n1", b "blob one"); (b "n2", b "second"); (b "n1", b "blob one")].

(** C4: Packing and reading back: for every batch of non-empty encrypted
    chunks and every generator, [pack_chunks] returns; its index names each
    input chunk exactly once, and each entry points into a produced pack out
    of which [slice_chunk] recovers the chunk's exact blob. *)
Theorem pack_chunks_roundtrip {R} `{RngLaws R} chunks target (r : R) :
  Forall (fun c => 1 <= Zlen c.2 <= U32_MAX) chunks ->
  Zlen (content chunks) <= USIZE_MAX ->
  exists ps r', pack_chunks chunks target r = Done (ps, r') /\
    NoDup (index ps).*1 /\
    (forall n, n ∈ (index ps).*1 <-> n ∈ chunks.*1) /\
    forall n loc, (n, loc) ∈ index ps ->
      exists blob p, (n, blob) ∈ chunks /\ p ∈ packs ps /\
        built_id p = pack_id loc /\ slice_chunk (built_bytes p) loc = Ok blob.
Proof. apply pack_chunks_read_back. Qed.

Lemma pack_chunks_roundtrip_witness :
  exists ps r', pack_chunks demo_chunks 10 0 = Done (ps, r') /\ NoDup (index ps).*1.
Proof.
  destruct (pack_chunks_roundtrip demo_chunks 10 0) as (ps & r' & E & Hnd & _).
  - repeat constructor; by vm_compute.
  - by vm_compute.
  - exists ps, r'. split; [exact E | exact Hnd].
Defined.

(** What the storage provider sees: every pack's size is the ladder step of
    the blobs it holds, which are non-empty; their total is at most the target,
    or else the pack holds one chunk larger than the target (and zero-length
    blobs).  Every pack id is 64 lowercase hex digits. *)
Theorem pack_chunks_sizes {R} `{RngLaws R} chunks target (r : R) :
  Zlen (content chunks) <= USIZE_MAX ->
  exists ps r', pack_chunks chunks target r = Done (ps, r') /\
    forall p, p ∈ packs ps ->
      id_ok (built_id p) /\
      exists cs filler, cs ⊆ chunks /\ built_bytes p = content cs ++ filler /\
        0 < Zlen (content cs) /\ fits (Z.max target 1) cs /\
        step_for PadLadder_DEFAULT (Zlen (content cs)) = Done (size p).
Proof.
  intros Hsz. destruct (pack_chunks_packed chunks target r Hsz)
    as (ps & r' & closed & rid & rest & E & [Hp Hl _ _ [_ _ Hincl] _]).
  exists ps, r'. split; [done|]. intros p. rewrite Hp.
  intros (y & -> & Hy)%list_elem_of_fmap. rewrite Forall_forall in Hl.
  destruct (Hl y Hy) as [Hid Hne Hfit Hpad]. split; [done|].
  exists (lay_chunks y), (lay_filler y). split; [|split; [done|]; split; [|done]].
  - intros x Hx. apply Hincl, elem_of_app. left.
    apply list_elem_of_In, in_concat. exists (lay_chunks y).
    split; [by apply in_map, list_elem_of_In | by apply list_elem_of_In].
  - destruct (content (lay_chunks y)); [done|]. cbn. lia.
Qed.

Lemma pack_chunks_sizes_witness :
  exists ps r', pack_chunks demo_chunks 10 0 = Done (ps, r') /\
    forall p, p ∈ packs ps -> id_ok (built_id p).
Proof.
  destruct (pack_chunks_sizes demo_chunks 10 0) as (ps & r' & E & Hp); [by vm_compute|].
  exists ps, r'. split; [exact E|]. intros p Hin. apply (Hp p Hin).
Defined.

(** [slice_chunk] returns the bytes [offset .. offset+length] exactly when
    they lie within the pack, and a decryption error otherwise; it never
    panics and never returns a short read. *)
Theorem slice_chunk_spec pack loc :
  in_u64 (offset loc) -> in_u32 (loc_length loc) -> in_usize (Zlen pack) ->
  (offset loc + loc_length loc <= Zlen pack /\
     exists bs, slice_chunk pack loc = Ok bs /\ Zlen bs = loc_length loc /\
       exists l r, pack = l ++ bs ++ r /\ Zlen l = offset loc) \/
  (Zlen pack < offset loc + loc_length loc /\
     exists m, slice_chunk pack loc = Err (Decryption m)).
Proof.
  intros Ho Hl Hp. unfold in_u64, in_u32, in_usize in *.
  unfold slice_chunk, usize_try_from, checked_add_usize.
  change U64_MAX with USIZE_MAX in Ho.
  replace (offset loc <=? USIZE_MAX) with true by (symmetry; apply Z.leb_le; lia).
  cbn [ok_or rbind]. zcase; cbn [ok_or rbind]; [|right; split; [lia|eauto]].
  rewrite Z.gtb_ltb. zcase; [right; split; [lia|eauto] | left; split; [lia|]].
  eexists. split; [done|].
  destruct loc as [id o ln]; cbn in *.
  set (l := take (Z.to_nat o) pack). set (r := drop (Z.to_nat o) pack).
  assert (Hl' : length l = Z.to_nat o) by (unfold l; rewrite length_take; lia).
  assert (Hr : (length r = length pack - Z.to_nat o)%nat) by (unfold r; apply length_drop).
  unfold slice. fold r. replace (o + ln - o) with ln by lia. split.
  - rewrite length_take. lia.
  - exists l, (drop (Z.to_nat ln) r). split; [|lia].
    rewrite take_drop. symmetry. apply take_drop.
Qed.

Lemma slice_chunk_spec_witness :
  exists bs, slice_chunk (b "abcdef") {| pack_id := []; offset := 2; loc_length := 3 |} = Ok bs
    /\ Zlen bs = 3.
Proof.
  destruct (slice_chunk_spec (b "abcdef") {| pack_id := []; offset := 2; loc_length := 3 |})
    as [(_ & bs & E & Hl & _)|(Hlt & _)]; try by vm_compute.
  exists bs. split; [exact E | exact Hl].
Defined.

(** A batch of one zero-length blob gives an index entry that names a pack
    which is not among the packs to upload: the promise that every name in
    [index] resolves into exactly one pack does not cover empty blobs. *)
Theorem pack_chunks_empty_blob_unresolved {R} `{RngLaws R} name target (r : R) :
  exists ps r' loc, pack_chunks [(name, [])] target r = Done (ps, r') /\
    index ps = [(name, loc)] /\ packs ps = [].
Proof.
  unfold pack_chunks. pose proof (shuffle_perm [(name, [] : bytes)] r) as Hp.
  destruct (shuffle [(name, [])] r) as [sh r1]. simpl in Hp.
  apply Permutation_singleton_r in Hp as ->.
  cbn [pack_fold pack_step run_bind pack_init st_seen st_cur_bytes].
  rewrite decide_False by set_solver. rewrite bool_decide_true by done.
  cbn [negb andb run_bind]. unfold open_id. cbn [st_cur_id st_rng].
  destruct (random_pack_id _) as [id r2]. cbn. eauto 10.
Qed.

Lemma pack_chunks_empty_blob_unresolved_witness :
  exists ps r' loc, pack_chunks [(b "n", [])] 4096 0 = Done (ps, r') /\
    index ps = [(b "n", loc)] /\ packs ps = [].
Proof. exact (pack_chunks_empty_blob_unresolved (b "n") 4096 0). Defined.
