(* ===== verification/Chunking.v ===== *)
(** [vault-core/src/chunking.rs]: content-defined chunking.

    [fastcdc_boundary] is the gear-hash boundary search; module [ChunkEngine]
    chunks a whole buffer, reassembles and verifies, and module [StreamChunker]
    does the same on data fed in pieces.  Both are related to one abstract
    specification, [cut]: the pieces obtained by cutting at successive
    boundaries. *)

From S2P Require Import Prelude Bytes Interfaces Toy VaultError.

(** ** The gear table and the boundary function *)

Definition GEAR_TABLE_SIZE : Z := 256.

Definition UNKEYED_GEAR_KEY : bytes := b "gitcellar/unkeyed-cdc/gear/v1!!!".

Definition derive_gear_table `{HashOps} (key : bytes) : list Z :=
  map (fun i => from_le_bytes (take 8
         (blake3_keyed key (b "gear-table" ++ to_le_bytes 4 (Z.of_nat i)))))
      (seq 0 (Z.to_nat GEAR_TABLE_SIZE)).

Definition top_bits_mask (n : Z) : Z :=
  if n =? 0 then 0
  else if n >=? 64 then U64_MAX
  else wrap64 (Z.shiftl U64_MAX (64 - n)).

(** [usize::clamp], which panics on an empty range. *)
Definition clamp (x lo hi : Z) : run Z :=
  if lo <=? hi then Done (if x <? lo then lo else if x >? hi then hi else x)
  else Panic "assertion failed: min <= max".

(** One of the two scanning loops, [n] bytes from index [i]: [inl] is an early
    return, [inr] the fingerprint and index when the loop ends. *)
Fixpoint scan (gear : list Z) (data : bytes) (mask : Z) (n : nat) (fp i : Z)
    : run (Z + Z * Z) :=
  match n with
  | O => Done (inr (fp, i))
  | S n =>
      match data !! Z.to_nat i with
      | None => Panic "index out of bounds"
      | Some c =>
          match gear !! Z.to_nat (u8 c) with
          | None => Panic "index out of bounds"
          | Some g =>
              let fp := wrap64 (wrap64 (Z.shiftl fp 1) + g) in
              if Z.land fp mask =? 0 then Done (inl i)
              else scan gear data mask n fp (i + 1)
          end
      end
  end.

Definition fastcdc_boundary (gear : list Z) (data : bytes) (min avg max : Z) : run Z :=
  let len := Zlen data in
  if len <=? min then Done len
  else
    let cap := Z.min max len in
    let! normal := clamp avg min cap in
    let bits := Z.log2 (Z.max avg 2) in
    let mask_s := top_bits_mask (bits + 1) in
    let mask_l := top_bits_mask (Z.max 0 (bits - 1)) in
    let! r := scan gear data mask_s (Z.to_nat (normal - min)) 0 min in
    match r with
    | inl i => Done i
    | inr (fp, i) =>
        let! r := scan gear data mask_l (Z.to_nat (cap - i)) fp i in
        match r with
        | inl i => Done i
        | inr _ => Done cap
        end
    end.

(** A chunk name as its 32 raw bytes. *)
Definition decode_name `{HexOps} (name : bytes) : option bytes :=
  if negb (Zlen name =? 64) then None
  else match hex_decode name with
       | Some bs => if Zlen bs =? 32 then Some bs else None
       | None => None
       end.

Module ChunkKeying.
Record t : Type := { gear : list Z; id_key : bytes }.

Definition derive `{HashOps} (boundary_key_repo id_key_repo : bytes) : t :=
  {| gear := derive_gear_table boundary_key_repo; id_key := id_key_repo |}.

Definition name `{HashOps, HexOps} (k : t) (data : bytes) : bytes :=
  lower_hex (hmac_sha256 (id_key k) data).

Definition verify_name `{HashOps, HexOps} (k : t) (name plaintext : bytes) : bool :=
  match decode_name name with
  | None => false
  | Some expected => bool_decide (hmac_sha256 (id_key k) plaintext = expected)
  end.
End ChunkKeying.

Record ChunkConfig : Type := { min_size : Z; avg_size : Z; max_size : Z }.

Module Config.
Definition default : ChunkConfig :=
  {| min_size := 512 * 1024; avg_size := 1024 * 1024; max_size := 2 * 1024 * 1024 |}.

Definition new (min_size avg_size max_size : Z) : run ChunkConfig :=
  if negb (min_size <=? avg_size) then Panic "min_size must be <= avg_size"
  else if negb (avg_size <=? max_size) then Panic "avg_size must be <= max_size"
  else Done {| min_size := min_size; avg_size := avg_size; max_size := max_size |}.

Definition e1_keyed : ChunkConfig :=
  {| min_size := 16 * 1024; avg_size := 64 * 1024; max_size := 256 * 1024 |}.
End Config.

Record Chunk : Type := { hash : bytes; data : bytes; size : Z; offset : Z }.

(** The chunk of [d] under the name [h] at offset [off]. *)
Definition mk_chunk (h d : bytes) (off : Z) : Chunk :=
  {| hash := h; data := d; size := Zlen d; offset := off |}.

Record ChunkMetadata : Type := { m_hash : bytes; m_size : Z; m_offset : Z }.

Definition metadata_from (c : Chunk) : ChunkMetadata :=
  {| m_hash := hash c; m_size := size c; m_offset := offset c |}.

Module ChunkEngine.
Record t : Type := {
  config : ChunkConfig;
  gear : list Z;
  keying : option ChunkKeying.t;
}.

Section Ops.
  Context `{HashOps, HexOps}.

Definition new (config : ChunkConfig) : t :=
  {| config := config; gear := derive_gear_table UNKEYED_GEAR_KEY; keying := None |}.

Definition with_defaults : t := new Config.default.

Definition new_keyed (config : ChunkConfig) (keying : ChunkKeying.t) : t :=
  {| config := config; gear := ChunkKeying.gear keying; keying := Some keying |}.

Definition compute_hash (data : bytes) : bytes := lower_hex (sha256 data).

Definition name (e : t) (data : bytes) : bytes :=
  match keying e with
  | Some k => ChunkKeying.name k data
  | None => compute_hash data
  end.

Definition find_chunk_boundary (e : t) (data : bytes) : run Z :=
  fastcdc_boundary (gear e) data
    (min_size (config e)) (avg_size (config e)) (max_size (config e)).

(** One iteration of the [while offset < data.len()] loop of [chunk_data]. *)
Definition chunk_step (e : t) (all : bytes) (st : Z * list Chunk)
    : (Z * list Chunk) + run (VaultResult (list Chunk)) :=
  let '(off, chunks) := st in
  if off <? Zlen all then
    match find_chunk_boundary e (drop (Z.to_nat off) all) with
    | Done chunk_size =>
        let d := slice off (Z.min (off + chunk_size) (Zlen all)) all in
        inl (off + chunk_size, chunks ++ [mk_chunk (name e d) d off])
    | Panic w => inr (Panic w)
    | OutOfFuel => inr OutOfFuel
    end
  else inr (Done (Ok chunks)).

(** Fuel for one chunk per byte. *)
Definition chunk_data (e : t) (all : bytes) : run (VaultResult (list Chunk)) :=
  if bool_decide (all = []) then Done (Ok [])
  else while (chunk_step e all) (fuel_of (Zlen all)) (0, []).

Definition reassemble_chunks (chunks : list Chunk) : VaultResult bytes :=
  match chunks with
  | [] => Ok []
  | _ => Ok (foldl (fun acc c => acc ++ data c) [] chunks)
  end.

(** The constant-time comparison of the unkeyed branch. *)
Definition ct_diff (expected actual : bytes) : Z :=
  foldl (fun acc p => Z.lor acc (Z.lxor (u8 p.1) (u8 p.2))) 0 (zip expected actual).

Definition verify_name (e : t) (name plaintext : bytes) : bool :=
  match keying e with
  | Some k => ChunkKeying.verify_name k name plaintext
  | None =>
      match decode_name name with
      | None => false
      | Some expected => ct_diff expected (sha256 plaintext) =? 0
      end
  end.

Definition verify_chunk (e : t) (c : Chunk) : bool := verify_name e (hash c) (data c).

Definition verify_all (e : t) (chunks : list Chunk) : bool := forallb (verify_chunk e) chunks.

Definition get_metadata (chunks : list Chunk) : list ChunkMetadata := map metadata_from chunks.
End Ops.
End ChunkEngine.

Module StreamChunker.
Record t : Type := {
  config : ChunkConfig;
  gear : list Z;
  keying : option ChunkKeying.t;
  buffer : bytes;
  offset : Z;
  chunks : list Chunk;
}.

Section Ops.
  Context `{HashOps, HexOps}.

Definition new (config : ChunkConfig) : t :=
  {| config := config; gear := derive_gear_table UNKEYED_GEAR_KEY; keying := None;
     buffer := []; offset := 0; chunks := [] |}.

Definition new_keyed (config : ChunkConfig) (keying : ChunkKeying.t) : t :=
  {| config := config; gear := ChunkKeying.gear keying; keying := Some keying;
     buffer := []; offset := 0; chunks := [] |}.

Definition name (s : t) (data : bytes) : bytes :=
  match keying s with
  | Some k => ChunkKeying.name k data
  | None => ChunkEngine.compute_hash data
  end.

Definition find_boundary (s : t) : run Z :=
  fastcdc_boundary (gear s) (buffer s)
    (min_size (config s)) (avg_size (config s)) (max_size (config s)).

(** [self.buffer] replaced, and a chunk of [d] pushed at the current offset. *)
Definition push (s : t) (d rest : bytes) (offset' : Z) : t :=
  {| config := config s; gear := gear s; keying := keying s; buffer := rest;
     offset := offset';
     chunks := chunks s ++ [mk_chunk (name s d) d (offset s)] |}.

(** One iteration of the [loop] of [emit_chunks]. *)
Definition emit_step (s : t) : t + run t :=
  if Zlen (buffer s) <=? min_size (config s) then inr (Done s)
  else
    match find_boundary s with
    | Done boundary =>
        if (boundary >=? Zlen (buffer s)) && (Zlen (buffer s) <? max_size (config s))
        then inr (Done s)
        else
          let chunk_size := Z.to_nat (Z.min boundary (Zlen (buffer s))) in
          let d := take chunk_size (buffer s) in
          inl (push s d (drop chunk_size (buffer s)) (wrap64 (offset s + Zlen d)))
    | Panic w => inr (Panic w)
    | OutOfFuel => inr OutOfFuel
    end.

Definition emit_chunks (s : t) : run t := while emit_step (fuel_of (Zlen (buffer s))) s.

Definition feed (s : t) (d : bytes) : run t :=
  emit_chunks {| config := config s; gear := gear s; keying := keying s;
                 buffer := buffer s ++ d; offset := offset s; chunks := chunks s |}.

Definition finalize (s : t) : list Chunk :=
  if bool_decide (buffer s = []) then chunks s
  else chunks (push s (buffer s) [] (offset s)).

(** Feeding a sequence of buffers, one after the other. *)
Fixpoint feed_all (s : t) (ds : list bytes) : run t :=
  match ds with
  | [] => Done s
  | d :: ds => let! s := feed s d in feed_all s ds
  end.
End Ops.
End StreamChunker.

(** ** The boundary function *)

Lemma derive_gear_table_length `{HashOps} key : length (derive_gear_table key) = 256%nat.
Proof. unfold derive_gear_table. by rewrite length_map, length_seq. Qed.

Section Boundary.
  Variable gear : list Z.
  Hypothesis Hgear : length gear = 256%nat.

Lemma gear_lookup c : exists g, gear !! Z.to_nat (u8 c) = Some g.
Proof. apply lookup_lt_is_Some. pose proof (u8_range c). lia. Qed.

(** The scan stays in range, and its result depends only on the bytes scanned. *)
Lemma scan_spec data mask n : forall fp i,
  0 <= i -> i + Z.of_nat n <= Zlen data ->
  exists r, scan gear data mask n fp i = Done r /\
    match r with
    | inl j => i <= j < i + Z.of_nat n
    | inr (_, j) => j = i + Z.of_nat n
    end.
Proof.
  induction n as [|n IH]; intros fp i Hi Hn; cbn [scan].
  { eexists. split; [done|]. cbn. lia. }
  destruct (lookup_lt_is_Some_2 data (Z.to_nat i)) as [c ->]; [lia|].
  destruct (gear_lookup c) as [g ->]. zcase.
  - eexists. split; [done|]. cbn. lia.
  - edestruct (IH (wrap64 (wrap64 (Z.shiftl fp 1) + g)) (i + 1)) as (r & -> & Hr); [lia|lia|].
    eexists. split; [done|]. destruct r as [j|[f j]]; lia.
Qed.

Lemma scan_app data ext mask n : forall fp i,
  0 <= i -> i + Z.of_nat n <= Zlen data ->
  scan gear (data ++ ext) mask n fp i = scan gear data mask n fp i.
Proof.
  induction n as [|n IH]; intros fp i Hi Hn; cbn [scan]; [done|].
  rewrite lookup_app_l by lia.
  destruct (data !! Z.to_nat i) as [c|]; [|done]. destruct (gear !! _) as [g|]; [|done].
  zcase; [done|]. apply IH; lia.
Qed.

Lemma scan_split data mask n m : forall fp i,
  scan gear data mask (n + m) fp i =
  let! r := scan gear data mask n fp i in
  match r with
  | inl j => Done (inl j)
  | inr (fp, i) => scan gear data mask m fp i
  end.
Proof.
  induction n as [|n IH]; intros fp i; cbn [Nat.add scan run_bind]; [done|].
  destruct (data !! Z.to_nat i) as [c|]; [|done]. destruct (gear !! _) as [g|]; [|done].
  zcase; [done|]. apply IH.
Qed.

Variables min avg max : Z.
Hypothesis Hmin : 0 <= min.
Hypothesis Hmax : min <= max.

Lemma clamp_spec x lo hi :
  lo <= hi -> exists y, clamp x lo hi = Done y /\ lo <= y <= hi /\ y = Z.max lo (Z.min x hi).
Proof.
  intros Hle%Z.leb_le. unfold clamp. rewrite Hle, Z.gtb_ltb. zbool.
  eexists. split; [done|]. repeat zcase; lia.
Qed.

(** Within range the boundary function returns, and where it cuts. *)
Lemma boundary_spec data :
  min < Zlen data ->
  exists k, fastcdc_boundary gear data min avg max = Done k /\
    min <= k <= Z.min max (Zlen data).
Proof.
  intros Hlen. unfold fastcdc_boundary. zcase; [lia|].
  destruct (clamp_spec avg min (Z.min max (Zlen data)) ltac:(lia)) as (nm & -> & Hnm & _).
  cbn [run_bind].
  destruct (scan_spec data (top_bits_mask (Z.log2 (Z.max avg 2) + 1))
              (Z.to_nat (nm - min)) 0 min) as (r & -> & Hr); [lia|lia|]. cbn [run_bind].
  destruct r as [j|[fp j]]; [exists j; split; [done|lia]|].
  destruct (scan_spec data (top_bits_mask (Z.max 0 (Z.log2 (Z.max avg 2) - 1)))
              (Z.to_nat (Z.min max (Zlen data) - j)) fp j) as (r' & -> & Hr'); [lia|lia|].
  cbn [run_bind]. destruct r' as [j'|[fp' j']].
  - exists j'. split; [done|lia].
  - eexists. split; [done|lia].
Qed.

Lemma boundary_short data : Zlen data <= min ->
  fastcdc_boundary gear data min avg max = Done (Zlen data).
Proof. intros. unfold fastcdc_boundary. zcase; [done|lia]. Qed.

(** A cut that did not depend on the end of the data stays where it is when the
    data is extended: the property that makes streaming possible. *)
Lemma boundary_stable data ext k :
  min < Zlen data ->
  fastcdc_boundary gear data min avg max = Done k ->
  k < Zlen data \/ max <= Zlen data ->
  fastcdc_boundary gear (data ++ ext) min avg max = Done k.
Proof.
  intros Hlen. unfold fastcdc_boundary. rewrite Zlen_app.
  zcase; [lia|]. intros E Hk. zcase; [lia|].
  destruct (Z.le_gt_cases max (Zlen data)) as [Hfull|Hpart].
  { rewrite (Z.min_l max (Zlen data)) in E by lia. rewrite (Z.min_l max) by lia.
    destruct (clamp_spec avg min max ltac:(lia)) as (nm & En & Hnm & _).
    rewrite En in *. cbn [run_bind] in *.
    rewrite scan_app by lia.
    destruct (scan_spec data (top_bits_mask (Z.log2 (Z.max avg 2) + 1))
              (Z.to_nat (nm - min)) 0 min) as (r & E1 & Hr); [lia|lia|].
    rewrite E1 in *. cbn [run_bind] in *. destruct r as [j|[fp j]]; [done|].
    rewrite scan_app by lia. done. }
  rewrite (Z.min_r max (Zlen data)) in E by lia. destruct Hk as [Hk|Hk]; [|lia].
  destruct (clamp_spec avg min (Zlen data) ltac:(lia)) as (nm & En & Hnm & Enm).
  destruct (clamp_spec avg min (Z.min max (Zlen data + Zlen ext)) ltac:(lia))
    as (nm' & En' & Hnm' & Enm').
  rewrite En in E. rewrite En'. cbn [run_bind] in *.
  replace (Z.to_nat (nm' - min)) with (Z.to_nat (nm - min) + Z.to_nat (nm' - nm))%nat by lia.
  rewrite scan_split, scan_app by lia.
  destruct (scan_spec data (top_bits_mask (Z.log2 (Z.max avg 2) + 1))
              (Z.to_nat (nm - min)) 0 min) as (r & E1 & Hr); [lia|lia|].
  rewrite E1 in *. cbn [run_bind] in *. destruct r as [j|[fp j]]; [done|].
  destruct (Z.le_gt_cases (Zlen data) avg) as [Ha|Ha].
  { (* the strict loop reached the end of [data]: no cut before it *)
    exfalso. replace (Z.to_nat (Zlen data - j)) with 0%nat in E by lia. cbn in E.
    injection E as E. lia. }
  replace (Z.to_nat (nm' - nm)) with 0%nat by lia. cbn [scan run_bind].
  replace (Z.to_nat (Z.min max (Zlen data + Zlen ext) - j))
    with (Z.to_nat (Zlen data - j) + Z.to_nat (Z.min max (Zlen data + Zlen ext) - Zlen data))%nat
    by lia.
  rewrite scan_split, scan_app by lia.
  destruct (scan gear data _ (Z.to_nat (Zlen data - j)) fp j) as [[j'|[fp' j']]| |];
    cbn [run_bind] in *; try done.
  injection E as E. lia.
Qed.
End Boundary.

(** ** The abstract specification of a chunking *)

Section Cut.
  Variable bf : bytes -> run Z.

(** [cut d ps]: [ps] are the pieces of [d] between successive boundaries. *)
Inductive cut : bytes -> list bytes -> Prop :=
  | cut_nil : cut [] []
  | cut_cons p rest ps :
      p <> [] -> bf (p ++ rest) = Done (Zlen p) -> cut rest ps -> cut (p ++ rest) (p :: ps).

Lemma cut_concat d ps : cut d ps -> concat ps = d.
Proof. induction 1; simpl; congruence. Qed.

Lemma cut_nil_inv ps : cut [] ps -> ps = [].
Proof.
  intros H. remember [] as d eqn:E. destruct H as [|p rest ps Hp _ _]; [done|].
  by apply app_eq_nil in E as [-> _].
Qed.

Lemma cut_inv d ps : cut d ps -> d <> [] ->
  exists p rest ps', d = p ++ rest /\ ps = p :: ps' /\ p <> [] /\
    bf d = Done (Zlen p) /\ cut rest ps'.
Proof. destruct 1 as [|p rest ps Hp Hb Hc]; [done|]. intros _. by exists p, rest, ps. Qed.

Lemma cut_det d ps ps' : cut d ps -> cut d ps' -> ps = ps'.
Proof.
  intros H. revert ps'. induction H as [|p rest ps Hp Hb Hc IH]; intros ps' H'.
  { by apply cut_nil_inv in H'. }
  apply cut_inv in H' as (p' & rest' & ps'' & E & -> & _ & Hb' & Hc').
  2:{ by intros [-> _]%app_eq_nil. }
  rewrite Hb in Hb'. injection Hb' as Hl.
  apply app_inj_length in E as [-> ->]; [|lia]. f_equal. by apply IH.
Qed.

Lemma cut_single d : d <> [] -> bf d = Done (Zlen d) -> cut d [d].
Proof.
  intros Hd Hb. rewrite <- (app_nil_r d) at 1. constructor; [done| |constructor].
  by rewrite app_nil_r.
Qed.

(** A boundary in [1, len] for every non-empty input: every input has a cut. *)
Hypothesis bf_pos : forall d, d <> [] -> exists k, bf d = Done k /\ 0 < k <= Zlen d.

Lemma cut_step d : d <> [] ->
  exists k, bf d = Done k /\ 0 < k <= Zlen d /\
    d = take (Z.to_nat k) d ++ drop (Z.to_nat k) d /\
    Zlen (take (Z.to_nat k) d) = k /\
    forall ps, cut (drop (Z.to_nat k) d) ps -> cut d (take (Z.to_nat k) d :: ps).
Proof.
  intros Hd. destruct (bf_pos d Hd) as (k & E & Hk). exists k.
  assert (Hl : Zlen (take (Z.to_nat k) d) = k) by (rewrite length_take; lia).
  split; [done|]. split; [done|]. rewrite take_drop. split; [done|]. split; [done|].
  intros ps Hps. rewrite <- (take_drop (Z.to_nat k) d) at 1. constructor; [| |done].
  - intros En. rewrite En in Hl. cbn in Hl. lia.
  - by rewrite take_drop, Hl.
Qed.

Lemma cut_exists d : exists ps, cut d ps.
Proof.
  remember (length d) as n eqn:Hn. revert d Hn.
  induction (lt_wf n) as [n _ IH]. intros d ->.
  destruct (decide (d = [])) as [->|Hd]; [exists []; constructor|].
  destruct (cut_step d Hd) as (k & _ & Hk & _ & _ & Hc).
  destruct (IH (length (drop (Z.to_nat k) d))) with (d := drop (Z.to_nat k) d)
    as [ps Hps]; [rewrite length_drop; lia | done |].
  eauto.
Qed.
End Cut.

(** The chunks of a list of pieces laid end to end. *)
Fixpoint mk_chunks (name : bytes -> bytes) (off : Z) (ps : list bytes) : list Chunk :=
  match ps with
  | [] => []
  | p :: ps => mk_chunk (name p) p off :: mk_chunks name (off + Zlen p) ps
  end.

Lemma mk_chunks_app name off ps ps' :
  mk_chunks name off (ps ++ ps') =
  mk_chunks name off ps ++ mk_chunks name (off + Zlen (concat ps)) ps'.
Proof.
  revert off; induction ps as [|p ps IH]; intros off; cbn [mk_chunks app concat].
  - by rewrite Z.add_0_r.
  - rewrite IH, Zlen_app. do 3 f_equal. lia.
Qed.

Lemma mk_chunks_data name off ps : map data (mk_chunks name off ps) = ps.
Proof.
  revert off; induction ps as [|p ps IH]; intros off; [done|].
  cbn [mk_chunks map]. by rewrite IH.
Qed.

(** A usable configuration: what [ChunkConfig::new] accepts, with a minimum of
    at least one byte. *)
Record config_ok (c : ChunkConfig) : Prop := {
  co_min : 1 <= min_size c;
  co_avg : min_size c <= avg_size c <= max_size c;
  co_max : max_size c <= USIZE_MAX;
}.

(** The boundary of an engine satisfies the hypotheses of {!Cut}. *)
Section Config_boundary.
  Variable gear : list Z.
  Hypothesis Hgear : length gear = 256%nat.
  Variable c : ChunkConfig.
  Hypothesis Hc : config_ok c.

Definition boundary_of (d : bytes) : run Z :=
  fastcdc_boundary gear d (min_size c) (avg_size c) (max_size c).

Lemma boundary_of_pos d : d <> [] -> exists k, boundary_of d = Done k /\ 0 < k <= Zlen d.
Proof.
  intros Hd. destruct Hc as [H1 H2 _]. unfold boundary_of.
  assert (0 < Zlen d) by (destruct d; [done|simpl; lia]).
  destruct (Z.le_gt_cases (Zlen d) (min_size c)) as [Hs|Hl].
  - rewrite boundary_short by done. eexists. split; [done|]. lia.
  - destruct (boundary_spec gear Hgear (min_size c) (avg_size c) (max_size c)
      ltac:(lia) ltac:(lia) d Hl) as (k & -> & Hk).
    exists k. split; [done|]. lia.
Qed.

(** The pieces lie in [min, max], the last one excepted, which may be shorter. *)
Lemma cut_sizes d ps : cut boundary_of d ps ->
  Forall (fun p => 0 < Zlen p <= max_size c) ps /\
  forall l p, ps = l ++ [p] -> Forall (fun p => min_size c <= Zlen p) l.
Proof.
  destruct Hc as [H1 H2 _].
  induction 1 as [|p rest ps Hp Hb Hcut IH].
  { split; [constructor|]. intros [|? ?] ? [=]. }
  assert (Hbounds : 0 < Zlen p <= max_size c /\ (rest <> [] -> min_size c <= Zlen p)).
  { assert (0 < Zlen p) by (destruct p; [done|simpl; lia]).
    unfold boundary_of in Hb.
    destruct (Z.le_gt_cases (Zlen (p ++ rest)) (min_size c)) as [Hs|Hl].
    - rewrite boundary_short in Hb by done. injection Hb as Hb.
      rewrite Zlen_app in *. split; [lia|]. intros Hr.
      assert (0 < Zlen rest) by (destruct rest; [done|simpl; lia]). lia.
    - destruct (boundary_spec gear Hgear (min_size c) (avg_size c) (max_size c)
        ltac:(lia) ltac:(lia) _ Hl) as (k & Ek & Hk).
      rewrite Ek in Hb. injection Hb as ->. lia. }
  destruct Hbounds as [Hsz Hmn], IH as [IHs IHm]. split; [by constructor|].
  intros l q E. destruct l as [|x l]; [constructor|]. injection E as -> E.
  constructor; [|by apply (IHm l q)]. apply Hmn. intros ->.
  apply cut_nil_inv in Hcut. subst ps. by destruct l.
Qed.
End Config_boundary.

(** ** [ChunkEngine::chunk_data] cuts *)

Section Engine.
  Context `{HashOps, HexOps}.
  Variable e : ChunkEngine.t.
  Hypothesis Hgear : length (ChunkEngine.gear e) = 256%nat.
  Hypothesis Hc : config_ok (ChunkEngine.config e).

(** The state of the loop after the pieces [dn], with the pieces [rest] to come. *)
Definition cutting (all : bytes) (qs : list bytes) (st : Z * list Chunk) : Prop :=
  exists dn rest, qs = dn ++ rest /\
    st = (Zlen (concat dn), mk_chunks (ChunkEngine.name e) 0 dn) /\
    cut (boundary_of (ChunkEngine.gear e) (ChunkEngine.config e)) (drop (length (concat dn)) all) rest /\
    concat dn = take (length (concat dn)) all.

(** A step cuts the next piece, or ends with the last. *)
Lemma chunk_step_cut all qs st :
  cutting all qs st ->
  match ChunkEngine.chunk_step e all st with
  | inl st' => cutting all qs st' /\ st.1 < st'.1 <= Zlen all
  | inr x => x = Done (Ok (mk_chunks (ChunkEngine.name e) 0 qs))
  end.
Proof.
  intros (dn & rest & Eq & -> & Hcut & Htk). unfold ChunkEngine.chunk_step. cbn [fst].
  zcase.
  - rewrite Nat2Z.id. set (d := drop (length (concat dn)) all) in *.
    apply cut_inv in Hcut as (p & r & ps & E0 & -> & Hp & Hb & Hr).
    2:{ intros E0%(f_equal length). unfold d in E0. rewrite length_drop in E0. cbn in E0. lia. }
    unfold ChunkEngine.find_chunk_boundary.
    fold (boundary_of (ChunkEngine.gear e) (ChunkEngine.config e) d). rewrite Hb.
    assert (Eall : all = concat dn ++ p ++ r) by (rewrite <- E0, Htk; apply eq_sym, take_drop).
    assert (Hall : Zlen all = Zlen (concat dn) + Zlen p + Zlen r)
      by (rewrite Eall at 1; rewrite !Zlen_app; lia).
    replace (slice (Zlen (concat dn)) (Z.min (Zlen (concat dn) + Zlen p) (Zlen all)) all) with p.
    2:{ rewrite Eall at 2. symmetry. apply slice_app_mid; [done|]. lia. }
    assert (0 < Zlen p) by (destruct p; [done|simpl; lia]).
    split; [|cbn [fst]; lia].
    exists (dn ++ [p]), ps. rewrite Eq, <- app_assoc. split; [done|].
    rewrite concat_snoc, mk_chunks_app, Zlen_app. split; [done|].
    rewrite Eall, length_app, app_assoc.
    split; [by rewrite <- (length_app (concat dn) p), drop_app_length|].
    by rewrite <- (length_app (concat dn) p), take_app_length.
  - f_equal. f_equal. rewrite Eq.
    assert (Hd : drop (length (concat dn)) all = []) by (apply drop_ge; lia).
    rewrite Hd in Hcut. apply cut_nil_inv in Hcut as ->. by rewrite app_nil_r.
Qed.

Lemma chunk_data_cut all :
  exists ps, cut (boundary_of (ChunkEngine.gear e) (ChunkEngine.config e)) all ps /\
    ChunkEngine.chunk_data e all = Done (Ok (mk_chunks (ChunkEngine.name e) 0 ps)).
Proof.
  destruct (cut_exists (boundary_of (ChunkEngine.gear e) (ChunkEngine.config e))
    ltac:(by apply boundary_of_pos) all) as [qs Hqs].
  exists qs. split; [done|]. unfold ChunkEngine.chunk_data. case_bool_decide as Hnil.
  { subst all. by apply cut_nil_inv in Hqs as ->. }
  destruct (while_total (ChunkEngine.chunk_step e all) (cutting all qs)
    (fun x => x = Ok (mk_chunks (ChunkEngine.name e) 0 qs))
    (fun st => Z.max 0 (Zlen all - st.1)) (fuel_of (Zlen all)) (0, [])) as (x & E & ->); [| | | done].
  - intros st Hst. pose proof (chunk_step_cut all qs st Hst) as Hs.
    destruct (ChunkEngine.chunk_step e all st) as [st'|y]; [|by eexists].
    destruct Hs. split; [done|lia].
  - exists [], qs. by cbn; rewrite drop_0.
  - cbn. rewrite fuel_of_spec by lia. lia.
Qed.
End Engine.

(** ** [StreamChunker] refines the same specification *)

Section Stream.
  Context `{HashOps, HexOps}.
  Variable c : ChunkConfig.
  Variable g : list Z.
  Variable k : option ChunkKeying.t.
  Hypothesis Hgear : length g = 256%nat.
  Hypothesis Hc : config_ok c.

Definition stream_name : bytes -> bytes :=
  StreamChunker.name {| StreamChunker.config := c; StreamChunker.gear := g;
    StreamChunker.keying := k; StreamChunker.buffer := []; StreamChunker.offset := 0;
    StreamChunker.chunks := [] |}.

(** After the data [d] has been fed: what was emitted is a prefix of the cut of
    every stream that starts with [d]. *)
Record stream_inv (s : StreamChunker.t) (d : bytes) (ps : list bytes) : Prop := {
  si_config : StreamChunker.config s = c;
  si_gear : StreamChunker.gear s = g;
  si_keying : StreamChunker.keying s = k;
  si_data : d = concat ps ++ StreamChunker.buffer s;
  si_chunks : StreamChunker.chunks s = mk_chunks stream_name 0 ps;
  si_offset : StreamChunker.offset s = Zlen (concat ps);
  si_cut ext qs : cut (boundary_of g c) (StreamChunker.buffer s ++ ext) qs ->
    cut (boundary_of g c) (d ++ ext) (ps ++ qs);
}.

(** What is left in the buffer is a single piece. *)
Definition quiet (s : StreamChunker.t) : Prop :=
  StreamChunker.buffer s = [] \/
  boundary_of g c (StreamChunker.buffer s) = Done (Zlen (StreamChunker.buffer s)).

Lemma name_stream s : StreamChunker.keying s = k -> StreamChunker.name s = stream_name.
Proof. unfold stream_name, StreamChunker.name. by intros ->. Qed.

Lemma stream_push s d ps p rest :
  stream_inv s d ps -> StreamChunker.buffer s = p ++ rest -> p <> [] ->
  (forall ext, boundary_of g c (p ++ rest ++ ext) = Done (Zlen p)) ->
  stream_inv (StreamChunker.push s p rest (StreamChunker.offset s + Zlen p)) d (ps ++ [p]).
Proof.
  intros [H1 H2 H3 H4 H5 H6 H7] Hb Hp Hst. split; cbn; try done.
  - by rewrite H4, Hb, concat_snoc, <- app_assoc.
  - rewrite H5, mk_chunks_app, (name_stream s H3), H6. done.
  - by rewrite H6, concat_snoc, Zlen_app.
  - intros ext qs Hq. rewrite <- app_assoc. apply H7. rewrite Hb, <- app_assoc.
    constructor; [done|apply Hst|done].
Qed.

Lemma emit_step_spec d s ps :
  stream_inv s d ps -> Zlen d <= U64_MAX ->
  match StreamChunker.emit_step s with
  | inl s' => (exists ps', stream_inv s' d ps') /\
      0 <= Zlen (StreamChunker.buffer s') < Zlen (StreamChunker.buffer s)
  | inr r => r = Done s /\ quiet s
  end.
Proof.
  intros Hinv Hd. pose proof Hinv as [H1 H2 H3 H4 H5 H6 H7]. destruct Hc as [Hc1 Hc2 _].
  unfold StreamChunker.emit_step, StreamChunker.find_boundary, quiet, boundary_of.
  rewrite H1, H2.
  destruct (Z.leb_spec (Zlen (StreamChunker.buffer s)) (min_size c)) as [Hs|Hs].
  { split; [done|]. right. by apply boundary_short. }
  set (buf := StreamChunker.buffer s) in *.
  destruct (boundary_spec g Hgear (min_size c) (avg_size c) (max_size c)
    ltac:(lia) ltac:(lia) buf ltac:(done)) as (x & E & Hx).
  rewrite E, Z.geb_leb.
  destruct ((Zlen buf <=? x) && (Zlen buf <? max_size c)) eqn:Hwait.
  { zbool. split; [done|]. right. f_equal. lia. }
  apply andb_false_iff in Hwait. rewrite !Z.leb_gt, !Z.ltb_ge in Hwait.
  rewrite Z.min_l by lia.
  assert (Hl : Zlen (take (Z.to_nat x) buf) = x) by (rewrite length_take; lia).
  assert (Hdat : Zlen d = Zlen (concat ps) + Zlen buf) by (by rewrite H4, Zlen_app).
  rewrite wrap64_small by (unfold in_u64; lia).
  split.
  - exists (ps ++ [take (Z.to_nat x) buf]). apply stream_push; [done| | |].
    + symmetry. apply take_drop.
    + intros E0. rewrite E0 in Hl. cbn in Hl. lia.
    + intros ext. rewrite app_assoc, take_drop, Hl. unfold boundary_of.
      apply boundary_stable; try done; lia.
  - cbn. rewrite length_drop. lia.
Qed.

Lemma emit_chunks_spec d s ps :
  stream_inv s d ps -> Zlen d <= U64_MAX ->
  exists s' ps', StreamChunker.emit_chunks s = Done s' /\ stream_inv s' d ps' /\ quiet s'.
Proof.
  intros Hinv Hd. unfold StreamChunker.emit_chunks.
  destruct (while_total StreamChunker.emit_step
    (fun s => exists ps, stream_inv s d ps)
    (fun s => (exists ps, stream_inv s d ps) /\ quiet s)
    (fun s => Zlen (StreamChunker.buffer s))
    (fuel_of (Zlen (StreamChunker.buffer s))) s) as (s' & E & (ps' & Hi) & Hq).
  - intros s0 (ps0 & Hi0). pose proof (emit_step_spec d s0 ps0 Hi0 Hd) as Hs.
    destruct (StreamChunker.emit_step s0); [done|]. destruct Hs as [-> Hq]. eauto 10.
  - eauto.
  - rewrite fuel_of_spec by lia. lia.
  - eauto 10.
Qed.

Lemma feed_spec d s ps x :
  stream_inv s d ps -> Zlen (d ++ x) <= U64_MAX ->
  exists s' ps', StreamChunker.feed s x = Done s' /\ stream_inv s' (d ++ x) ps' /\ quiet s'.
Proof.
  intros [H1 H2 H3 H4 H5 H6 H7] Hd. apply (emit_chunks_spec (d ++ x) _ ps); [|done].
  split; cbn; try done.
  - by rewrite H4, app_assoc.
  - intros ext qs. rewrite <- !app_assoc. apply H7.
Qed.

Lemma feed_all_spec xs : forall d s ps,
  stream_inv s d ps -> quiet s -> Zlen (d ++ concat xs) <= U64_MAX ->
  exists s' ps', StreamChunker.feed_all s xs = Done s' /\
    stream_inv s' (d ++ concat xs) ps' /\ quiet s'.
Proof.
  induction xs as [|x xs IH]; intros d s ps Hi Hq Hd; cbn [StreamChunker.feed_all concat] in *.
  { rewrite app_nil_r in *. eauto. }
  destruct (feed_spec d s ps x Hi) as (s1 & ps1 & -> & Hi1 & Hq1).
  { rewrite !Zlen_app in *. lia. }
  cbn [run_bind]. rewrite app_assoc in *. by apply (IH _ _ ps1).
Qed.

Lemma finalize_cut s d ps :
  stream_inv s d ps -> quiet s ->
  exists qs, cut (boundary_of g c) d qs /\
    StreamChunker.finalize s = mk_chunks stream_name 0 qs.
Proof.
  intros [H1 H2 H3 H4 H5 H6 H7] Hq. unfold StreamChunker.finalize.
  case_bool_decide as Hb.
  - exists ps. split; [|done]. specialize (H7 [] []). rewrite !app_nil_r in H7.
    rewrite Hb in H7. apply H7. constructor.
  - destruct Hq as [?|Hq]; [done|].
    exists (ps ++ [StreamChunker.buffer s]). split.
    + specialize (H7 [] [StreamChunker.buffer s]). rewrite !app_nil_r in H7.
      apply H7, cut_single; done.
    + cbn. by rewrite H5, mk_chunks_app, (name_stream s H3), H6.
Qed.
End Stream.

(** ** Properties *)

(** An engine as its constructors build it, over a usable configuration. *)
Record engine_ok (e : ChunkEngine.t) : Prop := {
  eo_gear : length (ChunkEngine.gear e) = 256%nat;
  eo_config : config_ok (ChunkEngine.config e);
}.

Lemma engine_new_ok `{HashOps} c : config_ok c -> engine_ok (ChunkEngine.new c).
Proof. intros Hc. split; [apply derive_gear_table_length | done]. Qed.

Lemma engine_new_keyed_ok `{HashOps} c bk ik :
  config_ok c -> engine_ok (ChunkEngine.new_keyed c (ChunkKeying.derive bk ik)).
Proof. intros Hc. split; [apply derive_gear_table_length | done]. Qed.

Lemma config_new_ok lo avg hi c :
  Config.new lo avg hi = Done c -> 1 <= lo -> hi <= USIZE_MAX -> config_ok c.
Proof.
  unfold Config.new. destruct (negb (lo <=? avg)) eqn:E1; [done|].
  destruct (negb (avg <=? hi)) eqn:E2; [done|]. intros [= <-]. zbool. by split.
Qed.

(** A keyed stream from start to end: its chunks are those of non-empty pieces
    within the configured size that make up the stream. *)
Lemma keyed_stream_spec `{HashOps, HexOps} c bk ik ds :
  config_ok c -> Zlen (concat ds) <= U64_MAX ->
  let k := ChunkKeying.derive bk ik in
  exists s ps, StreamChunker.feed_all (StreamChunker.new_keyed c k) ds = Done s /\
    StreamChunker.finalize s = mk_chunks (ChunkKeying.name k) 0 ps /\
    concat ps = concat ds /\ Forall (fun p => 0 < Zlen p <= max_size c) ps.
Proof.
  intros Hc Hd k. pose proof (derive_gear_table_length bk) as Hg.
  destruct (feed_all_spec c (ChunkKeying.gear k) (Some k) Hg Hc ds []
    (StreamChunker.new_keyed c k) []) as (s & ps & E & Hi & Hq); [by split | by left | done |].
  destruct (finalize_cut c (ChunkKeying.gear k) (Some k) s _ _ Hi Hq) as (qs & Hqs & Ef).
  exists s, qs. split; [exact E|]. split; [exact Ef|]. split; [by apply cut_concat in Hqs|].
  by destruct (cut_sizes _ Hg _ Hc _ _ Hqs) as [Hs _].
Qed.

(** Chunks laid end to end from [off]. *)
Fixpoint tiling (off : Z) (cs : list Chunk) : Prop :=
  match cs with
  | [] => True
  | c :: cs => offset c = off /\ size c = Zlen (data c) /\ tiling (off + size c) cs
  end.

Lemma mk_chunks_tiling name off ps : tiling off (mk_chunks name off ps).
Proof. revert off; induction ps as [|p ps IH]; intros off; cbn; eauto. Qed.

Lemma reassemble_concat cs : ChunkEngine.reassemble_chunks cs = Ok (concat (map data cs)).
Proof.
  assert (Hf : forall cs acc, foldl (fun acc c => acc ++ data c) acc cs = acc ++ concat (map data cs)).
  { clear cs. induction cs as [|c cs IH]; intros acc; cbn; [by rewrite app_nil_r|].
    by rewrite IH, app_assoc. }
  destruct cs as [|c cs]; [done|]. unfold ChunkEngine.reassemble_chunks. by rewrite Hf.
Qed.

(** C22: Chunking a buffer returns (the loop ends), and reassembling the chunks
    gives the buffer back; the chunks' offsets and sizes tile it without gap or
    overlap. *)
Theorem chunk_data_reassemble `{HashOps, HexOps} e d :
  engine_ok e ->
  exists cs, ChunkEngine.chunk_data e d = Done (Ok cs) /\
    ChunkEngine.reassemble_chunks cs = Ok d /\ tiling 0 cs.
Proof.
  intros [Hg Hc]. destruct (chunk_data_cut e Hg Hc d) as (ps & Hcut & E).
  eexists. split; [exact E|]. rewrite reassemble_concat, mk_chunks_data.
  split; [by rewrite (cut_concat _ _ _ Hcut) | apply mk_chunks_tiling].
Qed.

Definition demo_config : ChunkConfig := {| min_size := 2; avg_size := 4; max_size := 6 |}.

Lemma demo_config_ok : config_ok demo_config.
Proof. split; cbn; unfold USIZE_MAX; lia. Qed.

Lemma chunk_data_reassemble_witness :
  exists cs, ChunkEngine.chunk_data (ChunkEngine.new demo_config) (b "hello, content-defined world")
    = Done (Ok cs) /\ ChunkEngine.reassemble_chunks cs = Ok (b "hello, content-defined world").
Proof.
  destruct (chunk_data_reassemble (ChunkEngine.new demo_config)
    (b "hello, content-defined world")) as (cs & E & R & _).
  - apply engine_new_ok, demo_config_ok.
  - exists cs. split; [exact E | exact R].
Defined.

(** Every chunk is non-empty and at most [max_size] long, and every chunk
    but the last is at least [min_size] long. *)
Theorem chunk_data_sizes `{HashOps, HexOps} e d :
  engine_ok e ->
  exists cs, ChunkEngine.chunk_data e d = Done (Ok cs) /\
    Forall (fun c => 0 < size c <= max_size (ChunkEngine.config e)) cs /\
    forall l c, cs = l ++ [c] ->
      Forall (fun c => min_size (ChunkEngine.config e) <= size c) l.
Proof.
  intros [Hg Hc]. destruct (chunk_data_cut e Hg Hc d) as (ps & Hcut & E).
  eexists. split; [exact E|].
  destruct (cut_sizes _ Hg _ Hc _ _ Hcut) as [Hs Hm].
  assert (Hsz : forall cs, Forall (fun c => size c = Zlen (data c))
                  (mk_chunks (ChunkEngine.name e) cs ps)).
  { clear. induction ps as [|p ps IH]; intros off; constructor; [done | apply IH]. }
  specialize (Hsz 0). rewrite Forall_forall in Hsz. split.
  - apply Forall_forall. intros c Hin. rewrite (Hsz c Hin).
    rewrite Forall_forall in Hs. apply Hs.
    rewrite <- (mk_chunks_data (ChunkEngine.name e) 0 ps). by apply list_elem_of_fmap_2.
  - intros l c Eq. apply Forall_forall. intros c' Hin.
    rewrite Hsz by (rewrite Eq; apply elem_of_app; by left).
    assert (Hps : ps = map data l ++ [data c]).
    { rewrite <- (mk_chunks_data (ChunkEngine.name e) 0 ps), Eq. by rewrite map_app. }
    pose proof (Hm _ _ Hps) as Hf. rewrite Forall_forall in Hf.
    apply Hf. by apply list_elem_of_fmap_2.
Qed.

Lemma chunk_data_sizes_witness :
  exists cs, ChunkEngine.chunk_data (ChunkEngine.new demo_config) (b "0123456789") = Done (Ok cs)
    /\ Forall (fun c => 0 < size c <= 6) cs.
Proof.
  destruct (chunk_data_sizes (ChunkEngine.new demo_config) (b "0123456789")) as (cs & E & F & _).
  - apply engine_new_ok, demo_config_ok.
  - exists cs. split; [exact E | exact F].
Defined.

(** C5: The streaming chunker and the whole-buffer engine agree: however a
    stream is split over calls of [feed], [finalize] returns exactly the chunks
    (names, data, sizes and offsets) of [chunk_data] on the whole stream, keyed
    or not. *)
Theorem stream_equals_chunk_data `{HashOps, HexOps} c bk ik ds :
  config_ok c -> Zlen (concat ds) <= U64_MAX ->
  (exists s, StreamChunker.feed_all (StreamChunker.new c) ds = Done s /\
     ChunkEngine.chunk_data (ChunkEngine.new c) (concat ds)
       = Done (Ok (StreamChunker.finalize s))) /\
  (let k := ChunkKeying.derive bk ik in
   exists s, StreamChunker.feed_all (StreamChunker.new_keyed c k) ds = Done s /\
     ChunkEngine.chunk_data (ChunkEngine.new_keyed c k) (concat ds)
       = Done (Ok (StreamChunker.finalize s))).
Proof.
  intros Hc Hd.
  assert (Hgen : forall g k, length g = 256%nat ->
    let e := {| ChunkEngine.config := c; ChunkEngine.gear := g; ChunkEngine.keying := k |} in
    exists s, StreamChunker.feed_all
      {| StreamChunker.config := c; StreamChunker.gear := g; StreamChunker.keying := k;
         StreamChunker.buffer := []; StreamChunker.offset := 0; StreamChunker.chunks := [] |} ds
      = Done s /\
      ChunkEngine.chunk_data e (concat ds) = Done (Ok (StreamChunker.finalize s))).
  { intros g k Hg e.
    destruct (feed_all_spec c g k Hg Hc ds []
      {| StreamChunker.config := c; StreamChunker.gear := g; StreamChunker.keying := k;
         StreamChunker.buffer := []; StreamChunker.offset := 0; StreamChunker.chunks := [] |} [])
      as (s & ps & E & Hi & Hq); [by split | by left | done |].
    exists s. split; [exact E|].
    destruct (finalize_cut c g k s _ _ Hi Hq) as (qs & Hqs & ->).
    destruct (chunk_data_cut e Hg Hc (concat ds)) as (qs' & Hqs' & ->).
    rewrite (cut_det _ _ _ _ Hqs' Hqs). done. }
  split; [apply Hgen | cbn zeta; apply Hgen]; apply derive_gear_table_length.
Qed.

Lemma stream_equals_chunk_data_witness :
  exists s, StreamChunker.feed_all (StreamChunker.new demo_config) [b "stream"; []; b "ed data"]
      = Done s /\
    ChunkEngine.chunk_data (ChunkEngine.new demo_config) (b "streamed data")
      = Done (Ok (StreamChunker.finalize s)).
Proof.
  destruct (stream_equals_chunk_data demo_config [] [] [b "stream"; []; b "ed data"])
    as [(s & E1 & E2) _].
  - apply demo_config_ok.
  - by vm_compute.
  - exists s. split; [exact E1 | exact E2].
Defined.

(** *** Names *)

Section Names.
  Context `{HashLaws, HexLaws}.

Lemma decode_name_lower_hex x : length x = 32%nat -> decode_name (lower_hex x) = Some x.
Proof.
  intros Hx. unfold decode_name. rewrite lower_hex_length, Hx. cbn.
  rewrite hex_decode_lower_hex, Hx. done.
Qed.

Lemma decode_name_Some n x : decode_name n = Some x ->
  length x = 32%nat /\ to_ascii_lowercase n = lower_hex x.
Proof.
  unfold decode_name. destruct (Zlen n =? 64); [|done]. cbn [negb].
  destruct (hex_decode n) as [bs|] eqn:E; [|done].
  destruct (Z.eqb_spec (Zlen bs) 32) as [Hl|]; [|done]. intros [= <-].
  split; [lia|]. rewrite lower_hex_encode. symmetry. by apply hex_decode_Some.
Qed.

Lemma ct_diff_zero x y :
  length x = length y -> ChunkEngine.ct_diff x y = 0 <-> x = y.
Proof.
  intros Hl. unfold ChunkEngine.ct_diff.
  assert (Hg : forall acc, 0 <= acc ->
    foldl (fun acc p => Z.lor acc (Z.lxor (u8 p.1) (u8 p.2))) acc (zip x y) = 0
    <-> acc = 0 /\ x = y).
  { revert y Hl. induction x as [|a x IH]; intros [|c y] Hl acc Ha; cbn in *; try done.
    { tauto. }
    pose proof (u8_range a). pose proof (u8_range c).
    rewrite IH by (lia || (apply Z.lor_nonneg; split; [done | apply Z.lxor_nonneg; lia])).
    rewrite Z.lor_eq_0_iff, Z.lxor_eq_0_iff. split.
    - intros [[-> ->%u8_inj] ->]. done.
    - intros [-> [= -> ->]]. done. }
  rewrite Hg by done. tauto.
Qed.

Lemma verify_name_digest e n p :
  ChunkEngine.verify_name e n p = true <->
  decode_name n = Some (match ChunkEngine.keying e with
                        | Some k => hmac_sha256 (ChunkKeying.id_key k) p
                        | None => sha256 p
                        end).
Proof.
  unfold ChunkEngine.verify_name, ChunkKeying.verify_name.
  destruct (ChunkEngine.keying e) as [k|].
  - destruct (decode_name n) as [x|]; [|done]. rewrite bool_decide_eq_true. naive_solver.
  - destruct (decode_name n) as [x|] eqn:E; [|done]. rewrite Z.eqb_eq, ct_diff_zero; [naive_solver|].
    apply decode_name_Some in E as [-> _]. by rewrite sha256_length.
Qed.

(** A name verifies for a plaintext exactly as the engine names it: the
    engine's own name verifies, a verifying name is that name up to the case
    of its hexadecimal digits, and the chunks an engine makes all verify. *)
Theorem verify_name_spec e n p :
  ChunkEngine.verify_name e (ChunkEngine.name e p) p = true /\
  (ChunkEngine.verify_name e n p = true -> to_ascii_lowercase n = ChunkEngine.name e p) /\
  (engine_ok e -> exists cs, ChunkEngine.chunk_data e p = Done (Ok cs) /\
     ChunkEngine.verify_all e cs = true).
Proof.
  assert (Hown : forall q, ChunkEngine.verify_name e (ChunkEngine.name e q) q = true).
  { intros q. apply verify_name_digest. unfold ChunkEngine.name, ChunkKeying.name, ChunkEngine.compute_hash.
    destruct (ChunkEngine.keying e); apply decode_name_lower_hex;
      [apply hmac_sha256_length | apply sha256_length]. }
  split; [apply Hown|]. split.
  - intros [_ ->]%verify_name_digest%decode_name_Some.
    unfold ChunkEngine.name, ChunkKeying.name, ChunkEngine.compute_hash.
    by destruct (ChunkEngine.keying e).
  - intros [Hg Hc]. destruct (chunk_data_cut e Hg Hc p) as (ps & _ & E).
    eexists. split; [exact E|]. clear E. generalize 0 as off.
    induction ps as [|q ps IH]; intros off; [done|]. cbn.
    unfold ChunkEngine.verify_chunk at 1. cbn. rewrite Hown. apply IH.
Qed.
End Names.

Lemma verify_name_spec_witness :
  let e := ChunkEngine.new demo_config in
  ChunkEngine.verify_name e (ChunkEngine.name e (b "chunk")) (b "chunk") = true.
Proof. exact (proj1 (verify_name_spec (ChunkEngine.new demo_config) [] (b "chunk"))). Defined.


