(* ===== verification/ChunkFormat.v ===== *)
(** [vault-core/src/chunk_format.rs]: the chunk-format version byte and the
    chunk identity ([ChunkAad]) bound into the AEAD as associated data. *)

From S2P Require Import Prelude Bytes VaultError.

Definition V1_XCHACHA20_POLY1305 : Z := 1.
Definition V2_KEYED_CDC_NAMING : Z := 2.
Definition V3_REPO_UID_KEY_VERSION : Z := 3.
Definition V4_AES_256_GCM_SIV : Z := 4.
Definition V5_KEYED_CDC_AES_PER_BYTE : Z := 5.
Definition V6_HYBRID_WRAP : Z := 6.

Inductive ChunkFormatVersion : Type := RepoUidKeyVersionV3.

Definition as_byte (v : ChunkFormatVersion) : Z :=
  match v with RepoUidKeyVersionV3 => V3_REPO_UID_KEY_VERSION end.

Definition is_xchacha20_poly1305_layout (v : ChunkFormatVersion) : bool :=
  match v with RepoUidKeyVersionV3 => true end.

Definition parse_version (v : Z) : VaultResult ChunkFormatVersion :=
  if v =? V3_REPO_UID_KEY_VERSION then Ok RepoUidKeyVersionV3
  else if (v =? V1_XCHACHA20_POLY1305) || (v =? V2_KEYED_CDC_NAMING)
  then Err (Decryption "retired chunk-format version byte 0x{byte:02x}: its AAD bound the repository name and no key version; only v3 is read (no compatibility reader — regenerate the data)")
  else Err (Decryption "unknown chunk-format version byte 0x{other:02x}: not a recognized/implemented GitCellar chunk format — refusing to misparse").

Definition version_of (chunk : bytes) : VaultResult ChunkFormatVersion :=
  let? first := ok_or (head chunk)
    (Decryption "empty chunk: missing format-version byte") in
  parse_version (u8 first).

Record ChunkAad : Type := {
  repo_uid : bytes;
  chunk_name : bytes;
  key_version : Z;
  stream_offset : Z;
  aad_size : Z;
}.

#[export] Instance ChunkAad_eq_dec : EqDecision ChunkAad.
Proof. solve_decision. Defined.

(** The integer fields are [u32], [u64], [u64]. *)
Definition aad_wf (a : ChunkAad) : Prop :=
  in_u32 (key_version a) /\ in_u64 (stream_offset a) /\ in_u64 (aad_size a).

Definition DEFAULT_KEY_VERSION : Z := 1.

Definition check (a : ChunkAad) : VaultResult unit :=
  if contains_byte NUL (repo_uid a)
  then Err (Encryption "chunk AAD refused: repo_uid contains a NUL byte, which would make the canonical AAD encoding ambiguous")
  else if contains_byte NUL (chunk_name a)
  then Err (Encryption "chunk AAD refused: chunk_name contains a NUL byte, which would make the canonical AAD encoding ambiguous")
  else Ok tt.

Definition new (repo_uid chunk_name : bytes) (key_version stream_offset size : Z)
    : VaultResult ChunkAad :=
  let aad := {| repo_uid := repo_uid; chunk_name := chunk_name; key_version := key_version;
                stream_offset := stream_offset; aad_size := size |} in
  let? _ := check aad in
  Ok aad.

Definition content_aad (repo_uid chunk_name : bytes) (key_version size : Z)
    : VaultResult ChunkAad :=
  new repo_uid chunk_name key_version 0 size.

Definition named (repo_uid object_name : bytes) (key_version : Z) : VaultResult ChunkAad :=
  new repo_uid object_name key_version 0 0.

Definition for_content_chunk (repo_uid chunk_name : bytes) (size : Z) : ChunkAad :=
  {| repo_uid := repo_uid; chunk_name := chunk_name; key_version := DEFAULT_KEY_VERSION;
     stream_offset := 0; aad_size := size |}.

Definition for_named_object (repo_uid object_name : bytes) : ChunkAad :=
  {| repo_uid := repo_uid; chunk_name := object_name; key_version := DEFAULT_KEY_VERSION;
     stream_offset := 0; aad_size := 0 |}.

Definition canonical_aad_bytes (a : ChunkAad) : bytes :=
  repo_uid a ++ [NUL] ++ chunk_name a ++ [NUL]
  ++ to_le_bytes 4 (key_version a) ++ to_le_bytes 8 (stream_offset a)
  ++ to_le_bytes 8 (aad_size a).

(** ** Properties *)

Lemma check_ok a : check a = Ok tt <-> (NUL ∉ repo_uid a) /\ (NUL ∉ chunk_name a).
Proof.
  unfold check, contains_byte. repeat case_bool_decide; split; try done; tauto.
Qed.

Lemma new_ok u n k o s a :
  new u n k o s = Ok a <->
  a = {| repo_uid := u; chunk_name := n; key_version := k; stream_offset := o; aad_size := s |}
  /\ (NUL ∉ u) /\ (NUL ∉ n).
Proof.
  unfold new. split.
  - intros H. inv_bind. destruct x. apply check_ok in H0. done.
  - intros (-> & Hc). apply (check_ok {| repo_uid := u; chunk_name := n; key_version := k; stream_offset := o; aad_size := s |}) in Hc.
    by rewrite Hc.
Qed.

(** A version byte is dispatched exactly when it is 3; every other byte and the
    empty chunk are decryption errors. *)
Lemma parse_version_spec v :
  (parse_version v = Ok RepoUidKeyVersionV3 /\ v = 3) \/
  (exists m, parse_version v = Err (Decryption m) /\ v <> 3).
Proof.
  unfold parse_version, V3_REPO_UID_KEY_VERSION, V1_XCHACHA20_POLY1305, V2_KEYED_CDC_NAMING.
  zcase; [auto|]. right. destruct ((v =? 1) || (v =? 2)); eauto.
Qed.

Lemma version_of_spec c :
  (exists rest, c = as_u8 3 :: rest /\ version_of c = Ok RepoUidKeyVersionV3) \/
  (head c <> Some (as_u8 3) /\ exists m, version_of c = Err (Decryption m)).
Proof.
  destruct c as [|x c]; [right; cbn; eauto|]. unfold version_of. cbn [head ok_or rbind].
  destruct (parse_version_spec (u8 x)) as [[-> Hv]|(m & -> & Hv)].
  - left. exists c. split; [|done]. f_equal. apply u8_inj. rewrite Hv. done.
  - right. split; [|eauto]. intros [= ->]. done.
Qed.

(** The canonical associated-data encoding is injective on every identity
    that [ChunkAad::check] accepts: two checked identities with equal encodings
    are the same repository, name, key version, offset and size. *)
Theorem canonical_aad_injective a a' :
  check a = Ok tt -> check a' = Ok tt -> aad_wf a -> aad_wf a' ->
  canonical_aad_bytes a = canonical_aad_bytes a' -> a = a'.
Proof.
  destruct a as [u n k o s], a' as [u' n' k' o' s']. rewrite !check_ok. cbn.
  intros [Hu Hn] [Hu' Hn'] (Hk & Ho & Hs) (Hk' & Ho' & Hs'). cbn in *.
  unfold in_u32, in_u64, U32_MAX, U64_MAX in *.
  unfold canonical_aad_bytes. cbn [repo_uid chunk_name key_version stream_offset aad_size app].
  intros E. apply sep_unique in E as [-> E]; [|done|done].
  apply sep_unique in E as [-> E]; [|done|done].
  apply app_inj_length in E as [Ek E]; [|by rewrite !length_to_le_bytes].
  apply app_inj_length in E as [Eo Es]; [|by rewrite !length_to_le_bytes].
  apply to_le_bytes_inj in Ek; [|cbn; lia|cbn; lia].
  apply to_le_bytes_inj in Eo; [|cbn; lia|cbn; lia].
  apply to_le_bytes_inj in Es; [|cbn; lia|cbn; lia].
  congruence.
Qed.

Lemma canonical_aad_injective_witness :
  for_content_chunk (b "uid") (b "name") 5
    = {| repo_uid := b "uid"; chunk_name := b "name"; key_version := 1;
         stream_offset := 0; aad_size := 5 |}.
Proof.
  apply canonical_aad_injective; [reflexivity | reflexivity | | | reflexivity]; by vm_compute.
Defined.

(** Without the NUL check the encoding is ambiguous: two different
    identities, one of which [ChunkAad::check] refuses, have the same bytes.  The
    check is what makes the encoding injective. *)
Theorem canonical_aad_nul_ambiguous :
  exists a a', a <> a' /\ canonical_aad_bytes a = canonical_aad_bytes a' /\
    is_err (check a) = true /\ is_err (check a') = true.
Proof.
  (* u="a\0b", n="c"   against   u="a", n="b\0c" *)
  set (mk := fun u n => {| repo_uid := u; chunk_name := n; key_version := 1;
                           stream_offset := 0; aad_size := 0 |}).
  exists (mk (b "a" ++ NUL :: b "b") (b "c")), (mk (b "a") (b "b" ++ NUL :: b "c")).
  by vm_compute.
Qed.
