(* ===== verification/VaultEncryption.v ===== *)
(** [vault-core/src/encryption.rs]: the chunk-encryption engine and the
    passphrase file engine, behind the [EncryptionEngine] trait.

    The trait is a class; the law its chunk operations promise (a chunk sealed
    under an identity opens under it) is a second class, which both engines
    satisfy and clients use. *)

From S2P Require Import Prelude Bytes Interfaces Toy VaultError Chunking ChunkFormat.

(** [thread_rng()] is the generator state [R] threaded through every seal. *)
Class EncryptionEngine (R E : Type) : Type := {
  encrypt : E -> bytes -> R -> VaultResult bytes * R;
  decrypt : E -> bytes -> VaultResult bytes;
  key_id : E -> bytes;
  encrypt_chunk : E -> Chunk -> ChunkAad -> R -> VaultResult bytes * R;
  decrypt_chunk : E -> bytes -> ChunkAad -> VaultResult bytes;
}.

Module XChaChaChunkEngine.

(** [cipher] is the 32-byte key of the keyed cipher. *)
Record t : Type := { cipher : bytes; x_key_id : bytes; emit_version : Z }.

Definition NONCE_SIZE : Z := 24.
Definition TAG_SIZE : Z := 16.
Definition VERSION_SIZE : Z := 1.
Definition KEY_SIZE : Z := 32.
Definition OVERHEAD : Z := VERSION_SIZE + NONCE_SIZE + TAG_SIZE.
Definition CONTENT_KEY_INFO : bytes := b "gitcellar/chunk-content/v1".

Section Ops.
  Context `{HashOps, HexOps, AeadOps} {R : Type} `{RngOps R}.

Definition derive_content_key (k_repo : bytes) : VaultResult bytes :=
  ok_or (hkdf_sha256 None k_repo CONTENT_KEY_INFO (Z.to_nat KEY_SIZE))
    (Key "HKDF-SHA256 expand failed: {e}").

(** [new_from_slice] fails only on a length other than 32, refused first. *)
Definition from_content_key (content_key : bytes) : VaultResult t :=
  if negb (Zlen content_key =? KEY_SIZE)
  then Err (Key "XChaCha20-Poly1305 content key must be {} bytes, got {}")
  else Ok {| cipher := content_key;
             x_key_id := take 16 (ChunkEngine.compute_hash content_key);
             emit_version := V3_REPO_UID_KEY_VERSION |}.

Definition new (k_repo : bytes) : VaultResult t :=
  let? content_key := derive_content_key k_repo in
  from_content_key content_key.

Definition with_format_version (e : t) (version : ChunkFormatVersion) : VaultResult t :=
  if negb (is_xchacha20_poly1305_layout version)
  then Err (Encryption "XChaChaChunkEngine cannot emit version 0x{:02x}: not an XChaCha20-Poly1305 layout")
  else Ok {| cipher := cipher e; x_key_id := x_key_id e; emit_version := as_byte version |}.

Definition cipher_aad (version_byte : Z) (aad : ChunkAad) : VaultResult bytes :=
  let? _ := check aad in
  Ok (as_u8 version_byte :: canonical_aad_bytes aad).

Definition encrypt_with_nonce (e : t) (plaintext nonce_bytes : bytes) (aad : ChunkAad)
    : VaultResult bytes :=
  let? ca := cipher_aad (emit_version e) aad in
  let? ct_and_tag :=
    ok_or (aead_encrypt XChaCha20Poly1305 (cipher e) nonce_bytes ca plaintext)
      (Encryption "XChaCha20-Poly1305 encryption failed: {e}") in
  Ok (as_u8 (emit_version e) :: nonce_bytes ++ ct_and_tag).

Definition encrypt_with_aad (e : t) (plaintext : bytes) (aad : ChunkAad) (r : R)
    : VaultResult bytes * R :=
  let '(nonce_bytes, r) := fill_bytes (Z.to_nat NONCE_SIZE) r in
  (encrypt_with_nonce e plaintext nonce_bytes aad, r).

(** The checks [decrypt] and [decrypt_with_aad] share, up to the minimum length. *)
Definition open_layout (data : bytes) : VaultResult unit :=
  let? version := version_of data in
  if negb (is_xchacha20_poly1305_layout version)
  then Err (Decryption "chunk version 0x{:02x} is not an XChaCha20-Poly1305 layout; XChaChaChunkEngine cannot decrypt it")
  else if Zlen data <? OVERHEAD
  then Err (Decryption "chunk too short: {} bytes < minimum {} (version+nonce+tag)")
  else Ok tt.

Definition decrypt_with_aad (e : t) (data : bytes) (aad : ChunkAad) : VaultResult bytes :=
  let? _ := open_layout data in
  let? ca := cipher_aad (u8 (hd NUL data)) aad in
  let nonce := slice 1 (1 + NONCE_SIZE) data in
  let ct_and_tag := drop (Z.to_nat (1 + NONCE_SIZE)) data in
  ok_or (aead_decrypt XChaCha20Poly1305 (cipher e) nonce ca ct_and_tag)
    (Decryption "XChaCha20-Poly1305 authentication failed (tampered, wrong key, or chunk-identity/AAD mismatch)").

(** The trait's raw seal: no identity, an empty associated data. *)
Definition encrypt_raw (e : t) (plaintext : bytes) (r : R) : VaultResult bytes * R :=
  let '(nonce_bytes, r) := fill_bytes (Z.to_nat NONCE_SIZE) r in
  (let? ct_and_tag :=
     ok_or (aead_encrypt XChaCha20Poly1305 (cipher e) nonce_bytes [] plaintext)
       (Encryption "XChaCha20-Poly1305 encryption failed: {e}") in
   Ok (as_u8 (emit_version e) :: nonce_bytes ++ ct_and_tag), r).

Definition decrypt_raw (e : t) (data : bytes) : VaultResult bytes :=
  let? _ := open_layout data in
  let nonce := slice 1 (1 + NONCE_SIZE) data in
  let ct_and_tag := drop (Z.to_nat (1 + NONCE_SIZE)) data in
  ok_or (aead_decrypt XChaCha20Poly1305 (cipher e) nonce [] ct_and_tag)
    (Decryption "XChaCha20-Poly1305 authentication failed (tampered or wrong key)").

Definition encrypt_chunk_impl (e : t) (chunk : Chunk) (aad : ChunkAad) (r : R)
    : VaultResult bytes * R :=
  encrypt_with_aad e (data chunk) aad r.

Definition decrypt_chunk_impl (e : t) (encrypted_data : bytes) (aad : ChunkAad)
    : VaultResult bytes :=
  decrypt_with_aad e encrypted_data aad.

#[global] Instance engine : EncryptionEngine R t := {|
  encrypt := encrypt_raw;
  decrypt := decrypt_raw;
  key_id := x_key_id;
  encrypt_chunk := encrypt_chunk_impl;
  decrypt_chunk := decrypt_chunk_impl;
|}.
End Ops.
End XChaChaChunkEngine.

Module AesEncryptionEngine.

Record t : Type := { cipher : bytes; a_key_id : bytes }.

Definition NONCE_SIZE : Z := 12.
Definition KEY_SIZE : Z := 32.

Section Ops.
  Context `{HashOps, HexOps, AeadOps, Argon2Ops} {R : Type} `{RngOps R}.

Definition new (key : bytes) : VaultResult t :=
  if negb (Zlen key =? KEY_SIZE) then Err (Key "AES-256 key must be {} bytes, got {}")
  else Ok {| cipher := key; a_key_id := take 16 (ChunkEngine.compute_hash key) |}.

Definition generate_key (r : R) : bytes * R := fill_bytes (Z.to_nat KEY_SIZE) r.

(** [Params::new] accepts these constants. *)
Definition derive_key (passphrase salt : bytes) : VaultResult bytes :=
  ok_or (argon2id 65536 3 4 (Z.to_nat KEY_SIZE) passphrase salt)
    (Key "Key derivation failed: {}").

Definition generate_salt (r : R) : bytes * R := fill_bytes 16 r.

Definition encrypt_raw (e : t) (plaintext : bytes) (r : R) : VaultResult bytes * R :=
  let '(nonce_bytes, r) := fill_bytes (Z.to_nat NONCE_SIZE) r in
  (let? ciphertext := ok_or (aead_encrypt Aes256Gcm (cipher e) nonce_bytes [] plaintext)
     (Encryption "AES encryption failed: {}") in
   Ok (nonce_bytes ++ ciphertext), r).

Definition decrypt_raw (e : t) (ciphertext : bytes) : VaultResult bytes :=
  if Zlen ciphertext <? NONCE_SIZE
  then Err (Decryption "Ciphertext too short (missing nonce)")
  else
    let nonce := take (Z.to_nat NONCE_SIZE) ciphertext in
    let encrypted := drop (Z.to_nat NONCE_SIZE) ciphertext in
    ok_or (aead_decrypt Aes256Gcm (cipher e) nonce [] encrypted)
      (Decryption "AES decryption failed: {}").

Definition encrypt_chunk_impl (e : t) (chunk : Chunk) (aad : ChunkAad) (r : R)
    : VaultResult bytes * R :=
  match check aad with
  | Err err => (Err err, r)
  | Ok _ =>
      let '(nonce_bytes, r) := fill_bytes (Z.to_nat NONCE_SIZE) r in
      (let? ciphertext :=
         ok_or (aead_encrypt Aes256Gcm (cipher e) nonce_bytes (canonical_aad_bytes aad) (data chunk))
           (Encryption "AES encryption failed: {}") in
       Ok (nonce_bytes ++ ciphertext), r)
  end.

Definition decrypt_chunk_impl (e : t) (encrypted_data : bytes) (aad : ChunkAad)
    : VaultResult bytes :=
  if Zlen encrypted_data <? NONCE_SIZE
  then Err (Decryption "Ciphertext too short (missing nonce)")
  else
    let? _ := check aad in
    let nonce := take (Z.to_nat NONCE_SIZE) encrypted_data in
    let encrypted := drop (Z.to_nat NONCE_SIZE) encrypted_data in
    ok_or (aead_decrypt Aes256Gcm (cipher e) nonce (canonical_aad_bytes aad) encrypted)
      (Decryption "AES decryption failed (tampered, wrong key, or chunk-identity/AAD mismatch): {}").

#[global] Instance engine : EncryptionEngine R t := {|
  encrypt := encrypt_raw;
  decrypt := decrypt_raw;
  key_id := a_key_id;
  encrypt_chunk := encrypt_chunk_impl;
  decrypt_chunk := decrypt_chunk_impl;
|}.
End Ops.
End AesEncryptionEngine.

(** ** The contract of the trait *)

(** [usable e] is what the constructors establish; [limit] is the longest
    plaintext of the engine's cipher. *)
Class EncryptionEngineLaws (R E : Type) `{EncryptionEngine R E} (usable : E -> Prop)
    (limit : Z) : Prop := {
  law_encrypt_decrypt e p (r : R) :
    usable e -> Zlen p <= limit ->
    exists c r', encrypt e p r = (Ok c, r') /\ decrypt e c = Ok p;
  law_chunk_roundtrip e ch aad (r : R) :
    usable e -> check aad = Ok tt -> Zlen (data ch) <= limit ->
    exists c r', encrypt_chunk e ch aad r = (Ok c, r') /\ decrypt_chunk e c aad = Ok (data ch);
  law_chunk_checked e ch aad (r : R) c :
    (encrypt_chunk e ch aad r).1 = Ok c -> check aad = Ok tt;
  law_open_checked e c aad p : decrypt_chunk e c aad = Ok p -> check aad = Ok tt;
}.

Definition xchacha_usable (e : XChaChaChunkEngine.t) : Prop :=
  XChaChaChunkEngine.emit_version e = V3_REPO_UID_KEY_VERSION.

Section XChaCha.
  Context `{HashLaws, HexLaws, AeadLaws} {R : Type} `{RngLaws R}.
  Import XChaChaChunkEngine.

Lemma version_of_3 rest : version_of (as_u8 3 :: rest) = Ok RepoUidKeyVersionV3.
Proof. done. Qed.

Lemma open_layout_v3 n ct :
  length n = 24%nat -> 16 <= Zlen ct -> open_layout (as_u8 3 :: n ++ ct) = Ok tt.
Proof.
  intros Hn Hc. unfold open_layout. rewrite version_of_3. cbn [rbind].
  cbn [is_xchacha20_poly1305_layout negb].
  replace (Zlen (as_u8 3 :: n ++ ct) <? OVERHEAD) with false; [done|].
  symmetry. apply Z.ltb_ge. cbn [length]. rewrite length_app.
  unfold OVERHEAD, VERSION_SIZE, NONCE_SIZE, TAG_SIZE. lia.
Qed.

Lemma layout_parts (v : byte) (n ct : bytes) :
  length n = 24%nat ->
  slice 1 (1 + NONCE_SIZE) (v :: n ++ ct) = n /\
  drop (Z.to_nat (1 + NONCE_SIZE)) (v :: n ++ ct) = ct.
Proof.
  intros Hn. split.
  - apply (slice_app_mid [v] n ct); [done|]. by rewrite Hn.
  - change (Z.to_nat (1 + NONCE_SIZE)) with (Datatypes.S 24). cbn [skipn].
    by rewrite <- Hn, drop_app_length.
Qed.

Lemma derive_content_key_ok k :
  exists ck, derive_content_key k = Ok ck /\ length ck = 32%nat.
Proof.
  unfold derive_content_key.
  destruct (hkdf_sha256_Some None k CONTENT_KEY_INFO (Z.to_nat KEY_SIZE)) as (o & -> & Hl);
    [done|]. exists o. done.
Qed.

Lemma new_usable k : exists e, new k = Ok e /\ xchacha_usable e.
Proof.
  unfold new. destruct (derive_content_key_ok k) as (ck & -> & Hl). cbn [rbind].
  unfold from_content_key. rewrite Hl. cbn. eexists. split; [done|]. done.
Qed.

(** What a seal with a given nonce returns. *)
Lemma encrypt_with_nonce_ok e p n aad c :
  encrypt_with_nonce e p n aad = Ok c <->
  check aad = Ok tt /\ exists ct,
    aead_encrypt XChaCha20Poly1305 (cipher e) n
      (as_u8 (emit_version e) :: canonical_aad_bytes aad) p = Some ct /\
    c = as_u8 (emit_version e) :: n ++ ct.
Proof.
  unfold encrypt_with_nonce, cipher_aad. destruct (check aad) as [[]|err]; cbn [rbind].
  - destruct (aead_encrypt _ _ _ _ _) as [ct|]; cbn.
    + split; [intros [= <-]; eauto | by intros (_ & ? & [= <-] & ->)].
    + split; [done | by intros (_ & ? & ? & _)].
  - split; [done | by intros [? _]].
Qed.

(** Opening a well-formed v3 blob is opening its ciphertext. *)
Lemma decrypt_with_aad_layout e n ct aad :
  length n = 24%nat -> 16 <= Zlen ct ->
  decrypt_with_aad e (as_u8 3 :: n ++ ct) aad =
  (let? _ := check aad in
   ok_or (aead_decrypt XChaCha20Poly1305 (cipher e) n
            (as_u8 3 :: canonical_aad_bytes aad) ct)
     (Decryption "XChaCha20-Poly1305 authentication failed (tampered, wrong key, or chunk-identity/AAD mismatch)")).
Proof.
  intros Hn Hc. unfold decrypt_with_aad. rewrite open_layout_v3 by done. cbn [rbind hd].
  unfold cipher_aad. destruct (check aad) as [[]|]; cbn [rbind]; [|done].
  by destruct (layout_parts (as_u8 3) n ct Hn) as [-> ->].
Qed.

Lemma encrypt_with_nonce_decrypt e p n aad c :
  xchacha_usable e -> length n = 24%nat ->
  encrypt_with_nonce e p n aad = Ok c -> decrypt_with_aad e c aad = Ok p.
Proof.
  intros Hv Hn (Hck & ct & Ect & ->)%encrypt_with_nonce_ok. rewrite Hv in *.
  change V3_REPO_UID_KEY_VERSION with 3 in *.
  pose proof (aead_encrypt_length _ _ _ _ _ _ Ect) as Hl. unfold Interfaces.TAG_LEN in Hl.
  rewrite decrypt_with_aad_layout by (done || lia). rewrite Hck. cbn [rbind].
  by rewrite (aead_decrypt_encrypt _ _ _ _ _ _ Ect).
Qed.

#[global] Instance xchacha_laws :
  EncryptionEngineLaws R t xchacha_usable (aead_max XChaCha20Poly1305).
Proof.
  split; cbn [encrypt decrypt encrypt_chunk decrypt_chunk engine].
  - intros e p r Hv Hp. unfold encrypt_raw.
    pose proof (fill_bytes_length (Z.to_nat NONCE_SIZE) r) as Hn.
    destruct (fill_bytes _ r) as [n r']. cbn in Hn.
    destruct (aead_encrypt_Some XChaCha20Poly1305 (cipher e) n [] p Hp) as [ct Ect].
    rewrite Ect. cbn. eexists _, r'. split; [done|]. rewrite Hv.
    pose proof (aead_encrypt_length _ _ _ _ _ _ Ect) as Hl. unfold Interfaces.TAG_LEN in Hl.
    unfold decrypt_raw. change V3_REPO_UID_KEY_VERSION with 3.
    rewrite open_layout_v3 by (done || lia). cbn [rbind].
    destruct (layout_parts (as_u8 3) n ct Hn) as [-> ->].
    by rewrite (aead_decrypt_encrypt _ _ _ _ _ _ Ect).
  - intros e ch aad r Hv Hck Hp. unfold encrypt_chunk_impl, encrypt_with_aad.
    pose proof (fill_bytes_length (Z.to_nat NONCE_SIZE) r) as Hn.
    destruct (fill_bytes _ r) as [n r']. cbn in Hn.
    destruct (aead_encrypt_Some XChaCha20Poly1305 (cipher e) n
      (as_u8 (emit_version e) :: canonical_aad_bytes aad) (data ch) Hp) as [ct Ect].
    assert (E : encrypt_with_nonce e (data ch) n aad = Ok (as_u8 (emit_version e) :: n ++ ct))
      by (apply encrypt_with_nonce_ok; eauto).
    eexists _, r'. split; [by rewrite E|]. by apply (encrypt_with_nonce_decrypt e _ n).
  - intros e ch aad r c. unfold encrypt_chunk_impl, encrypt_with_aad.
    destruct (fill_bytes _ r) as [n r']. cbn. by intros [? _]%encrypt_with_nonce_ok.
  - intros e c aad p. unfold decrypt_chunk_impl, decrypt_with_aad, cipher_aad. intros E.
    inv_bind. by destruct (check aad) as [[]|].
Qed.
End XChaCha.

Section Aes.
  Context `{HashLaws, HexLaws, AeadLaws, Argon2Ops} {R : Type} `{RngLaws R}.
  Import AesEncryptionEngine.

Lemma aes_parts (n ct : bytes) :
  length n = 12%nat ->
  (Zlen (n ++ ct) <? NONCE_SIZE) = false /\
  take (Z.to_nat NONCE_SIZE) (n ++ ct) = n /\ drop (Z.to_nat NONCE_SIZE) (n ++ ct) = ct.
Proof.
  intros Hn. change (Z.to_nat NONCE_SIZE) with 12%nat. split.
  - apply Z.ltb_ge. rewrite length_app. unfold NONCE_SIZE. lia.
  - rewrite <- Hn. by rewrite take_app_length, drop_app_length.
Qed.

#[global] Instance aes_laws :
  EncryptionEngineLaws R t (fun _ => True) (aead_max Aes256Gcm).
Proof.
  split; cbn [encrypt decrypt encrypt_chunk decrypt_chunk engine].
  - intros e p r _ Hp. unfold encrypt_raw.
    pose proof (fill_bytes_length (Z.to_nat NONCE_SIZE) r) as Hn.
    destruct (fill_bytes _ r) as [n r']. cbn in Hn.
    destruct (aead_encrypt_Some Aes256Gcm (cipher e) n [] p Hp) as [ct Ect].
    rewrite Ect. cbn [ok_or rbind]. eexists _, r'. split; [done|].
    unfold decrypt_raw. destruct (aes_parts n ct Hn) as (-> & -> & ->).
    by rewrite (aead_decrypt_encrypt _ _ _ _ _ _ Ect).
  - intros e ch aad r _ Hck Hp. unfold encrypt_chunk_impl. rewrite Hck.
    pose proof (fill_bytes_length (Z.to_nat NONCE_SIZE) r) as Hn.
    destruct (fill_bytes _ r) as [n r']. cbn in Hn.
    destruct (aead_encrypt_Some Aes256Gcm (cipher e) n (canonical_aad_bytes aad) (data ch) Hp)
      as [ct Ect].
    rewrite Ect. cbn [ok_or rbind]. eexists _, r'. split; [done|].
    unfold decrypt_chunk_impl. destruct (aes_parts n ct Hn) as (-> & -> & ->).
    rewrite Hck. cbn [rbind]. by rewrite (aead_decrypt_encrypt _ _ _ _ _ _ Ect).
  - intros e ch aad r c. unfold encrypt_chunk_impl. by destruct (check aad) as [[]|].
  - intros e c aad p. unfold decrypt_chunk_impl. destruct (Zlen c <? NONCE_SIZE); [done|].
    intros E. inv_bind. by destruct (check aad) as [[]|].
Qed.
End Aes.

(** ** Properties *)

(** For every root key, identity without NUL, plaintext within the cipher's
    limit and random state, the chunk engine seals: the blob is the byte 3, a
    24-byte nonce and the AEAD output, 41 bytes longer than the plaintext, and
    it opens under the same identity to the same plaintext. *)
Theorem xchacha_seal_open `{HashLaws, HexLaws, AeadLaws} {R} `{RngLaws R} k_repo ch aad (r : R) :
  check aad = Ok tt -> Zlen (data ch) <= aead_max XChaCha20Poly1305 ->
  exists e blob r', XChaChaChunkEngine.new k_repo = Ok e /\
    encrypt_chunk e ch aad r = (Ok blob, r') /\
    Zlen blob = Zlen (data ch) + XChaChaChunkEngine.OVERHEAD /\
    version_of blob = Ok RepoUidKeyVersionV3 /\
    decrypt_chunk (R:=R) e blob aad = Ok (data ch).
Proof.
  intros Hck Hp. destruct (new_usable k_repo) as (e & -> & Hu).
  destruct (law_chunk_roundtrip e ch aad r Hu Hck Hp) as (blob & r' & E & D).
  exists e, blob, r'. split; [done|]. split; [done|].
  cbn in E. unfold XChaChaChunkEngine.encrypt_chunk_impl, XChaChaChunkEngine.encrypt_with_aad in E.
  pose proof (fill_bytes_length (Z.to_nat XChaChaChunkEngine.NONCE_SIZE) r) as Hn.
  destruct (fill_bytes _ r) as [n r1]. cbn in Hn. injection E as E _.
  apply encrypt_with_nonce_ok in E as (_ & ct & Ect & ->). rewrite Hu in D |- *.
  split; [|by split].
  apply aead_encrypt_length in Ect. cbn [length]. rewrite length_app, Hn.
  unfold XChaChaChunkEngine.OVERHEAD, XChaChaChunkEngine.VERSION_SIZE,
    XChaChaChunkEngine.NONCE_SIZE, XChaChaChunkEngine.TAG_SIZE, Interfaces.TAG_LEN in *. lia.
Qed.

Definition demo_aad : ChunkAad := for_content_chunk (b "5f0c9e7a") (b "cafe") 5.

Lemma xchacha_seal_open_witness :
  exists e blob r', XChaChaChunkEngine.new (b "k_repo") = Ok e /\
    encrypt_chunk e (mk_chunk [] (b "hello") 0) demo_aad 0 = (Ok blob, r') /\
    decrypt_chunk (R:=Z) e blob demo_aad = Ok (b "hello").
Proof.
  destruct (xchacha_seal_open (b "k_repo") (mk_chunk [] (b "hello") 0) demo_aad 0)
    as (e & blob & r' & E1 & E2 & _ & _ & E3); [reflexivity | by vm_compute |].
  exists e, blob, r'. split; [exact E1|]. split; [exact E2 | exact E3].
Defined.


(** A cipher that ignores its associated data, for which the premises hold. *)
Definition forgeable_aead : AeadOps := {|
  aead_encrypt alg k n a p :=
    if Zlen p <=? aead_max alg then Some (p ++ toy_tag alg k n [] p) else None;
  aead_decrypt alg k n a c := aead_decrypt (AeadOps := toy_aead) alg k n [] c;
|}.

Lemma forgeable_aead_laws : @AeadLaws forgeable_aead.
Proof.
  split; cbn [aead_encrypt aead_decrypt forgeable_aead]; intros.
  - by apply (@aead_decrypt_encrypt toy_aead toy_aead_laws alg k n []).
  - by apply (@aead_encrypt_decrypt toy_aead toy_aead_laws alg k n []).
  - by apply (@aead_encrypt_length toy_aead toy_aead_laws alg k n []).
  - by apply (@aead_encrypt_Some toy_aead toy_aead_laws alg k n []).
Qed.


(** Every way [decrypt_with_aad] can end: an empty blob, a version byte other
    than 3 or fewer than 41 bytes is a decryption error; then a NUL in the
    identity is refused; otherwise the cipher decides, and its refusal is a
    decryption error.  It never misreads another format. *)
Theorem xchacha_open_cases `{HashLaws, HexLaws, AeadLaws}
    (e : XChaChaChunkEngine.t) blob aad :
  (head blob <> Some (as_u8 3) \/ Zlen blob < XChaChaChunkEngine.OVERHEAD ->
     exists m, XChaChaChunkEngine.decrypt_with_aad e blob aad = Err (Decryption m)) /\
  (head blob = Some (as_u8 3) -> XChaChaChunkEngine.OVERHEAD <= Zlen blob ->
     (exists err, check aad = Err err /\
        XChaChaChunkEngine.decrypt_with_aad e blob aad = Err err) \/
     (check aad = Ok tt /\
        match aead_decrypt XChaCha20Poly1305 (XChaChaChunkEngine.cipher e) (slice 1 25 blob)
                (as_u8 3 :: canonical_aad_bytes aad) (drop 25 blob) with
        | Some p => XChaChaChunkEngine.decrypt_with_aad e blob aad = Ok p
        | None => exists m, XChaChaChunkEngine.decrypt_with_aad e blob aad = Err (Decryption m)
        end)).
Proof.
  unfold XChaChaChunkEngine.decrypt_with_aad, XChaChaChunkEngine.open_layout,
    XChaChaChunkEngine.cipher_aad.
  destruct (version_of_spec blob) as [(rest & -> & ->)|(Hh & m & ->)]; cbn [rbind].
  2:{ split; [eauto | done]. }
  cbn [is_xchacha20_poly1305_layout negb head hd].
  destruct (Z.ltb_spec (Zlen (as_u8 3 :: rest)) XChaChaChunkEngine.OVERHEAD) as [Hs|Hl].
  { split; [eauto|]. lia. }
  split; [intros [?|?]; [done|lia]|]. intros _ _. cbn [rbind].
  destruct (check aad) as [[]|err]; cbn [rbind]; [right; split; [done|] | left; eauto].
  change (1 + XChaChaChunkEngine.NONCE_SIZE) with 25.
  change (Z.to_nat 25) with 25%nat. destruct (aead_decrypt _ _ _ _ _); cbn; eauto.
Qed.

Lemma xchacha_open_cases_witness :
  exists m, XChaChaChunkEngine.decrypt_with_aad
    {| XChaChaChunkEngine.cipher := b "k"; XChaChaChunkEngine.x_key_id := [];
       XChaChaChunkEngine.emit_version := 3 |} [as_u8 2; as_u8 9] demo_aad = Err (Decryption m).
Proof.
  apply (xchacha_open_cases {| XChaChaChunkEngine.cipher := b "k";
    XChaChaChunkEngine.x_key_id := []; XChaChaChunkEngine.emit_version := 3 |}
    [as_u8 2; as_u8 9] demo_aad). by left.
Defined.

(** Both engines implement the contract of the trait: raw and chunk seals
    open again, and neither engine seals or opens a chunk whose identity
    contains a NUL. *)
Theorem engines_satisfy_contract `{HashLaws, HexLaws, AeadLaws, Argon2Ops} {R} `{RngLaws R} :
  EncryptionEngineLaws R XChaChaChunkEngine.t xchacha_usable (aead_max XChaCha20Poly1305) /\
  EncryptionEngineLaws R AesEncryptionEngine.t (fun _ => True) (aead_max Aes256Gcm) /\
  (forall k, exists e, XChaChaChunkEngine.new k = Ok e /\ xchacha_usable e).
Proof. split; [apply _|]. split; [apply _ | apply new_usable]. Qed.

Lemma engines_satisfy_contract_witness :
  exists e, XChaChaChunkEngine.new (b "repository key") = Ok e /\ xchacha_usable e.
Proof. exact (proj2 (proj2 (engines_satisfy_contract (R := Z))) (b "repository key")). Defined.
