(* ===== verification/PasskeyError.v ===== *)
(** [passkey-core/src/error.rs]: the error type of passkey-core.  A message that
    formats values is kept as its format string, and so is an I/O error's text. *)

From S2P Require Import Prelude Bytes Fs.

Inductive PasskeyError : Type :=
  | IdentityNotFound
  | IdentityExists (p : string)
  | KeyGeneration (m : string)
  | KeyLoad (m : string)
  | KeySave (m : string)
  | InvalidPublicKey (m : string)
  | InvalidSignature
  | InvalidMachineId
  | ChallengeExpired
  | InvalidChallenge
  | InvalidToken
  | TokenExpired
  | InvalidRecoveryCode (m : string)
  | CredentialStore (m : string)
  | NoActiveUser
  | UserNotFound (u : bytes)
  | Io (e : io_error)
  | OpenPgp (m : string)
  | Other (m : string).

#[export] Instance PasskeyError_eq_dec : EqDecision PasskeyError.
Proof. solve_decision. Defined.

(** [Display] *)
Definition to_string (e : PasskeyError) : string :=
  match e with
  | IdentityNotFound => "Identity not found"
  | IdentityExists p => "Identity already exists at " +:+ p
  | KeyGeneration m => "Failed to generate key: " +:+ m
  | KeyLoad m => "Failed to load key: " +:+ m
  | KeySave m => "Failed to save key: " +:+ m
  | InvalidPublicKey m => "Invalid public key: " +:+ m
  | InvalidSignature => "Invalid signature"
  | InvalidMachineId => "Invalid machine ID format"
  | ChallengeExpired => "Challenge expired"
  | InvalidChallenge => "Challenge is not a well-formed nonce"
  | InvalidToken => "Invalid token"
  | TokenExpired => "Token expired"
  | InvalidRecoveryCode m => "Invalid recovery code: " +:+ m
  | CredentialStore m => "Credential store error: " +:+ m
  | NoActiveUser => "No active user"
  | UserNotFound u => "User not found: " +:+ text u
  | Io _ => "IO error: {0}"
  | OpenPgp m => "OpenPGP error: " +:+ m
  | Other m => m
  end.
