(* ===== verification/CryptoError.v ===== *)
(** [gitcellar-crypto/src/error.rs]: the error type of gitcellar-crypto and its
    conversion from passkey-core's. *)

From S2P Require Import Prelude Bytes Fs PasskeyError.

Inductive CryptoError : Type :=
  | IdentityNotFound
  | IdentityExists (p : string)
  | KeyGeneration (m : string)
  | KeyLoad (m : string)
  | KeySave (m : string)
  | Encryption (m : string)
  | Decryption (m : string)
  | NoEncryptionKey
  | NoSigningKey
  | InvalidPassword
  | BundleFormat (m : string)
  | InvalidRecoveryCode (m : string)
  | CloudBackup (m : string)
  | Io (e : io_error)
  | OpenPgp (m : string)
  | Serialization
  | Broadcast (m : string)
  | Other (m : string).

#[export] Instance CryptoError_eq_dec : EqDecision CryptoError.
Proof. solve_decision. Defined.

(** [Display] *)
Definition to_string (e : CryptoError) : string :=
  match e with
  | IdentityNotFound => "Identity not found. Run `gitcellar init` to create one."
  | IdentityExists p => "Identity already exists at " +:+ p +:+ ". Use --force to overwrite."
  | KeyGeneration m => "Failed to generate key: " +:+ m
  | KeyLoad m => "Failed to load key: " +:+ m
  | KeySave m => "Failed to save key: " +:+ m
  | Encryption m => "Encryption failed: " +:+ m
  | Decryption m => "Decryption failed: " +:+ m
  | NoEncryptionKey => "No encryption-capable key found in identity"
  | NoSigningKey => "No signing-capable key found in identity"
  | InvalidPassword => "Invalid password"
  | BundleFormat m => "Invalid bundle format: " +:+ m
  | InvalidRecoveryCode m => "Invalid recovery code: " +:+ m
  | CloudBackup m => "Cloud backup error: " +:+ m
  | Io _ => "IO error: {0}"
  | OpenPgp m => "OpenPGP error: " +:+ m
  | Serialization => "Serialization error: {0}"
  | Broadcast m => "Broadcast error: " +:+ m
  | Other m => m
  end.

Definition from_passkey (err : PasskeyError.PasskeyError) : CryptoError :=
  match err with
  | PasskeyError.IdentityNotFound => IdentityNotFound
  | PasskeyError.IdentityExists path => IdentityExists path
  | PasskeyError.KeyGeneration msg => KeyGeneration msg
  | PasskeyError.KeyLoad msg => KeyLoad msg
  | PasskeyError.KeySave msg => KeySave msg
  | PasskeyError.InvalidRecoveryCode msg => InvalidRecoveryCode msg
  | PasskeyError.NoActiveUser => IdentityNotFound
  | PasskeyError.UserNotFound _ => IdentityNotFound
  | PasskeyError.Io e => Io e
  | PasskeyError.OpenPgp msg => OpenPgp msg
  | PasskeyError.Other msg => Other msg
  | PasskeyError.InvalidPublicKey msg => KeyLoad msg
  | PasskeyError.InvalidSignature => Other "Invalid signature"
  | PasskeyError.InvalidMachineId => Other "Invalid machine ID"
  | PasskeyError.ChallengeExpired => Other "Challenge expired"
  | PasskeyError.InvalidChallenge => Other "Challenge is not a well-formed nonce"
  | PasskeyError.InvalidToken => Other "Invalid token"
  | PasskeyError.TokenExpired => Other "Token expired"
  | PasskeyError.CredentialStore msg => Other ("Credential store: " +:+ msg)
  end.

(** Only a missing user becomes "identity not found": a load failure, an I/O
    error or a damaged key is never reported as an absent identity. *)
Lemma from_passkey_not_found err :
  from_passkey err = IdentityNotFound <->
  err = PasskeyError.IdentityNotFound \/ err = PasskeyError.NoActiveUser \/
  exists u, err = PasskeyError.UserNotFound u.
Proof. destruct err; cbn; split; try done; eauto; intros [?|[?|[? ?]]]; done. Qed.
