(* ===== verification/Canonical.v ===== *)
(** [gitcellar-crypto/src/canonical.rs]: the length-prefixed field encoder every
    signed statement uses, and why it cannot be reinterpreted. *)

From S2P Require Import Prelude Bytes.

Definition lp_push (out s : bytes) : bytes :=
  out ++ dec (Zlen s) ++ [COLON] ++ s ++ [NL].

(** A canonical: its fields pushed one after the other. *)
Definition lp_fields (fields : list bytes) : bytes := foldl lp_push [] fields.

(** ** Lemmas *)

Definition lp (s : bytes) : bytes := dec (Zlen s) ++ COLON :: s ++ [NL].

Lemma lp_push_lp out s : lp_push out s = out ++ lp s.
Proof. done. Qed.

Lemma foldl_lp_push fs : forall out, foldl lp_push out fs = out ++ concat (map lp fs).
Proof.
  induction fs as [|f fs IH]; intros out; cbn [foldl map concat]; [by rewrite app_nil_r|].
  by rewrite IH, lp_push_lp, <- app_assoc.
Qed.

Lemma lp_fields_concat fs : lp_fields fs = concat (map lp fs).
Proof. unfold lp_fields. by rewrite foldl_lp_push. Qed.

Lemma lp_fields_cons f fs : lp_fields (f :: fs) = lp f ++ lp_fields fs.
Proof. by rewrite !lp_fields_concat. Qed.

(** A field can be read back from the front of any continuation. *)
Lemma lp_inj s s' r r' : lp s ++ r = lp s' ++ r' -> s = s' /\ r = r'.
Proof.
  unfold lp. rewrite <- !app_assoc. intros E. cbn in E.
  apply sep_unique in E as [Hl E]; [|apply dec_no_colon|apply dec_no_colon].
  apply dec_inj in Hl. rewrite <- !app_assoc in E.
  apply app_inj_length in E as [-> E]; [|lia]. by injection E.
Qed.

(** The encoding is injection-safe: two field lists of any lengths with the
    same bytes are the same list, whatever the fields contain. *)
Lemma lp_fields_inj fs fs' : lp_fields fs = lp_fields fs' -> fs = fs'.
Proof.
  revert fs'; induction fs as [|f fs IH]; intros [|f' fs'] E.
  - done.
  - rewrite lp_fields_cons in E. unfold lp in E. symmetry in E.
    rewrite <- app_assoc in E. apply app_eq_nil in E as [_ E]. done.
  - rewrite lp_fields_cons in E. unfold lp in E.
    rewrite <- app_assoc in E. apply app_eq_nil in E as [_ E]. done.
  - rewrite !lp_fields_cons in E. apply lp_inj in E as [-> E]. f_equal. by apply IH.
Qed.
