(* ===== verification/Challenge.v ===== *)
(** [passkey-core/src/auth/challenge.rs]: authentication challenges and the bytes
    a challenge signature covers. *)

From S2P Require Import Prelude Bytes Interfaces Toy Canonical PasskeyError.

Inductive ChallengePurpose : Type := Login | RegistrationProof.

#[export] Instance ChallengePurpose_eq_dec : EqDecision ChallengePurpose.
Proof. solve_decision. Defined.

Definition domain (p : ChallengePurpose) : bytes :=
  match p with
  | Login => b "gc-auth-login-v1"
  | RegistrationProof => b "gc-auth-registration-pop-v1"
  end.

Definition is_well_formed_challenge (challenge : bytes) : bool :=
  (Zlen challenge =? 64) && forallb is_lower_hex challenge.

Definition challenge_signing_payload (purpose : ChallengePurpose) (challenge : bytes)
    : result PasskeyError bytes :=
  if negb (is_well_formed_challenge challenge) then Err InvalidChallenge
  else Ok (foldl (fun out field => out ++ dec (Zlen field) ++ [COLON] ++ field ++ [NL])
             [] [domain purpose; challenge]).

Section Generate.
  Context `{HexOps} {R : Type} `{RngOps R}.

Definition generate_challenge (r : R) : bytes * R :=
  let '(bs, r) := fill_bytes 32 r in (hex_encode bs, r).

(** [now] is the number of seconds since the epoch, 0 if the clock is before it. *)
Definition generate_timestamped_challenge (now : Z) (r : R) : bytes * R :=
  let '(random_bytes, r) := fill_bytes 24 r in
  (hex_encode (to_be_bytes 8 now) ++ [COLON] ++ hex_encode random_bytes, r).

Definition is_challenge_valid (now : Z) (challenge : bytes) (max_age_secs : Z)
    : result string bool :=
  match split_on COLON challenge with
  | [ts; _] =>
      let? timestamp_bytes := ok_or (hex_decode ts) "Invalid timestamp hex"%string in
      if negb (Zlen timestamp_bytes =? 8) then Err "Invalid timestamp length"%string
      else
        let challenge_time := from_be_bytes timestamp_bytes in
        Ok (Z.max 0 (now - challenge_time) <=? max_age_secs)
  | _ => Err "Invalid challenge format"%string
  end.
End Generate.

(** ** Lemmas *)

Lemma challenge_payload_ok p c bs :
  challenge_signing_payload p c = Ok bs ->
  is_well_formed_challenge c = true /\ bs = lp_fields [domain p; c].
Proof.
  unfold challenge_signing_payload. destruct (is_well_formed_challenge c); [|done].
  intros [= <-]. done.
Qed.

Section Lemmas.
  Context `{HexLaws} {R : Type} `{RngLaws R}.

Lemma generate_challenge_well_formed (r : R) :
  is_well_formed_challenge (generate_challenge r).1 = true.
Proof.
  unfold generate_challenge, is_well_formed_challenge.
  pose proof (fill_bytes_length 32 r) as Hl. destruct (fill_bytes 32 r) as [bs r'].
  cbn in *. rewrite hex_encode_length, Hl. cbn [andb Z.eqb].
  apply forallb_forall. intros c Hc. pose proof (hex_encode_chars bs) as Hf.
  rewrite Forall_forall in Hf. apply Hf. by apply list_elem_of_In.
Qed.

Lemma hex_no_colon x : COLON ∉ hex_encode x.
Proof.
  intros Hin. pose proof (hex_encode_chars x) as Hf. rewrite Forall_forall in Hf.
  by apply Hf in Hin.
Qed.

(** A generated challenge is well formed, so a client will sign it; a
    timestamped challenge is not, so no client signs one, and it is accepted
    exactly while its age is at most the limit. *)
Theorem challenge_lifecycle (r : R) issued now max_age :
  in_u64 issued -> in_u64 now ->
  (forall p, is_ok (challenge_signing_payload p (generate_challenge r).1) = true) /\
  let c := (generate_timestamped_challenge issued r).1 in
  (forall p, challenge_signing_payload p c = Err InvalidChallenge) /\
  is_challenge_valid now c max_age = Ok (Z.max 0 (now - issued) <=? max_age).
Proof.
  intros Hi Hn. split.
  { intros p. unfold challenge_signing_payload. by rewrite generate_challenge_well_formed. }
  cbn zeta. unfold generate_timestamped_challenge.
  destruct (fill_bytes 24 r) as [bs r']. cbn [fst]. split.
  - intros p. unfold challenge_signing_payload, is_well_formed_challenge.
    assert (Hf : forallb is_lower_hex
      (hex_encode (to_be_bytes 8 issued) ++ [COLON] ++ hex_encode bs) = false).
    { rewrite !forallb_app. cbn. by rewrite andb_false_r. }
    by rewrite Hf, andb_false_r.
  - unfold is_challenge_valid. cbn [app]. rewrite split_on_app, split_on_no by apply hex_no_colon.
    rewrite hex_decode_encode. cbn [ok_or rbind]. rewrite length_to_be_bytes. cbn [negb].
    rewrite from_to_be_bytes; [done|]. unfold in_u64, U64_MAX in Hi. cbn. lia.
Qed.
End Lemmas.

Lemma challenge_lifecycle_witness :
  is_challenge_valid 1000 (generate_timestamped_challenge 900 7).1 60 = Ok false.
Proof.
  apply (challenge_lifecycle 7 900 1000 60); by vm_compute.
Defined.
