(* ===== verification/Master.v ===== *)
(** [gitcellar-crypto/src/master.rs]: the recovery master key, derived from the
    recovery phrase and never stored. *)

From S2P Require Import Prelude Bytes Utf8 Interfaces Toy.

Inductive MasterKeyError : Type :=
  | InvalidPhrase (m : string)
  | HkdfFailed (m : string)
  | InvalidPublicKey (m : string)
  | SignatureFailed.

#[export] Instance MasterKeyError_eq_dec : EqDecision MasterKeyError.
Proof. solve_decision. Defined.

Definition DERIVATION_INFO : bytes := b "gitcellar-master-v1".
Definition VERSION : Z := 1.

(** [Mnemonic::parse_in_normalized] followed by [to_seed("")]: the 64-byte seed
    of a valid phrase. *)
Class MnemonicOps : Type := { mnemonic_seed : bytes -> option bytes }.

Record MaterializedMaster : Type := { secret_bytes : bytes; public_key : bytes }.

Section Master.
  Context `{HashOps, Ed25519Ops, UnicodeOps, MnemonicOps}.

Definition normalize_phrase (phrase : bytes) : bytes :=
  join (b " ") (split_whitespace (str_to_lowercase phrase)).

Definition from_phrase (phrase : bytes) : result MasterKeyError MaterializedMaster :=
  let normalized := normalize_phrase phrase in
  let? seed := ok_or (mnemonic_seed normalized) (InvalidPhrase "{}") in
  let? secret := ok_or (hkdf_sha256 None seed DERIVATION_INFO 32) (HkdfFailed "{}") in
  Ok {| secret_bytes := secret; public_key := ed_public secret |}.

(** The second component is the caller's buffer, wiped in place. *)
Definition from_secret_bytes (secret : bytes)
    : result MasterKeyError MaterializedMaster * bytes :=
  (Ok {| secret_bytes := secret; public_key := ed_public secret |},
   replicate (length secret) NUL).

Definition sign (m : MaterializedMaster) (msg : bytes) : bytes := ed_sign (secret_bytes m) msg.

(** The key is a curve point here: [VerifyingKey::from_bytes] has accepted it. *)
Definition verify_with_verifying_key (verifying_key msg sig : bytes) : result MasterKeyError unit :=
  if ed_verify_strict verifying_key msg sig then Ok tt else Err SignatureFailed.

(** [VerifyingKey::from_bytes] then [verify_strict]. *)
Definition verify_with_pubkey (pubkey msg sig : bytes) : result MasterKeyError unit :=
  if negb (ed_point pubkey) then Err (InvalidPublicKey "{}")
  else if ed_verify_strict pubkey msg sig then Ok tt
  else Err SignatureFailed.
End Master.

(** A master whose public key is that of its secret, as both constructors build. *)
Definition master_ok `{Ed25519Ops} (m : MaterializedMaster) : Prop :=
  public_key m = ed_public (secret_bytes m).

Lemma from_phrase_ok `{HashOps, Ed25519Ops, UnicodeOps, MnemonicOps} p m :
  from_phrase p = Ok m -> master_ok m.
Proof. unfold from_phrase. intros E. inv_bind. done. Qed.

Lemma sign_verify `{Ed25519Laws} m msg :
  master_ok m -> verify_with_pubkey (public_key m) msg (sign m msg) = Ok tt.
Proof. intros ->. unfold verify_with_pubkey, sign. by rewrite ed_point_public, ed_verify_sign. Qed.

Lemma verify_with_pubkey_ok `{Ed25519Ops} pk msg sig :
  verify_with_pubkey pk msg sig = Ok tt <->
  ed_point pk = true /\ ed_verify_strict pk msg sig = true.
Proof.
  unfold verify_with_pubkey. destruct (ed_point pk), (ed_verify_strict pk msg sig); cbn;
    split; try done; by intros [? ?].
Qed.

(** Both constructors give the same key for the same secret; the phrase that
    derived it always gives it back, whatever the spelling differences that
    [normalize_phrase] removes; what it signs verifies under its public key;
    and [from_secret_bytes] leaves the caller's buffer all zero. *)
Theorem master_derivation `{HashLaws, Ed25519Laws, UnicodeOps, MnemonicOps} p q m msg :
  from_phrase p = Ok m -> normalize_phrase q = normalize_phrase p ->
  from_phrase q = Ok m /\
  from_secret_bytes (secret_bytes m) = (Ok m, replicate 32 NUL) /\
  verify_with_pubkey (public_key m) msg (sign m msg) = Ok tt.
Proof.
  intros E Hn. split; [unfold from_phrase in *; by rewrite Hn|].
  split; [|by eapply sign_verify, from_phrase_ok].
  unfold from_phrase in E. destruct (mnemonic_seed _) as [seed|]; [|done]. cbn [ok_or rbind] in E.
  destruct (hkdf_sha256_Some None seed DERIVATION_INFO 32 ltac:(lia)) as (o & Eo & Hl).
  rewrite Eo in E. injection E as <-. unfold from_secret_bytes. cbn [secret_bytes].
  by rewrite Hl.
Qed.

Definition toy_mnemonic : MnemonicOps := {|
  mnemonic_seed p := if Zlen p =? 0 then None else Some (p ++ p) |}.

Lemma master_derivation_witness :
  match @from_phrase _ _ _ toy_mnemonic (b "  ABANDON  art ") with
  | Ok m => @from_phrase _ _ _ toy_mnemonic (b "abandon art") = Ok m
  | Err _ => False end.
Proof.
  destruct (@from_phrase _ _ _ toy_mnemonic (b "  ABANDON  art ")) as [m|e] eqn:E.
  - apply (@master_derivation _ _ _ _ _ toy_mnemonic (b "  ABANDON  art ") (b "abandon art") m []);
      [exact E | by vm_compute].
  - by vm_compute in E.
Defined.
