(* ===== verification/Certs.v ===== *)
(** [gitcellar-crypto/src/device_cert.rs] and [revocation_cert.rs]: certificates
    that enrol and revoke a device, signed by the master or by another device. *)

From S2P Require Import Prelude Bytes Interfaces Toy Master.

Definition MAX_LABEL_BYTES : Z := 64.

Inductive SignerRole : Type := RoleMaster | RoleDevice.

#[export] Instance SignerRole_eq_dec : EqDecision SignerRole.
Proof. solve_decision. Defined.

Module DeviceCert.

Inductive CertError : Type :=
  | LabelTooLong (n : Z)
  | Serialization
  | Deserialization
  | MasterMismatch
  | UnknownSigner
  | SignerRoleMismatch
  | SignatureFailed
  | MasterKey (e : MasterKeyError)
  | InvalidPublicKey
  | UnsupportedVersion (expected got : Z).

Record payload : Type := {
  cert_version : Z;
  device_pubkey : bytes;
  master_pubkey : bytes;
  label : bytes;
  platform : bytes;
  enrolled_at : Z;
  signer_role : SignerRole;
  signer_pubkey : bytes;
}.

Record DeviceCertificate : Type := { body : payload; signature : bytes }.

Section Ops.
  Context `{Ed25519Ops} `{Codec payload} `{Codec DeviceCertificate}.

Definition validate_label (label : bytes) : result CertError unit :=
  if Zlen label >? MAX_LABEL_BYTES then Err (LabelTooLong (Zlen label)) else Ok tt.

Definition encode_payload (p : payload) : result CertError bytes :=
  ok_or (ser p) Serialization.

Definition sign_with_master (master : MaterializedMaster) (device_pubkey label platform : bytes)
    (enrolled_at : Z) : result CertError DeviceCertificate :=
  let? _ := validate_label label in
  let master_pubkey := public_key master in
  let p := {| cert_version := VERSION; device_pubkey := device_pubkey;
              master_pubkey := master_pubkey; label := label; platform := platform;
              enrolled_at := enrolled_at; signer_role := RoleMaster;
              signer_pubkey := master_pubkey |} in
  let? signed_bytes := encode_payload p in
  Ok {| body := p; signature := sign master signed_bytes |}.

(** [signer_secret] is the signing device's Ed25519 seed. *)
Definition sign_with_device (signer_secret master_pubkey device_pubkey label platform : bytes)
    (enrolled_at : Z) : result CertError DeviceCertificate :=
  let? _ := validate_label label in
  let p := {| cert_version := VERSION; device_pubkey := device_pubkey;
              master_pubkey := master_pubkey; label := label; platform := platform;
              enrolled_at := enrolled_at; signer_role := RoleDevice;
              signer_pubkey := ed_public signer_secret |} in
  let? signed_bytes := encode_payload p in
  Ok {| body := p; signature := ed_sign signer_secret signed_bytes |}.

Definition to_cbor (c : DeviceCertificate) : result CertError bytes :=
  ok_or (ser c) Serialization.

Definition from_cbor (bs : bytes) : result CertError DeviceCertificate :=
  ok_or (de bs) Deserialization.

Definition signed_payload_bytes (c : DeviceCertificate) : result CertError bytes :=
  encode_payload (body c).

(** The [match] on the signer role in [verify]. *)
Definition check_signer (p : payload) (master_pubkey : bytes) (eligible : list bytes)
    : result CertError unit :=
  match signer_role p with
  | RoleMaster =>
      if negb (bool_decide (signer_pubkey p = master_pubkey)) then Err SignerRoleMismatch
      else Ok tt
  | RoleDevice =>
      if negb (existsb (fun pk => bool_decide (pk = signer_pubkey p)) eligible)
      then Err UnknownSigner
      else if bool_decide (signer_pubkey p = master_pubkey) then Err SignerRoleMismatch
      else Ok tt
  end.

Definition verify (c : DeviceCertificate) (master_pubkey' : bytes) (eligible : list bytes)
    : result CertError unit :=
  let p := body c in
  if negb (cert_version p =? VERSION)
  then Err (UnsupportedVersion VERSION (cert_version p))
  else if negb (bool_decide (master_pubkey p = master_pubkey')) then Err MasterMismatch
  else
    let? _ := validate_label (label p) in
    let? _ := check_signer p master_pubkey' eligible in
    if negb (ed_point (signer_pubkey p)) then Err InvalidPublicKey
    else
      let? signed_bytes := encode_payload p in
      map_err (fun _ => SignatureFailed)
        (verify_with_verifying_key (signer_pubkey p) signed_bytes (signature c)).
End Ops.
End DeviceCert.

Module RevocationCert.

Inductive RevocationReason : Type := UserInitiated | Compromise | DeviceLost | Rotation.

Inductive RevocationCertError : Type :=
  | Serialization
  | Deserialization
  | MasterMismatch
  | UnknownSigner
  | SignerRoleMismatch
  | SignatureFailed
  | MasterKey (e : MasterKeyError)
  | InvalidPublicKey
  | UnsupportedVersion (expected got : Z).

Record payload : Type := {
  cert_version : Z;
  target_device_pubkey : bytes;
  master_pubkey : bytes;
  revoked_at : Z;
  reason : RevocationReason;
  signer_role : SignerRole;
  signer_pubkey : bytes;
}.

Record RevocationCertificate : Type := { body : payload; signature : bytes }.

Section Ops.
  Context `{Ed25519Ops} `{Codec payload} `{Codec RevocationCertificate}.

Definition encode_payload (p : payload) : result RevocationCertError bytes :=
  ok_or (ser p) Serialization.

Definition sign_with_master (master : MaterializedMaster) (target_device_pubkey : bytes)
    (revoked_at : Z) (reason : RevocationReason)
    : result RevocationCertError RevocationCertificate :=
  let master_pubkey := public_key master in
  let p := {| cert_version := VERSION; target_device_pubkey := target_device_pubkey;
              master_pubkey := master_pubkey; revoked_at := revoked_at; reason := reason;
              signer_role := RoleMaster; signer_pubkey := master_pubkey |} in
  let? signed_bytes := encode_payload p in
  Ok {| body := p; signature := sign master signed_bytes |}.

Definition sign_with_device (signer_secret master_pubkey target_device_pubkey : bytes)
    (revoked_at : Z) (reason : RevocationReason)
    : result RevocationCertError RevocationCertificate :=
  let p := {| cert_version := VERSION; target_device_pubkey := target_device_pubkey;
              master_pubkey := master_pubkey; revoked_at := revoked_at; reason := reason;
              signer_role := RoleDevice; signer_pubkey := ed_public signer_secret |} in
  let? signed_bytes := encode_payload p in
  Ok {| body := p; signature := ed_sign signer_secret signed_bytes |}.

Definition to_cbor (c : RevocationCertificate) : result RevocationCertError bytes :=
  ok_or (ser c) Serialization.

Definition from_cbor (bs : bytes) : result RevocationCertError RevocationCertificate :=
  ok_or (de bs) Deserialization.

Definition signed_payload_bytes (c : RevocationCertificate) : result RevocationCertError bytes :=
  encode_payload (body c).

Definition check_signer (p : payload) (master_pubkey : bytes) (eligible : list bytes)
    : result RevocationCertError unit :=
  match signer_role p with
  | RoleMaster =>
      if negb (bool_decide (signer_pubkey p = master_pubkey)) then Err SignerRoleMismatch
      else Ok tt
  | RoleDevice =>
      if negb (existsb (fun pk => bool_decide (pk = signer_pubkey p)) eligible)
      then Err UnknownSigner
      else if bool_decide (signer_pubkey p = master_pubkey) then Err SignerRoleMismatch
      else Ok tt
  end.

Definition verify (c : RevocationCertificate) (master_pubkey' : bytes) (eligible : list bytes)
    : result RevocationCertError unit :=
  let p := body c in
  if negb (cert_version p =? VERSION)
  then Err (UnsupportedVersion VERSION (cert_version p))
  else if negb (bool_decide (master_pubkey p = master_pubkey')) then Err MasterMismatch
  else
    let? _ := check_signer p master_pubkey' eligible in
    if negb (ed_point (signer_pubkey p)) then Err InvalidPublicKey
    else
      let? signed_bytes := encode_payload p in
      map_err (fun _ => SignatureFailed)
        (verify_with_verifying_key (signer_pubkey p) signed_bytes (signature c)).
End Ops.
End RevocationCert.

(** ** Properties *)

(** Who may sign: the master for itself, or an eligible device that is not the
    master. *)
Definition signer_allowed (role : SignerRole) (signer master : bytes) (eligible : list bytes)
    : Prop :=
  match role with
  | RoleMaster => signer = master
  | RoleDevice => signer ∈ eligible /\ signer <> master
  end.

Lemma existsb_elem_of (x : bytes) l :
  existsb (fun y => bool_decide (y = x)) l = true <-> x ∈ l.
Proof.
  rewrite existsb_exists. split.
  - intros (y & Hin & ->%bool_decide_eq_true). by apply list_elem_of_In.
  - intros Hin. exists x. split; [by apply list_elem_of_In | by apply bool_decide_eq_true].
Qed.

Lemma device_check_signer_ok p m el :
  DeviceCert.check_signer p m el = Ok tt <->
  signer_allowed (DeviceCert.signer_role p) (DeviceCert.signer_pubkey p) m el.
Proof.
  unfold DeviceCert.check_signer, signer_allowed.
  destruct (DeviceCert.signer_role p).
  - case_bool_decide; cbn; split; done.
  - rewrite <- existsb_elem_of. destruct (existsb _ el); cbn; [|by split; [|intros [? ?]]].
    case_bool_decide; cbn; split; try done. by intros [_ ?].
Qed.

Lemma revocation_check_signer_ok p m el :
  RevocationCert.check_signer p m el = Ok tt <->
  signer_allowed (RevocationCert.signer_role p) (RevocationCert.signer_pubkey p) m el.
Proof.
  unfold RevocationCert.check_signer, signer_allowed.
  destruct (RevocationCert.signer_role p).
  - case_bool_decide; cbn; split; done.
  - rewrite <- existsb_elem_of. destruct (existsb _ el); cbn; [|by split; [|intros [? ?]]].
    case_bool_decide; cbn; split; try done. by intros [_ ?].
Qed.

Section Verify.
  Context `{Ed25519Laws} `{CodecLaws DeviceCert.payload} `{CodecLaws RevocationCert.payload}.

Lemma device_verify_iff c m el :
  DeviceCert.verify c m el = Ok tt <->
  DeviceCert.cert_version (DeviceCert.body c) = VERSION /\
  DeviceCert.master_pubkey (DeviceCert.body c) = m /\
  Zlen (DeviceCert.label (DeviceCert.body c)) <= MAX_LABEL_BYTES /\
  signer_allowed (DeviceCert.signer_role (DeviceCert.body c))
    (DeviceCert.signer_pubkey (DeviceCert.body c)) m el /\
  ed_point (DeviceCert.signer_pubkey (DeviceCert.body c)) = true /\
  exists bs, ser (DeviceCert.body c) = Some bs /\
    ed_verify_strict (DeviceCert.signer_pubkey (DeviceCert.body c)) bs (DeviceCert.signature c) = true.
Proof.
  unfold DeviceCert.verify, DeviceCert.validate_label, DeviceCert.encode_payload, verify_with_verifying_key.
  rewrite <- device_check_signer_ok, Z.gtb_ltb.
  set (p := DeviceCert.body c).
  destruct (Z.eqb_spec (DeviceCert.cert_version p) VERSION); cbn [negb]; [|by split; [|intros [? _]]].
  case_bool_decide; cbn [negb]; [|by split; [|intros (_ & ? & _)]].
  destruct (Z.ltb_spec MAX_LABEL_BYTES (Zlen (DeviceCert.label p))); cbn [rbind];
    [split; [done|intros (_ & _ & ? & _); lia]|].
  destruct (DeviceCert.check_signer p m el) as [[]|]; cbn [rbind]; [|by split; [|intros (_ & _ & _ & ? & _)]].
  destruct (ed_point _); cbn [negb]; [|by split; [|intros (_ & _ & _ & _ & ? & _)]].
  destruct (ser p) as [bs|]; cbn [ok_or rbind];
    [|by split; [|intros (_ & _ & _ & _ & _ & ? & ? & _)]].
  destruct (ed_verify_strict _ bs _) eqn:E; split; try done; [intros _; eauto 10|].
  intros (_ & _ & _ & _ & _ & bs' & [= <-] & E'). congruence.
Qed.

Lemma revocation_verify_iff c m el :
  RevocationCert.verify c m el = Ok tt <->
  RevocationCert.cert_version (RevocationCert.body c) = VERSION /\
  RevocationCert.master_pubkey (RevocationCert.body c) = m /\
  signer_allowed (RevocationCert.signer_role (RevocationCert.body c))
    (RevocationCert.signer_pubkey (RevocationCert.body c)) m el /\
  ed_point (RevocationCert.signer_pubkey (RevocationCert.body c)) = true /\
  exists bs, ser (RevocationCert.body c) = Some bs /\
    ed_verify_strict (RevocationCert.signer_pubkey (RevocationCert.body c)) bs (RevocationCert.signature c) = true.
Proof.
  unfold RevocationCert.verify, RevocationCert.encode_payload, verify_with_verifying_key.
  rewrite <- revocation_check_signer_ok.
  set (p := RevocationCert.body c).
  destruct (Z.eqb_spec (RevocationCert.cert_version p) VERSION); cbn [negb]; [|by split; [|intros [? _]]].
  case_bool_decide; cbn [negb]; [|by split; [|intros (_ & ? & _)]].
  destruct (RevocationCert.check_signer p m el) as [[]|]; cbn [rbind]; [|by split; [|intros (_ & _ & ? & _)]].
  destruct (ed_point _); cbn [negb]; [|by split; [|intros (_ & _ & _ & ? & _)]].
  destruct (ser p) as [bs|]; cbn [ok_or rbind];
    [|by split; [|intros (_ & _ & _ & _ & ? & ? & _)]].
  destruct (ed_verify_strict _ bs _) eqn:E; split; try done; [intros _; eauto 10|].
  intros (_ & _ & _ & _ & bs' & [= <-] & E'). congruence.
Qed.
End Verify.

Lemma master_verifies `{Ed25519Laws} m bs :
  master_ok m -> ed_point (public_key m) = true /\
    ed_verify_strict (public_key m) bs (Master.sign m bs) = true.
Proof. intros Hm. rewrite Hm. split; [apply ed_point_public | apply ed_verify_sign]. Qed.

Lemma label_ok lbl : Zlen lbl <= MAX_LABEL_BYTES -> DeviceCert.validate_label lbl = Ok tt.
Proof.
  intros Hl. unfold DeviceCert.validate_label. rewrite Z.gtb_ltb.
  by rewrite (proj2 (Z.ltb_ge _ _)) by exact Hl.
Qed.

(** The payload in the goal encodes. *)
Ltac encoded bs :=
  match goal with
  | |- context [ser ?p] =>
      let E := fresh in destruct (ser_total p) as [bs E]; rewrite E; cbn [ok_or rbind]
  end.

(** C11: A device certificate verifies exactly when its version is current, it
    names the expected master, its label is at most 64 bytes, its signer is the
    master itself or an eligible device other than the master, and the signer's
    key signed its exact payload.  In particular a device certificate whose
    signer has been revoked (is not eligible) never verifies. *)
Theorem device_cert_verify_iff `{Ed25519Laws} `{CodecLaws DeviceCert.payload} c m el :
  DeviceCert.verify c m el = Ok tt <->
  (let p := DeviceCert.body c in
   DeviceCert.cert_version p = VERSION /\
   DeviceCert.master_pubkey p = m /\
   Zlen (DeviceCert.label p) <= MAX_LABEL_BYTES /\
   signer_allowed (DeviceCert.signer_role p) (DeviceCert.signer_pubkey p) m el /\
   ed_point (DeviceCert.signer_pubkey p) = true /\
   exists bs, ser p = Some bs /\
     ed_verify_strict (DeviceCert.signer_pubkey p) bs (DeviceCert.signature c) = true).
Proof. apply device_verify_iff. Qed.

(** What the constructors sign, verification accepts: a certificate or
    revocation signed by the master, and one signed by an eligible device whose
    key is not the master's, for every label of at most 64 bytes; a longer
    label is refused before anything is signed. *)
Theorem cert_sign_verify `{Ed25519Laws} `{CodecLaws DeviceCert.payload}
    `{CodecLaws RevocationCert.payload} master sk dev lbl plat at_ tgt rsn el :
  master_ok master -> ed_public sk ∈ el -> ed_public sk <> public_key master ->
  (Zlen lbl <= MAX_LABEL_BYTES ->
     (exists c, DeviceCert.sign_with_master master dev lbl plat at_ = Ok c /\
        DeviceCert.verify c (public_key master) el = Ok tt) /\
     (exists c, DeviceCert.sign_with_device sk (public_key master) dev lbl plat at_ = Ok c /\
        DeviceCert.verify c (public_key master) el = Ok tt)) /\
  (MAX_LABEL_BYTES < Zlen lbl ->
     DeviceCert.sign_with_master master dev lbl plat at_
       = Err (DeviceCert.LabelTooLong (Zlen lbl))) /\
  (exists c, RevocationCert.sign_with_master master tgt at_ rsn = Ok c /\
     RevocationCert.verify c (public_key master) el = Ok tt) /\
  (exists c, RevocationCert.sign_with_device sk (public_key master) tgt at_ rsn = Ok c /\
     RevocationCert.verify c (public_key master) el = Ok tt).
Proof.
  intros Hm Hin Hne.
  assert (Hv : forall bs, ed_verify_strict (public_key master) bs (sign master bs) = true)
    by (intros bs; rewrite Hm; apply ed_verify_sign).
  assert (Hp : ed_point (public_key master) = true) by (rewrite Hm; apply ed_point_public).
  split; [|split; [|split]].
  - intros Hl. assert (Hvl : DeviceCert.validate_label lbl = Ok tt).
    { unfold DeviceCert.validate_label. rewrite Z.gtb_ltb.
      destruct (Z.ltb_spec MAX_LABEL_BYTES (Zlen lbl)); [lia|done]. }
    unfold DeviceCert.sign_with_master, DeviceCert.sign_with_device, DeviceCert.encode_payload.
    rewrite Hvl. cbn [rbind]. split.
    + encoded bs. eexists. split; [done|].
      apply device_verify_iff. cbn. eauto 10.
    + encoded bs. eexists. split; [done|].
      apply device_verify_iff. cbn. rewrite ed_point_public. eauto 10 using ed_verify_sign.
  - intros Hl. unfold DeviceCert.sign_with_master, DeviceCert.validate_label.
    rewrite Z.gtb_ltb. apply Z.ltb_lt in Hl. by rewrite Hl.
  - unfold RevocationCert.sign_with_master, RevocationCert.encode_payload.
    encoded bs. eexists. split; [done|].
    apply revocation_verify_iff. cbn. eauto 10.
  - unfold RevocationCert.sign_with_device, RevocationCert.encode_payload.
    encoded bs. eexists. split; [done|].
    apply revocation_verify_iff. cbn. rewrite ed_point_public. eauto 10 using ed_verify_sign.
Qed.

(** Witnesses. *)
#[export] Program Instance role_countable : Countable SignerRole :=
  inj_countable' (fun r => match r with RoleMaster => true | RoleDevice => false end)
    (fun x => if x then RoleMaster else RoleDevice) _.
Next Obligation. by intros []. Qed.

#[export] Instance device_payload_eq_dec : EqDecision DeviceCert.payload.
Proof. solve_decision. Defined.

#[export] Program Instance device_payload_countable : Countable DeviceCert.payload :=
  inj_countable' (fun p => (DeviceCert.cert_version p, DeviceCert.device_pubkey p,
      DeviceCert.master_pubkey p, DeviceCert.label p, DeviceCert.platform p,
      DeviceCert.enrolled_at p, DeviceCert.signer_role p, DeviceCert.signer_pubkey p))
    (fun '(v, d, m, l, pl, e, r, s) =>
      {| DeviceCert.cert_version := v; DeviceCert.device_pubkey := d;
         DeviceCert.master_pubkey := m; DeviceCert.label := l; DeviceCert.platform := pl;
         DeviceCert.enrolled_at := e; DeviceCert.signer_role := r;
         DeviceCert.signer_pubkey := s |}) _.
Next Obligation. by intros []. Qed.

#[export] Instance reason_eq_dec : EqDecision RevocationCert.RevocationReason.
Proof. solve_decision. Defined.

#[export] Program Instance reason_countable : Countable RevocationCert.RevocationReason :=
  inj_countable' (fun r => match r with
      | RevocationCert.UserInitiated => (true, true) | RevocationCert.Compromise => (true, false)
      | RevocationCert.DeviceLost => (false, true) | RevocationCert.Rotation => (false, false) end)
    (fun '(x, y) => if x : bool then (if y : bool then RevocationCert.UserInitiated
       else RevocationCert.Compromise) else (if y : bool then RevocationCert.DeviceLost
       else RevocationCert.Rotation)) _.
Next Obligation. by intros []. Qed.

#[export] Instance revocation_payload_eq_dec : EqDecision RevocationCert.payload.
Proof. solve_decision. Defined.

#[export] Program Instance revocation_payload_countable : Countable RevocationCert.payload :=
  inj_countable' (fun p => (RevocationCert.cert_version p, RevocationCert.target_device_pubkey p,
      RevocationCert.master_pubkey p, RevocationCert.revoked_at p, RevocationCert.reason p,
      RevocationCert.signer_role p, RevocationCert.signer_pubkey p))
    (fun '(v, d, m, t, rs, r, s) =>
      {| RevocationCert.cert_version := v; RevocationCert.target_device_pubkey := d;
         RevocationCert.master_pubkey := m; RevocationCert.revoked_at := t;
         RevocationCert.reason := rs; RevocationCert.signer_role := r;
         RevocationCert.signer_pubkey := s |}) _.
Next Obligation. by intros []. Qed.

Definition demo_master : MaterializedMaster :=
  {| secret_bytes := b "seed"; public_key := toy_public (b "seed") |}.

Lemma cert_sign_verify_witness :
  exists c, DeviceCert.sign_with_device (H0 := countable_codec) (b "device") (toy_public (b "seed"))
      (b "new device") (b "laptop") (b "linux") 5 = Ok c /\
    DeviceCert.verify (H0 := countable_codec) c (toy_public (b "seed")) [toy_public (b "device")] = Ok tt.
Proof.
  refine (proj2 (proj1 (cert_sign_verify (H1 := countable_codec) (H3 := countable_codec)
    demo_master (b "device") (b "new device") (b "laptop") (b "linux") 5 [] RevocationCert.Rotation
    [toy_public (b "device")] _ _ _) _)).
  - reflexivity.
  - left.
  - by vm_compute.
  - by vm_compute.
Defined.

Lemma device_cert_verify_iff_witness :
  let c := {| DeviceCert.body := {| DeviceCert.cert_version := 2; DeviceCert.device_pubkey := [];
      DeviceCert.master_pubkey := []; DeviceCert.label := []; DeviceCert.platform := [];
      DeviceCert.enrolled_at := 0; DeviceCert.signer_role := RoleMaster;
      DeviceCert.signer_pubkey := [] |}; DeviceCert.signature := [] |} in
  DeviceCert.verify (H0 := countable_codec) c [] [] <> Ok tt.
Proof.
  intros c E. apply (device_cert_verify_iff (H1 := countable_codec)) in E.
  destruct E as [E _]. discriminate E.
Defined.
