(* ===== verification/CertWire.v ===== *)
(** How certificates travel: the serde implementations of
    [gitcellar-crypto/src/device_cert.rs] and [revocation_cert.rs].

    A parsed value of the format is a parameter [V] with serde's primitives
    ([SerdeOps]); CBOR itself is a codec of [V].  The byte-array helper modules
    and the structures, field by field in declaration order, are definitions:
    a derived structure reads its fields by name, refuses a missing or repeated
    one and passes over names it does not know.  Between them they give the
    codecs of certificates that [Certs] and [Keystore] take, with the widths of
    the source's types checked on the way in. *)

From S2P Require Import Prelude Bytes Interfaces Toy Master Certs.

(** ** serde *)

Class SerdeOps (V : Type) : Type := {
  serialize_int : Z -> V;
  serialize_str : bytes -> V;
  serialize_bytes : bytes -> V;
  serialize_unit_variant : bytes -> V;
  serialize_struct : list (bytes * V) -> V;
  deserialize_int : V -> option Z;
  deserialize_string : V -> option bytes;
  deserialize_byte_buf : V -> option bytes;
  deserialize_unit_variant : V -> option bytes;
  deserialize_struct : V -> option (list (bytes * V));
}.

Class SerdeLaws (V : Type) `{SerdeOps V} : Prop := {
  serde_int z : deserialize_int (serialize_int z) = Some z;
  serde_string s : deserialize_string (serialize_str s) = Some s;
  serde_byte_buf s : deserialize_byte_buf (serialize_bytes s) = Some s;
  serde_unit_variant s : deserialize_unit_variant (serialize_unit_variant s) = Some s;
  serde_struct fs : deserialize_struct (serialize_struct fs) = Some fs;
}.

Section Serde.
  Context {V : Type} `{SerdeOps V}.

(** An integer of a machine type: out of range is an error. *)
Definition deserialize_u32 (v : V) : option Z :=
  z ← deserialize_int v; if (0 <=? z) && (z <? 2 ^ 32) then Some z else None.
Definition deserialize_i64 (v : V) : option Z :=
  z ← deserialize_int v; if (- 2 ^ 63 <=? z) && (z <? 2 ^ 63) then Some z else None.

(** The value of a structure's field. *)
Definition field (name : bytes) (fs : list (bytes * V)) : option V :=
  match List.filter (fun kv => bool_decide (kv.1 = name)) fs with
  | [(_, v)] => Some v
  | _ => None
  end.
End Serde.

(** [try_into] an array of [n] bytes. *)
Definition to_array (n : nat) (v : bytes) : option bytes :=
  if (length v =? n)%nat then Some v else None.

Module serde_byte_array_32.
Section Helper.
  Context {V : Type} `{SerdeOps V}.

Definition serialize (bs : bytes) : V := serialize_bytes bs.
Definition deserialize (d : V) : option bytes := v ← deserialize_byte_buf d; to_array 32 v.
End Helper.
End serde_byte_array_32.

Module serde_byte_array_64.
Section Helper.
  Context {V : Type} `{SerdeOps V}.

Definition serialize (bs : bytes) : V := serialize_bytes bs.
Definition deserialize (d : V) : option bytes := v ← deserialize_byte_buf d; to_array 64 v.
End Helper.
End serde_byte_array_64.

(** ** The types *)

(** [rename_all = "lowercase"] *)
Definition role_name (r : SignerRole) : bytes :=
  match r with RoleMaster => b "master" | RoleDevice => b "device" end.

(** [rename_all = "snake_case"] *)
Definition reason_name (r : RevocationCert.RevocationReason) : bytes :=
  match r with
  | RevocationCert.UserInitiated => b "user_initiated"
  | RevocationCert.Compromise => b "compromise"
  | RevocationCert.DeviceLost => b "device_lost"
  | RevocationCert.Rotation => b "rotation"
  end.

(** The variant of a name. *)
Definition of_name {A} (name : A -> bytes) (all : list A) (s : bytes) : option A :=
  find (fun a => bool_decide (name a = s)) all.

Definition roles : list SignerRole := [RoleMaster; RoleDevice].
Definition reasons : list RevocationCert.RevocationReason :=
  [RevocationCert.UserInitiated; RevocationCert.Compromise; RevocationCert.DeviceLost;
   RevocationCert.Rotation].

Section Types.
  Context {V : Type} `{SerdeOps V}.

Definition role_of (v : V) : option SignerRole :=
  s ← deserialize_unit_variant v; of_name role_name roles s.
Definition reason_of (v : V) : option RevocationCert.RevocationReason :=
  s ← deserialize_unit_variant v; of_name reason_name reasons s.

Definition device_payload_fields (p : DeviceCert.payload) : list (bytes * V) :=
  [(b "cert_version", serialize_int (DeviceCert.cert_version p));
   (b "device_pubkey", serde_byte_array_32.serialize (DeviceCert.device_pubkey p));
   (b "master_pubkey", serde_byte_array_32.serialize (DeviceCert.master_pubkey p));
   (b "label", serialize_str (DeviceCert.label p));
   (b "platform", serialize_str (DeviceCert.platform p));
   (b "enrolled_at", serialize_int (DeviceCert.enrolled_at p));
   (b "signer_role", serialize_unit_variant (role_name (DeviceCert.signer_role p)));
   (b "signer_pubkey", serde_byte_array_32.serialize (DeviceCert.signer_pubkey p))].

Definition device_payload_value (p : DeviceCert.payload) : V :=
  serialize_struct (device_payload_fields p).

Definition device_payload_of (v : V) : option DeviceCert.payload :=
  fs ← deserialize_struct v;
  version ← field (b "cert_version") fs ≫= deserialize_u32;
  device ← field (b "device_pubkey") fs ≫= serde_byte_array_32.deserialize;
  master ← field (b "master_pubkey") fs ≫= serde_byte_array_32.deserialize;
  label ← field (b "label") fs ≫= deserialize_string;
  platform ← field (b "platform") fs ≫= deserialize_string;
  enrolled ← field (b "enrolled_at") fs ≫= deserialize_i64;
  role ← field (b "signer_role") fs ≫= role_of;
  signer ← field (b "signer_pubkey") fs ≫= serde_byte_array_32.deserialize;
  Some {| DeviceCert.cert_version := version; DeviceCert.device_pubkey := device;
          DeviceCert.master_pubkey := master; DeviceCert.label := label;
          DeviceCert.platform := platform; DeviceCert.enrolled_at := enrolled;
          DeviceCert.signer_role := role; DeviceCert.signer_pubkey := signer |}.

Definition device_value (c : DeviceCert.DeviceCertificate) : V :=
  serialize_struct
    [(b "payload", device_payload_value (DeviceCert.body c));
     (b "signature", serde_byte_array_64.serialize (DeviceCert.signature c))].

Definition device_of (v : V) : option DeviceCert.DeviceCertificate :=
  fs ← deserialize_struct v;
  p ← field (b "payload") fs ≫= device_payload_of;
  sig ← field (b "signature") fs ≫= serde_byte_array_64.deserialize;
  Some {| DeviceCert.body := p; DeviceCert.signature := sig |}.

Definition revocation_payload_fields (p : RevocationCert.payload) : list (bytes * V) :=
  [(b "cert_version", serialize_int (RevocationCert.cert_version p));
   (b "target_device_pubkey", serde_byte_array_32.serialize (RevocationCert.target_device_pubkey p));
   (b "master_pubkey", serde_byte_array_32.serialize (RevocationCert.master_pubkey p));
   (b "revoked_at", serialize_int (RevocationCert.revoked_at p));
   (b "reason", serialize_unit_variant (reason_name (RevocationCert.reason p)));
   (b "signer_role", serialize_unit_variant (role_name (RevocationCert.signer_role p)));
   (b "signer_pubkey", serde_byte_array_32.serialize (RevocationCert.signer_pubkey p))].

Definition revocation_payload_value (p : RevocationCert.payload) : V :=
  serialize_struct (revocation_payload_fields p).

Definition revocation_payload_of (v : V) : option RevocationCert.payload :=
  fs ← deserialize_struct v;
  version ← field (b "cert_version") fs ≫= deserialize_u32;
  target ← field (b "target_device_pubkey") fs ≫= serde_byte_array_32.deserialize;
  master ← field (b "master_pubkey") fs ≫= serde_byte_array_32.deserialize;
  revoked ← field (b "revoked_at") fs ≫= deserialize_i64;
  reason ← field (b "reason") fs ≫= reason_of;
  role ← field (b "signer_role") fs ≫= role_of;
  signer ← field (b "signer_pubkey") fs ≫= serde_byte_array_32.deserialize;
  Some {| RevocationCert.cert_version := version;
          RevocationCert.target_device_pubkey := target;
          RevocationCert.master_pubkey := master; RevocationCert.revoked_at := revoked;
          RevocationCert.reason := reason; RevocationCert.signer_role := role;
          RevocationCert.signer_pubkey := signer |}.

Definition revocation_value (c : RevocationCert.RevocationCertificate) : V :=
  serialize_struct
    [(b "payload", revocation_payload_value (RevocationCert.body c));
     (b "signature", serde_byte_array_64.serialize (RevocationCert.signature c))].

Definition revocation_of (v : V) : option RevocationCert.RevocationCertificate :=
  fs ← deserialize_struct v;
  p ← field (b "payload") fs ≫= revocation_payload_of;
  sig ← field (b "signature") fs ≫= serde_byte_array_64.deserialize;
  Some {| RevocationCert.body := p; RevocationCert.signature := sig |}.
End Types.

(** The codec of a type, over the format's codec of values. *)
Definition over_format {A V} `{Codec V} (value : A -> V) (parse : V -> option A) : Codec A := {|
  ser a := ser (value a);
  de bs := de bs ≫= parse;
|}.

(** ** What a certificate can hold: the ranges and lengths of the source's types *)

Record device_typed (c : DeviceCert.DeviceCertificate) : Prop := {
  dt_version : is_u32 (DeviceCert.cert_version (DeviceCert.body c));
  dt_device : length (DeviceCert.device_pubkey (DeviceCert.body c)) = 32%nat;
  dt_master : length (DeviceCert.master_pubkey (DeviceCert.body c)) = 32%nat;
  dt_enrolled : is_i64 (DeviceCert.enrolled_at (DeviceCert.body c));
  dt_signer : length (DeviceCert.signer_pubkey (DeviceCert.body c)) = 32%nat;
  dt_signature : length (DeviceCert.signature c) = 64%nat;
}.

Record revocation_typed (c : RevocationCert.RevocationCertificate) : Prop := {
  rt_version : is_u32 (RevocationCert.cert_version (RevocationCert.body c));
  rt_target : length (RevocationCert.target_device_pubkey (RevocationCert.body c)) = 32%nat;
  rt_master : length (RevocationCert.master_pubkey (RevocationCert.body c)) = 32%nat;
  rt_revoked : is_i64 (RevocationCert.revoked_at (RevocationCert.body c));
  rt_signer : length (RevocationCert.signer_pubkey (RevocationCert.body c)) = 32%nat;
  rt_signature : length (RevocationCert.signature c) = 64%nat;
}.

(** ** Lemmas *)

Lemma to_array_Some n v w : to_array n v = Some w <-> v = w /\ length w = n.
Proof.
  unfold to_array. destruct (Nat.eqb_spec (length v) n); split; try done.
  - by intros [= <-].
  - by intros [-> _].
  - intros [-> ?]. done.
Qed.

Section Lemmas.
  Context {V : Type} `{SerdeLaws V}.

Lemma u32_typed v z : deserialize_u32 v = Some z -> is_u32 z.
Proof.
  unfold deserialize_u32, is_u32. intros (x & _ & E)%bind_Some.
  destruct ((0 <=? x) && (x <? 2 ^ 32)) eqn:B; [|done]. injection E as ->. lia.
Qed.

Lemma i64_typed v z : deserialize_i64 v = Some z -> is_i64 z.
Proof.
  unfold deserialize_i64, is_i64. intros (x & _ & E)%bind_Some.
  destruct ((- 2 ^ 63 <=? x) && (x <? 2 ^ 63)) eqn:B; [|done]. injection E as ->. lia.
Qed.

Lemma array_32_typed d w : serde_byte_array_32.deserialize d = Some w -> length w = 32%nat.
Proof. by intros (v & _ & [_ E]%to_array_Some)%bind_Some. Qed.

Lemma array_64_typed d w : serde_byte_array_64.deserialize d = Some w -> length w = 64%nat.
Proof. by intros (v & _ & [_ E]%to_array_Some)%bind_Some. Qed.

Lemma u32_back z : is_u32 z -> deserialize_u32 (serialize_int z) = Some z.
Proof.
  unfold deserialize_u32, is_u32. intros Hz. rewrite serde_int. cbn.
  by replace ((0 <=? z) && (z <? 2 ^ 32)) with true by lia.
Qed.

Lemma i64_back z : is_i64 z -> deserialize_i64 (serialize_int z) = Some z.
Proof.
  unfold deserialize_i64, is_i64. intros Hz. rewrite serde_int. cbn.
  by replace ((- 2 ^ 63 <=? z) && (z <? 2 ^ 63)) with true by lia.
Qed.

Lemma array_32_back s :
  length s = 32%nat -> serde_byte_array_32.deserialize (serde_byte_array_32.serialize s) = Some s.
Proof.
  intros Hs. unfold serde_byte_array_32.deserialize, serde_byte_array_32.serialize.
  rewrite serde_byte_buf. by apply to_array_Some.
Qed.

Lemma array_64_back s :
  length s = 64%nat -> serde_byte_array_64.deserialize (serde_byte_array_64.serialize s) = Some s.
Proof.
  intros Hs. unfold serde_byte_array_64.deserialize, serde_byte_array_64.serialize.
  rewrite serde_byte_buf. by apply to_array_Some.
Qed.

Lemma role_back r : role_of (serialize_unit_variant (role_name r)) = Some r.
Proof. unfold role_of. rewrite serde_unit_variant. by destruct r. Qed.

Lemma reason_back r : reason_of (serialize_unit_variant (reason_name r)) = Some r.
Proof. unfold reason_of. rewrite serde_unit_variant. by destruct r. Qed.
End Lemmas.

(** Look the fields up and read them. *)
Ltac read_field :=
  match goal with
  | |- context [field ?n ?fs] =>
      let E := fresh in
      eassert (field n fs = Some _) as E by reflexivity; rewrite E; clear E; cbn [mbind option_bind]
  end.

Ltac read_fields :=
  rewrite serde_struct; cbn [mbind option_bind]; repeat read_field;
  rewrite ?u32_back, ?i64_back, ?array_32_back, ?array_64_back, ?role_back, ?reason_back, ?serde_string by done;
  cbn [mbind option_bind].

(** The ranges and lengths of what was read. *)
Ltac typed_fields :=
  repeat match goal with
  | E : _ ≫= _ = Some _ |- _ => apply bind_Some in E; destruct E as (? & ? & E)
  | E : Some _ = Some _ |- _ => injection E as E; subst
  end;
  split; cbn;
  eauto using u32_typed, i64_typed, array_32_typed, array_64_typed.

Section Types.
  Context {V : Type} `{SerdeLaws V}.

Lemma device_payload_back c :
  device_typed c -> device_payload_of (device_payload_value (DeviceCert.body c)) = Some (DeviceCert.body c).
Proof.
  intros []. unfold device_payload_of, device_payload_value. read_fields. by destruct (DeviceCert.body c).
Qed.

Lemma device_back c : device_typed c -> device_of (device_value c) = Some c.
Proof.
  intros Hc. unfold device_of, device_value. pose proof Hc as []. read_fields.
  rewrite device_payload_back by done. by destruct c.
Qed.

Lemma device_of_typed v c : device_of v = Some c -> device_typed c.
Proof. unfold device_of, device_payload_of. intros E. typed_fields. Qed.

Lemma revocation_payload_back c :
  revocation_typed c -> revocation_payload_of (revocation_payload_value (RevocationCert.body c)) = Some (RevocationCert.body c).
Proof.
  intros []. unfold revocation_payload_of, revocation_payload_value. read_fields. by destruct (RevocationCert.body c).
Qed.

Lemma revocation_back c : revocation_typed c -> revocation_of (revocation_value c) = Some c.
Proof.
  intros Hc. unfold revocation_of, revocation_value. pose proof Hc as []. read_fields.
  rewrite revocation_payload_back by done. by destruct c.
Qed.

Lemma revocation_of_typed v c : revocation_of v = Some c -> revocation_typed c.
Proof. unfold revocation_of, revocation_payload_of. intros E. typed_fields. Qed.
End Types.

(** ** Issuing, sending, verifying *)

Section Issued.
  Context `{Ed25519Laws} `{Codec DeviceCert.payload} `{Codec RevocationCert.payload}.

(** What the constructors sign is within the types. *)
Lemma device_master_typed m dev lbl plat t c :
  master_ok m -> length dev = 32%nat -> is_i64 t ->
  DeviceCert.sign_with_master m dev lbl plat t = Ok c -> device_typed c.
Proof.
  intros Hm Hd Ht. unfold DeviceCert.sign_with_master. intros E. inv_bind. unfold Master.sign.
  split; cbn; rewrite ?Hm, ?ed_public_length, ?ed_sign_length; done.
Qed.

Lemma device_device_typed sk m dev lbl plat t c :
  length m = 32%nat -> length dev = 32%nat -> is_i64 t ->
  DeviceCert.sign_with_device sk m dev lbl plat t = Ok c -> device_typed c.
Proof.
  intros Hm Hd Ht. unfold DeviceCert.sign_with_device. intros E. inv_bind.
  split; cbn; rewrite ?ed_public_length, ?ed_sign_length; done.
Qed.

Lemma revocation_master_typed m dev t reason c :
  master_ok m -> length dev = 32%nat -> is_i64 t ->
  RevocationCert.sign_with_master m dev t reason = Ok c -> revocation_typed c.
Proof.
  intros Hm Hd Ht. unfold RevocationCert.sign_with_master. intros E. inv_bind. unfold Master.sign.
  split; cbn; rewrite ?Hm, ?ed_public_length, ?ed_sign_length; done.
Qed.

Lemma revocation_device_typed sk m dev t reason c :
  length m = 32%nat -> length dev = 32%nat -> is_i64 t ->
  RevocationCert.sign_with_device sk m dev t reason = Ok c -> revocation_typed c.
Proof.
  intros Hm Hd Ht. unfold RevocationCert.sign_with_device. intros E. inv_bind.
  split; cbn; rewrite ?ed_public_length, ?ed_sign_length; done.
Qed.
End Issued.

(** ** The certificates' codecs *)

Section Codecs.
  Context {V : Type} `{SerdeOps V, Codec V}.

Definition device_payload_codec : Codec DeviceCert.payload :=
  over_format device_payload_value device_payload_of.
Definition device_codec : Codec DeviceCert.DeviceCertificate :=
  over_format device_value device_of.
Definition revocation_payload_codec : Codec RevocationCert.payload :=
  over_format revocation_payload_value revocation_payload_of.
Definition revocation_codec : Codec RevocationCert.RevocationCertificate :=
  over_format revocation_value revocation_of.
End Codecs.

Section Wire.
  Context {V : Type} `{SerdeLaws V} `{!Codec V, !CodecLaws V} `{Ed25519Laws}.

#[local] Existing Instances device_payload_codec device_codec revocation_payload_codec revocation_codec.

Lemma device_wire c :
  device_typed c -> exists bs, DeviceCert.to_cbor c = Ok bs /\ DeviceCert.from_cbor bs = Ok c.
Proof.
  intros Hc. destruct (ser_total (device_value c)) as [bs E]. exists bs.
  unfold DeviceCert.to_cbor, DeviceCert.from_cbor. cbn [ser de device_codec over_format].
  rewrite E, (de_ser _ _ E). cbn. by rewrite device_back.
Qed.

Lemma revocation_wire c :
  revocation_typed c ->
  exists bs, RevocationCert.to_cbor c = Ok bs /\ RevocationCert.from_cbor bs = Ok c.
Proof.
  intros Hc. destruct (ser_total (revocation_value c)) as [bs E]. exists bs.
  unfold RevocationCert.to_cbor, RevocationCert.from_cbor. cbn [ser de revocation_codec over_format].
  rewrite E, (de_ser _ _ E). cbn. by rewrite revocation_back.
Qed.

Lemma device_payload_total (p : DeviceCert.payload) : is_Some (ser p).
Proof. apply (ser_total (A := V)). Qed.
Lemma revocation_payload_total (p : RevocationCert.payload) : is_Some (ser p).
Proof. apply (ser_total (A := V)). Qed.

(** What is issued verifies under the issuer's master key. *)
Lemma device_issued_verifies master sk dev lbl plat t el :
  master_ok master -> ed_public sk ∈ el -> ed_public sk <> public_key master ->
  Zlen lbl <= MAX_LABEL_BYTES ->
  (exists c, DeviceCert.sign_with_master master dev lbl plat t = Ok c /\
     DeviceCert.verify c (public_key master) el = Ok tt) /\
  (exists c, DeviceCert.sign_with_device sk (public_key master) dev lbl plat t = Ok c /\
     DeviceCert.verify c (public_key master) el = Ok tt).
Proof.
  intros Hm Hin Hne Hl.
  unfold DeviceCert.sign_with_master, DeviceCert.sign_with_device, DeviceCert.encode_payload.
  rewrite (label_ok lbl Hl). cbn [rbind].
  split; match goal with |- context [ser ?p] => destruct (device_payload_total p) as [bs E]; rewrite E end;
    cbn [ok_or rbind]; eexists; (split; [done|]); apply device_verify_iff; cbn.
  - destruct (master_verifies master bs Hm). eauto 10.
  - rewrite ed_point_public. eauto 10 using ed_verify_sign.
Qed.

Lemma revocation_issued_verifies master sk dev t reason el :
  master_ok master -> ed_public sk ∈ el -> ed_public sk <> public_key master ->
  (exists c, RevocationCert.sign_with_master master dev t reason = Ok c /\
     RevocationCert.verify c (public_key master) el = Ok tt) /\
  (exists c, RevocationCert.sign_with_device sk (public_key master) dev t reason = Ok c /\
     RevocationCert.verify c (public_key master) el = Ok tt).
Proof.
  intros Hm Hin Hne.
  unfold RevocationCert.sign_with_master, RevocationCert.sign_with_device, RevocationCert.encode_payload.
  split; match goal with |- context [ser ?p] => destruct (revocation_payload_total p) as [bs E]; rewrite E end;
    cbn [ok_or rbind]; eexists; (split; [done|]); apply revocation_verify_iff; cbn.
  - destruct (master_verifies master bs Hm). eauto 10.
  - rewrite ed_point_public. eauto 10 using ed_verify_sign.
Qed.

(** C26: Certificates survive the wire.  A certificate or revocation, signed by
    the master or by an eligible device, encodes, and what another machine
    decodes from those bytes is that certificate, which verifies there; and
    whatever bytes are decoded, the fields that come out are within the types:
    32-byte keys, a 64-byte signature, a 32-bit version and a 64-bit time. *)
Theorem certificates_travel master sk dev lbl plat t reason el :
  master_ok master -> ed_public sk ∈ el -> ed_public sk <> public_key master ->
  length dev = 32%nat -> is_i64 t -> Zlen lbl <= MAX_LABEL_BYTES ->
  let sent_device r := exists c bs, r = Ok c /\ DeviceCert.to_cbor c = Ok bs /\
    DeviceCert.from_cbor bs = Ok c /\ DeviceCert.verify c (public_key master) el = Ok tt in
  let sent_revocation r := exists c bs, r = Ok c /\ RevocationCert.to_cbor c = Ok bs /\
    RevocationCert.from_cbor bs = Ok c /\ RevocationCert.verify c (public_key master) el = Ok tt in
  sent_device (DeviceCert.sign_with_master master dev lbl plat t) /\
  sent_device (DeviceCert.sign_with_device sk (public_key master) dev lbl plat t) /\
  sent_revocation (RevocationCert.sign_with_master master dev t reason) /\
  sent_revocation (RevocationCert.sign_with_device sk (public_key master) dev t reason) /\
  (forall bs c, DeviceCert.from_cbor bs = Ok c -> device_typed c) /\
  (forall bs c, RevocationCert.from_cbor bs = Ok c -> revocation_typed c).
Proof.
  intros Hm Hin Hne Hd Ht Hl sent_device sent_revocation.
  assert (Hmp : length (public_key master) = 32%nat) by (rewrite Hm; apply ed_public_length).
  destruct (device_issued_verifies master sk dev lbl plat t el Hm Hin Hne Hl)
    as [(c1 & E1 & V1) (c2 & E2 & V2)].
  destruct (revocation_issued_verifies master sk dev t reason el Hm Hin Hne)
    as [(c3 & E3 & V3) (c4 & E4 & V4)].
  split; [|split; [|split; [|split; [|split]]]].
  - destruct (device_wire c1) as (bs & ? & ?); [by apply (device_master_typed master dev lbl plat t)|]. by exists c1, bs.
  - destruct (device_wire c2) as (bs & ? & ?); [by apply (device_device_typed sk (public_key master) dev lbl plat t)|]. by exists c2, bs.
  - destruct (revocation_wire c3) as (bs & ? & ?); [by apply (revocation_master_typed master dev t reason)|]. by exists c3, bs.
  - destruct (revocation_wire c4) as (bs & ? & ?); [by apply (revocation_device_typed sk (public_key master) dev t reason)|]. by exists c4, bs.
  - intros bs c. unfold DeviceCert.from_cbor. cbn [de device_codec over_format].
    destruct (de bs) as [v|]; [|done]. cbn. destruct (device_of v) eqn:E; [|done].
    intros [= <-]. by eapply device_of_typed.
  - intros bs c. unfold RevocationCert.from_cbor. cbn [de revocation_codec over_format].
    destruct (de bs) as [v|]; [|done]. cbn. destruct (revocation_of v) eqn:E; [|done].
    intros [= <-]. by eapply revocation_of_typed.
Qed.
End Wire.

(** ** A format of labelled trees *)

Definition tree : Type := gen_tree (Z + bool * bytes).

Definition tree_field (t : tree) : option (bytes * tree) :=
  match t with GenNode 0 [GenLeaf (inr (true, n)); v] => Some (n, v) | _ => None end.

Definition tree_string (text : bool) (t : tree) : option bytes :=
  match t with
  | GenLeaf (inr (k, s)) => if bool_decide (k = text) then Some s else None
  | _ => None
  end.

#[export] Instance tree_serde : SerdeOps tree := {|
  serialize_int z := GenLeaf (inl z);
  serialize_str s := GenLeaf (inr (true, s));
  serialize_bytes s := GenLeaf (inr (false, s));
  serialize_unit_variant s := GenLeaf (inr (true, s));
  serialize_struct fs := GenNode 0 (map (fun kv => GenNode 0 [GenLeaf (inr (true, kv.1)); kv.2]) fs);
  deserialize_int t := match t with GenLeaf (inl z) => Some z | _ => None end;
  deserialize_string := tree_string true;
  deserialize_byte_buf := tree_string false;
  deserialize_unit_variant := tree_string true;
  deserialize_struct t := match t with GenNode 0 l => mapM tree_field l | _ => None end;
|}.

#[export] Instance tree_serde_laws : SerdeLaws tree.
Proof.
  split; try done. intros fs. cbn. induction fs as [|[n v] fs IH]; [done|]. cbn. by rewrite IH.
Qed.

#[local] Instance tree_codec : Codec tree := countable_codec.
#[local] Instance tree_codec_laws : CodecLaws tree := countable_codec_laws.

Lemma certificates_travel_witness :
  exists c bs, DeviceCert.sign_with_device (H0 := device_payload_codec (V := tree)) (b "device")
      (toy_public (b "seed")) (replicate 32 (as_u8 7)) (b "laptop") (b "linux") 5 = Ok c /\
    DeviceCert.to_cbor (H1 := device_codec (V := tree)) c = Ok bs /\
    DeviceCert.from_cbor (H1 := device_codec (V := tree)) bs = Ok c /\
    DeviceCert.verify (H0 := device_payload_codec (V := tree)) c (toy_public (b "seed"))
      [toy_public (b "device")] = Ok tt.
Proof.
  refine (proj1 (proj2 (certificates_travel (V := tree) demo_master (b "device")
    (replicate 32 (as_u8 7)) (b "laptop") (b "linux") 5 RevocationCert.Rotation
    [toy_public (b "device")] _ _ _ _ _ _))).
  - reflexivity.
  - left.
  - by vm_compute.
  - reflexivity.
  - split; by vm_compute.
  - by vm_compute.
Defined.

(** A key of any other length is refused. *)
Example short_key_refused :
  device_of (V := tree) (device_value {| DeviceCert.body := {| DeviceCert.cert_version := 1;
    DeviceCert.device_pubkey := replicate 31 (as_u8 7); DeviceCert.master_pubkey := replicate 32 (as_u8 8);
    DeviceCert.label := []; DeviceCert.platform := []; DeviceCert.enrolled_at := 0;
    DeviceCert.signer_role := RoleMaster; DeviceCert.signer_pubkey := replicate 32 (as_u8 8) |};
    DeviceCert.signature := replicate 64 (as_u8 9) |}) = None.
Proof. reflexivity. Qed.
