(* ===== verification/Signing.v ===== *)
(** OpenPGP signatures and messages: [EncryptionEngine::sign_data],
    [sign_auth_challenge], [encrypt_data] and [decrypt_data] of
    [gitcellar-crypto/src/encryption.rs], and [verify_detached] of
    [gitcellar-crypto/src/broadcast.rs]. *)

From S2P Require Import Prelude Bytes Interfaces Toy PasskeyError CryptoError Canonical Challenge.

(** An engine is its identity's certificate and the repository key version it
    was told, if any.  No operation of an engine reads its identity's user id, and
    its policy is the fixed standard one. *)
Record EncryptionEngine (Cert : Type) : Type := {
  ee_cert : Cert;
  key_version : option Z;
}.
Arguments ee_cert {Cert} _.
Arguments key_version {Cert} _.

Section Signing.
  Context {Cert : Type} `{PgpOps Cert}.

(** [keys().supported().alive().revoked(false)] and a key with secret material. *)
Definition live (k : key_view) : bool := kv_supported k && kv_alive k && negb (kv_revoked k).
Definition has_secret (k : key_view) : bool :=
  match kv_secret k with Some _ => true | None => false end.

Definition signing_keys (c : Cert) : list key_view :=
  List.filter (fun k => live k && kv_for_signing k && has_secret k) (cert_keys c).

Definition sign_data (e : EncryptionEngine Cert) (data : bytes) : result CryptoError bytes :=
  match signing_keys (ee_cert e) with
  | _ :: _ :: _ =>
      Err (CryptoError.Other "ambiguous cert: {} live, unrevoked signing subkeys with secret material (expected exactly 1)")
  | [] => Err NoSigningKey
  | [k] => ok_or (key_sign_detached k data) (CryptoError.Other "Failed to create signer: {}")
  end.

Definition sign_auth_challenge (e : EncryptionEngine Cert) (purpose : ChallengePurpose)
    (challenge : bytes) : result CryptoError bytes :=
  let? payload := map_err from_passkey (challenge_signing_payload purpose challenge) in
  sign_data e payload.

(** The verification policy hook: accept iff some signature of some signature
    group verified. *)
Definition check_structure (layers : list message_layer) : bool :=
  existsb (fun l => match l with
                    | LayerSignatureGroup results => existsb id results
                    | _ => false
                    end) layers.

Definition verify_detached (armored_public_key data signature : bytes)
    : result CryptoError bool :=
  let? cert := ok_or (cert_parse armored_public_key)
                 (CryptoError.OpenPgp "parse broadcast public key: {e}") in
  match detached_layers cert data signature with
  | None => Ok false
  | Some layers => Ok (check_structure layers)
  end.

(** The hook of [decrypt_data]: an enclosed signature layer is refused. *)
Definition check_encrypted_structure (layers : list message_layer) : bool :=
  forallb (fun l => match l with LayerSignatureGroup _ => false | _ => true end) layers.

(** [supported().for_transport_encryption().for_storage_encryption().secret()]:
    the two flags are alternatives, and neither validity nor revocation is
    asked for, so that older messages stay readable. *)
Definition decryption_keys (c : Cert) : list key_view :=
  List.filter (fun k => kv_supported k && (kv_for_transport k || kv_for_storage k) && has_secret k)
    (cert_keys c).

(** The inner loop: the first key that opens [p]; a key whose secret cannot be
    turned into a key pair ends the whole search with an error. *)
Fixpoint try_keys `{PgpMessageOps} (ks : list key_view) (p msg : bytes)
    : result CryptoError (option (list message_layer * bytes)) :=
  match ks with
  | [] => Ok None
  | k :: ks =>
      match kv_secret k with
      | Some EncryptedSecret => Err (CryptoError.Decryption "Failed to create decryptor: {}")
      | _ =>
          match pkesk_open k p msg with
          | Some x => Ok (Some x)
          | None => try_keys ks p msg
          end
      end
  end.

Fixpoint try_pkesks `{PgpMessageOps} (ks : list key_view) (ps : list bytes) (msg : bytes)
    : result CryptoError (list message_layer * bytes) :=
  match ps with
  | [] => Err (CryptoError.Decryption "Failed to create decryptor: {}")
  | p :: ps =>
      let? r := try_keys ks p msg in
      match r with
      | Some x => Ok x
      | None => try_pkesks ks ps msg
      end
  end.

Definition decrypt_data `{PgpMessageOps} (e : EncryptionEngine Cert) (encrypted_data : bytes)
    : result CryptoError bytes :=
  let? pkesks := ok_or (msg_pkesks encrypted_data)
                   (CryptoError.Decryption "Failed to parse message: {}") in
  let? opened := try_pkesks (decryption_keys (ee_cert e)) pkesks encrypted_data in
  if check_encrypted_structure opened.1 then Ok opened.2
  else Err (CryptoError.Decryption "Failed to read decrypted data: {}").

Definition encryption_recipients (c : Cert) : list key_view :=
  List.filter (fun k => live k && kv_for_transport k) (cert_keys c).

Definition encrypt_data (e : EncryptionEngine Cert) (data : bytes) : result CryptoError bytes :=
  match encryption_recipients (ee_cert e) with
  | [] => Err NoEncryptionKey
  | recipients => ok_or (pgp_encrypt recipients data)
                    (CryptoError.Encryption "Failed to create encryptor: {}")
  end.
End Signing.

(** An engine that can sign, with exactly one live signing key, and the armored
    public certificate others verify it against. *)
Record signer {Cert} `{PgpOps Cert} (e : EncryptionEngine Cert) (armor : bytes) : Prop := {
  sg_key : exists k, signing_keys (ee_cert e) = [k] /\
             forall data, is_Some (key_sign_detached k data);
  sg_armor : cert_public_armor (ee_cert e) = Some armor;
}.

Section Lemmas.
  Context {Cert : Type} `{PgpLaws Cert}.

Lemma signing_keys_in (c : Cert) k ks :
  signing_keys c = k :: ks -> k ∈ cert_keys c.
Proof.
  intros E. apply list_elem_of_In.
  assert (Hin : In k (signing_keys c)) by (rewrite E; by left).
  unfold signing_keys in Hin. by apply filter_In in Hin as [? _].
Qed.

(** What an engine signs verifies under its exported certificate. *)
Lemma sign_data_verifies (e : EncryptionEngine Cert) armor data :
  signer e armor ->
  exists sig, sign_data e data = Ok sig /\ verify_detached armor data sig = Ok true.
Proof.
  intros [(k & Ek & Hk) Ha]. unfold sign_data. rewrite Ek.
  destruct (Hk data) as [sig Es]. rewrite Es. exists sig. split; [done|].
  destruct (pgp_export_parse _ _ Ha) as (pub & Ep & Hv).
  unfold verify_detached. rewrite Ep. cbn [ok_or rbind].
  rewrite (Hv k data sig); [done | by eapply signing_keys_in | done].
Qed.

(** Ambiguity is refused, never resolved by order. *)
Lemma sign_data_ambiguous (e : EncryptionEngine Cert) data k1 k2 ks :
  signing_keys (ee_cert e) = k1 :: k2 :: ks -> is_err (sign_data e data) = true.
Proof. intros E. unfold sign_data. by rewrite E. Qed.

(** *** Encrypted data *)

Lemma try_keys_ok `{PgpMessageOps} ks p msg :
  Forall (fun k => kv_secret k <> Some EncryptedSecret) ks ->
  exists o, try_keys ks p msg = Ok o /\
    (forall x, o = Some x -> exists k, pkesk_open k p msg = Some x) /\
    (forall k, k ∈ ks -> is_Some (pkesk_open k p msg) -> is_Some o).
Proof.
  induction 1 as [|k ks Hk _ (o & IH1 & IH2 & IH3)]; cbn [try_keys].
  { exists None. split; [done|]. split; [done|]. by intros ? ?%elem_of_nil. }
  assert (E : match kv_secret k with
    | Some EncryptedSecret => Err (CryptoError.Decryption "Failed to create decryptor: {}")
    | _ => match pkesk_open k p msg with Some x => Ok (Some x) | None => try_keys ks p msg end
    end = match pkesk_open k p msg with Some x => Ok (Some x) | None => try_keys ks p msg end)
    by (by destruct (kv_secret k) as [[]|]).
  rewrite E. clear E. destruct (pkesk_open k p msg) as [x|] eqn:Ex.
  - exists (Some x). split; [done|]. split; [|eauto]. intros ? [= <-]. eauto.
  - exists o. split; [done|]. split; [done|].
    intros k' [->|Hk']%elem_of_cons Hs; [|eauto]. rewrite Ex in Hs. by destruct Hs.
Qed.

Lemma try_pkesks_ok `{PgpMessageOps} ks ps msg x0 :
  Forall (fun k => kv_secret k <> Some EncryptedSecret) ks ->
  (forall k p x, pkesk_open k p msg = Some x -> x = x0) ->
  (exists k p, k ∈ ks /\ p ∈ ps /\ is_Some (pkesk_open k p msg)) ->
  try_pkesks ks ps msg = Ok x0.
Proof.
  intros Hk Hx. induction ps as [|p ps IH]; intros (k & q & Hin & Hq & Hs).
  { by apply elem_of_nil in Hq. }
  cbn [try_pkesks]. destruct (try_keys_ok ks p msg Hk) as (o & -> & Ho1 & Ho2). cbn [rbind].
  destruct o as [x|].
  - destruct (Ho1 x eq_refl) as [k' Ek]. by rewrite (Hx _ _ _ Ek).
  - apply elem_of_cons in Hq as [->|Hq].
    + destruct (Ho2 k Hin Hs) as [? ?]. done.
    + apply IH. eauto.
Qed.
End Lemmas.

Section Properties.
  Context {Cert : Type} `{PgpMessageLaws Cert}.

Lemma encrypted_decrypts (e e' : EncryptionEngine Cert) data msg k k' :
  encrypt_data e data = Ok msg ->
  k ∈ encryption_recipients (ee_cert e) ->
  k' ∈ decryption_keys (ee_cert e') -> kv_handle k' = kv_handle k ->
  Forall (fun k => kv_secret k <> Some EncryptedSecret) (decryption_keys (ee_cert e')) ->
  decrypt_data e' msg = Ok data.
Proof.
  intros He Hk Hk' Hh Hf. unfold encrypt_data in He.
  destruct (encryption_recipients (ee_cert e)) as [|k0 ks]; [by apply elem_of_nil in Hk|].
  destruct (pgp_encrypt (k0 :: ks) data) as [m|] eqn:Em; [|done]. injection He as ->.
  destruct (msg_encrypt_open _ _ _ Em) as (ps & Ep & Hopen & Honly).
  unfold decrypt_data. rewrite Ep. cbn [ok_or rbind].
  rewrite (try_pkesks_ok _ ps msg ([LayerEncryption], data)); [done|done|done|].
  assert (Hs : is_Some (kv_secret k')).
  { apply list_elem_of_In in Hk'. unfold decryption_keys in Hk'. apply filter_In in Hk' as [_ Hb].
    zbool. unfold has_secret in *. by destruct (kv_secret k'). }
  destruct (Hopen k k' Hk Hh Hs) as (p & Hp & Ho). eauto.
Qed.

(** What is encrypted to a certificate can be decrypted by any later state of
    it: an engine [e'] that still holds the unencrypted secret of one of the
    recipients recovers the data, even if that subkey has since expired or been
    revoked. *)
Theorem encrypt_decrypt_data (e e' : EncryptionEngine Cert) data msg k k' :
  encrypt_data e data = Ok msg ->
  k ∈ encryption_recipients (ee_cert e) ->
  k' ∈ decryption_keys (ee_cert e') -> kv_handle k' = kv_handle k ->
  Forall (fun k => kv_secret k <> Some EncryptedSecret) (decryption_keys (ee_cert e')) ->
  decrypt_data e' msg = Ok data.
Proof. apply encrypted_decrypts. Qed.
End Properties.

Lemma encrypt_decrypt_data_witness :
  let e := {| ee_cert := b "cert"; key_version := None |} in
  decrypt_data e (b "grant payload") = Ok (b "grant payload").
Proof.
  intros e. apply (encrypt_decrypt_data e e (b "grant payload") (b "grant payload")
    (toy_key true false (b "cert")) (toy_key true false (b "cert"))).
  - reflexivity.
  - by left.
  - by left.
  - reflexivity.
  - repeat constructor; by intros [=].
Defined.
