(* ===== verification/Grant.v ===== *)
(** [gitcellar-crypto/src/grant_signing.rs]: origin signatures over repository-key
    grants. *)

From S2P Require Import Prelude Bytes Utf8 Interfaces Toy CryptoError Canonical Signing.

Definition GRANT_CANONICAL_VERSION : bytes := b "gc-grant-v2".
Definition DELEGATED_GRANT_CANONICAL_VERSION : bytes := b "gc-grant-delegated-v2".

(** Whitespace dropped, every remaining character upper-cased. *)
Definition normalize_fingerprint `{UnicodeOps} (fingerprint : bytes) : bytes :=
  concat (map char_to_uppercase
    (List.filter (fun c => negb (is_whitespace (code_point c))) (chars fingerprint))).

Record RepoKeyGrant : Type := {
  repo_uid : bytes;
  key_version : Z;
  recipient_fingerprint : bytes;
  granter_fingerprint : bytes;
  key_material_b64 : bytes;
  timestamp_unix : Z;
}.

Record GrantDelegation : Type := {
  del_repo_uid : bytes;
  delegate_account : bytes;
  delegate_fingerprint : bytes;
  del_key_version : Z;
  del_timestamp_unix : Z;
  expires_at_unix : Z;
  delegation_sig_b64 : bytes;
}.

Record GrantBundle : Type := {
  v : bytes;
  b_repo_uid : bytes;
  b_key_material_b64 : bytes;
  b_granter_fingerprint : bytes;
  b_timestamp_unix : Z;
  grant_sig_b64 : bytes;
  delegation : option GrantDelegation;
}.

Inductive GrantVerifyOutcome : Type :=
  | Valid
  | GranterFingerprintMismatch (claimed served : bytes)
  | SignatureInvalid
  | Malformed (m : string).

Definition allow (o : GrantVerifyOutcome) : bool :=
  match o with Valid => true | _ => false end.

Definition alarm (o : GrantVerifyOutcome) : bool :=
  match o with SignatureInvalid | GranterFingerprintMismatch _ _ => true | _ => false end.

(** The reason for the log. *)
Definition reason (o : GrantVerifyOutcome) : string :=
  match o with
  | Valid => "grant signature verified"
  | GranterFingerprintMismatch claimed served =>
      "grant claims granter fingerprint " +:+ text claimed +:+
      " but the served granter cert is " +:+ text served
  | SignatureInvalid => "grant origin signature is absent or does not verify under the granter's cert"
  | Malformed m => "grant signature unprocessable: " +:+ m
  end.

Section Grant.
  Context `{UnicodeOps, Base64Ops} {Cert : Type} `{PgpOps Cert} `{Codec GrantBundle}.

Definition new (repo_uid : bytes) (key_version : Z) (recipient_fingerprint granter_fingerprint
    key_material_b64 : bytes) (timestamp_unix : Z) : RepoKeyGrant :=
  {| repo_uid := repo_uid; key_version := key_version;
     recipient_fingerprint := normalize_fingerprint recipient_fingerprint;
     granter_fingerprint := normalize_fingerprint granter_fingerprint;
     key_material_b64 := key_material_b64; timestamp_unix := timestamp_unix |}.

Definition canonical (g : RepoKeyGrant) : bytes :=
  lp_fields [GRANT_CANONICAL_VERSION; repo_uid g; dec (key_version g);
    normalize_fingerprint (recipient_fingerprint g);
    normalize_fingerprint (granter_fingerprint g);
    key_material_b64 g; dec (timestamp_unix g)].

Definition canonical_with_delegation (g : RepoKeyGrant) (d : option GrantDelegation) : bytes :=
  match d with
  | None => canonical g
  | Some del =>
      lp_fields [DELEGATED_GRANT_CANONICAL_VERSION; repo_uid g; dec (key_version g);
        normalize_fingerprint (recipient_fingerprint g);
        normalize_fingerprint (granter_fingerprint g);
        key_material_b64 g; dec (timestamp_unix g);
        del_repo_uid del; delegate_account del; delegate_fingerprint del;
        dec (del_key_version del); dec (del_timestamp_unix del); dec (expires_at_unix del);
        delegation_sig_b64 del]
  end.

Definition sign_repo_key_grant (e : EncryptionEngine Cert) (g : RepoKeyGrant)
    : result CryptoError bytes :=
  let? sig := sign_data e (canonical g) in
  Ok (b64_encode sig).

Definition verify_signed_bytes (cert_armored signed signature_b64 : bytes)
    : result CryptoError bool :=
  if bool_decide (signature_b64 = []) then Ok false
  else
    let? sig := ok_or (b64_decode signature_b64)
                  (OpenPgp "grant sig is not valid base64: {e}") in
    verify_detached cert_armored signed sig.

Definition verify_repo_key_grant (granter_cert_armored : bytes) (g : RepoKeyGrant)
    (signature_b64 : bytes) : result CryptoError bool :=
  verify_signed_bytes granter_cert_armored (canonical g) signature_b64.

Definition to_grant (bd : GrantBundle) (key_version : Z) (recipient_fingerprint : bytes)
    : RepoKeyGrant :=
  new (b_repo_uid bd) key_version recipient_fingerprint (b_granter_fingerprint bd)
    (b_key_material_b64 bd) (b_timestamp_unix bd).

Definition to_json (bd : GrantBundle) : result CryptoError bytes :=
  ok_or (ser bd) (CryptoError.Encryption "grant bundle serialize failed: {e}").

Definition from_json (bs : bytes) : result CryptoError GrantBundle :=
  let? bundle := ok_or (de bs) (CryptoError.Decryption "grant payload is not a gc-grant bundle (an old unsigned grant looks like this — it must be re-issued, not imported): {e}") in
  if negb (bool_decide (v bundle = GRANT_CANONICAL_VERSION))
  then Err (CryptoError.Decryption "unsupported grant bundle version {:?} (expected {:?})")
  else if bool_decide (trim (b_repo_uid bundle) = [])
  then Err (CryptoError.Decryption "grant bundle names no repo_uid; a gc-grant-v2 grant always binds one")
  else Ok bundle.

Definition build_signed_repo_grant_bundle (granter_engine : EncryptionEngine Cert)
    (repo_uid : bytes) (key_version : Z) (recipient_fingerprint key_material_b64 : bytes)
    (timestamp_unix : Z) (delegation : option GrantDelegation)
    : result CryptoError GrantBundle :=
  let granter_fingerprint := normalize_fingerprint (cert_fingerprint (ee_cert granter_engine)) in
  let grant := new repo_uid key_version recipient_fingerprint granter_fingerprint
                 key_material_b64 timestamp_unix in
  let? sig := sign_data granter_engine (canonical_with_delegation grant delegation) in
  Ok {| v := GRANT_CANONICAL_VERSION; b_repo_uid := repo_uid;
        b_key_material_b64 := key_material_b64; b_granter_fingerprint := granter_fingerprint;
        b_timestamp_unix := timestamp_unix; grant_sig_b64 := b64_encode sig;
        delegation := delegation |}.

Definition build_signed_grant_bundle (granter_engine : EncryptionEngine Cert)
    (repo_uid : bytes) (key_version : Z) (recipient_fingerprint key_material_b64 : bytes)
    (timestamp_unix : Z) : result CryptoError GrantBundle :=
  build_signed_repo_grant_bundle granter_engine repo_uid key_version recipient_fingerprint
    key_material_b64 timestamp_unix None.

Definition build_signed_delegated_grant_bundle (granter_engine : EncryptionEngine Cert)
    (repo_uid : bytes) (key_version : Z) (recipient_fingerprint key_material_b64 : bytes)
    (timestamp_unix : Z) (delegation : GrantDelegation) : result CryptoError GrantBundle :=
  build_signed_repo_grant_bundle granter_engine repo_uid key_version recipient_fingerprint
    key_material_b64 timestamp_unix (Some delegation).

Definition verify_grant_bundle (bundle : GrantBundle) (granter_cert_armored
    granter_served_fingerprint repo_uid : bytes) (key_version : Z)
    (recipient_fingerprint : bytes) : GrantVerifyOutcome :=
  let claimed := normalize_fingerprint (b_granter_fingerprint bundle) in
  let served := normalize_fingerprint granter_served_fingerprint in
  if negb (bool_decide (claimed = served)) then GranterFingerprintMismatch claimed served
  else if bool_decide (repo_uid = []) || negb (bool_decide (b_repo_uid bundle = repo_uid))
  then SignatureInvalid
  else
    let grant := to_grant bundle key_version recipient_fingerprint in
    let verified :=
      match delegation bundle with
      | None => verify_repo_key_grant granter_cert_armored grant (grant_sig_b64 bundle)
      | Some del => verify_signed_bytes granter_cert_armored
                      (canonical_with_delegation grant (Some del)) (grant_sig_b64 bundle)
      end in
    match verified with
    | Ok true => Valid
    | Ok false => SignatureInvalid
    | Err e => Malformed (CryptoError.to_string e)
    end.
End Grant.

(** ** Lemmas *)

Section Normalize.
  Context `{UnicodeLaws}.

Definition ascii_fp (c : byte) : bool :=
  (u8 c <? 128) && negb (is_whitespace (u8 c)).

(** On ASCII without whitespace, normalizing is upper-casing. *)
Lemma normalize_ascii fp :
  Forall (fun c => ascii_fp c = true) fp ->
  normalize_fingerprint fp = map to_ascii_uppercase_byte fp.
Proof.
  intros Hf. unfold normalize_fingerprint. rewrite chars_ascii.
  2:{ eapply Forall_impl; [exact Hf|]. cbn. intros c Hc. unfold ascii_fp in Hc. zbool. lia. }
  induction Hf as [|c fp Hc _ IH]; [done|]. unfold ascii_fp in Hc. zbool.
  cbn [map List.filter]. change (code_point [c]) with (u8 c). rewrite H2. cbn [negb map concat].
  by rewrite char_to_uppercase_ascii, IH.
Qed.

Lemma upper_ascii_fp c : ascii_fp c = true -> ascii_fp (to_ascii_uppercase_byte c) = true.
Proof.
  intros Hc. pose proof (byte_forall
    (fun c => negb (ascii_fp c) || ascii_fp (to_ascii_uppercase_byte c)) eq_refl c) as E.
  cbn beta in E. by rewrite Hc in E.
Qed.

Lemma upper_upper c :
  to_ascii_uppercase_byte (to_ascii_uppercase_byte c) = to_ascii_uppercase_byte c.
Proof.
  pose proof (byte_forall (fun c => bool_decide (to_ascii_uppercase_byte
    (to_ascii_uppercase_byte c) = to_ascii_uppercase_byte c)) eq_refl c) as E.
  by apply bool_decide_eq_true in E.
Qed.

Lemma normalize_idemp fp :
  Forall (fun c => ascii_fp c = true) fp ->
  normalize_fingerprint (normalize_fingerprint fp) = normalize_fingerprint fp.
Proof.
  intros Hf. rewrite (normalize_ascii fp) by done. rewrite normalize_ascii.
  - rewrite map_map. apply map_ext. apply upper_upper.
  - apply Forall_map. eapply Forall_impl; [exact Hf|]. cbn. apply upper_ascii_fp.
Qed.
End Normalize.

(** ** Properties *)

(** What a grant signature binds, fingerprints up to their rendering. *)
Definition bound_fields `{UnicodeOps} (g : RepoKeyGrant) : RepoKeyGrant :=
  {| repo_uid := repo_uid g; key_version := key_version g;
     recipient_fingerprint := normalize_fingerprint (recipient_fingerprint g);
     granter_fingerprint := normalize_fingerprint (granter_fingerprint g);
     key_material_b64 := key_material_b64 g; timestamp_unix := timestamp_unix g |}.

(** C24: A grant signature covers one grant only: two grants with the same signed
    bytes agree on the repository, key version, recipient, granter, key material
    and time, and carry the same delegation field for field (or none).  So
    stripping, swapping or editing a delegation changes the signed bytes. *)
Theorem grant_canonical_binds `{UnicodeOps} g d g' d' :
  canonical_with_delegation g d = canonical_with_delegation g' d' ->
  bound_fields g = bound_fields g' /\ d = d'.
Proof.
  intros E. destruct g as [u k rf gf km ts], g' as [u' k' rf' gf' km' ts'].
  unfold bound_fields.
  destruct d as [[du da df dk dt de ds]|], d' as [[du' da' df' dk' dt' de' ds']|];
    unfold canonical_with_delegation, canonical in E; apply lp_fields_inj in E;
    cbn [repo_uid key_version recipient_fingerprint granter_fingerprint key_material_b64
         timestamp_unix del_repo_uid delegate_account delegate_fingerprint del_key_version
         del_timestamp_unix expires_at_unix delegation_sig_b64] in E |- *;
    try discriminate E.
  - injection E as -> Ek -> -> -> Et -> -> -> Edk Edt Ede ->.
    apply dec_inj in Ek, Et, Edk, Edt, Ede. by subst.
  - injection E as -> Ek -> -> -> Et. apply dec_inj in Ek, Et. by subst.
Qed.

Lemma grant_canonical_binds_witness :
  let g := new (b "uid") 3 (b "BB 22") (b "aa11") (b "a2V5") 1750000000 in
  let g' := new (b "uid") 3 (b "BB22") (b "AA11") (b "a2V5") 1750000000 in
  bound_fields g = bound_fields g'.
Proof.
  intros g g'. apply (grant_canonical_binds g None g' None). by vm_compute.
Defined.

Section Verify.
  Context `{UnicodeLaws, Base64Laws} {Cert : Type} `{PgpLaws Cert}.

Lemma verify_signed_bytes_true armor signed sig64 :
  verify_signed_bytes armor signed sig64 = Ok true <->
  sig64 <> [] /\ exists sig, b64_decode sig64 = Some sig /\
    verify_detached armor signed sig = Ok true.
Proof.
  unfold verify_signed_bytes. case_bool_decide; [by split; [|intros [? _]]|].
  destruct (b64_decode sig64) as [sig|]; cbn.
  - split; [eauto | by intros (_ & ? & [= <-] & ?)].
  - split; [done | by intros (_ & ? & ? & _)].
Qed.

(** C9: The receiving gate accepts a bundle exactly when the granter fingerprint
    it claims is the served certificate's, it names the caller's (non-empty)
    repository, and a non-empty signature by that certificate verifies over the
    canonical of the tuple the recipient reconstructs, its delegation
    included.  Every other outcome refuses the import. *)
Theorem grant_bundle_allowed_iff bundle armor served uid kv rf :
  allow (verify_grant_bundle bundle armor served uid kv rf) = true <->
  normalize_fingerprint (b_granter_fingerprint bundle) = normalize_fingerprint served /\
  uid <> [] /\ b_repo_uid bundle = uid /\ grant_sig_b64 bundle <> [] /\
  exists sig, b64_decode (grant_sig_b64 bundle) = Some sig /\
    verify_detached armor
      (canonical_with_delegation (to_grant bundle kv rf) (delegation bundle)) sig = Ok true.
Proof.
  unfold verify_grant_bundle.
  case_bool_decide as Hfp; cbn [negb allow]; [|by split; [|intros [? _]]].
  case_bool_decide as Hu; cbn [orb allow]; [by split; [|intros (_ & ? & _)]|].
  case_bool_decide as Hb; cbn [negb orb allow]; [|by split; [|intros (_ & _ & ? & _)]].
  assert (E : match delegation bundle with
    | None => verify_repo_key_grant armor (to_grant bundle kv rf) (grant_sig_b64 bundle)
    | Some del => verify_signed_bytes armor
        (canonical_with_delegation (to_grant bundle kv rf) (Some del)) (grant_sig_b64 bundle)
    end = verify_signed_bytes armor
      (canonical_with_delegation (to_grant bundle kv rf) (delegation bundle)) (grant_sig_b64 bundle))
    by (by destruct (delegation bundle)).
  rewrite E. clear E.
  pose proof (verify_signed_bytes_true armor
    (canonical_with_delegation (to_grant bundle kv rf) (delegation bundle))
    (grant_sig_b64 bundle)) as Hv.
  destruct (verify_signed_bytes _ _ _) as [[]|e]; cbn [allow].
  - split; [|done]. intros _. destruct Hv as [Hv _]. destruct (Hv eq_refl) as [? ?]. auto.
  - split; [done|]. intros (_ & _ & _ & Hr). by apply Hv in Hr.
  - split; [done|]. intros (_ & _ & _ & Hr). by apply Hv in Hr.
Qed.

(** A grant the owner builds, with or without a delegation, is accepted by
    its recipient: same repository, key version and recipient (fingerprints in
    either rendering), against the granter's exported certificate. *)
Theorem grant_build_verify e armor uid kv rf km ts d :
  signer e armor -> uid <> [] ->
  Forall (fun c => ascii_fp c = true) (cert_fingerprint (ee_cert e)) ->
  (forall data sig, sign_data e data = Ok sig -> sig <> []) ->
  exists bundle, build_signed_repo_grant_bundle e uid kv rf km ts d = Ok bundle /\
    verify_grant_bundle bundle armor (cert_fingerprint (ee_cert e)) uid kv rf = Valid.
Proof.
  intros Hs Hu Hfp Hne. unfold build_signed_repo_grant_bundle.
  set (fp := normalize_fingerprint (cert_fingerprint (ee_cert e))).
  set (g := new uid kv rf fp km ts).
  destruct (sign_data_verifies e armor (canonical_with_delegation g d) Hs) as (sig & Es & Hv).
  rewrite Es. cbn [rbind]. eexists. split; [done|].
  unfold verify_grant_bundle. cbn [b_granter_fingerprint b_repo_uid delegation grant_sig_b64].
  rewrite bool_decide_true by (by apply normalize_idemp). cbn [negb].
  rewrite bool_decide_false by done. rewrite bool_decide_true by done. cbn [negb orb].
  assert (Hok : verify_signed_bytes armor (canonical_with_delegation g d) (b64_encode sig) = Ok true).
  { apply verify_signed_bytes_true. split.
    - intros E. apply b64_encode_nil in E. by apply (Hne _ _ Es).
    - exists sig. split; [apply b64_decode_encode | done]. }
  unfold to_grant. cbn [b_repo_uid b_granter_fingerprint b_key_material_b64 b_timestamp_unix].
  fold g. unfold verify_repo_key_grant. by destruct d; cbn in Hok |- *; rewrite Hok.
Qed.
End Verify.

Definition demo_engine : EncryptionEngine bytes :=
  {| ee_cert := b "alice"; Signing.key_version := Some 1 |}.

Lemma demo_signer : signer demo_engine (b "alice").
Proof. split; [|done]. eexists. split; [by vm_compute | eauto]. Qed.

Lemma demo_signature_nonempty data sig : sign_data demo_engine data = Ok sig -> sig <> [].
Proof. cbn. intros [= <-]. unfold checksum. intros E%(f_equal length). by rewrite length_to_le_bytes in E. Qed.

Lemma grant_build_verify_witness :
  exists bundle, build_signed_repo_grant_bundle demo_engine (b "uid") 3 (b "bb22") (b "a2V5") 9 None
      = Ok bundle /\
    verify_grant_bundle bundle (b "alice") (cert_fingerprint (b "alice")) (b "uid") 3 (b "bb22") = Valid.
Proof.
  apply (grant_build_verify demo_engine (b "alice") (b "uid") 3 (b "bb22") (b "a2V5") 9 None).
  - exact demo_signer.
  - discriminate.
  - repeat constructor.
  - exact demo_signature_nonempty.
Defined.

Lemma grant_bundle_allowed_iff_witness :
  let bundle := {| v := []; b_repo_uid := b "uid"; b_key_material_b64 := []; 
    b_granter_fingerprint := b "aa"; b_timestamp_unix := 0; grant_sig_b64 := []; delegation := None |} in
  allow (verify_grant_bundle bundle (b "alice") (b "aa") (b "uid") 1 (b "bb")) <> true.
Proof.
  intros bundle E. apply grant_bundle_allowed_iff in E.
  destruct E as (_ & _ & _ & E & _). apply E. reflexivity.
Defined.
