(* ===== verification/Broadcast.v ===== *)
(** [gitcellar-crypto/src/broadcast.rs]: signed emergency broadcasts and the
    incident manifest.

    A timestamp is an opaque count compared by the verifier; [serde_json] on the
    payload is a codec parameter. *)

From S2P Require Import Prelude Bytes Interfaces Toy CryptoError Canonical Signing.

Definition BROADCAST_PAYLOAD_VERSION : Z := 1.
Definition INCIDENT_MANIFEST_VERSION : Z := 2.
Definition INCIDENT_MANIFEST_DOMAIN : bytes := b "gitcellar/incident-manifest/v2".

Definition ACTION_URL_ALLOWLIST : list bytes :=
  [b "gitcellar.com"; b "www.gitcellar.com"; b "status.gitcellar.com"; b "api.gitcellar.com"].

Inductive BroadcastTier : Type := Incident | Warning | Announcement.

Definition is_mandatory (t : BroadcastTier) : bool :=
  match t with Incident | Warning => true | Announcement => false end.

Record BroadcastTargeting : Type := {
  min_version : option bytes;
  platform : option (list bytes);
  plan_type : option (list bytes);
  email_verified : option bool;
}.

Definition targeting_is_empty (t : BroadcastTargeting) : bool :=
  match min_version t, platform t, plan_type t, email_verified t with
  | None, None, None, None => true
  | _, _, _, _ => false
  end.

Record BroadcastPayload : Type := {
  v : Z;
  id : bytes;
  tier : BroadcastTier;
  title : bytes;
  body : bytes;
  action_url : option bytes;
  issued_at : Z;
  expires_at : option Z;
  seq : Z;
  signer_fingerprint : bytes;
  targeting : option BroadcastTargeting;
}.

(** The index of the first byte satisfying [p], or the length. *)
Fixpoint find_byte (p : byte -> bool) (s : bytes) : nat :=
  match s with
  | [] => 0
  | c :: s => if p c then 0 else Datatypes.S (find_byte p s)
  end.

Definition is_authority_end (c : byte) : bool :=
  bool_decide (c ∈ [Byte.x2f; Byte.x3f; Byte.x23]).   (* / ? # *)

Definition action_url_allowed (url : bytes) : bool :=
  match strip_prefix (b "https://") url with
  | None => false
  | Some rest =>
      let authority := take (find_byte is_authority_end rest) rest in
      if bool_decide (authority = []) then false
      else if contains_byte Byte.x40 authority || contains_byte COLON authority then false
      else
        let host := to_ascii_lowercase authority in
        existsb (fun allowed => bool_decide (allowed = host)) ACTION_URL_ALLOWLIST
  end.

Definition validate_action_url (p : BroadcastPayload) : result CryptoError unit :=
  match action_url p with
  | None => Ok tt
  | Some url =>
      if action_url_allowed url then Ok tt
      else Err (CryptoError.Broadcast "action_url host not in allowlist: {url}")
  end.

Inductive ManifestState : Type := Active | Clear.

#[export] Instance ManifestState_eq_dec : EqDecision ManifestState.
Proof. solve_decision. Defined.

Definition as_str (s : ManifestState) : bytes :=
  match s with Active => b "active" | Clear => b "clear" end.

Record IncidentManifest : Type := {
  manifest_v : Z;
  state : ManifestState;
  m_seq : Z;
  payload : bytes;
  signature : bytes;
  m_signer_fingerprint : bytes;
  m_issued_at : Z;
}.

Inductive ManifestVerdict : Type :=
  | VActive (p : BroadcastPayload) (seq : Z)
  | VClear (seq : Z)
  | Stale
  | Expired (seq : Z)
  | NoTrustedSignal (reason : string).

Definition incident_manifest_signed_bytes (manifest_v : Z) (state : ManifestState) (seq : Z)
    (signer_fingerprint payload : bytes) : bytes :=
  lp_fields [INCIDENT_MANIFEST_DOMAIN; dec manifest_v; as_str state; dec seq;
    signer_fingerprint; payload].

Definition signed_bytes (m : IncidentManifest) : bytes :=
  incident_manifest_signed_bytes (manifest_v m) (state m) (m_seq m)
    (m_signer_fingerprint m) (payload m).

Section Manifest.
  Context `{Base64Ops} {Cert : Type} `{PgpOps Cert} `{Codec BroadcastPayload}.

Definition to_canonical_json (p : BroadcastPayload) : result CryptoError bytes :=
  ok_or (ser p) CryptoError.Serialization.

Definition from_canonical_json (s : bytes) : result CryptoError BroadcastPayload :=
  ok_or (de s) CryptoError.Serialization.

Definition sign (engine : EncryptionEngine Cert) (state : ManifestState) (p : BroadcastPayload)
    : result CryptoError IncidentManifest :=
  let? json := to_canonical_json p in
  let manifest := {| manifest_v := INCIDENT_MANIFEST_VERSION; state := state; m_seq := seq p;
    payload := json; signature := []; m_signer_fingerprint := signer_fingerprint p;
    m_issued_at := issued_at p |} in
  let? sig := sign_data engine (signed_bytes manifest) in
  Ok {| manifest_v := manifest_v manifest; state := state; m_seq := m_seq manifest;
        payload := payload manifest; signature := b64_encode sig;
        m_signer_fingerprint := m_signer_fingerprint manifest;
        m_issued_at := m_issued_at manifest |}.

Definition verify_and_parse (m : IncidentManifest) (trust_set : list bytes)
    (last_verified_seq now : Z) : ManifestVerdict :=
  if negb (manifest_v m =? INCIDENT_MANIFEST_VERSION)
  then NoTrustedSignal "unknown manifest_v {}"
  else
    match b64_decode (signature m) with
    | None => NoTrustedSignal "signature not valid base64"
    | Some sig_bytes =>
        let signed := signed_bytes m in
        let sig_ok := existsb (fun armored_key =>
          match verify_detached armored_key signed sig_bytes with
          | Ok x => x
          | Err _ => false
          end) trust_set in
        if negb sig_ok then NoTrustedSignal "signature did not verify against any pinned key"
        else
          match from_canonical_json (payload m) with
          | Err _ => NoTrustedSignal "payload string did not parse"
          | Ok p =>
              if negb (v p =? BROADCAST_PAYLOAD_VERSION)
              then NoTrustedSignal "unknown payload v {}"
              else if negb (bool_decide (signer_fingerprint p = m_signer_fingerprint m))
              then NoTrustedSignal "envelope/payload fingerprint mismatch"
              else if negb (seq p =? m_seq m)
              then NoTrustedSignal "envelope/payload seq mismatch"
              else if negb (issued_at p =? m_issued_at m)
              then NoTrustedSignal "envelope/payload issued_at mismatch"
              else if m_seq m <=? last_verified_seq then Stale
              else if bool_decide (state m = Clear) then VClear (m_seq m)
              else
                match expires_at p with
                | Some exp => if now >? exp then Expired (m_seq m) else VActive p (m_seq m)
                | None => VActive p (m_seq m)
                end
          end
    end.
End Manifest.

(** ** Properties *)

(** A pinned key verified a signature over exactly these bytes. *)
Definition authentic `{Base64Ops} {Cert} `{PgpOps Cert} (trust : list bytes)
    (signed sig64 : bytes) : Prop :=
  exists sig key, b64_decode sig64 = Some sig /\ key ∈ trust /\
    verify_detached key signed sig = Ok true.

(** The signed envelope binds its state: flipping Active and Clear changes it. *)
Lemma signed_bytes_inj mv st sq fp pl mv' st' sq' fp' pl' :
  incident_manifest_signed_bytes mv st sq fp pl
    = incident_manifest_signed_bytes mv' st' sq' fp' pl' ->
  mv = mv' /\ st = st' /\ sq = sq' /\ fp = fp' /\ pl = pl'.
Proof.
  unfold incident_manifest_signed_bytes. intros E%lp_fields_inj.
  injection E as Ev Es Eq -> ->. apply dec_inj in Ev, Eq. by destruct st, st'.
Qed.

Section Verdict.
  Context `{Base64Laws} {Cert : Type} `{PgpLaws Cert} `{CodecLaws BroadcastPayload}.


(** A manifest the publisher signs is accepted by every client that pins its
    key and has seen only earlier sequence numbers: as a clear, as active, or
    as expired once its expiry has passed. *)
Theorem manifest_sign_accepted e armor st p trust last now :
  signer e armor -> armor ∈ trust -> v p = BROADCAST_PAYLOAD_VERSION -> last < seq p ->
  exists m, sign e st p = Ok m /\
    verify_and_parse m trust last now =
      match st with
      | Clear => VClear (seq p)
      | Active =>
          match expires_at p with
          | Some exp => if now >? exp then Expired (seq p) else VActive p (seq p)
          | None => VActive p (seq p)
          end
      end.
Proof.
  intros Hs Hin Hv Hl. unfold sign, to_canonical_json.
  destruct (ser_total p) as [json Ej]. rewrite Ej. cbn [ok_or rbind].
  set (m0 := {| manifest_v := _ |}).
  destruct (sign_data_verifies e armor (signed_bytes m0) Hs) as (sig & -> & Hver).
  cbn [rbind]. eexists. split; [done|]. unfold verify_and_parse. cbn [manifest_v signature].
  subst m0. cbn [manifest_v state m_seq payload m_signer_fingerprint m_issued_at] in *.
  rewrite Z.eqb_refl. cbn [negb]. rewrite b64_decode_encode.
  match goal with |- context [existsb ?f trust] => assert (He : existsb f trust = true) end.
  { apply existsb_exists. exists armor. split; [by apply list_elem_of_In|].
    unfold signed_bytes in *. cbn [manifest_v state m_seq payload m_signer_fingerprint] in *.
    by rewrite Hver. }
  rewrite He. cbn [negb]. unfold from_canonical_json. rewrite (de_ser _ _ Ej). cbn [ok_or].
  rewrite Hv, !Z.eqb_refl. cbn [negb]. rewrite bool_decide_true by done. cbn [negb].
  destruct (Z.leb_spec (seq p) last); [lia|]. by destruct st.
Qed.
End Verdict.

(** *** Action URLs *)

Lemma find_byte_split p s :
  let a := take (find_byte p s) s in
  let r := drop (find_byte p s) s in
  s = a ++ r /\ Forall (fun c => p c = false) a /\
  match r with [] => True | c :: _ => p c = true end.
Proof.
  cbn zeta. split; [by rewrite take_drop|].
  induction s as [|c s [IH1 IH2]]; cbn; [done|].
  destruct (p c) eqn:E; cbn; [done|]. split; [by constructor | done].
Qed.

Lemma find_byte_app p a r :
  Forall (fun c => p c = false) a ->
  match r with [] => True | c :: _ => p c = true end ->
  find_byte p (a ++ r) = length a.
Proof.
  intros Ha Hr. induction Ha as [|c a Hc _ IH]; cbn.
  - destruct r as [|c r]; [done|]. cbn. by rewrite Hr.
  - by rewrite Hc, IH.
Qed.

(** A byte of an allowlisted host, in either case. *)
Definition host_byte (c : byte) : bool :=
  is_lower c || is_upper c || bool_decide (c = Byte.x2e).

Lemma host_byte_plain c :
  host_byte c = true -> is_authority_end c = false /\ c <> Byte.x40 /\ c <> COLON.
Proof.
  pose proof (byte_forall (fun c => negb (host_byte c) ||
    (negb (is_authority_end c) && bool_decide (c <> Byte.x40) && bool_decide (c <> COLON)))
    eq_refl c) as E.
  cbn beta in E. intros Hc. rewrite Hc in E. cbn [negb orb] in E. zbool.
  repeat match goal with H : bool_decide _ = true |- _ => apply bool_decide_eq_true in H end.
  done.
Qed.

Lemma lowercase_host_byte c : host_byte (to_ascii_lowercase_byte c) = true -> host_byte c = true.
Proof.
  pose proof (byte_forall (fun c => negb (host_byte (to_ascii_lowercase_byte c)) || host_byte c)
    eq_refl c) as E.
  cbn beta in E. intros Hc. by rewrite Hc in E.
Qed.

Lemma allowed_host_bytes a :
  to_ascii_lowercase a ∈ ACTION_URL_ALLOWLIST ->
  a <> [] /\ Forall (fun c => host_byte c = true) a.
Proof.
  intros Hin.
  assert (Hf : Forall (fun h => h <> [] /\ Forall (fun c => host_byte c = true) h)
                 ACTION_URL_ALLOWLIST).
  { repeat constructor; done. }
  rewrite Forall_forall in Hf. apply Hf in Hin as [Hne Hh]. split; [by intros ->|].
  unfold to_ascii_lowercase in Hh. apply Forall_map in Hh.
  eapply Forall_impl; [exact Hh|]. apply lowercase_host_byte.
Qed.

(** An allowed action URL is [https://], an allowlisted host in some letter
    case, and then nothing or a path, query or fragment: there is no userinfo,
    no port and no longer host name; and every such URL is allowed. *)
Theorem action_url_allowed_iff url :
  action_url_allowed url = true <->
  exists authority rest, url = b "https://" ++ authority ++ rest /\
    to_ascii_lowercase authority ∈ ACTION_URL_ALLOWLIST /\
    match rest with [] => True | c :: _ => is_authority_end c = true end.
Proof.
  assert (Hex : forall h, existsb (fun a => bool_decide (a = h)) ACTION_URL_ALLOWLIST = true
                    <-> h ∈ ACTION_URL_ALLOWLIST).
  { intros h. rewrite existsb_exists. split.
    - intros (x & Hx & E). apply bool_decide_eq_true in E as <-. by apply list_elem_of_In.
    - intros Hh. exists h. split; [by apply list_elem_of_In | by apply bool_decide_eq_true]. }
  unfold action_url_allowed. split.
  - destruct (strip_prefix _ url) as [r|] eqn:Ep; [|done]. apply strip_prefix_Some in Ep.
    destruct (find_byte_split is_authority_end r) as (Es & _ & Hr).
    case_bool_decide; [done|]. destruct (_ || _); [done|]. rewrite Hex. intros Hh.
    eexists _, _. split; [by rewrite Ep, Es at 1|]. done.
  - intros (a & r & -> & Hh & Hr).
    replace (strip_prefix (b "https://") (b "https://" ++ a ++ r)) with (Some (a ++ r))
      by (symmetry; by apply strip_prefix_Some).
    destruct (allowed_host_bytes a Hh) as [Hne Hb].
    rewrite find_byte_app, take_app_length; [|eapply Forall_impl; [exact Hb|apply host_byte_plain]|done].
    rewrite bool_decide_false by done.
    assert (Hc : forall c, c = Byte.x40 \/ c = COLON -> contains_byte c a = false).
    { intros c Hc. apply bool_decide_eq_false. intros Hin.
      rewrite Forall_forall in Hb. apply Hb, host_byte_plain in Hin as (_ & H1 & H2). by destruct Hc. }
    rewrite !Hc by auto. cbn [orb]. by apply Hex.
Qed.

(** ** A concrete publisher *)

Definition demo_payload : BroadcastPayload := {|
  v := 1; id := b "bc-1"; tier := Incident; title := b "outage"; body := b "we are on it";
  action_url := None; issued_at := 100; expires_at := Some 200; seq := 100;
  signer_fingerprint := b "AA"; targeting := None |}.

(** The payload's type is countable, which gives it a lawful codec. *)
#[local] Instance BroadcastTier_eq_dec : EqDecision BroadcastTier.
Proof. solve_decision. Defined.
#[local] Instance BroadcastTargeting_eq_dec : EqDecision BroadcastTargeting.
Proof. solve_decision. Defined.
#[local] Instance BroadcastPayload_eq_dec : EqDecision BroadcastPayload.
Proof. solve_decision. Defined.

Definition tier_num (t : BroadcastTier) : Z :=
  match t with Incident => 0 | Warning => 1 | Announcement => 2 end.
Definition tier_of (n : Z) : BroadcastTier :=
  if n =? 0 then Incident else if n =? 1 then Warning else Announcement.

#[local] Program Instance BroadcastTargeting_countable : Countable BroadcastTargeting :=
  inj_countable' (fun t => (min_version t, platform t, plan_type t, email_verified t))
    (fun x => let '(a, p, q, e) := x in
      {| min_version := a; platform := p; plan_type := q; email_verified := e |}) _.
Next Obligation. by intros []. Qed.

#[local] Program Instance BroadcastPayload_countable : Countable BroadcastPayload :=
  inj_countable'
    (fun p => ((v p, id p, tier_num (tier p), title p, body p, action_url p),
               (issued_at p, expires_at p, seq p, signer_fingerprint p, targeting p)))
    (fun x => let '((v, id, t, ti, bo, a), (i, e, s, f, tg)) := x in
      {| v := v; id := id; tier := tier_of t; title := ti; body := bo; action_url := a;
         issued_at := i; expires_at := e; seq := s; signer_fingerprint := f; targeting := tg |}) _.
Next Obligation. by intros [? ? [] ? ? ? ? ? ? ? ?]. Qed.

#[local] Existing Instance countable_codec.

Lemma manifest_sign_accepted_witness :
  let e := {| ee_cert := b "cert"; key_version := None |} in
  exists m, sign e Active demo_payload = Ok m /\
    verify_and_parse (Cert:=bytes) m [b "other"; b "cert"] 99 150 = VActive demo_payload 100.
Proof.
  intros e. apply (manifest_sign_accepted e (b "cert") Active demo_payload [b "other"; b "cert"] 99 150).
  - split; [|done]. exists (toy_key false true (b "cert")). split; [reflexivity | cbn; eauto].
  - right; left.
  - reflexivity.
  - reflexivity.
Defined.
