(* ===== verification/RepoEncryption.v ===== *)
(** [gitcellar-crypto/src/encryption.rs]: the repository engine.

    From the one live transport-encryption subkey of a repository certificate it
    derives the root key [K_repo], and from that, one HKDF output per purpose:
    the chunk cipher key, the naming key, the boundary key and the object-key
    prefix key.  The batch helpers run one task per chunk; this file runs
    the tasks in order and threads the random generator through them; [Batch]
    runs them under every schedule. *)

From S2P Require Import Prelude Bytes Interfaces Toy VaultError Chunking ChunkFormat.
From S2P Require Import VaultEncryption CryptoError Signing.

Section Engine.
  Context {Cert : Type}.

(** [Identity::from_cert], which it goes through, never fails. *)
Definition from_cert (cert : Cert) : EncryptionEngine Cert :=
  {| ee_cert := cert; Signing.key_version := None |}.

Definition with_key_version (e : EncryptionEngine Cert) (key_version : Z) : EncryptionEngine Cert :=
  {| ee_cert := ee_cert e; Signing.key_version := Some key_version |}.

Definition batch_key_version (e : EncryptionEngine Cert) : result CryptoError Z :=
  match Signing.key_version e with
  | Some v => if 1 <=? v then Ok v
              else Err (CryptoError.Encryption "invalid repository key version {v}")
  | None => Err (CryptoError.Encryption "this engine has no repository key version; build it with EncryptionEngine::with_key_version before batch-sealing chunks")
  end.
End Engine.

Definition K_REPO_INFO : bytes := b "gitcellar/krepo/v2".
Definition E1_ID_KEY_INFO : bytes := b "gitcellar/chunk-name/v1".
Definition E1_BOUNDARY_KEY_INFO : bytes := b "gitcellar/cdc-boundary/v1".
Definition OBJECT_KEY_PREFIX_INFO : bytes := b "gitcellar/object-key-prefix/v1".

Definition object_key_prefix_hex `{HashOps, HexOps} (prefix_key repo_id : bytes) : bytes :=
  hex_encode (hmac_sha256 prefix_key repo_id).

(** Await the tasks in order: the first failure is the result. *)
Fixpoint await_all {E A} (rs : list (result E A)) : result E (list A) :=
  match rs with
  | [] => Ok []
  | r :: rs => let? a := r in let? l := await_all rs in Ok (a :: l)
  end.

Section Repo.
  Context {Cert : Type} `{PgpOps Cert} `{HashOps, HexOps, AeadOps} {R : Type} `{RngOps R}.
  Implicit Types e : EncryptionEngine Cert.

(** [keys().supported().alive().revoked(false).for_transport_encryption().secret()] *)
Definition k_repo_keys (c : Cert) : list key_view :=
  List.filter (fun k => live k && kv_for_transport k && has_secret k) (cert_keys c).

Definition derive_k_repo e : result CryptoError bytes :=
  match k_repo_keys (ee_cert e) with
  | _ :: _ :: _ => Err (CryptoError.Encryption "ambiguous repo cert: {} live, unrevoked transport-encryption subkeys with secret material (expected exactly 1)")
  | [] => Err NoEncryptionKey
  | [ka] =>
      let? scalar := match kv_secret ka with
                     | Some (UnencryptedEcdh scalar) => Ok scalar
                     | Some UnencryptedOther =>
                         Err (CryptoError.Encryption "repo encryption subkey secret is not ECDH: {:?}")
                     | Some EncryptedSecret =>
                         Err (CryptoError.Encryption "repo encryption subkey secret is password-encrypted; cannot derive content key")
                     | None => Err NoEncryptionKey
                     end in
      ok_or (hkdf_sha256 None scalar K_REPO_INFO 32)
        (CryptoError.Encryption "K_repo HKDF-SHA256 expand failed: {}")
  end.

Definition chunk_engine e : result CryptoError XChaChaChunkEngine.t :=
  let? k_repo := derive_k_repo e in
  map_err (fun _ => CryptoError.Encryption "chunk cipher init failed: {}")
    (XChaChaChunkEngine.new k_repo).

Definition derive_e1_key (k_repo info : bytes) : result CryptoError bytes :=
  ok_or (hkdf_sha256 None k_repo info 32)
    (CryptoError.Encryption "sub-key HKDF-SHA256 expand failed: {}").

Definition derive_object_key_prefix e (repo_uid : bytes) : result CryptoError bytes :=
  let? k_repo := derive_k_repo e in
  let? id_key := derive_e1_key k_repo OBJECT_KEY_PREFIX_INFO in
  Ok (object_key_prefix_hex id_key repo_uid).

Definition chunk_keying e : result CryptoError ChunkKeying.t :=
  let? k_repo := derive_k_repo e in
  let? id_key := derive_e1_key k_repo E1_ID_KEY_INFO in
  let? boundary_key := derive_e1_key k_repo E1_BOUNDARY_KEY_INFO in
  Ok (ChunkKeying.derive boundary_key id_key).

Definition chunk_engine_e1 e : result CryptoError XChaChaChunkEngine.t :=
  let? k_repo := derive_k_repo e in
  map_err (fun _ => CryptoError.Encryption "keyed-pipeline chunk cipher init failed: {}")
    (let? x := XChaChaChunkEngine.new k_repo in
     XChaChaChunkEngine.with_format_version x RepoUidKeyVersionV3).

Definition content_chunk_aad (repo_uid : bytes) (chunk : Chunk) (key_version : Z)
    : result CryptoError ChunkAad :=
  map_err (fun _ => CryptoError.Encryption "chunk AAD refused: {e}")
    (content_aad repo_uid (hash chunk) key_version (size chunk)).

Definition encrypt_chunk_e1 e (chunk : Chunk) (aad : ChunkAad) (r : R)
    : result CryptoError bytes * R :=
  match chunk_engine_e1 e with
  | Err err => (Err err, r)
  | Ok engine =>
      let '(sealed, r) := XChaChaChunkEngine.encrypt_with_aad engine (data chunk) aad r in
      (map_err (fun _ => CryptoError.Encryption "keyed-pipeline chunk encryption failed: {}") sealed, r)
  end.

Definition encrypt_chunk e (chunk : Chunk) (aad : ChunkAad) (r : R)
    : result CryptoError bytes * R :=
  match chunk_engine e with
  | Err err => (Err err, r)
  | Ok engine =>
      let '(sealed, r) := XChaChaChunkEngine.encrypt_with_aad engine (data chunk) aad r in
      (map_err (fun _ => CryptoError.Encryption "Chunk encryption failed: {}") sealed, r)
  end.

Definition decrypt_chunk e (encrypted_data : bytes) (aad : ChunkAad) : result CryptoError bytes :=
  let? engine := chunk_engine e in
  map_err (fun _ => CryptoError.Decryption "Chunk decryption failed: {}")
    (XChaChaChunkEngine.decrypt_with_aad engine encrypted_data aad).

(** The sealing tasks of a batch. *)
Fixpoint seal_tasks (engine : XChaChaChunkEngine.t) (tasks : list (bytes * ChunkAad)) (r : R)
    : list (VaultResult bytes) * R :=
  match tasks with
  | [] => ([], r)
  | (d, aad) :: tasks =>
      let '(sealed, r) := XChaChaChunkEngine.encrypt_with_aad engine d aad r in
      let '(rest, r) := seal_tasks engine tasks r in
      (sealed :: rest, r)
  end.

(** What the two batch helpers share once the engine is built: the identities
    are computed (and refused) before any task is awaited. *)
Definition seal_batch (what : string) (engine : XChaChaChunkEngine.t) (repo_uid : bytes)
    (key_version : Z) (chunks : list Chunk) (r : R) : result CryptoError (list bytes) * R :=
  match await_all (map (fun c => content_chunk_aad repo_uid c key_version) chunks) with
  | Err err => (Err err, r)
  | Ok aads =>
      let '(sealed, r) := seal_tasks engine (zip (map data chunks) aads) r in
      (map_err (fun _ => CryptoError.Encryption what) (await_all sealed), r)
  end.

Definition encrypt_chunks_e1_parallel e (repo_uid : bytes) (chunks : list Chunk) (r : R)
    : result CryptoError (list bytes) * R :=
  match (let? key_version := batch_key_version e in
         let? engine := chunk_engine_e1 e in Ok (key_version, engine)) with
  | Err err => (Err err, r)
  | Ok (key_version, engine) =>
      seal_batch "keyed-pipeline chunk encryption failed: {}" engine repo_uid key_version chunks r
  end.

Definition encrypt_chunks_parallel e (repo_uid : bytes) (chunks : list Chunk) (r : R)
    : result CryptoError (list bytes) * R :=
  match (let? key_version := batch_key_version e in
         let? engine := chunk_engine e in Ok (key_version, engine)) with
  | Err err => (Err err, r)
  | Ok (key_version, engine) =>
      seal_batch "Chunk encryption failed: {}" engine repo_uid key_version chunks r
  end.

Definition decrypt_chunks_parallel e (encrypted_chunks : list bytes) (aads : list ChunkAad)
    : result CryptoError (list bytes) :=
  if negb (length encrypted_chunks =? length aads)%nat
  then Err (CryptoError.Decryption "chunk/AAD count mismatch: {} chunks but {} identities")
  else
    let? engine := chunk_engine e in
    map_err (fun _ => CryptoError.Decryption "Chunk decryption failed: {}")
      (await_all (map (fun p => XChaChaChunkEngine.decrypt_with_aad engine p.1 p.2)
                    (zip encrypted_chunks aads))).
End Repo.

(** ** Lemmas *)

Lemma await_all_ok {E A} (rs : list (result E A)) l :
  await_all rs = Ok l <-> rs = map Ok l.
Proof.
  revert l; induction rs as [|[a|e] rs IH]; intros l; cbn [await_all rbind].
  - split; [by intros [= <-] | by destruct l].
  - destruct (await_all rs) as [l'|e] eqn:Er; cbn [rbind].
    + split; [intros [= <-]; cbn; by rewrite (proj1 (IH l') eq_refl)|].
      destruct l as [|a' l]; [done|]. cbn. intros [= -> Hr]. apply IH in Hr. congruence.
    + split; [done|]. destruct l as [|a' l]; [done|]. cbn. intros [= -> Hr].
      apply IH in Hr. congruence.
  - split; [done | by destruct l].
Qed.

Section Lemmas.
  Context {Cert : Type} `{PgpOps Cert} `{HashLaws, HexLaws, AeadLaws} {R : Type} `{RngLaws R}.
  Implicit Types e : EncryptionEngine Cert.

Lemma derive_e1_key_ok k info :
  exists o, derive_e1_key k info = Ok o /\ hkdf_sha256 None k info 32 = Some o /\ length o = 32%nat.
Proof.
  unfold derive_e1_key. destruct (hkdf_sha256_Some None k info 32) as (o & -> & Hl); [lia|].
  by exists o.
Qed.

(** Both pipelines seal with one and the same engine, which is usable. *)
Lemma chunk_engine_of_root e k :
  derive_k_repo e = Ok k ->
  exists x, XChaChaChunkEngine.new k = Ok x /\ xchacha_usable x /\
    chunk_engine e = Ok x /\ chunk_engine_e1 e = Ok x.
Proof.
  intros Ek. destruct (new_usable k) as (x & Ex & Hu). exists x.
  unfold chunk_engine, chunk_engine_e1. rewrite Ek. cbn [rbind]. rewrite Ex. cbn [rbind map_err].
  split; [done|]. split; [done|]. split; [done|].
  unfold XChaChaChunkEngine.with_format_version. cbn [is_xchacha20_poly1305_layout negb map_err].
  unfold xchacha_usable in Hu. destruct x as [c i n]. cbn in Hu. by subst n.
Qed.

Lemma chunk_keying_of_root e k :
  derive_k_repo e = Ok k ->
  exists bk ik, chunk_keying e = Ok (ChunkKeying.derive bk ik) /\
    hkdf_sha256 None k E1_BOUNDARY_KEY_INFO 32 = Some bk /\
    hkdf_sha256 None k E1_ID_KEY_INFO 32 = Some ik.
Proof.
  intros Ek. unfold chunk_keying. rewrite Ek. cbn [rbind].
  destruct (derive_e1_key_ok k E1_ID_KEY_INFO) as (ik & -> & Hik & _).
  destruct (derive_e1_key_ok k E1_BOUNDARY_KEY_INFO) as (bk & -> & Hbk & _).
  cbn [rbind]. eauto.
Qed.

(** The identity the batch helpers bind to a chunk. *)
Definition aad_of (repo_uid : bytes) (key_version : Z) (c : Chunk) : ChunkAad :=
  {| repo_uid := repo_uid; chunk_name := hash c; ChunkFormat.key_version := key_version;
     stream_offset := 0; aad_size := size c |}.

Lemma content_chunk_aad_ok uid c v :
  NUL ∉ uid -> NUL ∉ hash c -> content_chunk_aad uid c v = Ok (aad_of uid v c).
Proof.
  intros Hu Hc. unfold content_chunk_aad, content_aad.
  destruct (ChunkFormat.new uid (hash c) v 0 (size c)) as [a|err] eqn:E.
  - apply new_ok in E as [-> _]. done.
  - exfalso. unfold ChunkFormat.new in E.
    assert (Hk : check (aad_of uid v c) = Ok tt) by by apply check_ok.
    unfold aad_of in Hk. by rewrite Hk in E.
Qed.

Lemma await_aads uid v cs :
  NUL ∉ uid -> Forall (fun c => NUL ∉ hash c) cs ->
  await_all (map (fun c => content_chunk_aad uid c v) cs) = Ok (map (aad_of uid v) cs).
Proof.
  intros Hu Hc. apply await_all_ok. rewrite map_map. induction Hc as [|c cs Hc _ IH]; [done|].
  cbn. by rewrite content_chunk_aad_ok, IH.
Qed.

(** The tasks of a batch all succeed, and each blob opens to its chunk. *)
Lemma seal_tasks_spec x uid v cs : forall r,
  xchacha_usable x -> NUL ∉ uid ->
  Forall (fun c => (NUL ∉ hash c) /\ Zlen (data c) <= aead_max XChaCha20Poly1305) cs ->
  exists blobs r',
    seal_tasks x (zip (map data cs) (map (aad_of uid v) cs)) r = (map Ok blobs, r') /\
    Forall2 (fun c bl =>
      Zlen bl = Zlen (data c) + XChaChaChunkEngine.OVERHEAD /\
      XChaChaChunkEngine.decrypt_with_aad x bl (aad_of uid v c) = Ok (data c)) cs blobs.
Proof.
  induction cs as [|c cs IH]; intros r Hx Hu Hc; cbn [map zip zip_with seal_tasks].
  { exists [], r. split; [done | constructor]. }
  apply Forall_cons in Hc as [[Hn Hl] Hcs].
  unfold XChaChaChunkEngine.encrypt_with_aad.
  pose proof (fill_bytes_length (Z.to_nat XChaChaChunkEngine.NONCE_SIZE) r) as Hlen.
  destruct (fill_bytes _ r) as [n r1]. cbn in Hlen.
  assert (Hk : check (aad_of uid v c) = Ok tt) by by apply check_ok.
  destruct (aead_encrypt_Some XChaCha20Poly1305 (XChaChaChunkEngine.cipher x) n
    (as_u8 (XChaChaChunkEngine.emit_version x) :: canonical_aad_bytes (aad_of uid v c)) (data c) Hl)
    as [ct Ect].
  assert (E : XChaChaChunkEngine.encrypt_with_nonce x (data c) n (aad_of uid v c)
              = Ok (as_u8 (XChaChaChunkEngine.emit_version x) :: n ++ ct))
    by (apply encrypt_with_nonce_ok; eauto).
  destruct (IH r1 Hx Hu Hcs) as (blobs & r2 & Hs & Hf).
  rewrite E. cbv zeta. rewrite Hs. eexists (_ :: blobs), r2. split; [done|].
  constructor; [|done]. split.
  - apply aead_encrypt_length in Ect. cbn [length]. rewrite length_app.
    unfold XChaChaChunkEngine.OVERHEAD, XChaChaChunkEngine.VERSION_SIZE,
      XChaChaChunkEngine.NONCE_SIZE, XChaChaChunkEngine.TAG_SIZE, Interfaces.TAG_LEN in *.
    rewrite Nat2Z.inj_succ, Nat2Z.inj_add. lia.
  - by apply (encrypt_with_nonce_decrypt x (data c) n).
Qed.

(** A batch an engine told its version seals. *)
Lemma encrypt_chunks_spec e k v uid cs (r : R) :
  derive_k_repo e = Ok k -> Signing.key_version e = Some v -> 1 <= v -> NUL ∉ uid ->
  Forall (fun c => (NUL ∉ hash c) /\ Zlen (data c) <= aead_max XChaCha20Poly1305) cs ->
  exists blobs r',
    encrypt_chunks_e1_parallel e uid cs r = (Ok blobs, r') /\
    encrypt_chunks_parallel e uid cs r = (Ok blobs, r') /\
    Forall2 (fun c bl =>
      Zlen bl = Zlen (data c) + XChaChaChunkEngine.OVERHEAD /\
      decrypt_chunk e bl (aad_of uid v c) = Ok (data c)) cs blobs.
Proof.
  intros Ek Ev Hv Hu Hc. destruct (chunk_engine_of_root e k Ek) as (x & _ & Hx & Ece & Ece1).
  destruct (seal_tasks_spec x uid v cs r Hx Hu Hc) as (blobs & r' & Hs & Hf).
  exists blobs, r'.
  assert (Hbv : batch_key_version e = Ok v).
  { unfold batch_key_version. rewrite Ev. apply Z.leb_le in Hv. by rewrite Hv. }
  assert (Hb : forall what, seal_batch what x uid v cs r = (Ok blobs, r')).
  { intros what. unfold seal_batch. rewrite await_aads; [|done|].
    - rewrite Hs. by rewrite (proj2 (await_all_ok (map Ok blobs) blobs) eq_refl).
    - eapply Forall_impl; [exact Hc|]. by intros c [? _]. }
  unfold encrypt_chunks_e1_parallel, encrypt_chunks_parallel.
  rewrite Hbv, Ece, Ece1. cbn [rbind]. rewrite !Hb. split; [done|]. split; [done|].
  eapply Forall2_impl; [exact Hf|]. intros c bl [Hl Hd]. split; [done|].
  unfold decrypt_chunk. rewrite Ece. cbn [rbind]. by rewrite Hd.
Qed.

Lemma decrypt_chunks_ok e x cs blobs aads :
  chunk_engine e = Ok x ->
  length aads = length cs -> length blobs = length cs ->
  (forall i c bl a, cs !! i = Some c -> blobs !! i = Some bl -> aads !! i = Some a ->
     XChaChaChunkEngine.decrypt_with_aad x bl a = Ok (data c)) ->
  decrypt_chunks_parallel e blobs aads = Ok (map data cs).
Proof.
  intros Ex Hla Hlb Hd. unfold decrypt_chunks_parallel.
  rewrite Hla, Hlb, Nat.eqb_refl. cbn [negb]. rewrite Ex. cbn [rbind].
  rewrite (proj2 (await_all_ok _ (map data cs))); [done|].
  clear Ex. revert blobs aads Hla Hlb Hd.
  induction cs as [|c cs IH]; intros [|bl blobs] [|a aads] Hla Hlb Hd; try done.
  cbn. f_equal.
  - by apply (Hd 0%nat c bl a).
  - apply IH; [by injection Hla | by injection Hlb |].
    intros i. apply (Hd (Datatypes.S i)).
Qed.
End Lemmas.

(** ** Properties *)

Section Properties.
  Context {Cert : Type} `{PgpOps Cert} `{HashLaws, HexLaws, AeadLaws} {R : Type} `{RngLaws R}.
  Implicit Types e : EncryptionEngine Cert.

(** C27: The repository root key does not depend on the order a certificate's
    keys are iterated in, nor on its expired, revoked, unsupported or
    signing-only keys: two certificates with the same live
    transport-encryption secrets give the same key, or the same refusal; with
    two or more of them the derivation is refused.  When it succeeds, the
    subkey it used is one that [encrypt_data] encrypts to. *)
Theorem derive_k_repo_canonical e e' :
  (k_repo_keys (ee_cert e) ≡ₚ k_repo_keys (ee_cert e') ->
     derive_k_repo e = derive_k_repo e') /\
  (forall k1 k2 ks, k_repo_keys (ee_cert e) = k1 :: k2 :: ks ->
     exists m, derive_k_repo e = Err (CryptoError.Encryption m)) /\
  (forall k, derive_k_repo e = Ok k -> exists ka scalar,
     ka ∈ encryption_recipients (ee_cert e) /\ kv_secret ka = Some (UnencryptedEcdh scalar) /\
     hkdf_sha256 None scalar K_REPO_INFO 32 = Some k).
Proof.
  split; [|split].
  - intros Hp. unfold derive_k_repo. pose proof (Permutation_length Hp) as Hl.
    destruct (k_repo_keys (ee_cert e)) as [|k1 [|k2 ks]], (k_repo_keys (ee_cert e')) as [|j1 [|j2 js]];
      try done.
    apply Permutation_singleton_inj in Hp. by subst.
  - intros k1 k2 ks E. unfold derive_k_repo. rewrite E. eauto.
  - intros k E. unfold derive_k_repo in E.
    destruct (k_repo_keys (ee_cert e)) as [|ka [|]] eqn:Ek; try done.
    destruct (kv_secret ka) as [[scalar| |]|] eqn:Es; try done. cbn [rbind] in E.
    destruct (hkdf_sha256 _ _ _ _) as [o|] eqn:Eo; [|done]. injection E as ->.
    exists ka, scalar. split; [|done].
    assert (Hin : In ka (k_repo_keys (ee_cert e))) by (rewrite Ek; by left).
    unfold k_repo_keys in Hin. apply filter_In in Hin as [Hin Hb]. zbool.
    apply list_elem_of_In. unfold encryption_recipients. apply filter_In. split; [done|].
    by apply andb_true_iff.
Qed.

(** Batch sealing and batch opening are inverse for every key holder: the
    blobs an engine seals at a key version open, in order, in any engine with
    the same root key, given the identities the manifest implies; the two batch
    helpers produce the same blobs; and an engine that was never told its
    version, or was told 0, seals nothing. *)
Theorem batch_seal_open e e' k v uid cs (r : R) :
  derive_k_repo e = Ok k -> derive_k_repo e' = Ok k ->
  Signing.key_version e = Some v -> 1 <= v -> NUL ∉ uid ->
  Forall (fun c => (NUL ∉ hash c) /\ Zlen (data c) <= aead_max XChaCha20Poly1305) cs ->
  exists blobs r', encrypt_chunks_e1_parallel e uid cs r = (Ok blobs, r') /\
    encrypt_chunks_parallel e uid cs r = (Ok blobs, r') /\
    decrypt_chunks_parallel e' blobs (map (aad_of uid v) cs) = Ok (map data cs) /\
    (forall v0, v0 < 1 ->
       is_err (encrypt_chunks_e1_parallel (with_key_version e v0) uid cs r).1 = true) /\
    is_err (encrypt_chunks_e1_parallel (from_cert (ee_cert e)) uid cs r).1 = true.
Proof.
  intros Ek Ek' Ev Hv Hu Hc.
  destruct (encrypt_chunks_spec e k v uid cs r Ek Ev Hv Hu Hc) as (blobs & r' & E1 & E2 & Hf).
  destruct (chunk_engine_of_root e k Ek) as (x & Ex & _ & Ece & _).
  destruct (chunk_engine_of_root e' k Ek') as (x' & Ex' & _ & Ece' & _).
  assert (x' = x) as -> by congruence.
  exists blobs, r'. split; [done|]. split; [done|]. split; [|split].
  - apply (decrypt_chunks_ok e' x); [done | by rewrite length_map | symmetry; by apply Forall2_length in Hf |].
    intros i c bl a Hi Hbl Ha. rewrite list_lookup_fmap, Hi in Ha. injection Ha as <-.
    destruct (Forall2_lookup_lr _ _ _ i c bl Hf Hi Hbl) as [_ Hd].
    unfold decrypt_chunk in Hd. rewrite Ece in Hd. cbn [rbind] in Hd.
    by destruct (XChaChaChunkEngine.decrypt_with_aad x bl (aad_of uid v c)) as [p|]; [injection Hd as ->|].
  - intros v0 Hv0. unfold encrypt_chunks_e1_parallel, batch_key_version. cbn.
    replace (1 <=? v0) with false by (symmetry; apply Z.leb_gt; lia). done.
  - done.
Qed.

(** The object-key prefix of a repository is a function of the root key and
    the repository's identifier: every key holder computes the same 64 lower-case
    hexadecimal digits, and a naming, boundary or prefix key is one HKDF output
    of the root under its own [info]. *)
Theorem object_key_prefix_stable e e' k uid :
  derive_k_repo e = Ok k -> derive_k_repo e' = Ok k ->
  exists p pk, derive_object_key_prefix e uid = Ok p /\ derive_object_key_prefix e' uid = Ok p /\
    hkdf_sha256 None k OBJECT_KEY_PREFIX_INFO 32 = Some pk /\
    p = object_key_prefix_hex pk uid /\
    length p = 64%nat /\ Forall (fun c => is_lower_hex c = true) p.
Proof.
  intros Ek Ek'. destruct (derive_e1_key_ok k OBJECT_KEY_PREFIX_INFO) as (pk & Ep & Hp & _).
  exists (object_key_prefix_hex pk uid), pk. unfold derive_object_key_prefix.
  rewrite Ek, Ek'. cbn [rbind]. rewrite Ep. cbn [rbind].
  split; [done|]. split; [done|]. split; [done|]. split; [done|].
  unfold object_key_prefix_hex. split; [|apply hex_encode_chars].
  by rewrite hex_encode_length, hmac_sha256_length.
Qed.
End Properties.

(** ** A concrete repository *)

Definition demo_repo : EncryptionEngine bytes := with_key_version (from_cert (b "repo")) 2.

Definition demo_root : bytes :=
  match derive_k_repo demo_repo with Ok k => k | Err _ => [] end.

Definition demo_chunks : list Chunk := [mk_chunk (b "n1") (b "hello") 0; mk_chunk (b "n2") [] 5].

Lemma demo_root_ok : derive_k_repo demo_repo = Ok demo_root.
Proof. by vm_compute. Qed.

Lemma batch_seal_open_witness :
  exists blobs r', encrypt_chunks_e1_parallel demo_repo (b "uid") demo_chunks 7 = (Ok blobs, r') /\
    decrypt_chunks_parallel demo_repo blobs (map (aad_of (b "uid") 2) demo_chunks)
      = Ok [b "hello"; []].
Proof.
  destruct (batch_seal_open demo_repo demo_repo demo_root 2 (b "uid") demo_chunks 7)
    as (blobs & r' & E & _ & D & _).
  - exact demo_root_ok.
  - exact demo_root_ok.
  - reflexivity.
  - lia.
  - by_eval.
  - by_eval.
  - exists blobs, r'. split; [exact E | exact D].
Defined.

Lemma object_key_prefix_stable_witness :
  exists p, derive_object_key_prefix demo_repo (b "uid") = Ok p /\ length p = 64%nat.
Proof.
  destruct (object_key_prefix_stable demo_repo demo_repo demo_root (b "uid") demo_root_ok demo_root_ok)
    as (p & pk & E & _ & _ & _ & Hl & _).
  exists p. split; [exact E | exact Hl].
Defined.

Lemma derive_k_repo_canonical_witness :
  derive_k_repo demo_repo = derive_k_repo (from_cert (b "repo")).
Proof.
  apply (proj1 (derive_k_repo_canonical demo_repo (from_cert (b "repo")))). reflexivity.
Defined.
