(* ===== verification/Batch.v ===== *)
(** The parallel batch helpers of [gitcellar-crypto/src/encryption.rs] under every
    schedule.

    [encrypt_chunks_e1_parallel], [encrypt_chunks_parallel] and
    [decrypt_chunks_parallel] spawn one blocking task per item and then await the
    tasks in order.  [RepoEncryption] runs the tasks one after the other; here a
    pool of tasks interleaves with the caller, and a task draws its nonce when it
    is scheduled, from the generator of the worker thread it happens to run on
    ([rand::thread_rng]).  The theorems hold of every interleaving and of every
    assignment of tasks to threads. *)

From S2P Require Import Prelude Bytes Interfaces Toy VaultError Chunking ChunkFormat.
From S2P Require Import VaultEncryption CryptoError Signing RepoEncryption.

(** ** A pool of tasks *)

Section Pool.
  Context {C T N A R E F : Type}.
  (* the task of an item, or the refusal to make one *)
  Variable prepare : C -> result E T.
  (* the draw of a task, and what it computes from it *)
  Variable draw : R -> N * R.
  Variable work : T -> N -> result F A.
  (* the caller's error for a task's *)
  Variable wrap : F -> E.

Inductive task : Type :=
  | Queued (t : T)
  | Running (t : T) (n : N)
  | Finished (t : T) (n : N).

(** [todo] is not spawned yet; [verdict] is what the caller returned.  [rngs]
    has the generator of every worker thread, and [log] lists the draws, each
    with its thread, in the order they were made. *)
Record pool : Type := {
  todo : list C;
  tasks : list task;
  awaited : list A;
  verdict : option (result E (list A));
  log : list (nat * N);
  rngs : list R;
}.

Definition start (cs : list C) (rs : list R) : pool :=
  {| todo := cs; tasks := []; awaited := []; verdict := None; log := []; rngs := rs |}.

Definition set_task (i : nat) (k : task) (s : pool) : pool :=
  {| todo := todo s; tasks := <[i := k]> (tasks s); awaited := awaited s;
     verdict := verdict s; log := log s; rngs := rngs s |}.

Definition return_ (v : result E (list A)) (s : pool) : pool :=
  {| todo := todo s; tasks := tasks s; awaited := awaited s; verdict := Some v;
     log := log s; rngs := rngs s |}.

Inductive step (s : pool) : pool -> Prop :=
  | step_spawn c cs t :
      verdict s = None -> todo s = c :: cs -> prepare c = Ok t ->
      step s {| todo := cs; tasks := tasks s ++ [Queued t]; awaited := awaited s;
                verdict := None; log := log s; rngs := rngs s |}
  | step_refuse c cs e :
      verdict s = None -> todo s = c :: cs -> prepare c = Err e ->
      step s (return_ (Err e) s)
  | step_draw i w t r n r' :
      tasks s !! i = Some (Queued t) -> rngs s !! w = Some r -> draw r = (n, r') ->
      step s {| todo := todo s; tasks := <[i := Running t n]> (tasks s); awaited := awaited s;
                verdict := verdict s; log := log s ++ [(w, n)]; rngs := <[w := r']> (rngs s) |}
  | step_finish i t n :
      tasks s !! i = Some (Running t n) -> step s (set_task i (Finished t n) s)
  | step_await t n a :
      verdict s = None -> todo s = [] -> tasks s !! length (awaited s) = Some (Finished t n) ->
      work t n = Ok a ->
      step s {| todo := []; tasks := tasks s; awaited := awaited s ++ [a];
                verdict := None; log := log s; rngs := rngs s |}
  | step_fail t n err :
      verdict s = None -> todo s = [] -> tasks s !! length (awaited s) = Some (Finished t n) ->
      work t n = Err err -> step s (return_ (Err (wrap err)) s)
  | step_return :
      verdict s = None -> todo s = [] -> length (awaited s) = length (tasks s) ->
      step s (return_ (Ok (awaited s)) s).

(** The first [k] draws of the generator, and the generator after them. *)
Fixpoint draws (k : nat) (r : R) : list N * R :=
  match k with
  | O => ([], r)
  | S k => let '(ns, r) := draws k r in let '(n, r) := draw r in (ns ++ [n], r)
  end.

Definition drawn_by (k : task) : option N :=
  match k with Queued _ => None | Running _ n | Finished _ n => Some n end.
Definition job (k : task) : T :=
  match k with Queued t | Running t _ | Finished t _ => t end.

Definition finished_with (k : task) (a : A) : Prop :=
  exists t n, k = Finished t n /\ work t n = Ok a.

(** The draws of one thread. *)
Definition on (w : nat) (l : list (nat * N)) : list N :=
  omap (fun p => if decide (p.1 = w) then Some p.2 else None) l.
Arguments on : simpl never.

(** What holds of every state a batch reaches. *)
Record pool_inv (cs : list C) (rs : list R) (s : pool) : Prop := {
  inv_tasks : exists spawned, cs = spawned ++ todo s /\
    Forall2 (fun c k => prepare c = Ok (job k)) spawned (tasks s);
  inv_log : omap drawn_by (tasks s) ≡ₚ (log s).*2;
  inv_draws w r : rs !! w = Some r -> exists r', rngs s !! w = Some r' /\
    draws (length (on w (log s))) r = (on w (log s), r');
  inv_threads : length (rngs s) = length rs /\ Forall (fun p => is_Some (rs !! p.1)) (log s);
  inv_awaited : Forall2 finished_with (take (length (awaited s)) (tasks s)) (awaited s);
  inv_verdict : match verdict s with
    | None => True
    | Some (Ok l) => todo s = [] /\ l = awaited s /\ length (awaited s) = length (tasks s)
    | Some (Err e) => (exists c, c ∈ cs /\ prepare c = Err e) \/
        (exists c t n err, c ∈ cs /\ prepare c = Ok t /\ work t n = Err err /\ e = wrap err)
    end;
}.

Lemma on_snoc w w' n l : on w (l ++ [(w', n)]) = on w l ++ (if decide (w' = w) then [n] else []).
Proof. unfold on. rewrite omap_app. cbn. by destruct (decide (w' = w)). Qed.

Lemma omap_insert (f : task -> option N) l i k k' :
  l !! i = Some k -> f k = None ->
  omap f (<[i := k']> l) ≡ₚ match f k' with Some n => n :: omap f l | None => omap f l end.
Proof.
  intros Hi Hk. destruct (list_elem_of_split_length l i k Hi) as (l1 & l2 & -> & ->).
  rewrite insert_app_r_alt, Nat.sub_diag by lia. cbn [insert list_insert].
  rewrite !omap_app. cbn [omap list_omap]. rewrite Hk.
  destruct (f k'); [|done]. by rewrite Permutation_middle.
Qed.

(** A task that has not finished was not awaited. *)
Lemma unfinished_later l (as_ : list A) i k k' :
  Forall2 finished_with (take (length as_) l) as_ -> l !! i = Some k ->
  (forall t n, k <> Finished t n) ->
  Forall2 finished_with (take (length as_) (<[i := k']> l)) as_.
Proof.
  intros Hf Hi Hk. destruct (decide (i < length as_)%nat) as [Hlt|Hge].
  - exfalso. destruct (Forall2_lookup_l _ _ _ i k Hf) as (a & _ & t & n & -> & _);
      [by rewrite lookup_take_lt | by apply (Hk t n)].
  - by rewrite take_insert_ge by lia.
Qed.

Lemma same_jobs cs l i k k' :
  Forall2 (fun c x => prepare c = Ok (job x)) cs l -> l !! i = Some k -> job k' = job k ->
  Forall2 (fun c x => prepare c = Ok (job x)) cs (<[i := k']> l).
Proof.
  intros Hf Hi Hj. destruct (Forall2_lookup_r _ _ _ i k Hf Hi) as (c & Hc & Hp).
  rewrite <- (list_insert_id cs i c Hc). apply Forall2_insert; [done|]. by rewrite Hj.
Qed.

Lemma start_inv cs rs : pool_inv cs rs (start cs rs).
Proof. split; cbn; try done; [by exists [] | eauto]. Qed.

(** Draws of a task's thread extend the log of that thread only. *)
Lemma draw_inv cs rs s i w t r n r' :
  tasks s !! i = Some (Queued t) -> rngs s !! w = Some r -> draw r = (n, r') ->
  pool_inv cs rs s ->
  pool_inv cs rs {| todo := todo s; tasks := <[i := Running t n]> (tasks s); awaited := awaited s;
                    verdict := verdict s; log := log s ++ [(w, n)];
                    rngs := <[w := r']> (rngs s) |}.
Proof.
  intros Hi Hw Hd [(sp & -> & Hf) Hl Hdr Hth Ha Hv]. split; cbn.
  - exists sp. split; [done|]. by eapply same_jobs.
  - rewrite (omap_insert drawn_by _ i (Queued t)) by done. cbn [drawn_by].
    rewrite fmap_app. cbn. rewrite <- Permutation_cons_append. by rewrite Hl.
  - intros w' r0 Hr0. destruct (Hdr w' r0 Hr0) as (r1 & Hr1 & Hd1). rewrite on_snoc.
    destruct (decide (w = w')) as [->|Hne].
    + exists r'. split; [apply list_lookup_insert_eq; by apply lookup_lt_Some in Hw|].
      rewrite length_app, Nat.add_comm. cbn [length Nat.add draws]. rewrite Hd1.
      assert (r1 = r) as -> by congruence. by rewrite Hd.
    + exists r1. rewrite list_lookup_insert_ne by done. by rewrite app_nil_r.
  - destruct Hth as [Hlr Hin]. rewrite length_insert. split; [done|].
    apply Forall_app. split; [done|]. constructor; [|constructor]. cbn.
    apply lookup_lt_is_Some. rewrite <- Hlr. by apply lookup_lt_Some in Hw.
  - by apply (unfinished_later _ _ _ (Queued t)).
  - rewrite length_insert. destruct (verdict s) as [[l|e]|]; done.
Qed.

Lemma finish_inv cs rs s i t n :
  tasks s !! i = Some (Running t n) -> pool_inv cs rs s ->
  pool_inv cs rs (set_task i (Finished t n) s).
Proof.
  intros Hi [(sp & -> & Hf) Hl Hdr Hth Ha Hv]. split; cbn; [ | |done|done| |].
  - exists sp. split; [done|]. by eapply same_jobs.
  - rewrite <- Hl. destruct (list_elem_of_split_length _ _ _ Hi) as (l1 & l2 & -> & ->).
    rewrite insert_app_r_alt, Nat.sub_diag by lia. cbn [insert list_insert].
    by rewrite !omap_app.
  - by apply (unfinished_later _ _ _ (Running t n)).
  - rewrite length_insert. destruct (verdict s) as [[l|e]|]; done.
Qed.

Lemma await_inv cs rs s t n a :
  tasks s !! length (awaited s) = Some (Finished t n) -> work t n = Ok a ->
  todo s = [] -> pool_inv cs rs s ->
  pool_inv cs rs {| todo := []; tasks := tasks s; awaited := awaited s ++ [a];
                    verdict := None; log := log s; rngs := rngs s |}.
Proof.
  intros Hi Hw Ht [(sp & -> & Hf) Hl Hdr Hth Ha Hv]. split; cbn; try done.
  - exists sp. by rewrite Ht.
  - rewrite length_app, Nat.add_1_r, (take_S_r _ _ _ Hi). apply Forall2_app; [done|].
    constructor; [|constructor]. by exists t, n.
Qed.

Lemma spawned_in cs s sp i k :
  cs = sp ++ todo s -> Forall2 (fun c x => prepare c = Ok (job x)) sp (tasks s) ->
  tasks s !! i = Some k -> exists c, c ∈ cs /\ prepare c = Ok (job k).
Proof.
  intros -> Hf Hi. destruct (Forall2_lookup_r _ _ _ i k Hf Hi) as (c & Hc & Hp).
  exists c. split; [|done]. apply elem_of_app. left. by eapply list_elem_of_lookup_2.
Qed.

Lemma step_inv cs rs s s' : pool_inv cs rs s -> step s s' -> pool_inv cs rs s'.
Proof.
  intros Hs Hstep. pose proof Hs as [(sp & Hcs & Hf) Hl Hdr Hth Ha Hv].
  destruct Hstep as [c todo' t Hn Ht Hp|c todo' e Hn Ht Hp|i w t r n r' Hi Hw Hd|i t n Hi
    |t n a Hn Ht Hi Hw|t n err Hn Ht Hi Hw|Hn Ht Hlen].
  - split; cbn; try done.
    + exists (sp ++ [c]). rewrite Hcs, Ht, <- app_assoc. split; [done|].
      apply Forall2_app; [done|]. by repeat constructor.
    + by rewrite omap_app, app_nil_r.
    + rewrite take_app_le; [done|]. apply Forall2_length in Ha. rewrite length_take in Ha. lia.
  - split; cbn; [by exists sp|done|done|done|done|]. left. exists c. split; [|done].
    rewrite Hcs, Ht. apply elem_of_app. right. left.
  - by apply (draw_inv cs rs s i w t r).
  - by apply finish_inv.
  - by apply (await_inv cs rs s t n a).
  - split; cbn; [by exists sp|done|done|done|done|]. right.
    destruct (spawned_in cs s sp _ _ Hcs Hf Hi) as (c & Hc & Hp). by exists c, t, n, err.
  - split; cbn; [by exists sp|done|done|done|done|done].
Qed.

Lemma reachable_inv cs rs s : rtc step (start cs rs) s -> pool_inv cs rs s.
Proof.
  intros Hr. pose proof (start_inv cs rs) as Hs.
  induction Hr as [|s0 s1 s2 Hst _ IH]; [done|]. apply IH. by eapply step_inv.
Qed.

(** ** Every schedule ends, and none gets stuck *)

Definition pending (k : task) : nat :=
  match k with Queued _ => 2 | Running _ _ => 1 | Finished _ _ => 0 end.

(** The steps a batch has left at most. *)
Definition fuel (s : pool) : nat :=
  4 * length (todo s) + sum_list_with pending (tasks s) +
  (length (tasks s) - length (awaited s)) + match verdict s with None => 1 | Some _ => 0 end.

Lemma sum_insert l i k k' :
  l !! i = Some k ->
  (sum_list_with pending (<[i := k']> l) + pending k = sum_list_with pending l + pending k')%nat.
Proof.
  revert i; induction l as [|x l IH]; intros [|i] Hi; [done|done| |].
  - injection Hi as ->. change (<[0%nat := k']> (k :: l)) with (k' :: l). cbn. lia.
  - change (<[S i := k']> (x :: l)) with (x :: <[i := k']> l). cbn. specialize (IH i Hi). lia.
Qed.

Lemma step_fuel s s' : step s s' -> (fuel s' < fuel s)%nat.
Proof.
  unfold fuel. intros [c cs t Hn Ht Hp|c cs e Hn Ht Hp|i w t r n r' Hi Hw Hd|i t n Hi
    |t n a Hn Ht Hi Hw|t n err Hn Ht Hi Hw|Hn Ht Hlen]; cbn; rewrite ?Hn, ?Ht, ?length_insert.
  - rewrite sum_list_with_app, length_app. cbn. lia.
  - lia.
  - pose proof (sum_insert _ _ _ (Running t n) Hi). cbn in *. lia.
  - pose proof (sum_insert _ _ _ (Finished t n) Hi). cbn in *. lia.
  - apply lookup_lt_Some in Hi. rewrite length_app. cbn. lia.
  - lia.
  - lia.
Qed.

Lemma schedule_bound k s s' : nsteps step k s s' -> (k + fuel s' <= fuel s)%nat.
Proof.
  induction 1 as [|k s1 s2 s3 Hst _ IH]; [lia|]. apply step_fuel in Hst. lia.
Qed.

Lemma progress cs rs s :
  rs <> [] -> pool_inv cs rs s -> verdict s = None -> exists s', step s s'.
Proof.
  intros Hne [(sp & Hcs & Hf) Hl Hdr Hth Ha Hv] Hn. destruct (todo s) as [|c cs'] eqn:Ht.
  - destruct (decide (length (awaited s) = length (tasks s))) as [He|He].
    { eexists. by apply step_return. }
    apply Forall2_length in Ha. rewrite length_take in Ha.
    destruct (lookup_lt_is_Some_2 (tasks s) (length (awaited s))) as [[t|t n|t n] Hi]; [lia| | |].
    + destruct (rngs s) as [|r rs'] eqn:Er; [by destruct rs, Hth|].
      destruct (draw r) as [n r'] eqn:Ed. eexists. apply (step_draw s (length (awaited s)) 0 t r n r' Hi); [by rewrite Er|done].
    + eexists. by apply (step_finish s (length (awaited s)) t n).
    + destruct (work t n) as [a|err] eqn:Ew.
      * eexists. by apply (step_await s t n a).
      * eexists. by apply (step_fail s t n err).
  - destruct (prepare c) as [t|e] eqn:Ep.
    + eexists. by apply (step_spawn s c cs' t).
    + eexists. by apply (step_refuse s c cs' e).
Qed.

(** A batch that returned its results awaited every task, in order; no draw was
    used twice. *)
Lemma verdict_results cs rs s l :
  pool_inv cs rs s -> verdict s = Some (Ok l) ->
  exists jobs : list (T * N), Forall2 (fun c j => prepare c = Ok j.1) cs jobs /\
    Forall2 (fun j a => work j.1 j.2 = Ok a) jobs l /\ jobs.*2 ≡ₚ (log s).*2.
Proof.
  intros [(sp & -> & Hf) Hl _ _ Ha Hv] Hn. rewrite Hn in Hv. destruct Hv as (Ht & -> & Hlen).
  rewrite Hlen, firstn_all in Ha. rewrite Ht, app_nil_r in *. clear Hn Ht Hlen.
  revert Hl. generalize (log s).*2. revert Hf Ha. generalize (tasks s), (awaited s). revert sp.
  intros sp ks as_ Hf. revert as_. induction Hf as [|c k sp ks Hp _ IH]; intros as_ Ha lg Hl.
  - apply Forall2_nil_inv_l in Ha as ->. exists []. by repeat constructor.
  - apply Forall2_cons_inv_l in Ha as (a & as' & (t & n & -> & Hw) & Ha & ->).
    cbn in Hl. destruct (IH as' Ha _ (reflexivity _)) as (jobs & H1 & H2 & H3).
    exists ((t, n) :: jobs). split; [by constructor|]. split; [by constructor|].
    cbn. by rewrite H3.
Qed.

(** ** One schedule: the tasks one after the other *)

Fixpoint run_all (ts : list T) (r : R) : list (result F A) * R :=
  match ts with
  | [] => ([], r)
  | t :: ts =>
      let '(n, r) := draw r in
      let '(rest, r) := run_all ts r in
      (work t n :: rest, r)
  end.

Lemma spawn_all cs : forall ks r lg,
  match await_all (map prepare cs) with
  | Ok ts => rtc step {| todo := cs; tasks := ks; awaited := []; verdict := None; log := lg; rngs := [r] |}
      {| todo := []; tasks := ks ++ map Queued ts; awaited := []; verdict := None; log := lg; rngs := [r] |}
  | Err e => exists s, verdict s = Some (Err e) /\
      rtc step {| todo := cs; tasks := ks; awaited := []; verdict := None; log := lg; rngs := [r] |} s
  end.
Proof.
  induction cs as [|c cs IH]; intros ks r lg; cbn [map await_all rbind].
  { rewrite app_nil_r. constructor. }
  destruct (prepare c) as [t|e] eqn:Ep; cbn [rbind].
  - specialize (IH (ks ++ [Queued t]) r lg).
    destruct (await_all (map prepare cs)) as [ts|e]; cbn [rbind].
    + rewrite <- app_assoc in IH. cbn [app] in IH. eapply rtc_l; [|exact IH].
      by eapply step_spawn.
    + destruct IH as (s & Hs & Hr). exists s. split; [done|]. eapply rtc_l; [|exact Hr].
      by eapply step_spawn.
  - eexists. split; [|apply rtc_once; by eapply step_refuse]. done.
Qed.

Lemma draw_all ts : forall ks r lg,
  exists fs lg', (forall n, map (fun k => work (job k) (default n (drawn_by k))) fs = (run_all ts r).1) /\
    Forall (fun k => exists t n, k = Finished t n) fs /\
    rtc step {| todo := []; tasks := ks ++ map Queued ts; awaited := []; verdict := None;
                log := lg; rngs := [r] |}
      {| todo := []; tasks := ks ++ fs; awaited := []; verdict := None;
         log := lg'; rngs := [(run_all ts r).2] |}.
Proof.
  induction ts as [|t ts IH]; intros ks r lg; cbn [map run_all].
  { exists [], lg. split; [done|]. split; [constructor | apply rtc_refl]. }
  destruct (draw r) as [n r1] eqn:Ed.
  destruct (IH (ks ++ [Finished t n]) r1 (lg ++ [(0%nat, n)])) as (fs & lg' & Hm & Hfin & Hr).
  destruct (run_all ts r1) as [rest r2]. cbn [fst snd] in *.
  exists (Finished t n :: fs), lg'. split; [|split; [by constructor; [eauto|]|]].
  - intros m. cbn. by rewrite Hm.
  - rewrite <- !app_assoc in Hr. cbn [app] in Hr.
    eapply rtc_l; [|eapply rtc_l; [|exact Hr]].
    + eapply (step_draw _ (length ks) 0 t r n r1); [|done|done]. cbn. by rewrite list_lookup_middle.
    + match goal with |- step ?s ?s' => replace s' with (set_task (length ks) (Finished t n) s) end.
      * eapply step_finish. cbn. rewrite list_lookup_insert_eq; [done|].
        rewrite length_app. cbn. lia.
      * unfold set_task. cbn. f_equal. rewrite list_insert_insert_eq.
        rewrite insert_app_r_alt, Nat.sub_diag by lia. done.
Qed.

Definition outcome_of (k : task) (n : N) : result F A := work (job k) (default n (drawn_by k)).

Lemma await_rest n fs : forall pre as_ rs lg,
  length pre = length as_ -> Forall (fun k => exists t n, k = Finished t n) fs ->
  exists s, rtc step {| todo := []; tasks := pre ++ fs; awaited := as_; verdict := None;
                        log := lg; rngs := rs |} s /\
    verdict s = Some (match await_all (map (fun k => outcome_of k n) fs) with
                      | Ok l => Ok (as_ ++ l) | Err e => Err (wrap e) end).
Proof.
  induction fs as [|k fs IH]; intros pre as_ rs lg Hl Hf; cbn [map await_all].
  - eexists. split; [apply rtc_once; apply step_return; cbn; try done|].
    + by rewrite app_nil_r.
    + cbn. by rewrite app_nil_r.
  - apply Forall_cons in Hf as [(t & m & ->) Hf]. unfold outcome_of at 1. cbn [job drawn_by default].
    assert (Hi : (pre ++ Finished t m :: fs) !! length as_ = Some (Finished t m))
      by (by rewrite list_lookup_middle).
    cbn. destruct (work t m) as [a|err] eqn:Ew; cbn [rbind].
    + destruct (IH (pre ++ [Finished t m]) (as_ ++ [a]) rs lg) as (s & Hr & Hv);
        [by rewrite !length_app, Hl | done |].
      exists s. split.
      * eapply rtc_l; [by eapply step_await|]. cbn. by rewrite <- app_assoc in Hr.
      * rewrite Hv. destruct (await_all _); cbn [rbind]; [|done]. by rewrite <- app_assoc.
    + eexists. split; [apply rtc_once; by eapply step_fail|]. done.
Qed.

Lemma sequential_schedule cs r :
  exists s, rtc step (start cs [r]) s /\
    verdict s = Some (let? ts := await_all (map prepare cs) in
                      map_err wrap (await_all (run_all ts r).1)).
Proof.
  pose proof (spawn_all cs [] r []) as Hs. destruct (await_all (map prepare cs)) as [ts|e].
  2:{ destruct Hs as (s & Hv & Hr). by exists s. }
  destruct (draw_all ts [] r []) as (fs & lg & Hm & Hf & Hd).
  destruct (await_rest (draw r).1 fs [] [] [(run_all ts r).2] lg eq_refl Hf) as (s & Hr & Hv).
  exists s. split.
  - etransitivity; [exact Hs|]. etransitivity; [exact Hd|]. exact Hr.
  - rewrite Hv. cbn [rbind]. f_equal. unfold outcome_of. rewrite Hm. by destruct (await_all _).
Qed.
End Pool.

Arguments verdict {C T N A R E} _.
Arguments log {C T N A R E} _.
Arguments rngs {C T N A R E} _.

(** ** The batch helpers *)

Section Helpers.
  Context {Cert : Type} `{PgpOps Cert} `{HashLaws, HexLaws, AeadLaws} {R : Type} `{RngLaws R}.
  Implicit Types e : EncryptionEngine Cert.
  Implicit Types rs : list R.

(** Sealing with engine [x]: the task of a chunk, its nonce, its computation. *)
Definition seal_task (uid : bytes) (v : Z) (c : Chunk) : result CryptoError (bytes * ChunkAad) :=
  let? aad := content_chunk_aad uid c v in Ok (data c, aad).

Definition seal_draw (r : R) : bytes * R :=
  fill_bytes (Z.to_nat XChaChaChunkEngine.NONCE_SIZE) r.

Definition seal_work (x : XChaChaChunkEngine.t) (t : bytes * ChunkAad) (n : bytes) : VaultResult bytes :=
  XChaChaChunkEngine.encrypt_with_nonce x t.1 n t.2.

Definition seal_step (what : string) (x : XChaChaChunkEngine.t) (uid : bytes) (v : Z) :=
  step (seal_task uid v) seal_draw (seal_work x) (fun _ => CryptoError.Encryption what).

(** The nonce of a blob. *)
Definition nonce_of (blob : bytes) : bytes := take 24 (drop 1 blob).

(** [RepoEncryption]'s helpers run the tasks in the order they were spawned. *)
Lemma seal_tasks_run x tasks r :
  seal_tasks x tasks r = run_all seal_draw (seal_work x) tasks r.
Proof.
  revert r; induction tasks as [|[d aad] tasks IH]; intros r; [done|]. cbn [seal_tasks run_all].
  unfold XChaChaChunkEngine.encrypt_with_aad, seal_draw, seal_work. cbn [fst snd].
  destruct (fill_bytes _ r) as [n r1]. rewrite IH. by destruct (run_all _ _ tasks r1).
Qed.

Lemma seal_prepared uid v cs :
  await_all (map (seal_task uid v) cs) =
  (let? aads := await_all (map (fun c => content_chunk_aad uid c v) cs) in
   Ok (zip (map data cs) aads)).
Proof.
  induction cs as [|c cs IH]; [done|]. cbn [map await_all]. unfold seal_task at 1.
  destruct (content_chunk_aad uid c v) as [a|]; cbn [rbind]; [|done]. rewrite IH. clear IH.
  by destruct (await_all (map (fun c0 => content_chunk_aad uid c0 v) cs)).
Qed.

Lemma seal_batch_scheduled what x uid v cs r :
  exists s, rtc (seal_step what x uid v) (start cs [r]) s /\
    verdict s = Some (seal_batch what x uid v cs r).1.
Proof.
  destruct (sequential_schedule (seal_task uid v) seal_draw (seal_work x)
    (fun _ => CryptoError.Encryption what) cs r) as (s & Hr & Hv).
  exists s. split; [exact Hr|]. rewrite Hv. f_equal. unfold seal_batch. rewrite seal_prepared.
  destruct (await_all (map (fun c => content_chunk_aad uid c v) cs)) as [aads|e]; [|reflexivity].
  cbn [rbind]. rewrite seal_tasks_run.
  by destruct (run_all seal_draw (seal_work x) (zip (map data cs) aads) r).
Qed.

(** What a task seals opens, and carries its nonce. *)
Lemma sealed_opens x uid v c t n blob :
  xchacha_usable x -> NUL ∉ uid -> NUL ∉ hash c -> length n = 24%nat ->
  seal_task uid v c = Ok t -> seal_work x t n = Ok blob ->
  XChaChaChunkEngine.decrypt_with_aad x blob (aad_of uid v c) = Ok (data c) /\ nonce_of blob = n.
Proof.
  intros Hx Hu Hc Hn Ht Hw. unfold seal_task in Ht. rewrite content_chunk_aad_ok in Ht by done.
  injection Ht as <-. unfold seal_work in Hw. cbn [fst snd] in Hw.
  split; [by eapply encrypt_with_nonce_decrypt|].
  apply encrypt_with_nonce_ok in Hw as (_ & ct & _ & ->).
  unfold nonce_of. change (take 24 (n ++ ct) = n). rewrite <- Hn. apply take_app_length.
Qed.

(** The nonces in the log have their length. *)
Lemma draws_length k (r : R) : Forall (fun n => length n = 24%nat) (draws seal_draw k r).1.
Proof.
  induction k as [|k IH]; [constructor|]. cbn [draws].
  destruct (draws seal_draw k r) as [ns r1]. unfold seal_draw at 1.
  pose proof (fill_bytes_length (Z.to_nat XChaChaChunkEngine.NONCE_SIZE) r1) as Hl.
  destruct (fill_bytes _ r1) as [n r2]. cbn in *. apply Forall_app. by repeat constructor.
Qed.

Definition good_chunk (c : Chunk) : Prop :=
  (NUL ∉ hash c) /\ Zlen (data c) <= aead_max XChaCha20Poly1305.

(** A sealing task of a well-formed chunk never fails. *)
Lemma seal_never_fails x uid v c t n :
  NUL ∉ uid -> good_chunk c -> seal_task uid v c = Ok t -> is_ok (seal_work x t n) = true.
Proof.
  intros Hu [Hc Hl] Ht. unfold seal_task in Ht. rewrite content_chunk_aad_ok in Ht by done.
  injection Ht as <-. unfold seal_work. cbn [fst snd].
  assert (Hk : check (aad_of uid v c) = Ok tt) by by apply check_ok.
  destruct (aead_encrypt_Some XChaCha20Poly1305 (XChaChaChunkEngine.cipher x) n
    (as_u8 (XChaChaChunkEngine.emit_version x) :: canonical_aad_bytes (aad_of uid v c)) (data c) Hl)
    as [ct Ect].
  by rewrite (proj2 (encrypt_with_nonce_ok x (data c) n (aad_of uid v c)
    (as_u8 (XChaChaChunkEngine.emit_version x) :: n ++ ct)) (conj Hk (ex_intro _ ct (conj Ect eq_refl)))).
Qed.

Lemma sealing_inv what x uid v cs rs s :
  rtc (seal_step what x uid v) (start cs rs) s ->
  pool_inv (seal_task uid v) seal_draw (seal_work x) (fun _ => CryptoError.Encryption what) cs rs s.
Proof. apply reachable_inv. Qed.

(** Every verdict is a success. *)
Lemma sealing_succeeds what x uid v cs rs s res :
  NUL ∉ uid -> Forall good_chunk cs -> rtc (seal_step what x uid v) (start cs rs) s ->
  verdict s = Some res -> exists blobs, res = Ok blobs.
Proof.
  intros Hu Hc Hr Hv. pose proof (inv_verdict _ _ _ _ _ _ _ (sealing_inv _ _ _ _ _ _ _ Hr)) as Hi.
  rewrite Hv in Hi. destruct res as [l|e]; [eauto|]. exfalso. rewrite Forall_forall in Hc.
  destruct Hi as [(c & Hin & Hp)|(c & t & n & err & Hin & Hp & Hw & _)].
  - destruct (Hc c Hin) as [Hn _]. unfold seal_task in Hp. by rewrite content_chunk_aad_ok in Hp.
  - pose proof (seal_never_fails x uid v c t n Hu (Hc c Hin) Hp) as Hok. by rewrite Hw in Hok.
Qed.

(** The draws in the log are the threads' own. *)
Lemma log_nonce_length what x uid v cs rs s w n :
  rtc (seal_step what x uid v) (start cs rs) s -> (w, n) ∈ log s -> length n = 24%nat.
Proof.
  intros Hr Hin. pose proof (sealing_inv _ _ _ _ _ _ _ Hr) as Hi.
  destruct (inv_threads _ _ _ _ _ _ _ Hi) as [_ Ht]. rewrite Forall_forall in Ht.
  destruct (Ht _ Hin) as [r Hw]. clear Ht Hi. cbn in Hw. destruct (inv_draws _ _ _ _ _ _ _ (sealing_inv _ _ _ _ _ _ _ Hr) w r Hw)
    as (r' & _ & Hd).
  pose proof (draws_length (length (on w (log s))) r) as Hf. rewrite Hd in Hf. cbn [fst] in Hf.
  rewrite Forall_forall in Hf. apply Hf. unfold on. apply list_elem_of_omap.
  exists (w, n). by rewrite decide_True.
Qed.

(** The blobs of a verdict, one by one. *)
Lemma sealing_results what x uid v cs rs s blobs :
  xchacha_usable x -> NUL ∉ uid -> Forall good_chunk cs ->
  rtc (seal_step what x uid v) (start cs rs) s -> verdict s = Some (Ok blobs) ->
  Forall2 (fun c bl => XChaChaChunkEngine.decrypt_with_aad x bl (aad_of uid v c) = Ok (data c)) cs blobs /\
  map nonce_of blobs ≡ₚ (log s).*2.
Proof.
  intros Hx Hu Hc Hr Hv.
  destruct (verdict_results _ _ _ _ _ _ _ _ (sealing_inv _ _ _ _ _ _ _ Hr) Hv) as (jobs & Hp & Hw & Hl).
  assert (Hlen : Forall (fun j : bytes * ChunkAad * bytes => length j.2 = 24%nat) jobs).
  { apply Forall_forall. intros j Hj.
    assert (Hin : j.2 ∈ (log s).*2) by (rewrite <- Hl; by apply list_elem_of_fmap_2).
    apply list_elem_of_fmap in Hin as ([w n] & E & Hin). rewrite E. by eapply log_nonce_length. }
  assert (Hall : Forall2 (fun c bl => XChaChaChunkEngine.decrypt_with_aad x bl (aad_of uid v c)
                                      = Ok (data c)) cs blobs /\ map nonce_of blobs = jobs.*2).
  { clear Hl Hr Hv. revert Hc blobs Hw Hlen.
    induction Hp as [|c [t n] cs jobs Hpc _ IH]; intros Hc blobs Hw Hlen.
    - apply Forall2_nil_inv_l in Hw as ->. by split.
    - apply Forall2_cons_inv_l in Hw as (bl & bls & Hwc & Hw & ->).
      apply Forall_cons in Hc as [[Hcn _] Hc]. apply Forall_cons in Hlen as [Hn Hlen].
      destruct (IH Hc bls Hw Hlen) as [Hf Hm].
      destruct (sealed_opens x uid v c t n bl Hx Hu Hcn Hn Hpc Hwc) as [Hd Hnn].
      split; [by constructor|]. cbn. by rewrite Hm, Hnn. }
  destruct Hall as [Hf Hm]. split; [done|]. by rewrite Hm.
Qed.

(** C6: Batch sealing is right under every schedule.  However the caller, the tasks
    and the worker threads interleave: a batch ends, after at most four steps a
    chunk and one more, and until it has ended some step is possible; what it
    returns is a list of blobs that open, in the order of the chunks, for every
    holder of the root key; their nonces are exactly the draws made, each used
    once, and each thread's are the successive outputs of its generator; and what
    the sequential model returns is the outcome of one of the schedules. *)
Theorem parallel_sealing e e' k x v uid cs rs :
  derive_k_repo e = Ok k -> derive_k_repo e' = Ok k -> chunk_engine_e1 e = Ok x ->
  Signing.key_version e = Some v -> 1 <= v -> NUL ∉ uid -> Forall good_chunk cs -> rs <> [] ->
  let next := seal_step "keyed-pipeline chunk encryption failed: {}" x uid v in
  (forall n s, nsteps next n (start cs rs) s -> (n <= 4 * length cs + 1)%nat) /\
  (forall s, rtc next (start cs rs) s -> verdict s = None -> exists s', next s s') /\
  (forall s res, rtc next (start cs rs) s -> verdict s = Some res -> exists blobs,
     res = Ok blobs /\
     decrypt_chunks_parallel e' blobs (map (aad_of uid v) cs) = Ok (map data cs) /\
     map nonce_of blobs ≡ₚ (log s).*2 /\
     forall w r, rs !! w = Some r ->
       on w (log s) = (draws seal_draw (length (on w (log s))) r).1) /\
  (forall r, exists s, rtc next (start cs [r]) s /\
     verdict s = Some (encrypt_chunks_e1_parallel e uid cs r).1).
Proof.
  intros Ek Ek' Ex Ev Hv Hu Hc Hrs next. split; [|split; [|split]].
  - intros n s Hn. apply schedule_bound in Hn. unfold fuel, start in Hn. cbn in Hn. lia.
  - intros s Hr Hn. by eapply progress; [|apply (sealing_inv _ _ _ _ _ _ _ Hr)|].
  - intros s res Hr Hvd. destruct (sealing_succeeds _ _ _ _ _ _ _ _ Hu Hc Hr Hvd) as [blobs ->].
    destruct (chunk_engine_of_root e k Ek) as (y & Ey & Hy & _ & Ey1).
    destruct (chunk_engine_of_root e' k Ek') as (y' & Ey' & _ & Ey2 & _).
    assert (y = x) as -> by congruence. assert (y' = x) as -> by congruence.
    destruct (sealing_results _ x uid v cs rs s blobs Hy Hu Hc Hr Hvd) as [Hf Hm].
    exists blobs. split; [done|]. split; [|split; [done|]].
    + apply (decrypt_chunks_ok e' x); [done|by rewrite length_map|by rewrite (Forall2_length _ _ _ Hf)|].
      intros i c bl a Hi Hb Ha. rewrite list_lookup_fmap, Hi in Ha. injection Ha as <-.
      by apply (Forall2_lookup_lr _ _ _ i c bl Hf).
    + intros w r Hw. destruct (inv_draws _ _ _ _ _ _ _ (sealing_inv _ _ _ _ _ _ _ Hr) w r Hw)
        as (r' & _ & Hd). by rewrite Hd.
  - intros r. destruct (seal_batch_scheduled "keyed-pipeline chunk encryption failed: {}" x uid v cs r)
      as (s & Hr & Hvd). exists s. split; [done|]. rewrite Hvd. f_equal.
    unfold encrypt_chunks_e1_parallel, batch_key_version. rewrite Ev.
    apply Z.leb_le in Hv. rewrite Hv, Ex. done.
Qed.
End Helpers.

(** ** Opening in parallel *)

Section Opening.
  Context {Cert : Type} `{PgpOps Cert} `{HashOps, HexOps, AeadOps}.

(** Opening draws nothing. *)
Definition open_step (x : XChaChaChunkEngine.t) :=
  step (fun p : bytes * ChunkAad => Ok p) (fun _ : unit => (tt, tt))
    (fun p (_ : unit) => XChaChaChunkEngine.decrypt_with_aad x p.1 p.2)
    (fun _ => CryptoError.Decryption "Chunk decryption failed: {}").

(** Opening does not depend on the schedule: what any of them returns, a failure
    included, is what the sequential model returns. *)
Theorem parallel_opening (e : EncryptionEngine Cert) x blobs aads s res :
  chunk_engine e = Ok x -> length blobs = length aads ->
  rtc (open_step x) (start (zip blobs aads) [tt]) s -> verdict s = Some res ->
  res = decrypt_chunks_parallel e blobs aads.
Proof.
  intros Ex Hl Hr Hv. pose proof (reachable_inv _ _ _ _ _ _ _ Hr) as Hi.
  unfold decrypt_chunks_parallel. rewrite Hl, Nat.eqb_refl, Ex. cbn [negb rbind].
  set (work p := XChaChaChunkEngine.decrypt_with_aad x p.1 p.2).
  destruct res as [l|err].
  - destruct (verdict_results _ _ _ _ _ _ _ _ Hi Hv) as (jobs & Hp & Hw & _).
    rewrite (proj2 (await_all_ok (map work (zip blobs aads)) l)); [done|]. clear -Hp Hw.
    revert l Hw. induction Hp as [|c [t n] cs jobs Hc _ IH]; intros l Hw.
    + by apply Forall2_nil_inv_l in Hw as ->.
    + apply Forall2_cons_inv_l in Hw as (a & l' & Ha & Hw & ->). injection Hc as ->. cbn.
      f_equal; [exact Ha | by apply IH].
  - pose proof (inv_verdict _ _ _ _ _ _ _ Hi) as Hf. rewrite Hv in Hf.
    destruct Hf as [(c & _ & [=])|(c & t & n & er & Hin & [= ->] & Hw & ->)].
    destruct (await_all (map work (zip blobs aads))) as [l|e2] eqn:Ea; [|done].
    apply await_all_ok in Ea. apply (list_elem_of_fmap_2 work) in Hin.
    change (work <$> zip blobs aads) with (map work (zip blobs aads)) in Hin. rewrite Ea in Hin.
    change (work t ∈ Ok <$> l) in Hin. apply list_elem_of_fmap in Hin as (a & E & _).
    unfold work in E. congruence.
Qed.
End Opening.

(** ** A concrete batch, on two threads *)

Lemma parallel_sealing_witness :
  exists x, chunk_engine_e1 demo_repo = Ok x /\
    forall n s, nsteps (seal_step "keyed-pipeline chunk encryption failed: {}" x (b "uid") 2) n
      (start demo_chunks [7; 100]) s -> (n <= 9)%nat.
Proof.
  destruct (chunk_engine_of_root demo_repo demo_root demo_root_ok) as (x & _ & _ & _ & E).
  exists x. split; [exact E|].
  destruct (parallel_sealing demo_repo demo_repo demo_root x 2 (b "uid") demo_chunks [7; 100])
    as (Hb & _).
  - exact demo_root_ok.
  - exact demo_root_ok.
  - exact E.
  - reflexivity.
  - lia.
  - by_eval.
  - by_eval.
  - discriminate.
  - exact Hb.
Defined.
