(* ===== verification/Pipeline.v ===== *)
(** The chunk pipeline from end to end.

    [publish] and [fetch] compose the operations the way their documentation
    tells a storage service to: chunk a stream under the repository's keys, seal
    every chunk, pack the blobs; then, from the manifest and the packs alone,
    locate, slice, open and verify every chunk and put the stream together
    again.  They specify that use and have no source of their own. *)

From S2P Require Import Prelude Bytes Interfaces Toy VaultError Pack Chunking ChunkFormat.
From S2P Require Import VaultEncryption CryptoError Signing RepoEncryption.

Section Pipeline.
  Context {Cert : Type} `{PgpOps Cert} `{HashOps, HexOps, AeadOps} {R : Type} `{RngOps R}.

Definition publish (e : EncryptionEngine Cert) (uid : bytes) (c : ChunkConfig)
    (stream : list bytes) (target : Z) (r : R)
    : run (result CryptoError (list Chunk * PackSet) * R) :=
  match chunk_keying e with
  | Err err => Done (Err err, r)
  | Ok k =>
      let! s := StreamChunker.feed_all (StreamChunker.new_keyed c k) stream in
      let chunks := StreamChunker.finalize s in
      let '(sealed, r) := encrypt_chunks_e1_parallel e uid chunks r in
      match sealed with
      | Err err => Done (Err err, r)
      | Ok blobs =>
          let! pr := pack_chunks (zip (map hash chunks) blobs) target r in
          Done (Ok (chunks, pr.1), pr.2)
      end
  end.

(** The blob a manifest name leads to. *)
Definition find_blob (ps : PackSet) (name : bytes) : option bytes :=
  match List.find (fun ix => bool_decide (ix.1 = name)) (index ps) with
  | None => None
  | Some (_, loc) =>
      match List.find (fun p => bool_decide (built_id p = pack_id loc)) (packs ps) with
      | None => None
      | Some p => match slice_chunk (built_bytes p) loc with Ok bl => Some bl | Err _ => None end
      end
  end.

(** Open a blob and check that it is what its name says. *)
Definition open_named (e : EncryptionEngine Cert) (k : ChunkKeying.t) (uid : bytes) (v : Z)
    (m : ChunkMetadata) (bl : bytes) : option Chunk :=
  match content_aad uid (m_hash m) v (m_size m) with
  | Err _ => None
  | Ok aad =>
      match decrypt_chunk e bl aad with
      | Err _ => None
      | Ok p =>
          if ChunkKeying.verify_name k (m_hash m) p
          then Some {| hash := m_hash m; data := p; size := m_size m; offset := m_offset m |}
          else None
      end
  end.

Definition fetch_chunk (e : EncryptionEngine Cert) (k : ChunkKeying.t) (uid : bytes) (v : Z)
    (ps : PackSet) (m : ChunkMetadata) : option Chunk :=
  match find_blob ps (m_hash m) with
  | None => None
  | Some bl => open_named e k uid v m bl
  end.

Fixpoint all_some {A B} (f : A -> option B) (l : list A) : option (list B) :=
  match l with
  | [] => Some []
  | x :: l => match f x, all_some f l with Some y, Some ys => Some (y :: ys) | _, _ => None end
  end.

Definition fetch (e : EncryptionEngine Cert) (uid : bytes) (v : Z) (manifest : list ChunkMetadata)
    (ps : PackSet) : option bytes :=
  match chunk_keying e with
  | Err _ => None
  | Ok k =>
      match all_some (fetch_chunk e k uid v ps) manifest with
      | None => None
      | Some chunks =>
          match ChunkEngine.reassemble_chunks chunks with Ok d => Some d | Err _ => None end
      end
  end.
End Pipeline.

(** ** Lemmas *)

Lemma find_unique {A B} `{EqDecision B} (f : A -> B) (l : list A) x :
  NoDup (map f l) -> x ∈ l -> List.find (fun y => bool_decide (f y = f x)) l = Some x.
Proof.
  induction l as [|y l IH]; intros Hnd Hx; [by apply elem_of_nil in Hx|].
  cbn [map] in Hnd. apply NoDup_cons in Hnd as [Hy Hnd]. cbn [List.find].
  apply elem_of_cons in Hx as [->|Hx]; [by rewrite bool_decide_true|].
  rewrite bool_decide_false; [by apply IH|].
  intros E. apply Hy. rewrite E. by apply list_elem_of_fmap_2.
Qed.

Lemma all_some_inverse {A B} (f : A -> option B) (h : B -> A) l :
  (forall x, x ∈ l -> f (h x) = Some x) -> all_some f (map h l) = Some l.
Proof.
  induction l as [|x l IH]; intros Hf; cbn; [done|].
  rewrite (Hf x) by left. rewrite IH; [done|]. intros y Hy. apply Hf. by right.
Qed.

Lemma zip_lookup {A B} (l : list A) (k : list B) x y :
  (x, y) ∈ zip l k -> exists i, l !! i = Some x /\ k !! i = Some y.
Proof.
  revert k; induction l as [|a l IH]; intros [|c k] Hin; cbn in Hin;
    [by apply elem_of_nil in Hin | by apply elem_of_nil in Hin | by apply elem_of_nil in Hin |].
  apply elem_of_cons in Hin as [[= -> ->]|Hin]; [by exists 0%nat|].
  destruct (IH k Hin) as (i & ? & ?). by exists (Datatypes.S i).
Qed.

Lemma sum_sealed (ps blobs : list bytes) (names : list bytes) :
  length names = length blobs ->
  Forall (fun p : bytes => 0 < Zlen p) ps ->
  Forall2 (fun p bl : bytes => Zlen bl = Zlen p + XChaChaChunkEngine.OVERHEAD) ps blobs ->
  Zlen (content (zip names blobs)) <= 42 * Zlen (concat ps).
Proof.
  intros Hl Hp Hf. revert names Hl.
  induction Hf as [|p bl ps blobs Hb _ IH]; intros [|n names] Hl; [done|done|done|].
  cbn [zip zip_with content concat map snd].
  apply Forall_cons in Hp as [H1 Hp]. rewrite !Zlen_app. injection Hl as Hl.
  specialize (IH Hp names Hl). unfold content in IH.
  unfold XChaChaChunkEngine.OVERHEAD, XChaChaChunkEngine.VERSION_SIZE,
    XChaChaChunkEngine.NONCE_SIZE, XChaChaChunkEngine.TAG_SIZE in Hb. lia.
Qed.

(** The sealed sizes fit the packs' 32-bit lengths. *)
Lemma named_sizes (ns : list bytes) ps blobs m :
  Forall2 (fun p bl : bytes => Zlen bl = Zlen p + XChaChaChunkEngine.OVERHEAD) ps blobs ->
  Forall (fun p : bytes => 1 <= Zlen p <= m) ps -> m <= 2 ^ 31 ->
  Forall (fun x : bytes * bytes => 1 <= Zlen x.2 <= U32_MAX) (zip ns blobs) /\
  Forall (fun x : bytes * bytes => Zlen x.2 <= m + XChaChaChunkEngine.OVERHEAD) (zip ns blobs).
Proof.
  intros Hf Hsz Hm. rewrite <- Forall_and. apply Forall_forall. intros [n bl] Hin.
  apply zip_lookup in Hin as (i & _ & Hi). cbn [snd].
  destruct (Forall2_lookup_r _ _ _ _ _ Hf Hi) as (p & Hp & ->).
  rewrite Forall_forall in Hsz. apply list_elem_of_lookup_2, Hsz in Hp.
  unfold XChaChaChunkEngine.OVERHEAD, XChaChaChunkEngine.VERSION_SIZE,
    XChaChaChunkEngine.NONCE_SIZE, XChaChaChunkEngine.TAG_SIZE, U32_MAX. lia.
Qed.

Lemma mk_chunks_hash name off ps : map hash (mk_chunks name off ps) = map name ps.
Proof. revert off; induction ps as [|p ps IH]; intros off; [done|]. cbn. by rewrite IH. Qed.

Lemma mk_chunks_in name off ps c :
  c ∈ mk_chunks name off ps ->
  hash c = name (data c) /\ size c = Zlen (data c) /\ data c ∈ ps.
Proof.
  revert off; induction ps as [|p ps IH]; intros off Hc; [by apply elem_of_nil in Hc|].
  apply elem_of_cons in Hc as [->|Hc]; [repeat split; by left|].
  destruct (IH _ Hc) as (? & ? & ?). repeat split; try done. by right.
Qed.

Section EndToEnd.
  Context {Cert : Type} `{PgpOps Cert} `{HashLaws, HexLaws, AeadLaws} {R : Type} `{RngLaws R}.

Lemma name_no_nul k p : NUL ∉ ChunkKeying.name k p.
Proof.
  unfold ChunkKeying.name. rewrite lower_hex_encode. intros Hin.
  pose proof (hex_encode_chars (hmac_sha256 (ChunkKeying.id_key k) p)) as Hf.
  rewrite Forall_forall in Hf. by apply Hf in Hin.
Qed.

Lemma verify_own_name k p : ChunkKeying.verify_name k (ChunkKeying.name k p) p = true.
Proof.
  unfold ChunkKeying.verify_name, ChunkKeying.name.
  rewrite decode_name_lower_hex by apply hmac_sha256_length. by apply bool_decide_true.
Qed.

(** Every blob is reached by its name. *)
Lemma find_blob_ok named target (r : R) ps r' n :
  Forall (fun c : bytes * bytes => 1 <= Zlen c.2 <= U32_MAX) named ->
  Zlen (content named) <= USIZE_MAX ->
  pack_chunks named target r = Done (ps, r') ->
  NoDup (map built_id (packs ps)) -> n ∈ named.*1 ->
  exists bl, find_blob ps n = Some bl /\ (n, bl) ∈ named.
Proof.
  intros Hne Hsz E Hnd Hn.
  destruct (pack_chunks_read_back named target r Hne Hsz) as (ps0 & r0 & E0 & Hni & Hnames & Hread).
  rewrite E in E0. injection E0 as <- <-.
  apply Hnames, list_elem_of_fmap in Hn as ([n' loc] & -> & Hin). cbn [fst].
  destruct (Hread _ _ Hin) as (bl & p & Hbl & Hp & Hid & Hs).
  exists bl. split; [|done]. unfold find_blob.
  rewrite (find_unique fst (index ps) (n', loc)) by done.
  rewrite <- Hid, (find_unique built_id (packs ps) p) by done. by rewrite Hs.
Qed.

(** A chunk of the stream comes back. *)
Lemma fetch_chunk_ok (w rd : EncryptionEngine Cert) k kg v uid ps c bl :
  derive_k_repo w = Ok k -> derive_k_repo rd = Ok k -> NUL ∉ uid ->
  hash c = ChunkKeying.name kg (data c) ->
  find_blob ps (hash c) = Some bl ->
  decrypt_chunk w bl (aad_of uid v c) = Ok (data c) ->
  fetch_chunk rd kg uid v ps (metadata_from c) = Some c.
Proof.
  intros Ek Ek' Hu Hn Hbl Hd. unfold fetch_chunk, open_named, metadata_from. cbn [m_hash m_size m_offset].
  rewrite Hbl.
  assert (Ha : content_chunk_aad uid c v = Ok (aad_of uid v c)).
  { apply content_chunk_aad_ok; [done|]. rewrite Hn. apply name_no_nul. }
  unfold content_chunk_aad in Ha. destruct (content_aad uid (hash c) v (size c)) as [a|]; [|done].
  cbn [map_err] in Ha. injection Ha as ->.
  destruct (chunk_engine_of_root w k Ek) as (x & Ex & _ & Ew & _).
  destruct (chunk_engine_of_root rd k Ek') as (x' & Ex' & _ & Er & _).
  assert (x' = x) as -> by congruence.
  unfold decrypt_chunk in *. rewrite Ew in Hd. rewrite Er. cbn [rbind] in *. rewrite Hd.
  rewrite Hn at 1. rewrite verify_own_name. by destruct c.
Qed.

(** Publishing returns: the chunks are the pieces of the stream under their keyed
    names, each sealed to a blob of its own, and the packs hold those blobs. *)
Lemma publish_ok (w : EncryptionEngine Cert) k v uid c stream target (r : R) :
  derive_k_repo w = Ok k -> Signing.key_version w = Some v -> 1 <= v -> NUL ∉ uid ->
  config_ok c -> max_size c <= 2 ^ 31 -> Zlen (concat stream) <= 2 ^ 58 ->
  exists kg ps blobs r1 pset r2, let cs := mk_chunks (ChunkKeying.name kg) 0 ps in
    let named := zip (map hash cs) blobs in
    chunk_keying w = Ok kg /\
    publish w uid c stream target r = Done (Ok (cs, pset), r2) /\
    concat ps = concat stream /\ length cs = length blobs /\
    Forall2 (fun ch bl => decrypt_chunk w bl (aad_of uid v ch) = Ok (data ch)) cs blobs /\
    Forall (fun x : bytes * bytes => 1 <= Zlen x.2 <= U32_MAX) named /\
    Forall (fun x : bytes * bytes => Zlen x.2 <= max_size c + XChaChaChunkEngine.OVERHEAD) named /\
    Zlen (content named) <= USIZE_MAX /\ pack_chunks named target r1 = Done (pset, r2).
Proof.
  intros Ek Ev Hv Hu Hc Hmax Hlen.
  destruct (chunk_keying_of_root w k Ek) as (bk & ik & Ekg & Hbk & Hik).
  set (kg := ChunkKeying.derive bk ik) in *.
  destruct (keyed_stream_spec c bk ik stream Hc) as (s & ps & Es & Ef & Hcat & Hsz);
    [unfold U64_MAX; lia|]. fold kg in Es, Ef.
  set (cs := mk_chunks (ChunkKeying.name kg) 0 ps) in *.
  assert (Hps : map data cs = ps) by apply mk_chunks_data.
  destruct (encrypt_chunks_spec w k v uid cs r Ek Ev Hv Hu) as (blobs & r1 & Eb & _ & Hf).
  { apply Forall_forall. intros x Hx. apply mk_chunks_in in Hx as (Hh & _ & Hd). split.
    - rewrite Hh. apply name_no_nul.
    - rewrite Forall_forall in Hsz. apply Hsz in Hd. cbn. lia. }
  pose proof (Forall2_length _ _ _ Hf) as Hlb.
  assert (Hblob : Forall2 (fun p bl => Zlen bl = Zlen p + XChaChaChunkEngine.OVERHEAD) ps blobs).
  { rewrite <- Hps. apply Forall2_fmap_l. eapply Forall2_impl; [exact Hf|]. by intros ? ? [? _]. }
  set (named := zip (map hash cs) blobs).
  assert (Hcont : Zlen (content named) <= 42 * Zlen (concat stream)).
  { rewrite <- Hcat. apply sum_sealed; [by rewrite length_map| |done].
    eapply Forall_impl; [exact Hsz|]. by intros p [? _]. }
  assert (Forall (fun x : bytes * bytes => 1 <= Zlen x.2 <= U32_MAX) named /\
          Forall (fun x : bytes * bytes => Zlen x.2 <= max_size c + XChaChaChunkEngine.OVERHEAD) named)
    as [Hne Hmx]
    by (apply (named_sizes _ ps _ (max_size c)); [done| |done];
        eapply Forall_impl; [exact Hsz|]; intros p Hp; cbn in Hp; lia).
  assert (Hfit : Zlen (content named) <= USIZE_MAX) by (unfold USIZE_MAX; lia).
  destruct (pack_chunks_read_back named target r1 Hne Hfit) as (pset & r2 & Ep & _).
  exists kg, ps, blobs, r1, pset, r2. fold cs named. repeat split; try done.
  - unfold publish. rewrite Ekg, Es. cbn [run_bind]. rewrite Ef, Eb. fold named. by rewrite Ep.
  - eapply Forall2_impl; [exact Hf|]. by intros ? ? [_ ?].
Qed.

Lemma published_fetched (w rd : EncryptionEngine Cert) k v uid c stream target (r : R) :
  derive_k_repo w = Ok k -> derive_k_repo rd = Ok k ->
  Signing.key_version w = Some v -> 1 <= v -> NUL ∉ uid ->
  config_ok c -> max_size c <= 2 ^ 31 -> Zlen (concat stream) <= 2 ^ 58 ->
  exists chunks ps r', publish w uid c stream target r = Done (Ok (chunks, ps), r') /\
    (NoDup (map built_id (packs ps)) ->
     (forall c1 c2, c1 ∈ chunks -> c2 ∈ chunks -> hash c1 = hash c2 -> data c1 = data c2) ->
     fetch rd uid v (ChunkEngine.get_metadata chunks) ps = Some (concat stream)).
Proof.
  intros Ek Ek' Ev Hv Hu Hc Hmax Hlen.
  destruct (publish_ok w k v uid c stream target r Ek Ev Hv Hu Hc Hmax Hlen)
    as (kg & ps & blobs & r1 & pset & r2 & Ekg & Epub & Hcat & Hlb & Hf & Hne & _ & Hfit & Ep).
  set (cs := mk_chunks (ChunkKeying.name kg) 0 ps) in *. set (named := zip (map hash cs) blobs) in *.
  exists cs, pset, r2. split; [done|]. intros Hnd Hinj.
  assert (chunk_keying rd = Ok kg) as Ekg'.
  { rewrite <- Ekg. destruct (chunk_keying_of_root w k Ek) as (bk & ik & -> & ? & ?).
    destruct (chunk_keying_of_root rd k Ek') as (bk' & ik' & -> & ? & ?). congruence. }
  unfold fetch. rewrite Ekg'. unfold ChunkEngine.get_metadata.
  rewrite all_some_inverse.
  { by rewrite reassemble_concat, <- Hcat; subst cs; rewrite mk_chunks_data. }
  intros x Hx. assert (Hxn : hash x ∈ named.*1).
  { subst named. rewrite fst_zip by (rewrite length_map; lia). by apply list_elem_of_fmap_2. }
  destruct (find_blob_ok named target r1 pset r2 (hash x) Hne Hfit Ep Hnd Hxn) as (bl & Hbl & Hin).
  apply zip_lookup in Hin as (i & Hi & Hib).
  apply list_lookup_fmap_Some in Hi as (x' & Hh & Hi').
  pose proof (Forall2_lookup_lr _ _ _ i x' bl Hf Hi' Hib) as Hd.
  pose proof (list_elem_of_lookup_2 _ _ _ Hi') as Hx'.
  pose proof (Hinj x x' Hx Hx' Hh) as Hdat.
  apply mk_chunks_in in Hx as (Hhx & Hsx & _), Hx' as (_ & Hsx' & _).
  apply (fetch_chunk_ok w rd k kg v uid pset x bl); try done.
  assert (Ha : aad_of uid v x = aad_of uid v x').
  { unfold aad_of. by rewrite Hh, Hsx, Hsx', Hdat. }
  by rewrite Ha, Hdat.
Qed.

(** What one key holder publishes, every key holder reads back.  Chunking a
    stream (in pieces of any size), sealing it at a key version and packing it
    returns; and from the manifest's names, sizes and offsets and the stored
    packs, an engine with the same root key recovers the stream byte for byte,
    provided the random pack identifiers are distinct and no two different
    chunks of this stream have one keyed name. *)
Theorem pipeline_roundtrip (w rd : EncryptionEngine Cert) k v uid c stream target (r : R) :
  derive_k_repo w = Ok k -> derive_k_repo rd = Ok k ->
  Signing.key_version w = Some v -> 1 <= v -> NUL ∉ uid ->
  config_ok c -> max_size c <= 2 ^ 31 -> Zlen (concat stream) <= 2 ^ 58 ->
  exists chunks ps r', publish w uid c stream target r = Done (Ok (chunks, ps), r') /\
    (NoDup (map built_id (packs ps)) ->
     (forall c1 c2, c1 ∈ chunks -> c2 ∈ chunks -> hash c1 = hash c2 -> data c1 = data c2) ->
     fetch rd uid v (ChunkEngine.get_metadata chunks) ps = Some (concat stream)).
Proof. apply published_fetched. Qed.
End EndToEnd.

Definition demo_stream : list bytes := [b "hello, "; b "hello, "; b "end to end"].

(** Its packs have distinct identifiers, its chunks distinct names. *)
Lemma demo_published chunks ps r' :
  publish demo_repo (b "uid") demo_config demo_stream 80 7 = Done (Ok (chunks, ps), r') ->
  NoDup (map built_id (packs ps)) /\
  (forall c1 c2, c1 ∈ chunks -> c2 ∈ chunks -> hash c1 = hash c2 -> data c1 = data c2).
Proof.
  intros E.
  assert (Hx : match publish demo_repo (b "uid") demo_config demo_stream 80 7 with
    | Done (Ok (cs, qs), _) =>
        bool_decide (NoDup (map built_id (packs qs))) &&
        forallb (fun c1 => forallb (fun c2 =>
          negb (bool_decide (hash c1 = hash c2)) || bool_decide (data c1 = data c2)) cs) cs = true
    | _ => False end) by (vm_compute; reflexivity).
  rewrite E in Hx. apply andb_true_iff in Hx as [Hnd Hinj]. apply bool_decide_eq_true in Hnd.
  split; [done|]. intros c1 c2 H1 H2 Hh. rewrite forallb_forall in Hinj.
  apply list_elem_of_In in H1, H2. specialize (Hinj c1 H1). rewrite forallb_forall in Hinj.
  specialize (Hinj c2 H2). rewrite bool_decide_true in Hinj by done. by apply bool_decide_eq_true in Hinj.
Qed.

Lemma pipeline_roundtrip_witness :
  exists chunks ps r', publish demo_repo (b "uid") demo_config demo_stream 80 7
      = Done (Ok (chunks, ps), r') /\
    fetch demo_repo (b "uid") 2 (ChunkEngine.get_metadata chunks) ps
      = Some (b "hello, hello, end to end").
Proof.
  destruct (pipeline_roundtrip demo_repo demo_repo demo_root 2 (b "uid") demo_config demo_stream 80 7)
    as (chunks & ps & r' & E & Hf).
  - exact demo_root_ok.
  - exact demo_root_ok.
  - reflexivity.
  - lia.
  - by_eval.
  - exact demo_config_ok.
  - by vm_compute.
  - by vm_compute.
  - exists chunks, ps, r'. split; [exact E|].
    destruct (demo_published _ _ _ E) as [Hnd Hinj]. by apply (Hf Hnd).
Defined.
