(* ===== verification/Remote.v ===== *)
(** The chunk pipeline over a storage backend.

    [StorageContract] is what [vault-core/src/storage/mod.rs] promises its
    callers; [FileStorage] meets it on any file system, [S3Storage] against a
    provider that keeps what it is given.  [push] and [pull] store the packs of
    [Pipeline.publish] under the object keys that [vault-core/src/pack.rs]
    documents and read a stream back from them; they are proved against the
    contract alone, and have no source of their own. *)

From S2P Require Import Prelude Bytes Utf8 Interfaces Toy Fs VaultError BoundedHttp Storage Pack Chunking.
From S2P Require Import VaultEncryption CryptoError Signing RepoEncryption Pipeline.

(** ** The contract *)

(** [stored w p] is what the backend [s] keeps under [p] in the world [w], [same]
    whether two paths name one object, [readable] what a download accepts. *)
Class StorageContract {W S} `{StorageBackend W S} (s : S)
    (stored : W -> bytes -> option bytes) (same : bytes -> bytes -> bool)
    (readable : bytes -> bool) : Prop := {
  sc_same p : same p p = true;
  sc_upload p d w w' q : upload s p d w = (Ok tt, w') ->
    stored w' q = if same q p then Some d else stored w q;
  sc_upload_other p d w q : same q p = false -> stored (upload s p d w).2 q = stored w q;
  sc_delete p w w' q : delete_path s p w = (Ok tt, w') ->
    stored w' q = if same q p then None else stored w q;
  sc_delete_other p w q : same q p = false -> stored (delete_path s p w).2 q = stored w q;
  sc_download p w d : stored w p = Some d -> readable d = true -> (download s p w).1 = Ok d;
  sc_missing p w : stored w p = None -> is_ok (download s p w).1 = false;
  sc_reads p w q :
    stored (download s p w).2 q = stored w q /\ stored (exists_path s p w).2 q = stored w q /\
    stored (list_prefix s p w).2 q = stored w q;
}.

(** The object key of a pack. *)
Definition pack_key (prefix id : bytes) : bytes := b "repos/" ++ prefix ++ b "/packs/" ++ id.

Definition distinct_packs (same : bytes -> bytes -> bool) : Prop :=
  forall prefix prefix' i j, id_ok i -> id_ok j -> i <> j ->
    same (pack_key prefix i) (pack_key prefix' j) = false.

(** ** The directory backend *)

Definition file_same (s : FileStorage.t) (q p : bytes) : bool :=
  bool_decide (FileStorage.full_path s q = FileStorage.full_path s p).

Lemma file_contract (s : FileStorage.t) :
  StorageContract s (file_get s) (file_same s) (fun _ => true).
Proof.
  assert (Hkv := file_storage_refines_kv s). cbn zeta in Hkv. split.
  - intros p. by apply bool_decide_true.
  - intros p d w w' q E. destruct (Hkv w p d q) as (Hu & _). by rewrite E in Hu.
  - intros p d w q Hs. destruct (Hkv w p d q) as (Hu & _).
    destruct (upload s p d w) as [r w']. unfold file_same in Hs. rewrite Hs in Hu. cbn [snd].
    by destruct (is_ok r).
  - intros p w w' q E. destruct (Hkv w p [] q) as (_ & Hd & _). by rewrite E in Hd.
  - intros p w q Hs. destruct (Hkv w p [] q) as (_ & Hd & _).
    destruct (delete_path s p w) as [r w']. unfold file_same in Hs. rewrite Hs in Hd. cbn [snd].
    by destruct (is_ok r).
  - intros p w d Hg _. unfold file_get in Hg. destruct ((download s p w).1); [|done]. by injection Hg as ->.
  - intros p w Hg. unfold file_get in Hg. by destruct ((download s p w).1).
  - intros p w q. destruct (Hkv w p [] q) as (_ & _ & -> & -> & ->). done.
Qed.

Lemma split_on_cat c s t : split_on c (s ++ c :: t) = split_on c s ++ split_on c t.
Proof.
  induction s as [|x s IH]; cbn [app split_on]; [by rewrite decide_True|].
  destruct (decide (x = c)); [by rewrite IH|]. rewrite IH.
  pose proof (split_on_ne c s). by destruct (split_on c s).
Qed.

Lemma components_cat s t : components (s ++ SLASH :: t) = components s ++ components t.
Proof. unfold components. rewrite split_on_cat. apply filter_app. Qed.

Lemma id_component i : id_ok i -> components i = [i].
Proof.
  intros [Hl Hh]. unfold components. rewrite split_on_no.
  - rewrite filter_cons_True; [done|]. split; [by intros ->|]. intros ->. by vm_compute in Hl.
  - intros Hin. rewrite Forall_forall in Hh. apply Hh in Hin. by vm_compute in Hin.
Qed.

Lemma file_distinct_packs s : distinct_packs (file_same s).
Proof.
  intros prefix prefix' i j Hi Hj Hne. apply bool_decide_false. intros E. apply Hne.
  assert (Hk : forall prefix x, id_ok x -> FileStorage.full_path s (pack_key prefix x) =
    (FileStorage.root s ++ components (b "repos/" ++ prefix ++ b "/packs")) ++ [x]).
  { clear. intros prefix x Hx. unfold FileStorage.full_path, path_join.
    assert (E' : pack_key prefix x = (b "repos/" ++ prefix ++ b "/packs") ++ SLASH :: x)
      by (unfold pack_key; by rewrite <- !app_assoc).
    change (starts_with [SLASH] (pack_key prefix x)) with false. cbn iota.
    by rewrite E', components_cat, (id_component x), <- app_assoc by done. }
  rewrite !Hk in E by done. by apply app_inj_tail in E as [_ ?].
Qed.

(** ** The S3 backend *)

(** What a response delivers. *)
Definition delivers (resp : Response) (d : bytes) : Prop :=
  (exists cs, body resp = map Ok cs /\ concat cs = d) /\
  (content_length resp = None \/ content_length resp = Some (Zlen d)).

Lemma read_loop_all max cs data :
  Zlen (data ++ concat cs) <= max -> read_loop max data (map Ok cs) = (Ok (data ++ concat cs), []).
Proof.
  revert data; induction cs as [|x cs IH]; intros data Hm; cbn [map concat read_loop].
  { by rewrite app_nil_r. }
  cbn [concat] in Hm. rewrite !Zlen_app in Hm. rewrite Z.gtb_ltb.
  destruct (Z.ltb_spec max (Zlen data + Zlen x)); [lia|].
  rewrite IH; rewrite <- app_assoc; [done|]. rewrite !Zlen_app. lia.
Qed.

Section S3.
  Context `{HashOps, HexOps} {W : Type} `{S3Env W}.

(** A provider that keeps what it is given: an object is named by its URL; a GET
    or HEAD changes nothing and a stored object is delivered whole; a PUT or
    DELETE touches its own object only, and has done its work when it says so.
    The configuration's object URLs parse. *)
Class HonestProvider (c : S3.S3Config) (objects : W -> gmap bytes bytes) : Prop := {
  hp_url key : exists u h, url_parse (S3.object_url c key) = Some u /\ url_host u = Some h;
  hp_get hs data url w : objects (http_send {| req_method := b "GET"; req_url := url;
    req_headers := hs; req_body := data |} w).2 = objects w;
  hp_get_object hs data key w : exists resp,
    (http_send {| req_method := b "GET"; req_url := S3.object_url c key; req_headers := hs;
                  req_body := data |} w).1 = Ok resp /\
    match objects w !! S3.object_url c key with
    | Some d => status resp = 200 /\ delivers resp d
    | None => status resp = S3.NOT_FOUND
    end;
  hp_head hs data url w : objects (http_send {| req_method := b "HEAD"; req_url := url;
    req_headers := hs; req_body := data |} w).2 = objects w;
  hp_put hs data url w : let '(r, w') := http_send {| req_method := b "PUT"; req_url := url;
      req_headers := hs; req_body := data |} w in
    (forall url', url' <> url -> objects w' !! url' = objects w !! url') /\
    (forall resp, r = Ok resp -> S3.is_success resp = true -> objects w' !! url = Some data);
  hp_delete hs data url w : let '(r, w') := http_send {| req_method := b "DELETE"; req_url := url;
      req_headers := hs; req_body := data |} w in
    (forall url', url' <> url -> objects w' !! url' = objects w !! url') /\
    (forall resp, r = Ok resp -> S3.is_success resp = true \/ status resp = S3.NOT_FOUND ->
       objects w' !! url = None);
}.

Variable c : S3.S3Config.
Context {objects : W -> gmap bytes bytes} `{!HonestProvider c objects}.

Definition s3_stored (w : W) (p : bytes) : option bytes :=
  objects w !! S3.object_url c (S3.object_key c p).

Definition s3_same (q p : bytes) : bool := bool_decide (q = p).

Definition s3_readable (d : bytes) : bool := Zlen d <=? S3.max_object_bytes c.

Lemma s3_url_inj p q :
  S3.object_url c (S3.object_key c p) = S3.object_url c (S3.object_key c q) -> p = q.
Proof.
  unfold S3.object_url, S3.object_key. intros E%app_inv_head. do 3 apply app_inv_head in E.
  destruct (S3.prefix c); [|done]. by do 2 apply app_inv_head in E.
Qed.

(** Signing an object's request does not fail. *)
Lemma signed_send_sent method key data what (w : W) :
  exists hs, S3.signed_send c method (S3.object_url c key) data what w =
    (let '(r, w) := http_send {| req_method := method; req_url := S3.object_url c key;
                                 req_headers := hs; req_body := data |} w in
     (map_err (fun _ => Network what) r, w)).
Proof.
  destruct (hp_url key) as (u & h & Hu & Hh). unfold S3.signed_send, S3.sign_request.
  destruct (utc_now w) as [ds ad]. rewrite Hu. cbn [ok_or rbind]. rewrite Hh. cbn [ok_or rbind]. by eexists.
Qed.

Lemma read_delivered resp d max :
  delivers resp d -> Zlen d <= max -> read_body_bounded resp max = Ok d.
Proof.
  intros [(cs & Hb & Hd) Hl] Hmax. unfold read_body_bounded.
  assert (Hloop : read_loop max [] (body resp) = (Ok d, [])).
  { rewrite Hb. pose proof (read_loop_all max cs [] ltac:(cbn; by rewrite Hd)) as ->. cbn. by rewrite Hd. }
  destruct Hl as [-> | ->]; [by rewrite Hloop|]. rewrite Z.gtb_ltb.
  destruct (Z.ltb_spec max (Zlen d)); [lia|]. by rewrite Hloop.
Qed.

(** Whatever is sent under a URL, the other objects stay. *)
Lemma s3_upload_spec p d (w : W) :
  let '(r, w') := upload c p d w in
  (forall q, q <> p -> s3_stored w' q = s3_stored w q) /\ (r = Ok tt -> s3_stored w' p = Some d).
Proof.
  cbn. unfold S3.upload_impl.
  destruct (signed_send_sent (b "PUT") (S3.object_key c p) d "Upload request failed: {}" w) as [hs ->].
  pose proof (hp_put hs d (S3.object_url c (S3.object_key c p)) w) as Hp.
  destruct (http_send _ w) as [r w']. destruct Hp as [Hother Hown]. cbn. split.
  - intros q Hq. apply Hother. intros E. by apply s3_url_inj in E.
  - destruct r as [resp|]; [|done]. cbn. destruct (S3.is_success resp) eqn:Es; [|done].
    intros _. by apply (Hown resp).
Qed.

Lemma s3_delete_spec p (w : W) :
  let '(r, w') := delete_path c p w in
  (forall q, q <> p -> s3_stored w' q = s3_stored w q) /\ (r = Ok tt -> s3_stored w' p = None).
Proof.
  cbn. unfold S3.delete_impl.
  destruct (signed_send_sent (b "DELETE") (S3.object_key c p) [] "Delete request failed: {}" w) as [hs ->].
  pose proof (hp_delete hs [] (S3.object_url c (S3.object_key c p)) w) as Hp.
  destruct (http_send _ w) as [r w']. destruct Hp as [Hother Hown]. cbn. split.
  - intros q Hq. apply Hother. intros E. by apply s3_url_inj in E.
  - destruct r as [resp|]; [|done]. cbn. destruct (S3.is_success resp) eqn:Es; cbn.
    + intros _. apply (Hown resp); [done|by left].
    + destruct (Z.eqb_spec (status resp) S3.NOT_FOUND); [|done].
      intros _. apply (Hown resp); [done|by right].
Qed.

Lemma s3_download_spec p (w : W) :
  objects (download c p w).2 = objects w /\
  match s3_stored w p with
  | Some d => s3_readable d = true -> (download c p w).1 = Ok d
  | None => is_ok (download c p w).1 = false
  end.
Proof.
  cbn. unfold S3.download_impl, s3_stored.
  destruct (signed_send_sent (b "GET") (S3.object_key c p) [] "Download request failed: {}" w) as [hs ->].
  pose proof (hp_get hs [] (S3.object_url c (S3.object_key c p)) w) as Hst.
  destruct (hp_get_object hs [] (S3.object_key c p) w) as (resp & Er & Ho).
  destruct (http_send _ w) as [r w']. cbn [fst snd] in *. subst r. cbn. split; [done|].
  destruct (objects w !! _) as [d|].
  - destruct Ho as [Hs Hd]. unfold s3_readable, S3.is_success. rewrite Hs. cbn. intros Hm%Z.leb_le.
    by rewrite (read_delivered resp d _ Hd Hm).
  - by rewrite Ho.
Qed.

Lemma s3_others_read p (w : W) :
  objects (exists_path c p w).2 = objects w /\ objects (list_prefix c p w).2 = objects w.
Proof.
  cbn. split.
  - unfold S3.exists_impl.
    destruct (signed_send_sent (b "HEAD") (S3.object_key c p) [] "HEAD request failed: {}" w) as [hs ->].
    pose proof (hp_head hs [] (S3.object_url c (S3.object_key c p)) w) as Hst. by destruct (http_send _ w).
  - unfold S3.list_impl, S3.signed_send. destruct (S3.sign_request _ _ _ _ w) as [hs|e]; [|done].
    match goal with |- context [http_send ?rq w] =>
      pose proof (hp_get (req_headers rq) (req_body rq) (req_url rq) w) as Hst end.
    cbn [req_headers req_body req_url] in Hst. by destruct (http_send _ w).
Qed.

Lemma s3_contract : StorageContract c s3_stored s3_same s3_readable.
Proof.
  split.
  - intros p. by apply bool_decide_true.
  - intros p d w w' q E. pose proof (s3_upload_spec p d w) as Hu. rewrite E in Hu. destruct Hu as [Ho Hp].
    unfold s3_same. case_bool_decide as Hq; [subst q; by apply Hp|by apply Ho].
  - intros p d w q Hs. pose proof (s3_upload_spec p d w) as Hu. destruct (upload c p d w) as [r w'].
    apply Hu. by apply bool_decide_eq_false in Hs.
  - intros p w w' q E. pose proof (s3_delete_spec p w) as Hu. rewrite E in Hu. destruct Hu as [Ho Hp].
    unfold s3_same. case_bool_decide as Hq; [subst q; by apply Hp|by apply Ho].
  - intros p w q Hs. pose proof (s3_delete_spec p w) as Hu. destruct (delete_path c p w) as [r w'].
    apply Hu. by apply bool_decide_eq_false in Hs.
  - intros p w d Hd Hr. destruct (s3_download_spec p w) as [_ Hs]. rewrite Hd in Hs. by apply Hs.
  - intros p w Hd. destruct (s3_download_spec p w) as [_ Hs]. by rewrite Hd in Hs.
  - intros p w q. destruct (s3_download_spec p w) as [Hd _], (s3_others_read p w) as [He Hl].
    unfold s3_stored. by rewrite Hd, He, Hl.
Qed.

Lemma s3_distinct_packs : distinct_packs s3_same.
Proof.
  intros prefix prefix' i j [Hi _] [Hj _] Hne. apply bool_decide_false. unfold pack_key.
  intros E. apply Hne. rewrite !app_assoc in E. apply app_inj_2 in E as [_ E]; [done|].
  apply Nat2Z.inj. exact (eq_trans Hi (eq_sym Hj)).
Qed.
End S3.


(** ** A stream through a backend *)

Section Client.
  Context {Cert : Type} `{PgpOps Cert} `{HashOps, HexOps, AeadOps} {R : Type} `{RngOps R}.
  Context {W S : Type} `{StorageBackend W S}.
  Variable s : S.

Fixpoint upload_packs (prefix : bytes) (ps : list BuiltPack) : stateful W VaultError unit :=
  match ps with
  | [] => sret (Ok tt)
  | p :: ps =>
      let* _ := upload s (pack_key prefix (built_id p)) (built_bytes p) in
      upload_packs prefix ps
  end.

(** What the encrypted manifest keeps: the chunks' names, sizes and offsets, and
    where each blob lies. *)
Record manifest : Type := { mf_chunks : list ChunkMetadata; mf_index : list (bytes * PackLocation) }.

Definition push (e : EncryptionEngine Cert) (uid : bytes) (c : ChunkConfig)
    (stream : list bytes) (target : Z) (r : R) (w : W)
    : run (result CryptoError (manifest * VaultResult unit) * W) :=
  match derive_object_key_prefix e uid with
  | Err err => Done (Err err, w)
  | Ok prefix =>
      let! published := publish e uid c stream target r in
      match published.1 with
      | Err err => Done (Err err, w)
      | Ok (chunks, ps) =>
          let '(sent, w) := upload_packs prefix (packs ps) w in
          Done (Ok ({| mf_chunks := ChunkEngine.get_metadata chunks; mf_index := index ps |}, sent), w)
      end
  end.

Definition pull_blob (prefix : bytes) (ix : list (bytes * PackLocation)) (name : bytes)
    : stateful W VaultError bytes :=
  match List.find (fun x => bool_decide (x.1 = name)) ix with
  | None => sret (Err (Storage "chunk not in the manifest"))
  | Some (_, loc) =>
      let* pack := download s (pack_key prefix (pack_id loc)) in
      sret (slice_chunk pack loc)
  end.

Definition pull_chunk (e : EncryptionEngine Cert) (k : ChunkKeying.t) (prefix uid : bytes) (v : Z)
    (ix : list (bytes * PackLocation)) (m : ChunkMetadata) : stateful W VaultError Chunk :=
  let* blob := pull_blob prefix ix (m_hash m) in
  sret (ok_or (open_named e k uid v m blob) (VaultError.Decryption "chunk refused")).

Fixpoint pull_chunks (e : EncryptionEngine Cert) (k : ChunkKeying.t) (prefix uid : bytes) (v : Z)
    (ix : list (bytes * PackLocation)) (ms : list ChunkMetadata) : stateful W VaultError (list Chunk) :=
  match ms with
  | [] => sret (Ok [])
  | m :: ms =>
      let* c := pull_chunk e k prefix uid v ix m in
      let* cs := pull_chunks e k prefix uid v ix ms in
      sret (Ok (c :: cs))
  end.

Definition pull (e : EncryptionEngine Cert) (uid : bytes) (v : Z) (mf : manifest)
    : stateful W VaultError bytes :=
  match chunk_keying e, derive_object_key_prefix e uid with
  | Ok k, Ok prefix =>
      let* chunks := pull_chunks e k prefix uid v (mf_index mf) (mf_chunks mf) in
      sret (ChunkEngine.reassemble_chunks chunks)
  | _, _ => sret (Err (VaultError.Decryption "no repository keys"))
  end.
End Client.

(** The largest object a pack becomes: the ladder step over its content, which is
    at most the target, or one sealed chunk. *)
Definition pack_bound (c : ChunkConfig) (target : Z) : Z :=
  Z.max PAD_LADDER_FLOOR (5 * Z.max (Z.max target 1) (max_size c + XChaChaChunkEngine.OVERHEAD) / 4).

(** Packs within the bound, identified as packs are. *)
Lemma packs_bounded {R} `{RngLaws R} named c target (r : R) pset r' :
  Forall (fun x : bytes * bytes => Zlen x.2 <= max_size c + XChaChaChunkEngine.OVERHEAD) named ->
  Zlen (content named) <= USIZE_MAX -> target <= 2 ^ 31 -> max_size c <= 2 ^ 31 ->
  pack_chunks named target r = Done (pset, r') ->
  Forall (fun p => id_ok (built_id p) /\ Zlen (built_bytes p) <= pack_bound c target) (packs pset).
Proof.
  intros Hmx Hfit Ht Hm E. destruct (pack_chunks_sizes named target r Hfit) as (ps & r2 & E' & Hp).
  rewrite E in E'. injection E' as <- <-. apply Forall_forall. intros p Hin.
  destruct (Hp p Hin) as (Hid & cs & filler & Hcs & _ & Hpos & Hf & Hstep). split; [done|].
  set (len := Zlen (content cs)) in *.
  set (m := Z.max (Z.max target 1) (max_size c + XChaChaChunkEngine.OVERHEAD)).
  assert (Hlen : len <= m).
  { destruct Hf as [Hf|(e & x & -> & He)]; [unfold m, len in *; lia|].
    rewrite Forall_forall in Hmx. assert (Hx : x ∈ named) by (apply Hcs, elem_of_app; right; by left).
    apply Hmx in Hx. unfold len. rewrite content_app, He. unfold content. cbn [map concat app].
    rewrite app_nil_r. unfold m. lia. }
  assert (Hu : in_usize len).
  { unfold m, XChaChaChunkEngine.OVERHEAD, XChaChaChunkEngine.VERSION_SIZE,
      XChaChaChunkEngine.NONCE_SIZE, XChaChaChunkEngine.TAG_SIZE in Hlen. unfold in_usize, USIZE_MAX. lia. }
  destruct (step_for_default_bound len Hu) as (z & Ez & Hlo & Hhi). rewrite Hstep in Ez. injection Ez as Ez.
  fold (Pack.size p). rewrite Ez. unfold pack_bound. fold m.
  destruct (Z.le_gt_cases len PAD_LADDER_FLOOR) as [Hl|Hl]; [rewrite (Hlo Hl); lia|].
  destruct (Hhi Hl) as [_ Hz]. apply Z.max_le_iff. right. apply Z.div_le_lower_bound; lia.
Qed.

(** The shipped chunk sizes and pack target stay under the default ceiling. *)
Lemma default_packs_fit :
  pack_bound Config.e1_keyed DEFAULT_TARGET_PACK_SIZE <= BoundedHttp.DEFAULT_MAX_OBJECT_BYTES.
Proof. by vm_compute. Qed.

Section Contract.
  Context {Cert : Type} `{PgpOps Cert} `{HashLaws, HexLaws, AeadLaws} {R : Type} `{RngLaws R}.
  Context {W S : Type} `{StorageBackend W S}.
  Variable s : S.
  Context {stored : W -> bytes -> option bytes} {same : bytes -> bytes -> bool} {readable : bytes -> bool}.
  Context `{!StorageContract s stored same readable}.

(** Uploading packs under distinct objects stores each. *)
Lemma upload_packs_stored prefix ps w w' :
  distinct_packs same -> NoDup (map built_id ps) -> Forall (fun p => id_ok (built_id p)) ps ->
  upload_packs s prefix ps w = (Ok tt, w') ->
  forall p, p ∈ ps -> stored w' (pack_key prefix (built_id p)) = Some (built_bytes p).
Proof.
  intros Hd Hnd Hok. revert w. induction ps as [|p ps IH]; intros w E q Hq; [by apply elem_of_nil in Hq|].
  cbn [map] in Hnd. apply NoDup_cons in Hnd as [Hp Hnd]. apply Forall_cons in Hok as [Hidp Hok].
  cbn [upload_packs] in E. apply sbind_Ok_inv in E as ([] & w1 & E1 & E).
  assert (Hkeep : forall ps w, Forall (fun p => id_ok (built_id p)) ps -> built_id p ∉ map built_id ps ->
    upload_packs s prefix ps w = (Ok tt, w') ->
    stored w' (pack_key prefix (built_id p)) = stored w (pack_key prefix (built_id p))).
  { clear -Hd Hidp StorageContract0. intros ps. induction ps as [|x ps IH]; intros w Hok Hn E; [by injection E as <-|].
    cbn [upload_packs] in E. apply sbind_Ok_inv in E as ([] & w1 & E1 & E).
    apply Forall_cons in Hok as [Hx Hok]. cbn [map] in Hn. apply not_elem_of_cons in Hn as [Hne Hn].
    rewrite (IH w1 Hok Hn E). pose proof (sc_upload_other (pack_key prefix (built_id x)) (built_bytes x) w
      (pack_key prefix (built_id p)) (Hd prefix prefix _ _ Hidp Hx Hne)) as Ho. by rewrite E1 in Ho. }
  apply elem_of_cons in Hq as [->|Hq]; [|by apply (IH Hnd Hok w1)].
  rewrite (Hkeep ps w1 Hok Hp E), (sc_upload _ _ _ _ _ E1). by rewrite sc_same.
Qed.

(** Reading a blob from its pack's object. *)
Lemma pull_blob_found prefix ps w name bl :
  (forall p, p ∈ packs ps -> stored w (pack_key prefix (built_id p)) = Some (built_bytes p) /\
     readable (built_bytes p) = true) ->
  find_blob ps name = Some bl ->
  exists w', pull_blob s prefix (index ps) name w = (Ok bl, w') /\ forall q, stored w' q = stored w q.
Proof.
  intros Hst. unfold find_blob, pull_blob.
  destruct (List.find (fun x => bool_decide (x.1 = name)) (index ps)) as [[n loc]|]; [|done].
  destruct (List.find _ (packs ps)) as [p|] eqn:Ep; [|done].
  apply find_some in Ep as [Hin Hid]. apply list_elem_of_In in Hin. apply bool_decide_eq_true in Hid.
  destruct (Hst p Hin) as [Hp Hr]. intros Hs.
  pose proof (sc_download _ w _ Hp Hr) as Hd. destruct (sc_reads (pack_key prefix (built_id p)) w []) as (_ & _ & _).
  exists (download s (pack_key prefix (built_id p)) w).2. rewrite <- Hid. split.
  - erewrite sbind_Ok; [|rewrite <- Hd; apply surjective_pairing].
    unfold sret. destruct (slice_chunk (built_bytes p) loc); [|done]. by injection Hs as ->.
  - intros q. apply sc_reads.
Qed.

(** Reading changes no object. *)
Lemma pull_chunk_reads e k prefix uid v ix m (w : W) q :
  stored (pull_chunk s e k prefix uid v ix m w).2 q = stored w q.
Proof.
  unfold pull_chunk, pull_blob. destruct (List.find _ ix) as [[n loc]|]; [|done].
  pose proof (sc_reads (pack_key prefix (pack_id loc)) w q) as (Hd & _).
  unfold sbind, sret. destruct (download s _ w) as [[d|] w1]; [|done].
  by destruct (slice_chunk d loc).
Qed.

Lemma pull_chunk_found e k prefix uid v ps m c (w : W) :
  (forall p, p ∈ packs ps -> stored w (pack_key prefix (built_id p)) = Some (built_bytes p) /\
     readable (built_bytes p) = true) ->
  fetch_chunk e k uid v ps m = Some c ->
  (pull_chunk s e k prefix uid v (index ps) m w).1 = Ok c.
Proof.
  intros Hst. unfold fetch_chunk. destruct (find_blob ps (m_hash m)) as [bl|] eqn:Eb; [|done].
  intros Eo. destruct (pull_blob_found prefix ps w _ _ Hst Eb) as (w1 & E1 & _).
  unfold pull_chunk. by rewrite (sbind_Ok _ _ _ _ _ E1), Eo.
Qed.

Lemma pull_chunks_found e k prefix uid v ps ms chunks : forall w,
  (forall p, p ∈ packs ps -> stored w (pack_key prefix (built_id p)) = Some (built_bytes p) /\
     readable (built_bytes p) = true) ->
  all_some (fetch_chunk e k uid v ps) ms = Some chunks ->
  (pull_chunks s e k prefix uid v (index ps) ms w).1 = Ok chunks.
Proof.
  revert chunks. induction ms as [|m ms IH]; intros chunks w Hst; cbn [all_some pull_chunks].
  { by intros [= <-]. }
  destruct (fetch_chunk e k uid v ps m) as [c|] eqn:Ec; [|done].
  destruct (all_some _ ms) as [cs|] eqn:Ea; [|done]. intros [= <-].
  pose proof (pull_chunk_found e k prefix uid v ps m c w Hst Ec) as E1.
  pose proof (pull_chunk_reads e k prefix uid v (index ps) m w) as Hk.
  destruct (pull_chunk _ _ _ _ _ _ _ _ w) as [r w1] eqn:E. cbn [fst snd] in E1, Hk. subst r.
  rewrite (sbind_Ok _ _ _ _ _ E).
  specialize (IH cs w1). destruct (pull_chunks s e k prefix uid v (index ps) ms w1) as [r w2] eqn:E2.
  cbn [fst] in IH. rewrite IH in E2; [by rewrite (sbind_Ok _ _ _ _ _ E2)| |done].
  intros p Hp. rewrite Hk. by apply Hst.
Qed.

(** C2: A stream pushed to any backend that keeps the trait's promise is pulled
    back by every key holder.  Publishing returns; when its uploads succeeded,
    an engine with the same root key recovers the stream byte for byte from the
    manifest and the stored packs, whatever else happened to other objects
    meanwhile, provided the random pack identifiers are distinct and no two
    different chunks of the stream have one keyed name.  The backend must accept
    objects up to [pack_bound], which for the shipped sizes is under S3's
    default ceiling ([default_packs_fit]). *)
Theorem remote_roundtrip (w rd : EncryptionEngine Cert) k v uid c stream target (r : R) (w0 : W) :
  derive_k_repo w = Ok k -> derive_k_repo rd = Ok k ->
  Signing.key_version w = Some v -> 1 <= v -> NUL ∉ uid ->
  config_ok c -> max_size c <= 2 ^ 31 -> Zlen (concat stream) <= 2 ^ 58 -> target <= 2 ^ 31 ->
  distinct_packs same -> (forall d, Zlen d <= pack_bound c target -> readable d = true) ->
  exists prefix chunks ps r' mf sent w1,
    derive_object_key_prefix w uid = Ok prefix /\
    publish w uid c stream target r = Done (Ok (chunks, ps), r') /\
    push s w uid c stream target r w0 = Done (Ok (mf, sent), w1) /\
    (sent = Ok tt -> NoDup (map built_id (packs ps)) ->
     (forall c1 c2, c1 ∈ chunks -> c2 ∈ chunks -> hash c1 = hash c2 -> data c1 = data c2) ->
     forall w2, (forall p, p ∈ packs ps ->
         stored w2 (pack_key prefix (built_id p)) = stored w1 (pack_key prefix (built_id p))) ->
       (pull s rd uid v mf w2).1 = Ok (concat stream)).
Proof.
  intros Ek Ek' Ev Hv Hu Hc Hmax Hlen Ht Hd Hr.
  destruct (object_key_prefix_stable w rd k uid Ek Ek') as (prefix & pk & Epw & Epr & _).
  destruct (publish_ok w k v uid c stream target r Ek Ev Hv Hu Hc Hmax Hlen)
    as (kg & pl & blobs & r1 & pset & r2 & Ekg & Epub & _ & _ & _ & _ & Hmx & Hfit & Ep).
  destruct (published_fetched w rd k v uid c stream target r Ek Ek' Ev Hv Hu Hc Hmax Hlen)
    as (chunks & ps & r' & Epub' & Hfetch).
  rewrite Epub in Epub'. injection Epub' as <- <- <-.
  pose proof (packs_bounded _ _ _ _ _ _ Hmx Hfit Ht Hmax Ep) as Hpk.
  set (cs := mk_chunks (ChunkKeying.name kg) 0 pl) in *.
  destruct (upload_packs s prefix (packs pset) w0) as [sent w1] eqn:Eup.
  exists prefix, cs, pset, r2, {| mf_chunks := ChunkEngine.get_metadata cs; mf_index := index pset |}, sent, w1.
  split; [done|]. split; [done|]. split.
  { unfold push. rewrite Epw, Epub. cbn [run_bind fst]. by rewrite Eup. }
  intros -> Hnd Hinj w2 Hw2. specialize (Hfetch Hnd Hinj).
  assert (Hids : Forall (fun p => id_ok (built_id p)) (packs pset))
    by (eapply Forall_impl; [exact Hpk|]; by intros ? []).
  assert (Hst : forall p, p ∈ packs pset ->
    stored w2 (pack_key prefix (built_id p)) = Some (built_bytes p) /\ readable (built_bytes p) = true).
  { intros p Hp. rewrite Hw2 by done. split; [by apply (upload_packs_stored prefix _ _ _ Hd Hnd Hids Eup)|].
    rewrite Forall_forall in Hpk. by apply Hr, Hpk. }
  unfold fetch in Hfetch. unfold pull. rewrite Epr.
  destruct (chunk_keying rd) as [k'|]; [|done]. cbn [mf_chunks mf_index].
  destruct (all_some _ _) as [out|] eqn:Ea; [|done].
  pose proof (pull_chunks_found rd k' prefix uid v pset _ _ w2 Hst Ea) as Hpull.
  destruct (pull_chunks _ _ _ _ _ _ _ _ w2) as [res w3] eqn:E3. cbn [fst] in Hpull. subst res.
  rewrite (sbind_Ok _ _ _ _ _ E3). cbn [sret fst].
  destruct (ChunkEngine.reassemble_chunks out); [|done]. by injection Hfetch as ->.
Qed.
End Contract.

(** ** On concrete input *)

Definition reply (st : Z) (bs : list (result string bytes)) : Response :=
  {| status := st; content_length := None; body := bs |}.

(** A provider that is a map from URLs to objects. *)
#[local] Instance map_s3 : S3Env (gmap bytes bytes) := {|
  http_send rq w :=
    if decide (req_method rq = b "PUT") then (Ok (reply 200 []), <[req_url rq := req_body rq]> w)
    else if decide (req_method rq = b "DELETE") then (Ok (reply 204 []), delete (req_url rq) w)
    else (Ok (match w !! req_url rq with
              | Some d => reply 200 [Ok d]
              | None => reply 404 []
              end), w);
  utc_now _ := (b "20260101", b "20260101T000000Z");
  url_parse u := Some {| url_host := Some (b "h"); url_path := u; url_query := None |};
  url_encode u := u;
  key_captures _ := [];
|}.

Lemma map_s3_honest c : HonestProvider c (id : gmap bytes bytes -> gmap bytes bytes).
Proof.
  split; cbn [http_send map_s3 url_parse req_method req_url req_body id].
  - intros key. by eexists _, _.
  - done.
  - intros hs data key w. eexists. split; [done|].
    destruct (w !! S3.object_url c key) as [d|]; [|done]. split; [done|].
    split; [|by left]. exists [d]. cbn. by rewrite app_nil_r.
  - done.
  - intros hs data url w. rewrite (decide_True (P := b "PUT" = b "PUT")) by done.
    split; [intros url' Hne; by apply lookup_insert_ne|]. intros resp _ _. apply lookup_insert_eq.
  - intros hs data url w. rewrite (decide_False (P := b "DELETE" = b "PUT")) by done.
    rewrite decide_True by done.
    split; [intros url' Hne; by apply lookup_delete_ne|]. intros resp _ _. apply lookup_delete_eq.
Qed.


Definition demo_store : FileStorage.t := {| FileStorage.root := [b "vault"] |}.

Lemma remote_roundtrip_witness :
  exists mf w1, push demo_store demo_repo (b "uid") demo_config demo_stream 80 7 (∅ : fs)
      = Done (Ok (mf, Ok tt), w1) /\
    (pull demo_store demo_repo (b "uid") 2 mf w1).1 = Ok (b "hello, hello, end to end").
Proof.
  destruct (remote_roundtrip (StorageContract0 := file_contract demo_store) demo_store demo_repo demo_repo
    demo_root 2 (b "uid") demo_config demo_stream 80 7 (∅ : fs))
    as (prefix & chunks & ps & r' & mf & sent & w1 & _ & E & Epush & Hpull).
  - exact demo_root_ok.
  - exact demo_root_ok.
  - reflexivity.
  - lia.
  - by_eval.
  - exact demo_config_ok.
  - by vm_compute.
  - by vm_compute.
  - by vm_compute.
  - apply file_distinct_packs.
  - done.
  - assert (Hsent : match push demo_store demo_repo (b "uid") demo_config demo_stream 80 7 (∅ : fs) with
      | Done (Ok (_, Ok tt), _) => True | _ => False end) by (vm_compute; exact I).
    rewrite Epush in Hsent. destruct sent as [[]|]; [|destruct Hsent].
    destruct (demo_published _ _ _ E) as [Hnd Hinj].
    exists mf, w1. split; [exact Epush|]. change (b "hello, hello, end to end") with (concat demo_stream).
    exact (Hpull eq_refl Hnd Hinj w1 (fun _ _ => eq_refl)).
Defined.
