(* ===== verification/Concurrent.v ===== *)
(** Several clients over one storage backend.

    Writers publish streams and upload their packs one by one; readers pull the
    chunks of finished publications one by one; other programs change objects of
    their own.  The steps of all of them interleave in any order, a writer may
    stop at any point, and an upload may fail.  One operation of the backend is
    one step.  The clients are {!Remote}'s [push] and [pull], cut at their calls
    of the backend. *)

From S2P Require Import Prelude Bytes Interfaces Toy Fs VaultError Storage Pack Chunking.
From S2P Require Import CryptoError Signing RepoEncryption Pipeline Remote.

Section System.
  Context {Cert : Type} `{PgpOps Cert} `{HashOps, HexOps, AeadOps} {R : Type} `{RngOps R}.
  Context {W S : Type} `{StorageBackend W S}.
  Variable s : S.
  Variables (stored : W -> bytes -> option bytes) (readable : bytes -> bool).

(** A published stream: what went in, and the chunks and packs that came out. *)
Record Publication : Type := {
  pub_engine : EncryptionEngine Cert; pub_uid : bytes; pub_version : Z;
  pub_config : ChunkConfig; pub_stream : list bytes; pub_target : Z; pub_rng : R;
  pub_prefix : bytes; pub_chunks : list Chunk; pub_packs : PackSet;
}.

(** What {!Remote.remote_roundtrip} asks of one publication. *)
Record published (p : Publication) : Prop := {
  pd_root : is_ok (derive_k_repo (pub_engine p)) = true;
  pd_version : Signing.key_version (pub_engine p) = Some (pub_version p) /\ 1 <= pub_version p;
  pd_uid : NUL ∉ pub_uid p;
  pd_config : config_ok (pub_config p) /\ max_size (pub_config p) <= 2 ^ 31;
  pd_sizes : Zlen (concat (pub_stream p)) <= 2 ^ 58 /\ pub_target p <= 2 ^ 31;
  pd_prefix : derive_object_key_prefix (pub_engine p) (pub_uid p) = Ok (pub_prefix p);
  pd_publish : exists r', publish (pub_engine p) (pub_uid p) (pub_config p) (pub_stream p)
    (pub_target p) (pub_rng p) = Done (Ok (pub_chunks p, pub_packs p), r');
  pd_names c1 c2 : c1 ∈ pub_chunks p -> c2 ∈ pub_chunks p -> hash c1 = hash c2 -> data c1 = data c2;
  pd_readable d : Zlen d <= pack_bound (pub_config p) (pub_target p) -> readable d = true;
}.

Definition pack_ids (p : Publication) : list bytes := map built_id (packs (pub_packs p)).
Definition key_of (p : Publication) (x : BuiltPack) : bytes := pack_key (pub_prefix p) (built_id x).

(** ** The clients *)

Record writer : Type := {
  w_pub : Publication; sent : list BuiltPack; unsent : list BuiltPack; live : bool;
}.

Definition fresh (p : Publication) : writer :=
  {| w_pub := p; sent := []; unsent := packs (pub_packs p); live := true |}.
Definition stopped (wr : writer) : writer :=
  {| w_pub := w_pub wr; sent := sent wr; unsent := unsent wr; live := false |}.

(** After the upload of [x]: the next pack, or the error is returned. *)
Definition uploaded (wr : writer) (x : BuiltPack) (rest : list BuiltPack) (r : VaultResult unit) : writer :=
  match r with
  | Ok _ => {| w_pub := w_pub wr; sent := sent wr ++ [x]; unsent := rest; live := true |}
  | Err _ => stopped wr
  end.

Record reader : Type := {
  rd_pub : Publication; rd_engine : EncryptionEngine Cert; rd_keying : ChunkKeying.t;
  ahead : list ChunkMetadata; behind : list Chunk; failed : option VaultError;
}.

Definition opened (p : Publication) (e : EncryptionEngine Cert) (k : ChunkKeying.t) : reader :=
  {| rd_pub := p; rd_engine := e; rd_keying := k;
     ahead := ChunkEngine.get_metadata (pub_chunks p); behind := []; failed := None |}.

Definition pull_next (rd : reader) (m : ChunkMetadata) : stateful W VaultError Chunk :=
  pull_chunk s (rd_engine rd) (rd_keying rd) (pub_prefix (rd_pub rd)) (pub_uid (rd_pub rd))
    (pub_version (rd_pub rd)) (index (pub_packs (rd_pub rd))) m.

Definition pulled (rd : reader) (rest : list ChunkMetadata) (r : VaultResult Chunk) : reader :=
  match r with
  | Ok c => {| rd_pub := rd_pub rd; rd_engine := rd_engine rd; rd_keying := rd_keying rd;
               ahead := rest; behind := behind rd ++ [c]; failed := None |}
  | Err e => {| rd_pub := rd_pub rd; rd_engine := rd_engine rd; rd_keying := rd_keying rd;
                ahead := ahead rd; behind := behind rd; failed := Some e |}
  end.

(** ** Their steps *)

Record system : Type := { world : W; writers : list writer; readers : list reader }.

Definition start (pubs : list Publication) (w : W) : system :=
  {| world := w; writers := map fresh pubs; readers := [] |}.

(** [w'] has the packs of the publications as [w] does. *)
Definition packs_kept (pubs : list Publication) (w w' : W) : Prop :=
  forall p x, p ∈ pubs -> x ∈ packs (pub_packs p) -> stored w' (key_of p x) = stored w (key_of p x).

Inductive step (st : system) : system -> Prop :=
  | step_upload i wr x rest r w' :
      writers st !! i = Some wr -> live wr = true -> unsent wr = x :: rest ->
      upload s (key_of (w_pub wr) x) (built_bytes x) (world st) = (r, w') ->
      step st {| world := w'; writers := <[i := uploaded wr x rest r]> (writers st);
                 readers := readers st |}
  | step_stop i wr :
      writers st !! i = Some wr ->
      step st {| world := world st; writers := <[i := stopped wr]> (writers st);
                 readers := readers st |}
  | step_open i wr e k :
      writers st !! i = Some wr -> unsent wr = [] ->
      chunk_keying e = Ok k ->
      derive_object_key_prefix e (pub_uid (w_pub wr)) = Ok (pub_prefix (w_pub wr)) ->
      step st {| world := world st; writers := writers st;
                 readers := readers st ++ [opened (w_pub wr) e k] |}
  | step_pull j rd m rest r w' :
      readers st !! j = Some rd -> failed rd = None -> ahead rd = m :: rest ->
      pull_next rd m (world st) = (r, w') ->
      step st {| world := w'; writers := writers st;
                 readers := <[j := pulled rd rest r]> (readers st) |}
  | step_other w' :
      packs_kept (map w_pub (writers st)) (world st) w' ->
      step st {| world := w'; writers := writers st; readers := readers st |}.

(** ** The invariant *)

Definition same_root (e e' : EncryptionEngine Cert) : Prop := derive_k_repo e = derive_k_repo e'.

Record writer_ok (w : W) (wr : writer) : Prop := {
  wo_split : packs (pub_packs (w_pub wr)) = sent wr ++ unsent wr;
  wo_stored x : x ∈ sent wr -> stored w (key_of (w_pub wr) x) = Some (built_bytes x);
}.

(** A key holder's reader has the chunks of the stream up to where it is. *)
Definition reader_ok (rd : reader) : Prop :=
  same_root (rd_engine rd) (pub_engine (rd_pub rd)) ->
  failed rd = None /\ exists later,
    all_some (fetch_chunk (rd_engine rd) (rd_keying rd) (pub_uid (rd_pub rd))
      (pub_version (rd_pub rd)) (pub_packs (rd_pub rd))) (ahead rd) = Some later /\
    ChunkEngine.reassemble_chunks (behind rd ++ later) = Ok (concat (pub_stream (rd_pub rd))).

Record system_ok (pubs : list Publication) (st : system) : Prop := {
  so_pubs : map w_pub (writers st) = pubs;
  so_writers i wr : writers st !! i = Some wr -> writer_ok (world st) wr;
  so_readers j rd : readers st !! j = Some rd -> reader_ok rd /\
    exists i wr, writers st !! i = Some wr /\ w_pub wr = rd_pub rd /\ unsent wr = [];
}.
End System.

Section Interleavings.
  Context {Cert : Type} `{PgpOps Cert} `{HashLaws, HexLaws, AeadLaws} {R : Type} `{RngLaws R}.
  Context {W S : Type} `{StorageBackend W S}.
  Variable s : S.
  Context {stored : W -> bytes -> option bytes} {same : bytes -> bytes -> bool} {readable : bytes -> bool}.
  Context `{!StorageContract s stored same readable}.
  Hypothesis Hdistinct : distinct_packs same.

  Implicit Types (p q : Publication (Cert := Cert) (R := R)) (wr wo : writer (Cert := Cert) (R := R)).
  Implicit Types (rd : reader (Cert := Cert) (R := R)) (st : system (Cert := Cert) (R := R) (W := W)).

(** A publication is fetched whole by every key holder, and its packs are objects
    the backend takes. *)
Lemma published_spec p (rd : EncryptionEngine Cert) :
  published readable p -> same_root rd (pub_engine p) -> NoDup (pack_ids p) ->
  Forall (fun x => id_ok (built_id x) /\ readable (built_bytes x) = true) (packs (pub_packs p)) /\
  fetch rd (pub_uid p) (pub_version p) (ChunkEngine.get_metadata (pub_chunks p)) (pub_packs p)
    = Some (concat (pub_stream p)) /\
  derive_object_key_prefix rd (pub_uid p) = Ok (pub_prefix p).
Proof.
  intros [Hroot [Ev Hv] Hu [Hc Hm] [Hl Ht] Hpre (r' & Epub) Hnames Hread] Hsame Hnd.
  destruct (derive_k_repo (pub_engine p)) as [k|] eqn:Ek; [|done]. unfold same_root in Hsame. rewrite Ek in Hsame.
  destruct (publish_ok _ k _ _ _ _ (pub_target p) (pub_rng p) Ek Ev Hv Hu Hc Hm Hl)
    as (kg & pl & blobs & r1 & pset & r2 & _ & Epub2 & _ & _ & _ & _ & Hmx & Hfit & Ep).
  destruct (published_fetched _ rd k _ _ _ _ (pub_target p) (pub_rng p) Ek Hsame Ev Hv Hu Hc Hm Hl)
    as (chunks & ps & r3 & Epub3 & Hf).
  destruct (object_key_prefix_stable _ rd k (pub_uid p) Ek Hsame) as (prefix & pk & Epw & Epr & _).
  rewrite Epub in Epub2, Epub3. injection Epub3 as <- <- _. injection Epub2 as _ <- _.
  split; [|split; [by apply Hf|congruence]].
  pose proof (packs_bounded _ _ _ _ _ _ Hmx Hfit Ht Hm Ep) as Hpk.
  eapply Forall_impl; [exact Hpk|]. intros x [Hid Hx]. split; [done|by apply Hread].
Qed.

Section Reached.
  Context {pubs : list (Publication (Cert := Cert) (R := R))}.
  Hypothesis Hpub : Forall (published readable) pubs.
  Hypothesis Hids : NoDup (concat (map pack_ids pubs)).

Lemma ids_NoDup p : p ∈ pubs -> NoDup (pack_ids p).
Proof.
  intros Hp. assert (Hin : pack_ids p ∈ map pack_ids pubs) by (apply list_elem_of_fmap; by exists p).
  clear -Hids Hin. induction (map pack_ids pubs) as [|l ls IH]; [by apply elem_of_nil in Hin|].
  cbn in Hids. apply NoDup_app in Hids as (Hl & _ & Hls). apply elem_of_cons in Hin as [->|Hin]; auto.
Qed.

Lemma packs_ok p : p ∈ pubs ->
  Forall (fun x => id_ok (built_id x) /\ readable (built_bytes x) = true) (packs (pub_packs p)).
Proof.
  intros Hp. rewrite Forall_forall in Hpub.
  by destruct (published_spec p (pub_engine p) (Hpub p Hp) eq_refl (ids_NoDup p Hp)).
Qed.

(** Packs of the publications are different objects. *)
Lemma other_object i j p q x y :
  pubs !! i = Some p -> pubs !! j = Some q -> x ∈ packs (pub_packs p) -> y ∈ packs (pub_packs q) ->
  i <> j \/ built_id y <> built_id x -> same (key_of q y) (key_of p x) = false.
Proof.
  intros Hi Hj Hx Hy Hne.
  pose proof (packs_ok p ltac:(by eapply list_elem_of_lookup_2)) as Hp.
  pose proof (packs_ok q ltac:(by eapply list_elem_of_lookup_2)) as Hq.
  rewrite Forall_forall in Hp, Hq. apply Hdistinct; [by apply Hq|by apply Hp|].
  destruct (decide (i = j)) as [->|Hij]; [by destruct Hne|].
  eapply (concat_NoDup_ne _ j i); [exact Hids| | |done| |].
  - rewrite list_lookup_fmap. by rewrite Hj.
  - rewrite list_lookup_fmap. by rewrite Hi.
  - by apply list_elem_of_fmap_2.
  - by apply list_elem_of_fmap_2.
Qed.

(** One upload leaves every pack already sent, and stores its own. *)
Lemma upload_sent i j wr wo x rest (w w' : W) r :
  pubs !! i = Some (w_pub wr) -> pubs !! j = Some (w_pub wo) -> unsent wr = x :: rest ->
  (i = j -> wo = wr) -> writer_ok stored w wr -> writer_ok stored w wo ->
  upload s (key_of (w_pub wr) x) (built_bytes x) w = (r, w') ->
  writer_ok stored w' wo.
Proof.
  intros Hi Hj Hx Hij [Hsp _] [Hso Hst] E. split; [done|]. intros y Hy. rewrite <- (Hst y Hy).
  pose proof (sc_upload_other (key_of (w_pub wr) x) (built_bytes x) w (key_of (w_pub wo) y)) as Ho.
  rewrite E in Ho. apply Ho. apply (other_object i j); [done..| | |].
  - rewrite Hsp, Hx. apply elem_of_app. right. left.
  - rewrite Hso. by apply elem_of_app; left.
  - destruct (decide (i = j)) as [Heq|]; [right|by left]. specialize (Hij Heq). subst wo.
    pose proof (ids_NoDup (w_pub wr) ltac:(by eapply list_elem_of_lookup_2)) as Hnd.
    unfold pack_ids in Hnd. rewrite Hsp, Hx, map_app in Hnd. apply NoDup_app in Hnd as (_ & Hsep & _).
    intros Eid. apply (Hsep (built_id y)); [by apply list_elem_of_fmap_2|]. rewrite Eid. left.
Qed.

Lemma uploaded_ok wr x rest (w' : W) r (w : W) :
  unsent wr = x :: rest -> writer_ok stored w' wr ->
  upload s (key_of (w_pub wr) x) (built_bytes x) w = (r, w') ->
  writer_ok stored w' (uploaded wr x rest r).
Proof.
  intros Hx [Hsp Hst] E. destruct r as [[]|e]; cbn; [|by split]. split; cbn.
  - by rewrite Hsp, Hx, <- app_assoc.
  - intros y [Hy|Hy%list_elem_of_singleton]%elem_of_app; [by apply Hst|subst y].
    rewrite (sc_upload _ _ _ _ _ E). by rewrite sc_same.
Qed.

(** Objects that stay keep what was sent. *)
Lemma writer_kept wr (w w' : W) :
  (forall x, x ∈ packs (pub_packs (w_pub wr)) ->
     stored w' (key_of (w_pub wr) x) = stored w (key_of (w_pub wr) x)) ->
  writer_ok stored w wr -> writer_ok stored w' wr.
Proof.
  intros Hk [Hsp Hst]. split; [done|]. intros x Hx. rewrite Hk; [by apply Hst|].
  rewrite Hsp. by apply elem_of_app; left.
Qed.

(** ** Readers *)

Lemma finished_stored st i wr :
  system_ok stored pubs st -> writers st !! i = Some wr -> unsent wr = [] ->
  forall x, x ∈ packs (pub_packs (w_pub wr)) ->
    stored (world st) (pack_key (pub_prefix (w_pub wr)) (built_id x)) = Some (built_bytes x) /\
    readable (built_bytes x) = true.
Proof.
  intros [Hp Hw _] Hi Hu x Hx. destruct (Hw i wr Hi) as [Hsp Hst]. split.
  - apply Hst. by rewrite Hsp, Hu, app_nil_r in Hx.
  - assert (Hin : w_pub wr ∈ pubs)
      by (rewrite <- Hp; apply list_elem_of_fmap_2; by eapply list_elem_of_lookup_2).
    pose proof (packs_ok _ Hin) as Hok. rewrite Forall_forall in Hok. by apply Hok.
Qed.

Lemma pulled_ok rd m rest (w w' : W) r :
  (forall x, x ∈ packs (pub_packs (rd_pub rd)) ->
    stored w (pack_key (pub_prefix (rd_pub rd)) (built_id x)) = Some (built_bytes x) /\
    readable (built_bytes x) = true) ->
  ahead rd = m :: rest -> pull_next s rd m w = (r, w') -> reader_ok rd ->
  reader_ok (pulled rd rest r).
Proof.
  intros Hst Ha E Hr Hsame.
  assert (Hs : same_root (rd_engine rd) (pub_engine (rd_pub rd))) by (by destruct r).
  destruct (Hr Hs) as (Hf & later & Hl & Hc). rewrite Ha in Hl. cbn [all_some] in Hl.
  destruct (fetch_chunk _ _ _ _ _ m) as [c|] eqn:Ec; [|done].
  destruct (all_some _ rest) as [cs|] eqn:Er; [|done]. injection Hl as <-.
  pose proof (pull_chunk_found s _ _ (pub_prefix (rd_pub rd)) _ _ _ _ _ _ Hst Ec) as E1.
  unfold pull_next in E. rewrite E in E1. cbn in E1. subst r. split; [done|].
  exists cs. split; [done|]. cbn. by rewrite <- app_assoc.
Qed.

Lemma opened_ok p (e : EncryptionEngine Cert) k :
  p ∈ pubs -> chunk_keying e = Ok k -> reader_ok (opened p e k).
Proof.
  intros Hp Hk Hsame. rewrite Forall_forall in Hpub.
  destruct (published_spec p e (Hpub p Hp) Hsame (ids_NoDup p Hp)) as (_ & Hf & _).
  unfold fetch in Hf. rewrite Hk in Hf. split; [done|]. cbn.
  destruct (all_some _ _) as [cs|] eqn:Ea; [|done]. exists cs. split; [done|].
  destruct (ChunkEngine.reassemble_chunks cs); [|done]. by injection Hf as ->.
Qed.

(** ** The invariant holds of every reachable state *)

Lemma start_ok (w0 : W) : system_ok stored pubs (start pubs w0).
Proof.
  split; cbn.
  - rewrite map_map. apply map_id.
  - intros i wr Hi. rewrite list_lookup_fmap in Hi. apply fmap_Some in Hi as (p & _ & ->).
    split; [done|]. intros x Hx. by apply elem_of_nil in Hx.
  - done.
Qed.

Lemma map_insert_pub st i wr wo :
  writers st !! i = Some wr -> w_pub wo = w_pub wr ->
  map w_pub (<[i := wo]> (writers st)) = map w_pub (writers st).
Proof.
  intros Hi E. rewrite (list_fmap_insert w_pub). apply list_insert_id.
  rewrite list_lookup_fmap, Hi. cbn. by rewrite E.
Qed.

(** A finished writer is still there when another one changes. *)
Lemma finished_stays st i wr wo rd :
  writers st !! i = Some wr -> w_pub wo = w_pub wr -> (unsent wr = [] -> unsent wo = []) ->
  (exists j wx, writers st !! j = Some wx /\ w_pub wx = rd_pub rd /\ unsent wx = []) ->
  exists j wx, <[i := wo]> (writers st) !! j = Some wx /\ w_pub wx = rd_pub rd /\ unsent wx = [].
Proof.
  intros Hi Hp Hu (j & wx & Hj & Hx & Hn). destruct (decide (i = j)) as [<-|Hne].
  - exists i, wo. assert (wx = wr) as -> by congruence.
    rewrite list_lookup_insert_eq by (by eapply lookup_lt_Some).
    split; [done|]. split; [congruence|auto].
  - exists j, wx. by rewrite list_lookup_insert_ne.
Qed.

Lemma pub_at st i wr :
  system_ok stored pubs st -> writers st !! i = Some wr -> pubs !! i = Some (w_pub wr).
Proof. clear Hpub Hids. intros [Hp _ _] Hi. by rewrite <- Hp, list_lookup_fmap, Hi. Qed.

(** A writer at [i] changes to [wo], with the world. *)
Lemma writer_step_ok st i wr wo (w' : W) :
  system_ok stored pubs st -> writers st !! i = Some wr ->
  w_pub wo = w_pub wr -> (unsent wr = [] -> unsent wo = []) -> writer_ok stored w' wo ->
  (forall j wx, j <> i -> writers st !! j = Some wx -> writer_ok stored w' wx) ->
  system_ok stored pubs {| world := w'; writers := <[i := wo]> (writers st); readers := readers st |}.
Proof.
  intros [Hp Hw Hr] Hi Ewo Hu Hok Hothers. split; cbn.
  - by rewrite (map_insert_pub st i wr).
  - intros j wx Hj. destruct (decide (j = i)) as [->|Hne].
    + rewrite list_lookup_insert_eq in Hj by (by eapply lookup_lt_Some). by injection Hj as <-.
    + rewrite list_lookup_insert_ne in Hj by done. by eapply Hothers.
  - intros j rd Hj. destruct (Hr j rd Hj) as [Hok' Hfin]. split; [done|].
    by eapply finished_stays.
Qed.

Lemma step_ok st st' : system_ok stored pubs st -> step s stored st st' -> system_ok stored pubs st'.
Proof.
  intros Hs Hstep. pose proof Hs as [Hp Hw Hr].
  destruct Hstep as [i wr x rest r w' Hi Hl Hu E|i wr Hi|i wr e k Hi Hu Hk Hpre
    |j rd m rest r w' Hj Hf Ha E|w' Hkeep].
  - assert (Hsent : forall j wx, writers st !! j = Some wx -> writer_ok stored w' wx).
    { intros j wx Hj. eapply (upload_sent i j wr wx x rest); try done; try by eapply pub_at.
      - intros <-. congruence.
      - by eapply Hw.
      - by eapply Hw. }
    eapply writer_step_ok; [done|done|by destruct r| | |].
    + intros E'. by rewrite E' in Hu.
    + eapply uploaded_ok; [done| |done]. by eapply Hsent.
    + intros j wx _. apply Hsent.
  - eapply writer_step_ok; [done|done|done|done| |].
    + destruct (Hw i wr Hi). by split.
    + intros j wx _. apply Hw.
  - split; cbn; [done|done|]. intros j rd Hj. apply lookup_app_Some in Hj as [Hj|[_ Hj]].
    + by apply Hr in Hj.
    + apply list_lookup_singleton_Some in Hj as [_ <-]. split; [|by exists i, wr].
      apply opened_ok; [|done]. eapply list_elem_of_lookup_2. by eapply pub_at.
  - destruct (Hr j rd Hj) as [Hok (i & wr & Hi & Ep & Hu)].
    assert (Hk : forall o, stored w' o = stored (world st) o).
    { intros o. unfold pull_next in E.
      pose proof (pull_chunk_reads s (rd_engine rd) (rd_keying rd) (pub_prefix (rd_pub rd))
        (pub_uid (rd_pub rd)) (pub_version (rd_pub rd)) (index (pub_packs (rd_pub rd))) m (world st) o) as Hq.
      by rewrite E in Hq. }
    split; cbn; [done| |].
    + intros i' wx Hx. eapply writer_kept; [|by eapply Hw]. intros y _. apply Hk.
    + intros j' rd' Hj'. destruct (decide (j' = j)) as [->|Hne].
      * rewrite list_lookup_insert_eq in Hj' by (by eapply lookup_lt_Some). injection Hj' as <-.
        split; [|exists i, wr; by destruct r]. eapply pulled_ok; try done. rewrite <- Ep.
        by eapply finished_stored.
      * rewrite list_lookup_insert_ne in Hj' by done. by apply Hr in Hj'.
  - split; cbn; [done| |done]. intros i wr Hi. eapply writer_kept; [|by eapply Hw].
    intros x Hx. apply Hkeep; [|done]. apply list_elem_of_fmap_2. by eapply list_elem_of_lookup_2.
Qed.

Lemma reachable_ok (w0 : W) st : rtc (step s stored) (start pubs w0) st -> system_ok stored pubs st.
Proof.
  intros Hr. pose proof (start_ok w0) as Hs.
  induction Hr as [|s0 s1 s2 Hst _ IH]; [done|]. apply IH. by eapply step_ok.
Qed.

(** ** Progress *)

(** A key holder's reader, run alone, reaches the end. *)
Lemma reader_finishes n : forall st rs rd, length (ahead rd) = n ->
  system_ok stored pubs st -> readers st = rs ++ [rd] ->
  same_root (rd_engine rd) (pub_engine (rd_pub rd)) ->
  exists w' cs, rtc (step s stored) st
    {| world := w'; writers := writers st;
       readers := rs ++ [ {| rd_pub := rd_pub rd; rd_engine := rd_engine rd; rd_keying := rd_keying rd;
                             ahead := []; behind := cs; failed := None |} ] |}.
Proof.
  induction n as [|n IH]; intros st rs rd Hn Hs Hrd Hsame;
    assert (Hj : readers st !! length rs = Some rd) by (rewrite Hrd; by apply list_lookup_middle);
    destruct (so_readers _ _ _ Hs _ _ Hj) as [Hok _]; destruct (Hok Hsame) as (Hf & later & _).
  - exists (world st), (behind rd). destruct st as [w ws rds], rd as [p e k ms cs f]. cbn in *. subst.
    apply nil_length_inv in Hn as ->. apply rtc_refl.
  - destruct (ahead rd) as [|m rest] eqn:Ha; [done|]. cbn in Hn. injection Hn as Hn.
    destruct (pull_next s rd m (world st)) as [r w1] eqn:E.
    pose proof (step_pull s stored st _ _ _ _ _ _ Hj Hf Ha E) as Hstep.
    pose proof (step_ok _ _ Hs Hstep) as Hs1.
    assert (Hins : <[length rs := pulled rd rest r]> (readers st) = rs ++ [pulled rd rest r]).
    { rewrite Hrd, insert_app_r_alt, Nat.sub_diag by lia. done. }
    rewrite Hins in Hstep, Hs1.
    assert (Hj1 : (rs ++ [pulled rd rest r]) !! length rs = Some (pulled rd rest r))
      by (by apply list_lookup_middle).
    destruct (so_readers _ _ _ Hs1 _ _ Hj1) as [Hok1 _]. destruct r as [c|e].
    + destruct (IH _ rs (pulled rd rest (Ok c)) Hn Hs1 eq_refl Hsame) as (w' & cs & Hrun).
      exists w', cs. eapply rtc_l; [exact Hstep|exact Hrun].
    + destruct (Hok1 Hsame) as [[=] _].
Qed.

(** [upload_packs] is one schedule of a writer. *)
Lemma upload_schedule xs : forall st i wr r w',
  writers st !! i = Some wr -> live wr = true -> unsent wr = xs ->
  upload_packs s (pub_prefix (w_pub wr)) xs (world st) = (r, w') ->
  exists wo, w_pub wo = w_pub wr /\ (r = Ok tt -> unsent wo = []) /\
    rtc (step s stored) st
      {| world := w'; writers := <[i := wo]> (writers st); readers := readers st |}.
Proof.
  induction xs as [|x xs IH]; intros st i wr r w' Hi Hl Hu E; cbn [upload_packs] in E.
  - unfold sret in E. injection E as <- <-. exists wr. split; [done|]. split; [done|].
    rewrite list_insert_id by done. destruct st. apply rtc_refl.
  - change (pack_key (pub_prefix (w_pub wr)) (built_id x)) with (key_of (w_pub wr) x) in E.
    unfold sbind in E.
    destruct (upload s (key_of (w_pub wr) x) (built_bytes x) (world st)) as [[[]|err] w1] eqn:E1.
    + pose proof (step_upload s stored st _ _ _ _ _ _ Hi Hl Hu E1) as Hstep.
      assert (Hi' : <[i := uploaded wr x xs (Ok tt)]> (writers st) !! i = Some (uploaded wr x xs (Ok tt)))
        by (apply list_lookup_insert_eq; by eapply lookup_lt_Some).
      destruct (IH {| world := w1; writers := <[i := uploaded wr x xs (Ok tt)]> (writers st);
                      readers := readers st |} i _ r w' Hi' eq_refl eq_refl E) as (wo & Ho & Hn & Hrun).
      cbn [writers readers] in Hrun. rewrite list_insert_insert_eq in Hrun.
      exists wo. split; [done|]. split; [done|]. eapply rtc_l; [exact Hstep|exact Hrun].
    + injection E as <- <-. exists (uploaded wr x xs (Err err)). split; [done|]. split; [done|].
      apply rtc_once. by eapply step_upload.
Qed.
End Reached.

End Interleavings.

(** ** Two writers of one repository *)

Definition demo_publication (r : Z) (pre : bytes) (cs : list Chunk) (ps : PackSet) : Publication := {|
  pub_engine := demo_repo; pub_uid := b "uid"; pub_version := 2; pub_config := demo_config;
  pub_stream := demo_stream; pub_target := 80; pub_rng := r;
  pub_prefix := pre; pub_chunks := cs; pub_packs := ps;
|}.

Definition demo_publish (r : Z) := publish demo_repo (b "uid") demo_config demo_stream 80 r.

Lemma demo_publication_ok r pre cs ps r' :
  derive_object_key_prefix demo_repo (b "uid") = Ok pre ->
  demo_publish r = Done (Ok (cs, ps), r') ->
  (forall c1 c2, c1 ∈ cs -> c2 ∈ cs -> hash c1 = hash c2 -> data c1 = data c2) ->
  published (fun _ => true) (demo_publication r pre cs ps).
Proof.
  unfold demo_publish. intros Epre E Hx. split; cbn [pub_engine pub_uid pub_version pub_config pub_stream pub_target
    pub_rng pub_prefix pub_chunks pub_packs demo_publication].
  - by rewrite demo_root_ok.
  - by split.
  - by_eval.
  - split; [exact demo_config_ok|by vm_compute].
  - by split; vm_compute.
  - exact Epre.
  - exists r'. exact E.
  - exact Hx.
  - reflexivity.
Qed.

(** The two streams' names do not collide, their packs are distinct, and the first
    one's upload. *)
Lemma demo_checks :
  match demo_publish 7, demo_publish 99 with
  | Done (Ok (cs, ps), _), Done (Ok (cs', ps'), _) =>
      bool_decide (NoDup (map built_id (packs ps) ++ map built_id (packs ps'))) &&
      forallb (fun c1 => forallb (fun c2 =>
        negb (bool_decide (hash c1 = hash c2)) || bool_decide (data c1 = data c2)) (cs ++ cs')) (cs ++ cs') &&
      match derive_object_key_prefix demo_repo (b "uid") with
      | Ok pre => is_ok (upload_packs demo_store pre (packs ps) (∅ : fs)).1
      | Err _ => false
      end
  | _, _ => false
  end = true.
Proof. vm_compute. reflexivity. Qed.

Lemma demo_two_published : exists pre cs ps cs' ps',
  Forall (published (fun _ => true)) [demo_publication 7 pre cs ps; demo_publication 99 pre cs' ps'] /\
  NoDup (concat (map pack_ids [demo_publication 7 pre cs ps; demo_publication 99 pre cs' ps'])) /\
  is_ok (upload_packs demo_store pre (packs ps) (∅ : fs)).1 = true.
Proof.
  pose proof demo_checks as Hx.
  destruct (object_key_prefix_stable demo_repo demo_repo demo_root (b "uid") demo_root_ok demo_root_ok)
    as (pre & pk & Epre & _).
  destruct (demo_publish 7) as [[[[cs ps]|] r1]| |] eqn:E1; [|discriminate Hx..].
  destruct (demo_publish 99) as [[[[cs' ps']|] r2]| |] eqn:E2; [|discriminate Hx..].
  apply andb_true_iff in Hx as [Hx Hup]. rewrite Epre in Hup.
  apply andb_true_iff in Hx as [Hnd Hx]. apply bool_decide_eq_true in Hnd.
  assert (Hn : forall c1 c2, c1 ∈ cs ++ cs' -> c2 ∈ cs ++ cs' -> hash c1 = hash c2 -> data c1 = data c2).
  { rewrite forallb_forall in Hx. intros c1 c2 H1 H2 Hh. specialize (Hx c1 ltac:(by apply list_elem_of_In)).
    rewrite forallb_forall in Hx. specialize (Hx c2 ltac:(by apply list_elem_of_In)).
    rewrite (bool_decide_true _ Hh) in Hx. by apply bool_decide_eq_true in Hx. }
  exists pre, cs, ps, cs', ps'. split.
  - constructor; [|constructor; [|constructor]].
    + apply (demo_publication_ok 7 pre cs ps r1 Epre E1). intros c1 c2 H1 H2.
      apply Hn; apply elem_of_app; by left.
    + apply (demo_publication_ok 99 pre cs' ps' r2 Epre E2). intros c1 c2 H1 H2.
      apply Hn; apply elem_of_app; by right.
  - split; [|exact Hup]. unfold pack_ids. cbn [map concat demo_publication pub_packs]. by rewrite app_nil_r.
Qed.

