(* ===== verification/Users.v ===== *)
(** [passkey-core/src/paths]: the username rules, the platform's directories, and
    the paths under the configuration directory that go through the rules. *)

From S2P Require Import Prelude Bytes Utf8 Interfaces Toy Fs PasskeyError.

Definition MAX_USERNAME_LEN : Z := 39.
Definition RESERVED_USER_DIR_NAMES : list bytes := [b "_pending_new"].
Definition WINDOWS_DEVICE_NAMES : list bytes :=
  map b ["CON"; "PRN"; "AUX"; "NUL";
    "COM0"; "COM1"; "COM2"; "COM3"; "COM4"; "COM5"; "COM6"; "COM7"; "COM8"; "COM9";
    "LPT0"; "LPT1"; "LPT2"; "LPT3"; "LPT4"; "LPT5"; "LPT6"; "LPT7"; "LPT8"; "LPT9"]%string.

(** On bytes: a byte of a non-ASCII character is neither alphanumeric nor a dash. *)
Definition validate_username (name : bytes) : result PasskeyError unit :=
  if bool_decide (name = []) then Err (Other "invalid username {:?}: empty")
  else if Zlen name >? MAX_USERNAME_LEN
  then Err (Other "invalid username {:?}: longer than 39 characters")
  else if negb (forallb (fun c => is_ascii_alphanumeric c || bool_decide (c = DASH)) name)
  then Err (Other "invalid username {:?}: only ASCII letters, digits and '-' are allowed")
  else if starts_with [DASH] name || ends_with [DASH] name
  then Err (Other "invalid username {:?}: must start and end with a letter or digit")
  else if contains_sub (b "--") name then Err (Other "invalid username {:?}: consecutive dashes")
  else if existsb (fun d => eq_ignore_ascii_case d name) WINDOWS_DEVICE_NAMES
  then Err (Other "invalid username {:?}: a reserved device name")
  else Ok tt.

Definition is_valid_username (name : bytes) : bool := is_ok (validate_username name).

Definition validate_user_dir_name (name : bytes) : result PasskeyError unit :=
  if bool_decide (name ∈ RESERVED_USER_DIR_NAMES) then Ok tt
  else validate_username name.

Definition is_valid_user_dir_name (name : bytes) : bool := is_ok (validate_user_dir_name name).

Record JwtConfig : Type := {
  secret : bytes;
  access_token_expiry_secs : Z;
  refresh_token_expiry_secs : Z;
}.

Record PasskeyConfig : Type := {
  app_name : bytes;
  machine_id_prefix : bytes;
  config_dir_override : option path;
  jwt_config : option JwtConfig;
}.

Definition gitcellar : PasskeyConfig :=
  {| app_name := b "gitcellar"; machine_id_prefix := b "gcm"; config_dir_override := None;
     jwt_config := None |}.

Definition with_machine_id_prefix (c : PasskeyConfig) (prefix : bytes) : PasskeyConfig :=
  {| app_name := app_name c; machine_id_prefix := prefix;
     config_dir_override := config_dir_override c; jwt_config := jwt_config c |}.

Definition with_config_dir (c : PasskeyConfig) (p : path) : PasskeyConfig :=
  {| app_name := app_name c; machine_id_prefix := machine_id_prefix c;
     config_dir_override := Some p; jwt_config := jwt_config c |}.

Definition with_jwt_config (c : PasskeyConfig) (j : JwtConfig) : PasskeyConfig :=
  {| app_name := app_name c; machine_id_prefix := machine_id_prefix c;
     config_dir_override := config_dir_override c; jwt_config := Some j |}.

(** [PasskeyConfig::new] *)
Definition passkey_config_new `{UnicodeOps} (app : bytes) : PasskeyConfig :=
  {| app_name := app; machine_id_prefix := str_to_lowercase (concat (take 3 (chars app)));
     config_dir_override := None; jwt_config := None |}.

(** [JwtConfig::new] and [JwtConfig::with_secret] *)
Definition jwt_config_new (key : bytes) (access_expiry_secs refresh_expiry_secs : Z) : JwtConfig :=
  {| secret := key; access_token_expiry_secs := access_expiry_secs;
     refresh_token_expiry_secs := refresh_expiry_secs |}.
Definition jwt_config_with_secret (key : bytes) : JwtConfig :=
  jwt_config_new key 3600 (30 * 24 * 3600).

(** The platform: its kind, the environment, the directories the [dirs] crate
    names, how a path string is read (a relative one from the working
    directory), the host's name, and what a path resolves to once its links are
    followed ([None] if it does not exist). *)
Class Platform : Type := {
  cfg_windows : bool;
  env_var : bytes -> option bytes;
  dirs_config_dir : option path;
  dirs_data_dir : option path;
  dirs_data_local_dir : option path;
  dirs_home_dir : option path;
  path_from : bytes -> path;
  os_name : bytes;
  hostname_get : option bytes;
  canonicalize : fs -> path -> option path;
}.

Section PlatformDirs.
  Context `{Platform}.

Definition or_else {A} (o p : option A) : option A := match o with Some _ => o | None => p end.

Definition platform_config_dir (app : bytes) : path :=
  path_join
    (if cfg_windows
     then default (path_from (b ".")) (or_else (path_from <$> env_var (b "APPDATA")) dirs_data_dir)
     else default (path_from (b "."))
            (or_else dirs_config_dir ((fun h => path_join h (b ".config")) <$> dirs_home_dir)))
    app.

Definition platform_data_dir (app : bytes) : path :=
  path_join
    (if cfg_windows
     then default (path_from (b ".")) (or_else (path_from <$> env_var (b "LOCALAPPDATA")) dirs_data_local_dir)
     else default (path_from (b "."))
            (or_else dirs_data_dir
               ((fun h => path_join (path_join h (b ".local")) (b "share")) <$> dirs_home_dir)))
    app.

Definition platform_name : bytes := os_name.

Definition hostname : bytes :=
  match hostname_get with Some h => from_utf8_lossy h | None => b "unknown" end.

(** An application's directories are its own: its name under the platform's. *)
Lemma platform_dirs_app app :
  components app = [app] -> starts_with [SLASH] app = false ->
  last (platform_config_dir app) = Some app /\ last (platform_data_dir app) = Some app.
Proof.
  intros Hc Hs. unfold platform_config_dir, platform_data_dir.
  unfold path_join at 1 3. rewrite Hs, Hc. by rewrite !last_snoc.
Qed.
End PlatformDirs.

(** A platform without symbolic links. *)
Class NoLinks `{Platform} : Prop := {
  canonicalize_plain f p : canonicalize f p = if exists_ f p then Some p else None;
}.

Section Paths.
  Context `{Platform}.
  Implicit Types c : PasskeyConfig.

Definition config_dir c : path :=
  match config_dir_override c with
  | Some p => p
  | None => platform_config_dir (app_name c)
  end.

Definition users_dir c : path := config_dir c ++ [b "users"].

Definition user_dir c (username : bytes) : path := path_join (users_dir c) username.

Definition escape : PasskeyError :=
  Other "invalid username {:?}: the user directory would fall outside users/".

(** The resolved check is done only when both paths exist. *)
Definition checked_user_dir c (f : fs) (username : bytes) : result PasskeyError path :=
  let? _ := validate_user_dir_name username in
  let ud := users_dir c in
  let dir := path_join ud username in
  let? rest := ok_or (strip_prefix ud dir) escape in
  match rest with
  | [x] =>
      if bool_decide (x = username) && negb (bool_decide (x = b "..")) then
        match canonicalize f ud, canonicalize f dir with
        | Some base, Some real =>
            if bool_decide (parent real = Some base) then Ok dir else Err escape
        | _, _ => Ok dir
        end
      else Err escape
  | _ => Err escape
  end.

Definition checked_identity_dir c (f : fs) (username : bytes) : result PasskeyError path :=
  let? d := checked_user_dir c f username in
  Ok (d ++ [b "identity"]).

(** The unchecked forms. *)
Definition user_data_path c (username subpath : bytes) : path := path_join (user_dir c username) subpath.
Definition identity_dir c (username : bytes) : path := user_data_path c username (b "identity").
Definition user_info_path c (username : bytes) : path := user_data_path c username (b "user_info.json").

Definition active_user_path c : path := config_dir c ++ [b "active_user"].
Definition machine_id_path c : path := config_dir c ++ [b "machine_id"].
End Paths.

(** ** Lemmas *)

(** A byte of a username. *)
Definition name_byte (c : byte) : bool := is_ascii_alphanumeric c || bool_decide (c = DASH).

Lemma name_byte_plain c :
  name_byte c = true -> c <> SLASH /\ c <> NUL /\ c <> Byte.x2e /\ u8 c < 128.
Proof.
  pose proof (byte_forall (fun c => negb (name_byte c) ||
    bool_decide (c <> SLASH /\ c <> NUL /\ c <> Byte.x2e /\ u8 c < 128)) eq_refl c) as E.
  cbn beta in E. intros Hc. rewrite Hc in E. by apply bool_decide_eq_true in E.
Qed.

(** The account rule, as a grammar: alphanumeric words joined by single dashes. *)
Record username_rule (name : bytes) : Prop := {
  ur_words : exists words, words <> [] /\
    Forall (fun w => w <> [] /\ Forall (fun c => is_ascii_alphanumeric c = true) w) words /\
    name = join [DASH] words;
  ur_length : Zlen name <= MAX_USERNAME_LEN;
  ur_device : Forall (fun d => eq_ignore_ascii_case d name = false) WINDOWS_DEVICE_NAMES;
}.

Lemma ends_with_true (p s : bytes) : ends_with p s = true <-> exists r, s = r ++ p.
Proof.
  unfold ends_with. rewrite starts_with_true. split; intros [r E].
  - exists (rev r). rewrite <- (rev_involutive s), E, rev_app_distr. by rewrite rev_involutive.
  - exists (rev r). by rewrite E, rev_app_distr.
Qed.

Lemma join_app c l k :
  l <> [] -> k <> [] -> join [c] (l ++ k) = join [c] l ++ [c] ++ join [c] k.
Proof.
  intros Hl Hk. induction l as [|p l IH]; [done|]. destruct l as [|q l].
  - cbn [app]. destruct k; [done|]. done.
  - change (join [c] ((p :: q :: l) ++ k)) with (p ++ [c] ++ join [c] ((q :: l) ++ k)).
    rewrite IH by done. change (join [c] (p :: q :: l)) with (p ++ [c] ++ join [c] (q :: l)).
    by rewrite <- !app_assoc.
Qed.

(** Dashes at an end or doubled are what an empty word between dashes is. *)
Lemma empty_word_dash words :
  [] ∈ words -> words <> [[]] ->
  let s := join [DASH] words in
  starts_with [DASH] s = true \/ ends_with [DASH] s = true \/ contains_sub (b "--") s = true.
Proof.
  intros (l & k & ->)%list_elem_of_split Hne. destruct l as [|p l].
  - left. destruct k as [|q k]; [done|]. apply starts_with_true. by exists (join [DASH] (q :: k)).
  - right. rewrite join_app by done. destruct k as [|q k].
    + left. apply ends_with_true. by exists (join [DASH] (p :: l)).
    + right. apply contains_sub_true. by exists (join [DASH] (p :: l)), (join [DASH] (q :: k)).
Qed.

Lemma join_elems c words x : x ∈ join [c] words -> x = c \/ exists w, w ∈ words /\ x ∈ w.
Proof.
  induction words as [|p [|q ws] IH]; intros Hx; [by apply elem_of_nil in Hx| |].
  - right. exists p. split; [left|done].
  - change (join [c] (p :: q :: ws)) with (p ++ [c] ++ join [c] (q :: ws)) in Hx.
    apply elem_of_app in Hx as [Hx|[Hx|Hx]%elem_of_app].
    + right. exists p. split; [left|done].
    + left. by apply list_elem_of_singleton in Hx.
    + destruct (IH Hx) as [?|(w & Hw & ?)]; [by left|]. right. exists w. split; [by right|done].
Qed.

Lemma alnum_not_dash c : is_ascii_alphanumeric c = true -> c <> DASH.
Proof. by intros Hc ->. Qed.

(** A joined list of non-empty words starts with a word's first character. *)
Lemma join_first (c : byte) (ws : list bytes) :
  ws <> [] -> Forall (fun w => w <> []) ws ->
  exists x r, join [c] ws = x :: r /\ exists w, w ∈ ws /\ x ∈ w.
Proof.
  intros Hne Hf. destruct ws as [|w ws]; [done|]. apply Forall_cons in Hf as [Hw0 _].
  destruct w as [|x w]; [done|]. destruct ws as [|q ws].
  - exists x, w. split; [done|]. exists (x :: w). split; left.
  - exists x, (w ++ [c] ++ join [c] (q :: ws)). split; [done|]. exists (x :: w). split; left.
Qed.

(** It ends with a word's last character. *)
Lemma join_last (c : byte) (ws : list bytes) :
  ws <> [] -> Forall (fun w => w <> []) ws ->
  exists r x, join [c] ws = r ++ [x] /\ exists w, w ∈ ws /\ x ∈ w.
Proof.
  intros Hne Hf. destruct (exists_last Hne) as (l & q & ->).
  assert (Hq : q ∈ l ++ [q]) by (apply elem_of_app; right; left).
  rewrite Forall_forall in Hf. destruct (exists_last (Hf q Hq)) as (q' & y & ->).
  assert (Hy : y ∈ q' ++ [y]) by (apply elem_of_app; right; left).
  destruct l as [|p l]; [by exists q', y; eauto|].
  exists (join [c] (p :: l) ++ [c] ++ q'), y. rewrite join_app by done. cbn [join].
  split; [by rewrite <- !app_assoc | eauto].
Qed.

(** A separator in [p ++ u] lies in [u] when [p] has none. *)
Lemma sep_after (c : byte) (p u l v : bytes) :
  c ∉ p -> p ++ u = l ++ c :: v -> exists l', l = p ++ l' /\ u = l' ++ c :: v.
Proof.
  revert l. induction p as [|y p IH]; intros l Hp E; [by exists l|].
  apply not_elem_of_cons in Hp as [Hy Hp]. destruct l as [|z l].
  - injection E as -> _. done.
  - injection E as -> E. destruct (IH l Hp E) as (l' & -> & ->). by exists l'.
Qed.

(** No two separators are adjacent in it. *)
Lemma join_no_double (c : byte) (ws : list bytes) l r :
  Forall (fun w => w <> [] /\ c ∉ w) ws -> join [c] ws <> l ++ c :: c :: r.
Proof.
  revert l. induction ws as [|p ws IH]; intros l Hw E; [by destruct l|].
  apply Forall_cons in Hw as [[_ Hp] Hw]. destruct ws as [|q ws].
  - change (join [c] [p]) with p in E. rewrite <- (app_nil_r p) in E.
    apply sep_after in E as (l' & _ & E); [|done]. by destruct l'.
  - change (join [c] (p :: q :: ws)) with (p ++ [c] ++ join [c] (q :: ws)) in E.
    apply sep_after in E as (l' & -> & E); [|done]. destruct l' as [|z l'].
    + destruct (join_first c (q :: ws)) as (y & r2 & Ey & w & Hin & Hyw); [done| |].
      { eapply Forall_impl; [exact Hw|]. by intros ? [? _]. }
      rewrite Ey in E. injection E as -> _. rewrite Forall_forall in Hw.
      by destruct (Hw w Hin).
    + injection E as _ E. by apply (IH l' Hw).
Qed.

(** Words of letters and digits: no dash at an end, none doubled. *)
Lemma words_no_stray words :
  words <> [] ->
  Forall (fun w => w <> [] /\ Forall (fun c => is_ascii_alphanumeric c = true) w) words ->
  let s := join [DASH] words in
  s <> [] /\ starts_with [DASH] s = false /\ ends_with [DASH] s = false /\
  contains_sub (b "--") s = false /\ forallb name_byte s = true.
Proof.
  intros Hne Hw. cbn zeta.
  assert (Hnd : forall w x, w ∈ words -> x ∈ w -> is_ascii_alphanumeric x = true).
  { intros w x Hin Hx. rewrite Forall_forall in Hw. destruct (Hw w Hin) as [_ Hf].
    rewrite Forall_forall in Hf. auto. }
  assert (Hne' : Forall (fun w : bytes => w <> []) words)
    by (eapply Forall_impl; [exact Hw|]; by intros w [? _]).
  destruct (join_first DASH words Hne Hne') as (x & r & E & w & Hin & Hx).
  split; [by rewrite E|]. split; [|split; [|split]].
  - apply not_true_is_false. intros (r' & E')%starts_with_true. rewrite E in E'.
    injection E' as -> _. by apply Hnd in Hx.
  - apply not_true_is_false. intros (r' & E')%ends_with_true.
    destruct (join_last DASH words Hne Hne') as (r2 & y & Ey & w2 & Hin2 & Hy).
    rewrite Ey in E'. apply app_inj_tail in E' as [_ ->]. by apply Hnd in Hy.
  - apply not_true_is_false. intros (l & r' & E')%contains_sub_true.
    apply (join_no_double DASH words l r'); [|exact E'].
    apply Forall_forall. intros w' Hw'. rewrite Forall_forall in Hne'. split; [auto|].
    intros Hd. by apply (Hnd w') in Hd.
  - apply forallb_forall. intros c Hc%list_elem_of_In. unfold name_byte.
    apply join_elems in Hc as [->|(w' & Hw' & Hc)]; [done|]. by rewrite (Hnd w' c Hw' Hc).
Qed.

Lemma validate_username_ok name : validate_username name = Ok tt <-> username_rule name.
Proof.
  unfold validate_username. split.
  - case_bool_decide as H0; [done|]. rewrite Z.gtb_ltb.
    destruct (Z.ltb_spec MAX_USERNAME_LEN (Zlen name)) as [|Hl]; [done|].
    destruct (forallb _ name) eqn:Hf; cbn [negb]; [|done].
    destruct (starts_with [DASH] name) eqn:Hs; [done|].
    destruct (ends_with [DASH] name) eqn:He; [done|]. cbn [orb].
    destruct (contains_sub (b "--") name) eqn:Hc; [done|].
    destruct (existsb _ WINDOWS_DEVICE_NAMES) eqn:Hd; [done|]. intros _. split; [|done|].
    + exists (split_on DASH name). split; [apply split_on_ne|].
      split; [|by rewrite join_split].
      pose proof (split_on_parts DASH name) as Hp. pose proof (split_on_elems DASH name) as Hel.
      rewrite Forall_forall in Hp, Hel. apply Forall_forall. intros w Hw. split.
      * intros ->. assert (Hne : split_on DASH name <> [[]])
          by (intros E; apply H0; by rewrite <- (join_split DASH name), E).
        pose proof (empty_word_dash _ Hw Hne) as Hx. cbn zeta in Hx.
        rewrite join_split in Hx. destruct Hx as [?|[?|?]]; congruence.
      * apply Forall_forall. intros x Hx. rewrite forallb_forall in Hf.
        pose proof (Hf x ltac:(apply list_elem_of_In, (Hel w Hw x Hx))) as Hb. cbn in Hb.
        apply orb_true_iff in Hb as [|Hb]; [done|]. apply bool_decide_eq_true in Hb as ->.
        by apply Hp in Hw.
    + apply Forall_forall. intros d Hin. apply not_true_is_false. intros Ht.
      apply not_true_iff_false in Hd. apply Hd. apply existsb_exists. exists d.
      split; [by apply list_elem_of_In | done].
  - intros [(words & Hne & Hw & ->) Hl Hd].
    destruct (words_no_stray words Hne Hw) as (H0 & Hs & He & Hc & Hf).
    rewrite bool_decide_false by done. rewrite Z.gtb_ltb.
    replace (MAX_USERNAME_LEN <? _) with false by (symmetry; by apply Z.ltb_ge).
    unfold name_byte in Hf. rewrite Hf, Hs, He, Hc. cbn [negb orb].
    destruct (existsb _ WINDOWS_DEVICE_NAMES) eqn:Ht; [|done].
    apply existsb_exists in Ht as (d & Hin & Ht). rewrite Forall_forall in Hd.
    apply list_elem_of_In, Hd in Hin. congruence.
Qed.

(** A directory name the rules accept is one plain path component. *)
Lemma valid_dir_name_plain name :
  validate_user_dir_name name = Ok tt ->
  name <> [] /\ (SLASH ∉ name) /\ (Byte.x2e ∉ name) /\ (NUL ∉ name) /\
  Forall (fun c => u8 c < 128) name /\ components name = [name] /\ starts_with [SLASH] name = false.
Proof.
  intros Hv.
  assert (Hch : name <> [] /\ Forall (fun c => c <> SLASH /\ c <> NUL /\ c <> Byte.x2e /\ u8 c < 128) name).
  { unfold validate_user_dir_name in Hv. case_bool_decide as Hr.
    - apply elem_of_cons in Hr as [->|Hr]; [|by apply elem_of_nil in Hr]. split; [done|]. by_eval.
    - apply validate_username_ok in Hv as [(words & Hne & Hw & ->) _ _].
      destruct (words_no_stray words Hne Hw) as (H0 & _ & _ & _ & Hf). split; [done|].
      apply Forall_forall. intros c Hc%list_elem_of_In. rewrite forallb_forall in Hf.
      by apply name_byte_plain, Hf. }
  destruct Hch as [H0 Hch]. rewrite Forall_forall in Hch.
  assert (Hs : SLASH ∉ name) by (intros Hc; by apply Hch in Hc as (? & _)).
  assert (Hd : Byte.x2e ∉ name) by (intros Hc; by apply Hch in Hc as (_ & _ & ? & _)).
  split; [done|]. split; [done|]. split; [done|].
  split; [intros Hc; by apply Hch in Hc as (_ & ? & _)|].
  split; [apply Forall_forall; intros c Hc; by apply Hch in Hc as (_ & _ & _ & ?)|]. split.
  - unfold components. replace (split_on SLASH name) with [name].
    + rewrite filter_cons_True; [done|]. split; [done|]. intros ->. apply Hd. by left.
    + clear -Hs. induction name as [|x s IH]; [done|]. apply not_elem_of_cons in Hs as [Hx Hs].
      cbn. rewrite decide_False by done. by rewrite <- IH.
  - apply not_true_is_false. intros (r & ->)%starts_with_true. apply Hs. left.
Qed.

(** ** Properties *)

(** The account-name rule: a name is valid exactly when it consists of
    non-empty words of ASCII letters and digits joined by single dashes, is at
    most 39 bytes long, and is not a Windows device name in any letter case. *)
Theorem is_valid_username_iff name : is_valid_username name = true <-> username_rule name.
Proof.
  unfold is_valid_username. rewrite <- validate_username_ok, is_ok_true.
  split; [by intros [[] E] | eauto].
Qed.

Section Checked.
  Context `{Platform}.

Lemma checked_user_dir_iff c f name dir :
  checked_user_dir c f name = Ok dir <->
  validate_user_dir_name name = Ok tt /\ dir = users_dir c ++ [name] /\
  (forall base real, canonicalize f (users_dir c) = Some base -> canonicalize f dir = Some real ->
     parent real = Some base).
Proof.
  unfold checked_user_dir. destruct (validate_user_dir_name name) as [[]|e] eqn:Hv; cbn [rbind].
  2:{ split; [done | by intros [? _]]. }
  destruct (valid_dir_name_plain name Hv) as (_ & _ & Hd & _ & _ & Hc & Hs).
  assert (Ej : path_join (users_dir c) name = users_dir c ++ [name])
    by (unfold path_join; by rewrite Hs, Hc).
  rewrite Ej.
  assert (Ep : strip_prefix (users_dir c) (users_dir c ++ [name]) = Some [name])
    by by apply strip_prefix_Some.
  rewrite Ep. cbn [ok_or rbind]. rewrite bool_decide_true by done.
  rewrite bool_decide_false by (intros ->; apply Hd; by left). cbn [negb andb].
  destruct (canonicalize f (users_dir c)) as [base|] eqn:Eb.
  - destruct (canonicalize f (users_dir c ++ [name])) as [real|] eqn:Er.
    + case_bool_decide as Hp; split.
      * intros [= <-]. rewrite Er. split; [done|]. split; [done|].
        by intros ? ? [= <-] [= <-].
      * by intros (_ & -> & _).
      * done.
      * intros (_ & -> & Hall). exfalso. by apply Hp, Hall.
    + split; [intros [= <-] | by intros (_ & -> & _)].
      split; [done|]. split; [done|]. intros ? ? _ E. by rewrite Er in E.
  - split; [intros [= <-] | by intros (_ & -> & _)].
    split; [done|]. split; [done|]. by intros ? ? E.
Qed.

(** A directory that [checked_user_dir] hands out is the user's own: one
    component below the users directory, with the name that was asked for,
    which is neither empty nor [..] and holds no separator, no dot and no NUL;
    distinct names get distinct directories; a traversal or absolute name is
    refused before the file system is consulted; and where the platform resolves
    links, the directory still resolves into the resolved users directory. *)
Theorem checked_user_dir_contained c f name dir :
  checked_user_dir c f name = Ok dir ->
  parent dir = Some (users_dir c) /\ last dir = Some name /\
  name <> [] /\ (SLASH ∉ name) /\ (Byte.x2e ∉ name) /\ (NUL ∉ name) /\
  dir = user_dir c name /\
  (forall f' name', checked_user_dir c f' name' = Ok dir -> name' = name) /\
  (forall base real, canonicalize f (users_dir c) = Some base -> canonicalize f dir = Some real ->
     parent real = Some base).
Proof.
  intros Hd. apply checked_user_dir_iff in Hd as (Hv & -> & Hcan).
  destruct (valid_dir_name_plain name Hv) as (H0 & Hs & Hdot & Hn & _ & Hc & Hst).
  split; [apply parent_snoc|]. split; [by rewrite last_snoc|].
  split; [done|]. split; [done|]. split; [done|]. split; [done|]. split; [|split; [|done]].
  - unfold user_dir, path_join. by rewrite Hst, Hc.
  - intros f' name' (_ & E & _)%checked_user_dir_iff. by apply app_inj_tail in E as [_ ?].
Qed.

(** For a name the checked form accepts, the unchecked forms name the same
    directory. *)
Lemma unchecked_is_checked c f name d sub :
  checked_user_dir c f name = Ok d -> starts_with [SLASH] sub = false ->
  user_dir c name = d /\ user_data_path c name sub = d ++ components sub.
Proof.
  intros (Hv & -> & _)%checked_user_dir_iff Hs.
  destruct (valid_dir_name_plain name Hv) as (_ & _ & _ & _ & _ & Hc & Hst).
  assert (E : user_dir c name = users_dir c ++ [name]) by (unfold user_dir, path_join; by rewrite Hst, Hc).
  split; [done|]. unfold user_data_path. rewrite E. unfold path_join. by rewrite Hs.
Qed.
End Checked.

#[export] Instance plain_platform : Platform := {|
  cfg_windows := false;
  env_var _ := None;
  dirs_config_dir := Some [b "home"; b ".config"];
  dirs_data_dir := Some [b "home"; b ".local"; b "share"];
  dirs_data_local_dir := None;
  dirs_home_dir := Some [b "home"];
  path_from := components;
  os_name := b "linux";
  hostname_get := Some (b "host");
  canonicalize f p := if exists_ f p then Some p else None;
|}.

#[export] Instance plain_no_links : NoLinks.
Proof. by split. Qed.

Lemma checked_user_dir_contained_witness :
  parent (users_dir gitcellar ++ [b "alice-2"]) = Some (users_dir gitcellar).
Proof.
  refine (proj1 (checked_user_dir_contained gitcellar ∅ (b "alice-2")
    (users_dir gitcellar ++ [b "alice-2"]) _)).
  by vm_compute.
Defined.
