(* ===== verification/MultiUser.v ===== *)
(** [passkey-core/src/multi_user]: the users of an installation, the active-user
    pointer, and the identity state machine evaluated over the file system.

    Each operation is a function of the configuration and the file system, and
    an operation that writes returns the file system it leaves. *)

From S2P Require Import Prelude Bytes Utf8 Interfaces Toy Fs PasskeyError Users.

Record UserInfo : Type := {
  email : bytes;
  username : bytes;
  machine_id : bytes;
  user_id : bytes;
}.

(** [?] on an I/O result, keeping the file system of the step before. *)
Definition io_then {A} (m : io fs) (f : fs) (k : fs -> result PasskeyError A * fs)
    : result PasskeyError A * fs :=
  match m with Ok f' => k f' | Err e => (Err (Io e), f) end.

(** [std::fs::read_to_string]: bytes that are not UTF-8 are an error. *)
Definition read_to_string (f : fs) (p : path) : io bytes :=
  let? c := fs_read f p in ok_or (from_utf8 c) OtherIo.

Section Users.
  Context `{Platform} `{Codec UserInfo}.
  Implicit Types (c : PasskeyConfig) (f : fs).

Definition dir_entries f (d : path) : list bytes :=
  match read_dir f d with
  | Ok entries => List.filter (fun n => is_dir f (d ++ [n])) entries
  | Err _ => []
  end.

Definition is_multi_user c f : bool :=
  let ud := users_dir c in
  if negb (exists_ f ud) then false
  else match dir_entries f ud with [] => false | _ => true end.

Definition get_active_user c f : option bytes :=
  let p := active_user_path c in
  if negb (exists_ f p) then None
  else
    match read_to_string f p with
    | Err _ => None
    | Ok s => let s := trim s in if bool_decide (s = []) then None else Some s
    end.

Definition create_parent f (p : path) : io fs :=
  match parent p with Some d => create_dir_all f d | None => Ok f end.

Definition set_active_user c f (name : bytes) : result PasskeyError unit * fs :=
  match validate_user_dir_name name with
  | Err e => (Err e, f)
  | Ok _ =>
      let p := active_user_path c in
      io_then (create_parent f p) f (fun f =>
      io_then (fs_write f p name) f (fun f => (Ok tt, f)))
  end.

Definition clear_active_user c f : result PasskeyError unit * fs :=
  let p := active_user_path c in
  if exists_ f p then io_then (remove_file f p) f (fun f => (Ok tt, f)) else (Ok tt, f).

Definition list_users c f : list bytes :=
  let ud := users_dir c in
  if negb (exists_ f ud) then []
  else sort_strings (List.filter valid_utf8 (dir_entries f ud)).

Definition get_user_info c f (name : bytes) : option UserInfo :=
  match checked_user_dir c f name with
  | Err _ => None
  | Ok d =>
      let p := d ++ [b "user_info.json"] in
      if negb (exists_ f p) then None
      else match read_to_string f p with Ok s => de s | Err _ => None end
  end.

Definition save_user_info c f (name : bytes) (info : UserInfo) : result PasskeyError unit * fs :=
  match checked_user_dir c f name with
  | Err e => (Err e, f)
  | Ok d =>
      let p := d ++ [b "user_info.json"] in
      io_then (create_parent f p) f (fun f =>
      match ser info with
      | None => (Err (Other "Failed to serialize user info: {}"), f)
      | Some content => io_then (fs_write f p content) f (fun f => (Ok tt, f))
      end)
  end.

Definition get_current_user_info c f : option UserInfo :=
  match get_active_user c f with
  | None => None
  | Some name => get_user_info c f name
  end.

Definition create_user c f (name : bytes) : result PasskeyError unit * fs :=
  match checked_user_dir c f name with
  | Err e => (Err e, f)
  | Ok d => io_then (create_dir_all f (d ++ [b "identity"])) f (fun f => (Ok tt, f))
  end.

Definition delete_user c f (name : bytes) : result PasskeyError unit * fs :=
  match checked_user_dir c f name with
  | Err e => (Err e, f)
  | Ok d =>
      io_then (if exists_ f d then remove_dir_all f d else Ok f) f (fun f =>
      if bool_decide (get_active_user c f = Some name) then clear_active_user c f
      else (Ok tt, f))
  end.

Definition user_exists c f (name : bytes) : bool :=
  match checked_user_dir c f name with Ok d => exists_ f d | Err _ => false end.

Definition user_has_identity c f (name : bytes) : bool :=
  match checked_identity_dir c f name with
  | Ok d => exists_ f (d ++ [b "secret.pgp"])
  | Err _ => false
  end.
End Users.

(** ** The state machine *)

Inductive IdentityState : Type :=
  | NoIdentity
  | Ready (username : bytes)
  | ReadyMultiUser (active_user : bytes) (users : list bytes)
  | NeedsUserSelection (users : list bytes)
  | ActiveUserMissing (claimed : bytes) (available : list bytes)
  | Corrupted (reason : string).

#[export] Instance IdentityState_eq_dec : EqDecision IdentityState.
Proof. solve_decision. Defined.

Definition is_ready (s : IdentityState) : bool :=
  match s with Ready _ | ReadyMultiUser _ _ => true | _ => false end.

Definition needs_action (s : IdentityState) : bool :=
  match s with
  | NoIdentity | NeedsUserSelection _ | ActiveUserMissing _ _ | Corrupted _ => true
  | _ => false
  end.

Definition active_username (s : IdentityState) : option bytes :=
  match s with
  | Ready u => Some u
  | ReadyMultiUser u _ => Some u
  | _ => None
  end.

Definition available_users (s : IdentityState) : list bytes :=
  match s with
  | Ready u => [u]
  | ReadyMultiUser _ us => us
  | NeedsUserSelection us => us
  | ActiveUserMissing _ us => us
  | _ => []
  end.

Section StateMachine.
  Context `{Platform}.
  Implicit Types (c : PasskeyConfig) (f : fs).

Definition users_with_identity c f : list bytes :=
  List.filter (user_has_identity c f) (list_users c f).

Definition evaluate_state c f : IdentityState :=
  let users := users_with_identity c f in
  if bool_decide (users = []) then NoIdentity
  else
    match get_active_user c f with
    | None => NeedsUserSelection users
    | Some username =>
        if bool_decide (username ∈ users) then
          if (length users =? 1)%nat then Ready username else ReadyMultiUser username users
        else ActiveUserMissing username users
    end.

Definition repair_state c f : result PasskeyError IdentityState * fs :=
  let state := evaluate_state c f in
  let select u :=
    let '(r, f) := set_active_user c f u in
    (let? _ := r in Ok (Ready u), f) in
  match state with
  | NeedsUserSelection [u] => select u
  | ActiveUserMissing _ [u] => select u
  | ActiveUserMissing _ (u :: us) => (Ok (NeedsUserSelection (u :: us)), f)
  | _ => (Ok state, f)
  end.
End StateMachine.

(** ** Lemmas *)

Lemma insert_sorted_perm s l : insert_sorted s l ≡ₚ s :: l.
Proof.
  induction l as [|t l IH]; cbn; [done|]. destruct (bytes_leb s t); [done|].
  rewrite IH. apply Permutation_swap.
Qed.

Lemma sort_strings_perm l : sort_strings l ≡ₚ l.
Proof. induction l as [|s l IH]; cbn; [done|]. by rewrite insert_sorted_perm, IH. Qed.

(** A directory name survives being written to a pointer file and trimmed. *)
Lemma trim_valid name : validate_user_dir_name name = Ok tt -> trim name = name.
Proof.
  intros Hv. pose proof (valid_dir_name_plain name Hv) as (_ & _ & _ & _ & Ha & _).
  assert (Hw : Forall (fun c => is_whitespace (u8 c) = false) name).
  { unfold validate_user_dir_name in Hv. case_bool_decide as Hr.
    - apply elem_of_cons in Hr as [->|Hr]; [|by apply elem_of_nil in Hr]. by_eval.
    - apply validate_username_ok in Hv as [(words & Hne & Hw & ->) _ _].
      destruct (words_no_stray words Hne Hw) as (_ & _ & _ & _ & Hf).
      apply Forall_forall. intros x Hx%list_elem_of_In. rewrite forallb_forall in Hf.
      apply Hf in Hx. pose proof (byte_forall (fun c => negb (name_byte c) ||
        negb (is_whitespace (u8 c))) eq_refl x) as E. cbn beta in E. rewrite Hx in E.
      by apply negb_true_iff in E. }
  by apply trim_ascii.
Qed.

Lemma io_then_ok {A} (m : io fs) f (k : fs -> result PasskeyError A * fs) r f' :
  io_then m f k = (r, f') ->
  (exists f1, m = Ok f1 /\ k f1 = (r, f')) \/ (exists e, m = Err e /\ r = Err (Io e) /\ f' = f).
Proof. unfold io_then. destruct m as [f1|e]; [eauto|]. intros [= <- <-]. eauto. Qed.

(** [create_dir_all] leaves everything but the path's own prefixes alone. *)
Lemma create_dir_all_frame f p f' q :
  create_dir_all f p = Ok f' -> q ∉ prefixes p -> node_at f' q = node_at f q.
Proof.
  intros E Hq. unfold create_dir_all in E.
  destruct (mkdirs_ok _ _ _ (prefixes_ne p) E) as [_ H2].
  by destruct (H2 q) as [?|(_ & ? & _)].
Qed.

Lemma prefixes_length p q : q ∈ prefixes p -> (length q <= length p)%nat.
Proof.
  unfold prefixes. intros (n & -> & _)%list_elem_of_fmap. rewrite length_take. lia.
Qed.

Lemma active_path_parent `{Platform} c : parent (active_user_path c) = Some (config_dir c).
Proof. apply parent_snoc. Qed.

Lemma exists_node f p : exists_ f p = true <-> is_Some (node_at f p).
Proof.
  unfold exists_. destruct (node_at f p); split; intros Hs; [by eexists | done | done | by destruct Hs].
Qed.

Section Lemmas.
  Context `{Platform}.
  Implicit Types (c : PasskeyConfig) (f : fs).

Lemma get_active_user_node c f f' :
  node_at f (active_user_path c) = node_at f' (active_user_path c) ->
  get_active_user c f = get_active_user c f'.
Proof. intros E. unfold get_active_user, read_to_string, exists_, fs_read. by rewrite E. Qed.

(** A stored pointer reads back. *)
Lemma get_active_user_written c f name :
  validate_user_dir_name name = Ok tt ->
  node_at f (active_user_path c) = Some (File name) -> get_active_user c f = Some name.
Proof.
  intros Hv Hn. pose proof (valid_dir_name_plain name Hv) as (H0 & _ & _ & _ & Ha & _).
  unfold get_active_user, read_to_string, exists_, fs_read, from_utf8. rewrite Hn.
  cbn [negb rbind]. rewrite valid_utf8_ascii by done. cbn [ok_or].
  rewrite trim_valid by done. by rewrite bool_decide_false.
Qed.

(** What [set_active_user] does, on every branch. *)
Lemma set_active_user_cases c f name r f' :
  set_active_user c f name = (r, f') ->
  (validate_user_dir_name name <> Ok tt /\ is_err r = true /\ f' = f) \/
  (validate_user_dir_name name = Ok tt /\
   (forall q, q <> active_user_path c -> q ∉ prefixes (config_dir c) -> node_at f' q = node_at f q) /\
   ((r = Ok tt /\ node_at f' (active_user_path c) = Some (File name)) \/
    (is_err r = true /\ node_at f' (active_user_path c) = node_at f (active_user_path c)))).
Proof.
  unfold set_active_user. destruct (validate_user_dir_name name) as [[]|e].
  2:{ intros [= <- <-]. by left. }
  intros E. right. split; [done|].
  assert (Hap : active_user_path c ∉ prefixes (config_dir c)).
  { intros Hin%prefixes_length. unfold active_user_path in Hin. rewrite length_app in Hin. cbn in Hin. lia. }
  unfold create_parent in E. rewrite active_path_parent in E.
  apply io_then_ok in E as [(f1 & E1 & E)|(e & _ & -> & ->)]; [|by (split; [|right])].
  pose proof (fun q => create_dir_all_frame _ _ _ q E1) as Hfr.
  apply io_then_ok in E as [(f2 & E2 & [= <- <-])|(e & _ & -> & ->)].
  - apply fs_write_ok in E2 as [Hne ->]. split.
    + intros q Hq Hp. rewrite node_at_insert_ne by done. by apply Hfr.
    + left. split; [done|]. by apply node_at_insert.
  - split; [intros q _ Hp; by apply Hfr|]. right. split; [done|]. by apply Hfr.
Qed.

Lemma identity_user_dir c f u :
  user_has_identity c f u = true -> validate_user_dir_name u = Ok tt.
Proof.
  unfold user_has_identity, checked_identity_dir.
  destruct (checked_user_dir c f u) as [d|e] eqn:E; [|done].
  by apply checked_user_dir_iff in E as [? _].
Qed.

Lemma users_with_identity_valid c f u :
  u ∈ users_with_identity c f -> validate_user_dir_name u = Ok tt.
Proof.
  intros Hu%list_elem_of_In. apply filter_In in Hu as [_ Hu]. by eapply identity_user_dir.
Qed.
End Lemmas.

(** *** What the users directory shows *)

Lemma child_of_Some d q n : child_of d q = Some n <-> q = d ++ [n].
Proof.
  unfold child_of. destruct (strip_prefix d q) as [r|] eqn:E.
  - apply strip_prefix_Some in E as ->. split.
    + destruct r as [|x [|]]; [done| |done]. by intros [= ->].
    + intros E. apply app_inv_head in E as ->. done.
  - split; [done|]. intros ->.
    assert (Hs : strip_prefix d (d ++ [n]) = Some [n]) by by apply strip_prefix_Some.
    congruence.
Qed.

Lemma dir_entries_elem f d n :
  n ∈ dir_entries f d <-> is_dir f d = true /\ is_dir f (d ++ [n]) = true.
Proof.
  unfold dir_entries, read_dir, is_dir at 2. destruct (node_at f d) as [[?| |]|];
    try (split; [by intros ?%elem_of_nil | by intros [? _]]).
  rewrite list_elem_of_In, filter_In, <- list_elem_of_In.
  rewrite list_elem_of_omap. split; [by intros [_ ?]|]. intros [_ Hd]. split; [|done].
  exists (d ++ [n]). split; [|by apply child_of_Some].
  unfold is_dir in Hd. rewrite node_at_ne in Hd by (by destruct d).
  destruct (f !! (d ++ [n])) as [x|] eqn:E; [|done].
  apply list_elem_of_fmap. exists (d ++ [n], x). split; [done|]. by apply elem_of_map_to_list.
Qed.

Lemma dir_entries_NoDup f d : NoDup (dir_entries f d).
Proof.
  unfold dir_entries, read_dir. destruct (node_at f d) as [[?| |]|]; try constructor.
  apply NoDup_ListNoDup, List.NoDup_filter, NoDup_ListNoDup.
  assert (Hg : forall ks : list path, NoDup ks -> NoDup (omap (child_of d) ks)).
  { induction ks as [|k ks IH]; intros Hnd; [constructor|].
    apply NoDup_cons in Hnd as [Hk Hnd]. cbn. destruct (child_of d k) as [n|] eqn:E; [|by apply IH].
    apply NoDup_cons. split; [|by apply IH].
    rewrite list_elem_of_omap. intros (k' & Hk' & E').
    apply child_of_Some in E, E'. congruence. }
  apply Hg, NoDup_fst_map_to_list.
Qed.

(** A user with an identity, as the file system has it. *)
Record identity_user `{Platform} (c : PasskeyConfig) (f : fs) (u : bytes) : Prop := {
  iu_name : validate_user_dir_name u = Ok tt;
  iu_users : is_dir f (users_dir c) = true;
  iu_dir : is_dir f (users_dir c ++ [u]) = true;
  iu_secret : exists_ f (users_dir c ++ [u; b "identity"; b "secret.pgp"]) = true;
}.

Section Spec.
  Context `{NoLinks}.
  Implicit Types (c : PasskeyConfig) (f : fs).

Lemma checked_user_dir_plain c f u :
  validate_user_dir_name u = Ok tt -> checked_user_dir c f u = Ok (users_dir c ++ [u]).
Proof.
  intros Hv. apply checked_user_dir_iff. split; [done|]. split; [done|].
  intros base real. rewrite !canonicalize_plain.
  destruct (exists_ f (users_dir c)); [|done]. destruct (exists_ f (users_dir c ++ [u])); [|done].
  intros [= <-] [= <-]. apply parent_snoc.
Qed.

Lemma user_has_identity_iff c f u :
  user_has_identity c f u = true <->
  validate_user_dir_name u = Ok tt /\
  exists_ f (users_dir c ++ [u; b "identity"; b "secret.pgp"]) = true.
Proof.
  split.
  - intros Hi. pose proof (identity_user_dir c f u Hi) as Hv. split; [done|].
    unfold user_has_identity, checked_identity_dir in Hi.
    rewrite checked_user_dir_plain in Hi by done. cbn [rbind] in Hi. by rewrite <- !app_assoc in Hi.
  - intros [Hv He]. unfold user_has_identity, checked_identity_dir.
    rewrite checked_user_dir_plain by done. cbn [rbind]. by rewrite <- !app_assoc.
Qed.

Lemma users_with_identity_elem c f u :
  u ∈ users_with_identity c f <-> identity_user c f u.
Proof.
  unfold users_with_identity, list_users. rewrite list_elem_of_In, filter_In, <- list_elem_of_In.
  rewrite user_has_identity_iff. split.
  - intros [Hl [Hv He]]. destruct (exists_ f (users_dir c)); [|by apply elem_of_nil in Hl].
    cbn [negb] in Hl. rewrite sort_strings_perm in Hl.
    apply list_elem_of_In, filter_In in Hl as [Hl _]. apply list_elem_of_In in Hl.
    apply dir_entries_elem in Hl as [? ?]. by split.
  - intros [Hv Hu Hd He]. split; [|done].
    assert (Hx : exists_ f (users_dir c) = true).
    { unfold exists_. unfold is_dir in Hu. by destruct (node_at f (users_dir c)). }
    rewrite Hx. cbn [negb]. rewrite sort_strings_perm.
    apply list_elem_of_In, filter_In. split; [by apply list_elem_of_In, dir_entries_elem|].
    apply valid_utf8_ascii. by apply valid_dir_name_plain in Hv as (_ & _ & _ & _ & ? & _).
Qed.

Lemma users_with_identity_NoDup c f : NoDup (users_with_identity c f).
Proof.
  unfold users_with_identity, list_users.
  apply NoDup_ListNoDup, List.NoDup_filter, NoDup_ListNoDup.
  destruct (negb _); [constructor|]. rewrite sort_strings_perm.
  apply NoDup_ListNoDup, List.NoDup_filter, NoDup_ListNoDup, dir_entries_NoDup.
Qed.

(** Setting the pointer does not change who has an identity. *)
Lemma identity_user_frame c f f' u :
  (forall q, q <> active_user_path c -> q ∉ prefixes (config_dir c) -> node_at f' q = node_at f q) ->
  identity_user c f' u <-> identity_user c f u.
Proof.
  intros Hfr.
  assert (Hq : forall l, node_at f' (users_dir c ++ l) = node_at f (users_dir c ++ l)).
  { intros l. apply Hfr.
    - unfold users_dir, active_user_path. rewrite <- app_assoc. intros E%app_inv_head. done.
    - intros Hin%prefixes_length. unfold users_dir in Hin. rewrite !length_app in Hin. cbn in Hin. lia. }
  pose proof (Hq []) as H1. rewrite app_nil_r in H1.
  split; intros [Hv Hu Hd He]; split; try done; unfold is_dir, exists_ in *; by (rewrite ?H1, ?Hq in *).
Qed.

Lemma singleton_users c f u :
  users_with_identity c f = [u] <-> (forall v, identity_user c f v <-> v = u).
Proof.
  split.
  - intros E v. rewrite <- users_with_identity_elem, E. apply list_elem_of_singleton.
  - intros Hall. apply Permutation_singleton_r.
    apply NoDup_Permutation; [apply users_with_identity_NoDup | apply NoDup_singleton |].
    intros v. rewrite users_with_identity_elem, Hall. by rewrite list_elem_of_singleton.
Qed.
End Spec.

(** What a repair from [f] that returns [r] and leaves [f'] guarantees. *)
Record repaired `{Platform} (c : PasskeyConfig) (f : fs) (r : result PasskeyError IdentityState)
    (f' : fs) : Prop := {
  (* a ready result is what a fresh evaluation finds *)
  rp_persisted st : r = Ok st -> is_ready st = true -> evaluate_state c f' = st;
  (* nothing is repaired that was ready *)
  rp_ready : is_ready (evaluate_state c f) = true -> r = Ok (evaluate_state c f) /\ f' = f;
  (* who has an identity does not change *)
  rp_users u : identity_user c f' u <-> identity_user c f u;
  (* a single identity ends up active, unless the pointer cannot be written *)
  rp_single u : (forall v, identity_user c f v <-> v = u) ->
    r = Ok (Ready u) \/ (is_err r = true /\ get_active_user c f' = get_active_user c f);
}.

Section Properties.
  Context `{NoLinks}.
  Implicit Types (c : PasskeyConfig) (f : fs).

(** C29: The state machine reports what is on disk: the available users are
    exactly those whose valid directory holds an identity, each once; the state
    is ready exactly when the active-user pointer names one of them, and then
    that user is the active one; otherwise it asks for an action. *)
Theorem evaluate_state_spec c f :
  (forall u, u ∈ available_users (evaluate_state c f) <-> identity_user c f u) /\
  NoDup (available_users (evaluate_state c f)) /\
  (forall u, active_username (evaluate_state c f) = Some u <->
     get_active_user c f = Some u /\ identity_user c f u) /\
  needs_action (evaluate_state c f) = negb (is_ready (evaluate_state c f)) /\
  (is_ready (evaluate_state c f) = true <-> is_Some (active_username (evaluate_state c f))).
Proof.
  unfold evaluate_state.
  pose proof (users_with_identity_elem c f) as Hel.
  pose proof (users_with_identity_NoDup c f) as Hnd.
  case_bool_decide as Hemp.
  { cbn. rewrite Hemp in Hel. split; [intros u; by rewrite <- Hel|]. split; [constructor|].
    split; [|by split; [|split; [|intros [? [=]]]]].
    intros u. split; [done|]. rewrite <- Hel. by intros [_ ?%elem_of_nil]. }
  destruct (get_active_user c f) as [u0|] eqn:Ea.
  2:{ cbn. split; [done|]. split; [done|]. split; [by split; [|intros [? _]]|].
      split; [done|]. by split; [|intros [? [=]]]. }
  case_bool_decide as Hin.
  2:{ cbn. split; [done|]. split; [done|]. split; [|split; [done | by split; [|intros [? [=]]]]].
      intros u. split; [done|]. rewrite <- Hel. by intros [[= <-] ?]. }
  assert (Hact : forall u, Some u0 = Some u <-> Some u0 = Some u /\ identity_user c f u).
  { intros u. rewrite <- Hel. split; [by intros [= <-] | by intros [? _]]. }
  destruct (Nat.eqb_spec (length (users_with_identity c f)) 1) as [Hl|_]; cbn.
  - destruct (users_with_identity c f) as [|v [|]]; try done.
    apply list_elem_of_singleton in Hin as ->. done.
  - done.
Qed.

Lemma repaired_select c f u r0 f0 :
  users_with_identity c f = [u] -> is_ready (evaluate_state c f) = false ->
  set_active_user c f u = (r0, f0) -> repaired c f (let? _ := r0 in Ok (Ready u)) f0.
Proof.
  intros Eu Hnr E0.
  assert (Hv : validate_user_dir_name u = Ok tt).
  { apply (users_with_identity_valid c f). rewrite Eu. left. }
  apply set_active_user_cases in E0 as [(? & _)|(_ & Hfr & Hr)]; [done|].
  assert (Hid : forall v, identity_user c f0 v <-> identity_user c f v)
    by (intros v; by apply identity_user_frame).
  assert (Eu' : users_with_identity c f0 = [u]).
  { apply singleton_users. intros v. rewrite Hid. revert v. by apply singleton_users. }
  split; [| by rewrite Hnr | done |].
  - intros st Hst _. destruct Hr as [[-> Hn]|[He _]]; [|by destruct r0].
    cbn in Hst. injection Hst as <-. unfold evaluate_state.
    rewrite Eu', (get_active_user_written c f0 u Hv Hn).
    rewrite bool_decide_false by done. by rewrite bool_decide_true by left.
  - intros v Hall. apply singleton_users in Hall. rewrite Eu in Hall. injection Hall as ->.
    destruct Hr as [[-> _]|[He Hn]]; [by left|]. right. split; [by destruct r0|].
    by apply get_active_user_node.
Qed.

Lemma repaired_stay c f :
  (forall u, users_with_identity c f = [u] -> evaluate_state c f = Ready u) ->
  repaired c f (Ok (evaluate_state c f)) f.
Proof.
  intros Hone. split; [by intros st [= <-] | done | done |].
  intros u Hall. left. f_equal. apply Hone. by apply singleton_users.
Qed.

(** C30: A repair is on disk, not only in the returned value: a ready state that
    [repair_state] returns is what a fresh evaluation finds; a state that was
    ready is left as it is; no repair changes who has an identity; and a single
    identity, whatever the pointer said, ends up active unless the pointer
    cannot be written. *)
Theorem repair_state_persists c f r f' :
  repair_state c f = (r, f') -> repaired c f r f'.
Proof.
  unfold repair_state. pose proof (repaired_select c f) as Hsel.
  pose proof (repaired_stay c f) as Hstay. revert Hsel Hstay. unfold evaluate_state.
  case_bool_decide as Hemp.
  { intros _ Hstay [= <- <-]. apply Hstay. intros u Eu. by rewrite Eu in Hemp. }
  destruct (get_active_user c f) as [u0|] eqn:Ea; [case_bool_decide as Hin|].
  - assert (Hone : forall u, users_with_identity c f = [u] ->
      (if (length (users_with_identity c f) =? 1)%nat then Ready u0
       else ReadyMultiUser u0 (users_with_identity c f)) = Ready u).
    { intros u Eu. rewrite Eu in *. by apply list_elem_of_singleton in Hin as ->. }
    intros _ Hstay. specialize (Hstay Hone).
    destruct (length _ =? 1)%nat; by intros [= <- <-].
  - destruct (users_with_identity c f) as [|u [|v us]] eqn:Eus; [done| |].
    + intros Hsel _. specialize (Hsel u).
      destruct (set_active_user c f u) as [r0 f0]. intros [= <- <-]. by apply Hsel.
    + intros _ _ [= <- <-]. split; [by intros st [= <-] | | done |].
      * unfold evaluate_state. rewrite Eus, Ea, bool_decide_false by done.
        by rewrite bool_decide_false.
      * intros w Hall. apply singleton_users in Hall. by rewrite Eus in Hall.
  - destruct (users_with_identity c f) as [|u [|v us]] eqn:Eus; [done| |].
    + intros Hsel _. specialize (Hsel u).
      destruct (set_active_user c f u) as [r0 f0]. intros [= <- <-]. by apply Hsel.
    + intros _ Hstay [= <- <-]. by apply Hstay.
Qed.

Lemma remove_dir_all_node f p f' q :
  remove_dir_all f p = Ok f' -> q <> [] ->
  node_at f' q = if under p q then None else node_at f q.
Proof.
  unfold remove_dir_all. destruct (node_at f p) as [[?| |]|]; try done.
  case_bool_decide; [|done]. intros [= <-] Hq. rewrite !node_at_ne by done.
  destruct (under p q) eqn:Eu.
  - apply map_lookup_filter_None_2. right. intros n _. cbn. congruence.
  - destruct (f !! q) as [n|] eqn:En.
    + by apply map_lookup_filter_Some_2.
    + apply map_lookup_filter_None_2. by left.
Qed.

Lemma active_path_not_under c name :
  under (users_dir c ++ [name]) (active_user_path c) = false.
Proof.
  apply not_true_is_false. unfold under. intros (r & E)%starts_with_true.
  apply (f_equal length) in E. unfold users_dir, active_user_path in E.
  rewrite !length_app in E. cbn in E. lia.
Qed.

Lemma active_path_ne c : active_user_path c <> [].
Proof. unfold active_user_path. by destruct (config_dir c). Qed.

Lemma clear_active_user_cases c f r f' :
  clear_active_user c f = (r, f') ->
  (r = Ok tt /\ get_active_user c f' = None /\
   forall q, q <> active_user_path c -> node_at f' q = node_at f q) \/
  (is_err r = true /\ f' = f).
Proof.
  unfold clear_active_user. destruct (exists_ f (active_user_path c)) eqn:Ex.
  - intros [(f1 & E1 & [= <- <-])|(e & _ & -> & ->)]%io_then_ok; [|by right].
    apply remove_file_ok in E1 as (_ & -> & _). left. split; [done|]. split.
    + unfold get_active_user, exists_. by rewrite node_at_delete by apply active_path_ne.
    + intros q Hq. by apply node_at_delete_ne.
  - intros [= <- <-]. left. split; [done|]. split; [|done]. unfold get_active_user. by rewrite Ex.
Qed.

(** Deleting a user touches that user's directory and the active-user
    pointer and nothing else, on success and on failure; a name the rules refuse
    deletes nothing at all; after a success the user is gone and is not the
    active one; and another active user stays active. *)
Theorem delete_user_confined c f name r f' :
  delete_user c f name = (r, f') ->
  (validate_user_dir_name name <> Ok tt -> is_err r = true /\ f' = f) /\
  (forall q, under (users_dir c ++ [name]) q = false -> q <> active_user_path c ->
     node_at f' q = node_at f q) /\
  (r = Ok tt -> user_exists c f' name = false /\ get_active_user c f' <> Some name) /\
  (get_active_user c f <> Some name -> get_active_user c f' = get_active_user c f).
Proof.
  unfold delete_user. destruct (checked_user_dir c f name) as [d|e] eqn:Ec.
  2:{ intros [= <- <-]. split; [by split|]. done. }
  apply checked_user_dir_iff in Ec as (Hv & -> & _).
  set (d := users_dir c ++ [name]). intros E. split; [done|].
  apply io_then_ok in E as [(f1 & E1 & E)|(e & _ & -> & ->)]; [|done].
  assert (Hd : d <> []) by (unfold d; by destruct (users_dir c)).
  assert (Hf1 : (forall q, under d q = false -> node_at f1 q = node_at f q) /\
                exists_ f1 d = false).
  { destruct (exists_ f d) eqn:Ex.
    - pose proof (fun q => remove_dir_all_node _ _ _ q E1) as Hn. split.
      + intros q Hu. destruct (decide (q = [])) as [->|Hq]; [done|]. by rewrite Hn, Hu by done.
      + unfold exists_. rewrite Hn by done. unfold under.
        by rewrite (proj2 (starts_with_true d d)) by (exists []; by rewrite app_nil_r).
    - by injection E1 as ->. }
  destruct Hf1 as [Hf1 Hgone].
  assert (Hact : get_active_user c f1 = get_active_user c f)
    by (apply get_active_user_node, Hf1, active_path_not_under).
  assert (Hno : forall f2, exists_ f2 d = false -> user_exists c f2 name = false).
  { intros f2 H2. unfold user_exists. by rewrite checked_user_dir_plain. }
  rewrite Hact in E. case_bool_decide as Hn.
  - apply clear_active_user_cases in E as [(-> & Hnone & Hq)|(He & ->)].
    + split; [intros q Hu Hne; by rewrite Hq, Hf1|]. split; [|done].
      intros _. split; [|by rewrite Hnone]. apply Hno. unfold exists_. rewrite Hq; [done|].
      intros E. pose proof (active_path_not_under c name) as Hu. fold d in Hu. rewrite <- E in Hu.
      unfold under in Hu. by rewrite (proj2 (starts_with_true d d)) in Hu
        by (exists []; by rewrite app_nil_r).
    + split; [intros q Hu _; by apply Hf1|]. split; [by intros ->|done].
  - injection E as <- <-. split; [intros q Hu _; by apply Hf1|]. split; [|by intros _].
    intros _. split; [by apply Hno | by rewrite Hact].
Qed.
End Properties.

(** ** A concrete installation *)

Definition demo_users : path := users_dir gitcellar.

Definition demo_fs : fs := list_to_map [
  ([b "home"], Dir); ([b "home"; b ".config"], Dir); (config_dir gitcellar, Dir);
  (demo_users, Dir); (demo_users ++ [b "alice"], Dir);
  (demo_users ++ [b "alice"; b "identity"], Dir);
  (demo_users ++ [b "alice"; b "identity"; b "secret.pgp"], File (b "sealed"));
  (demo_users ++ [b "bob"], Dir);
  (active_user_path gitcellar, File (b "nobody"))].

Lemma evaluate_state_spec_witness :
  needs_action (evaluate_state gitcellar demo_fs) = negb (is_ready (evaluate_state gitcellar demo_fs)).
Proof. exact (proj1 (proj2 (proj2 (proj2 (evaluate_state_spec gitcellar demo_fs))))). Defined.

Lemma repair_state_persists_witness :
  evaluate_state gitcellar demo_fs = ActiveUserMissing (b "nobody") [b "alice"] /\
  evaluate_state gitcellar (repair_state gitcellar demo_fs).2 = Ready (b "alice").
Proof.
  split; [vm_compute; reflexivity|].
  assert (Hr : (repair_state gitcellar demo_fs).1 = Ok (Ready (b "alice")))
    by (vm_compute; reflexivity).
  refine (rp_persisted gitcellar demo_fs _ _
    (repair_state_persists gitcellar demo_fs _ _ (surjective_pairing _)) _ Hr eq_refl).
Defined.

Lemma delete_user_confined_witness :
  user_exists gitcellar (delete_user gitcellar demo_fs (b "alice")).2 (b "alice") = false.
Proof.
  assert (Hr : (delete_user gitcellar demo_fs (b "alice")).1 = Ok tt)
    by (vm_compute; reflexivity).
  refine (proj1 (proj1 (proj2 (proj2 (delete_user_confined gitcellar demo_fs (b "alice") _ _
    (surjective_pairing _)))) Hr)).
Defined.
