(* ===== verification/KeyWrap.v ===== *)
(** [passkey-core/src/keywrap.rs]: sealing key files at rest under the Local
    Protection Key (LPK), and where that key comes from.

    A host is the process's LPK cache, the file system, the OS keyring's slot
    and the random generator; every operation returns the host it leaves.  The
    test-only overrides are left out. *)

From S2P Require Import Prelude Bytes Utf8 Interfaces Toy Fs PasskeyError Users.

Definition KEYWRAP_MAGIC : bytes := b "GCKW0001".
Definition NONCE_SIZE : Z := 12.
Definition LPK_MISSING_MARKER : bytes := b "LPK_MISSING".
Definition LPK_MINTED_MARKER_FILE : bytes := b "lpk-v1.minted".
Definition HEADLESS_LPK_MIN_LEN : Z := 32.
Definition HEADLESS_LPK_HKDF_SALT : bytes := b "gitcellar-headless-lpk-salt/v1".
Definition HEADLESS_LPK_HKDF_INFO : bytes := b "gitcellar-headless-lpk/v1".

Inductive LpkSource : Type := OsKeyring | Headless.
Inductive LpkMode : Type := Open | Seal | Remint.

#[export] Instance LpkSource_eq_dec : EqDecision LpkSource.
Proof. solve_decision. Defined.
#[export] Instance LpkMode_eq_dec : EqDecision LpkMode.
Proof. solve_decision. Defined.

(** The OS-keyring slot; [kr_new] is whether its entry can be built. *)
Class LpkStore (K : Type) : Type := {
  kr_new : K -> bool;
  kr_get : K -> result string (option bytes);
  kr_set : bytes -> K -> result string unit * K;
}.

(** A store keeps what it says it stored, and a failed write changes nothing. *)
Class LpkStoreLaws (K : Type) `{LpkStore K} : Prop := {
  kr_get_set v (k k' : K) : kr_set v k = (Ok tt, k') -> kr_get k' = Ok (Some v);
  kr_new_set v (k : K) r k' : kr_set v k = (r, k') -> kr_new k' = kr_new k;
  kr_set_err v (k k' : K) e : kr_set v k = (Err e, k') -> k' = k;
}.

(** The environment of the process: whether this build's keyring persists, and
    the two variables that may carry the headless secret. *)
Record Env : Type := {
  os_keyring_persistent : bool;
  headless_secret : option bytes;
  headless_secret_file : option bytes;
}.

Record Host (K R : Type) : Type := {
  h_cache : option (bytes * LpkSource);
  h_fs : fs;
  h_slot : K;
  h_rng : R;
}.
Arguments h_cache {K R} _.
Arguments h_fs {K R} _.
Arguments h_slot {K R} _.
Arguments h_rng {K R} _.

Definition is_wrapped (data : bytes) : bool :=
  (Zlen KEYWRAP_MAGIC <=? Zlen data) &&
  bool_decide (take (length KEYWRAP_MAGIC) data = KEYWRAP_MAGIC).

Section Primitives.
  Context `{AeadOps} {R : Type} `{RngOps R}.

(** The key is [&[u8; 32]], so building the cipher does not fail. *)
Definition wrap_with_key (plaintext key : bytes) (r : R) : result PasskeyError bytes * R :=
  let '(nonce_bytes, r) := fill_bytes (Z.to_nat NONCE_SIZE) r in
  (let? ciphertext := ok_or (aead_encrypt Aes256Gcm key nonce_bytes [] plaintext)
                        (Other "at-rest seal failed: {e}") in
   Ok (KEYWRAP_MAGIC ++ nonce_bytes ++ ciphertext), r).

Definition unwrap_with_key (data key : bytes) : result PasskeyError bytes :=
  if negb (is_wrapped data)
  then Err (Other "at-rest payload is not wrapped (missing magic header)")
  else
    let body := drop (length KEYWRAP_MAGIC) data in
    if Zlen body <? NONCE_SIZE then Err (Other "at-rest payload truncated (no nonce)")
    else
      let nonce_bytes := take (Z.to_nat NONCE_SIZE) body in
      let ciphertext := drop (Z.to_nat NONCE_SIZE) body in
      ok_or (aead_decrypt Aes256Gcm key nonce_bytes [] ciphertext)
        (Other "at-rest open failed: wrong key or tampered data").
End Primitives.

Section Headless.
  Context `{HashOps}.

(** [expect]: 32 bytes is a valid HKDF-SHA256 output length. *)
Definition derive_headless_lpk (raw : bytes) : bytes :=
  default [] (hkdf_sha256 (Some HEADLESS_LPK_HKDF_SALT) (trim raw) HEADLESS_LPK_HKDF_INFO 32).

Definition not_blank (o : option bytes) : option bytes :=
  match o with
  | Some v => if bool_decide (trim v = []) then None else Some v
  | None => None
  end.

Definition headless_lpk_from (secret file : option bytes) (read_file : bytes -> io bytes)
    : result PasskeyError (option bytes) :=
  let sized raw :=
    if Zlen (chars (trim raw)) <? HEADLESS_LPK_MIN_LEN
    then Err (CredentialStore "the headless LPK secret from {origin} is too short ({len} chars; at least {HEADLESS_LPK_MIN_LEN} required)")
    else Ok (Some (derive_headless_lpk raw)) in
  match not_blank secret, not_blank file with
  | None, None => Ok None
  | Some _, Some _ => Err (CredentialStore "both {HEADLESS_LPK_ENV} and {HEADLESS_LPK_FILE_ENV} are set; set exactly one")
  | Some v, None => sized v
  | None, Some path =>
      let? v := map_err (fun _ => CredentialStore "{HEADLESS_LPK_FILE_ENV} names {}, which could not be read: {e}")
                  (read_file (trim path)) in
      sized v
  end.
End Headless.

(** [e.to_string().contains(LPK_MISSING_MARKER)] *)
Definition reports_missing (e : PasskeyError) : bool :=
  contains_sub LPK_MISSING_MARKER (b (PasskeyError.to_string e)).

(** [choose_lpk]: the keyring is consulted only when it is persistent. *)
Definition choose_lpk {W} (os_persistent : bool) (os : W -> result PasskeyError bytes * W)
    (headless : result PasskeyError (option bytes)) (w : W)
    : result PasskeyError (bytes * LpkSource) * W :=
  let fallback (why : string) :=
    let? h := headless in
    match h with
    | Some key => Ok (key, Headless)
    | None => Err (CredentialStore why)
    end in
  if negb os_persistent
  then (fallback "no persistent place for the at-rest Local Protection Key: this host's OS keyring (Linux kernel keyutils) forgets it at logout, reboot or container restart, so it is not used. {how_to}", w)
  else
    match os w with
    | (Ok key, w) => (Ok (key, OsKeyring), w)
    | (Err e, w) =>
        if reports_missing e then (Err e, w)
        else (fallback "the OS keyring is unavailable for the at-rest Local Protection Key ({os_err}). {how_to}", w)
    end.

Section Lpk.
  Context `{HashOps, AeadOps, Base64Ops, Platform} {K R : Type} `{LpkStore K, RngOps R}.

Definition lpk_minted_marker_path : path := config_dir gitcellar ++ [LPK_MINTED_MARKER_FILE].

Definition MARKER_TEXT : bytes :=
  b "an at-rest Local Protection Key was minted for this install" ++ [NL].

(** Best effort: both failures are ignored. *)
Definition write_minted_marker (marker : path) (f : fs) : fs :=
  let f := match parent marker with
           | Some d => match create_dir_all f d with Ok f' => f' | Err _ => f end
           | None => f
           end in
  match fs_write f marker MARKER_TEXT with Ok f' => f' | Err _ => f end.

Definition decode_lpk (b64 : bytes) : result PasskeyError bytes :=
  let? bs := ok_or (b64_decode (trim b64)) (CredentialStore "LPK decode failed: {e}") in
  if Zlen bs =? 32 then Ok bs else Err (CredentialStore "LPK is not 32 bytes").

(** Mint, store, re-read and adopt what persisted. *)
Definition mint_lpk (marker : path) (h : Host K R) : result PasskeyError bytes * Host K R :=
  let '(key, r) := fill_bytes 32 (h_rng h) in
  let '(stored, slot) := kr_set (b64_encode key) (h_slot h) in
  let h' := {| h_cache := h_cache h; h_fs := h_fs h; h_slot := slot; h_rng := r |} in
  match stored with
  | Err e => (Err (CredentialStore ("LPK persist failed: " +:+ e)), h')
  | Ok _ =>
      match (match kr_get slot with Ok (Some b64) => decode_lpk b64 | _ => Ok key end) with
      | Err e => (Err e, h')
      | Ok key =>
          (Ok key, {| h_cache := h_cache h; h_fs := write_minted_marker marker (h_fs h);
                      h_slot := slot; h_rng := r |})
      end
  end.

Definition resolve_lpk (marker : path) (mode : LpkMode) (h : Host K R)
    : result PasskeyError bytes * Host K R :=
  match kr_get (h_slot h) with
  | Err e => (Err (CredentialStore ("LPK retrieval failed: " +:+ e)), h)
  | Ok (Some b64) =>
      match decode_lpk b64 with
      | Err e => (Err e, h)
      | Ok key =>
          (Ok key, {| h_cache := h_cache h;
                      h_fs := if exists_ (h_fs h) marker then h_fs h
                              else write_minted_marker marker (h_fs h);
                      h_slot := h_slot h; h_rng := h_rng h |})
      end
  | Ok None =>
      match mode with
      | Open => (Err (CredentialStore "LPK_MISSING: the Local Protection Key is missing from the OS credential store, so data sealed under it cannot be opened. It was not re-created: a new key cannot open what the lost one sealed."), h)
      | Seal =>
          if exists_ (h_fs h) marker
          then (Err (CredentialStore "LPK_MISSING: the Local Protection Key minted for this install ({}) is missing from the OS credential store. Refusing to mint a replacement silently — everything sealed under the lost key would become unreadable without notice. Restore the identity from its recovery phrase."), h)
          else mint_lpk marker h
      | Remint => mint_lpk marker h
      end
  end.

Variable env : Env.

(** [headless_lpk_from_env]; a path given in the environment is absolute. *)
Definition headless_lpk_from_env (f : fs) : result PasskeyError (option bytes) :=
  headless_lpk_from (headless_secret env) (headless_secret_file env)
    (fun p => let? c := fs_read f (components p) in ok_or (from_utf8 c) OtherIo).

Definition resolve_host_lpk (mode : LpkMode) (h : Host K R)
    : result PasskeyError (bytes * LpkSource) * Host K R :=
  choose_lpk (os_keyring_persistent env)
    (fun h => if kr_new (h_slot h) then resolve_lpk lpk_minted_marker_path mode h
              else (Err (CredentialStore "LPK entry init failed: {e}"), h))
    (headless_lpk_from_env (h_fs h)) h.

Definition with_cache (c : option (bytes * LpkSource)) (h : Host K R) : Host K R :=
  {| h_cache := c; h_fs := h_fs h; h_slot := h_slot h; h_rng := h_rng h |}.

Definition cached_lpk (mode : LpkMode) (h : Host K R) : result PasskeyError bytes * Host K R :=
  match h_cache h with
  | Some (cached, _) => (Ok cached, h)
  | None =>
      match resolve_host_lpk mode h with
      | (Ok (key, source), h) => (Ok key, with_cache (Some (key, source)) h)
      | (Err e, h) => (Err e, h)
      end
  end.

Definition local_protection_key (h : Host K R) : result PasskeyError bytes * Host K R :=
  cached_lpk Seal h.

Definition local_protection_source (h : Host K R) : result PasskeyError LpkSource * Host K R :=
  match cached_lpk Seal h with
  | (Err e, h) => (Err e, h)
  | (Ok _, h) => (Ok (match h_cache h with Some (_, s) => s | None => OsKeyring end), h)
  end.

Definition remint_local_protection_key (h : Host K R) : result PasskeyError unit * Host K R :=
  match resolve_host_lpk Remint h with
  | (Ok (key, source), h) => (Ok tt, with_cache (Some (key, source)) h)
  | (Err e, h) => (Err e, h)
  end.

Definition local_protection_secret (h : Host K R) : result PasskeyError bytes * Host K R :=
  let '(key, h) := local_protection_key h in
  (let? key := key in Ok (b64_encode key), h).

Definition wrap_at_rest (plaintext : bytes) (h : Host K R)
    : result PasskeyError bytes * Host K R :=
  match local_protection_key h with
  | (Err e, h) => (Err e, h)
  | (Ok key, h) =>
      let '(sealed, r) := wrap_with_key plaintext key (h_rng h) in
      (sealed, {| h_cache := h_cache h; h_fs := h_fs h; h_slot := h_slot h; h_rng := r |})
  end.

Definition unwrap_at_rest (data : bytes) (h : Host K R)
    : result PasskeyError bytes * Host K R :=
  if negb (is_wrapped data) then (Ok data, h)
  else
    match cached_lpk Open h with
    | (Err e, h) => (Err e, h)
    | (Ok key, h) => (unwrap_with_key data key, h)
    end.
End Lpk.

(** ** Two processes resolving the key at once

    The calls of [resolve_lpk] in [Seal] mode, one step each: the read, the
    marker check, the write, the re-read and the marker.  The processes share
    the slot and the file system; [mine] is the key the generator gives this
    process. *)

Inductive proc : Type :=
  | PStart
  | PEmpty
  | PMinted
  | PStored
  | PReread (key : bytes)
  | PFound (key : bytes)
  | PAdopted (key : bytes)
  | PFailed (e : PasskeyError).

Section Race.
  Context `{Base64Ops} {K : Type} `{LpkStore K}.
  Variable marker : path.

Definition found (k : bytes -> proc) (b64 : bytes) : proc :=
  match decode_lpk b64 with Ok key => k key | Err e => PFailed e end.

Definition race_step (mine : bytes) (p : proc) (w : fs * K) : proc * (fs * K) :=
  let '(f, slot) := w in
  match p with
  | PStart =>
      (match kr_get slot with
       | Ok (Some b64) => found PFound b64
       | Ok None => PEmpty
       | Err e => PFailed (CredentialStore ("LPK retrieval failed: " +:+ e))
       end, w)
  | PFound key =>
      (PAdopted key, (if exists_ f marker then f else write_minted_marker marker f, slot))
  | PEmpty =>
      (if exists_ f marker
       then PFailed (CredentialStore "LPK_MISSING: the Local Protection Key minted for this install ({}) is missing from the OS credential store. Refusing to mint a replacement silently — everything sealed under the lost key would become unreadable without notice. Restore the identity from its recovery phrase.")
       else PMinted, w)
  | PMinted =>
      match kr_set (b64_encode mine) slot with
      | (Ok _, slot) => (PStored, (f, slot))
      | (Err e, slot) => (PFailed (CredentialStore ("LPK persist failed: " +:+ e)), (f, slot))
      end
  | PStored =>
      (match kr_get slot with Ok (Some b64) => found PReread b64 | _ => PReread mine end, w)
  | PReread key => (PAdopted key, (write_minted_marker marker f, slot))
  | PAdopted _ | PFailed _ => (p, w)
  end.

(** A schedule says whose step is next; [keys] are the two processes' keys. *)
Record race : Type := {
  race_a : proc;
  race_b : proc;
  race_world : fs * K;
}.

Definition race_turn (keys : bytes * bytes) (s : race) (turn : bool) : race :=
  if turn then
    let '(p, w) := race_step keys.1 (race_a s) (race_world s) in
    {| race_a := p; race_b := race_b s; race_world := w |}
  else
    let '(p, w) := race_step keys.2 (race_b s) (race_world s) in
    {| race_a := race_a s; race_b := p; race_world := w |}.

Definition race_run (keys : bytes * bytes) (w : fs * K) (schedule : list bool) : race :=
  foldl (race_turn keys) {| race_a := PStart; race_b := PStart; race_world := w |} schedule.

Definition outcome (p : proc) : option (result PasskeyError bytes) :=
  match p with
  | PAdopted key => Some (Ok key)
  | PFailed e => Some (Err e)
  | _ => None
  end.
End Race.

(** ** Lemmas *)

Section Wrap.
  Context `{AeadLaws} {R : Type} `{RngLaws R}.

(** A payload opens exactly when it is the magic, a nonce and a ciphertext that
    the cipher seals from the plaintext. *)
Lemma unwrap_with_key_ok data key p :
  unwrap_with_key data key = Ok p <->
  exists n ct, length n = 12%nat /\ data = KEYWRAP_MAGIC ++ n ++ ct /\
    aead_encrypt Aes256Gcm key n [] p = Some ct.
Proof.
  unfold unwrap_with_key, is_wrapped. change (Z.to_nat NONCE_SIZE) with 12%nat. split.
  - destruct (Z.leb_spec (Zlen KEYWRAP_MAGIC) (Zlen data)) as [Hl|]; [|done].
    case_bool_decide as Hm; cbn [andb negb]; [|done].
    destruct (Z.ltb_spec (Zlen (drop (length KEYWRAP_MAGIC) data)) NONCE_SIZE) as [|Hb]; [done|].
    set (body := drop (length KEYWRAP_MAGIC) data) in *.
    destruct (aead_decrypt _ _ _ _ _) as [q|] eqn:E; [|done]. intros [= ->].
    exists (take 12 body), (drop 12 body). split; [|split].
    + rewrite length_take. unfold NONCE_SIZE in Hb. lia.
    + rewrite take_drop, <- Hm at 1. unfold body. by rewrite take_drop.
    + by apply aead_encrypt_decrypt.
  - intros (n & ct & Hn & -> & E).
    replace (Zlen KEYWRAP_MAGIC <=? _) with true
      by (symmetry; apply Z.leb_le; rewrite length_app; lia).
    rewrite take_app_length, bool_decide_true by done. cbn [andb negb].
    rewrite drop_app_length.
    replace (Zlen (n ++ ct) <? NONCE_SIZE) with false
      by (symmetry; apply Z.ltb_ge; rewrite length_app; unfold NONCE_SIZE; lia).
    rewrite <- Hn, take_app_length, drop_app_length.
    by rewrite (aead_decrypt_encrypt _ _ _ _ _ _ E).
Qed.

Lemma wrap_with_key_ok p key (r : R) d r' :
  wrap_with_key p key r = (Ok d, r') ->
  is_wrapped d = true /\ unwrap_with_key d key = Ok p /\ Zlen d = Zlen p + 36.
Proof.
  unfold wrap_with_key. pose proof (fill_bytes_length (Z.to_nat NONCE_SIZE) r) as Hn.
  destruct (fill_bytes _ r) as [n r1]. cbn [fst] in Hn. change (Z.to_nat NONCE_SIZE) with 12%nat in Hn.
  destruct (aead_encrypt Aes256Gcm key n [] p) as [ct|] eqn:E; [|done]. cbn [ok_or rbind].
  intros Ed. assert (d = KEYWRAP_MAGIC ++ n ++ ct) as -> by congruence. clear Ed.
  split; [|split].
  - unfold is_wrapped. rewrite take_app_length, bool_decide_true by done.
    rewrite andb_true_r. apply Z.leb_le. rewrite length_app. lia.
  - apply unwrap_with_key_ok. eauto.
  - apply aead_encrypt_length in E. rewrite !length_app. unfold TAG_LEN in E.
    change (length KEYWRAP_MAGIC) with 8%nat. lia.
Qed.

Lemma wrap_with_key_total p key (r : R) :
  Zlen p <= aead_max Aes256Gcm -> exists d r', wrap_with_key p key r = (Ok d, r').
Proof.
  intros Hp. unfold wrap_with_key. destruct (fill_bytes _ r) as [n r1].
  destruct (aead_encrypt_Some Aes256Gcm key n [] p Hp) as [ct ->]. cbn. eauto.
Qed.
End Wrap.

Section Resolve.
  Context `{HashOps, AeadLaws, Base64Ops, Platform} {K R : Type} `{LpkStoreLaws K, RngLaws R}.
  Implicit Types h : Host K R.

(** What a resolution did to the slot. *)
Lemma resolve_lpk_slot m mode h r h' :
  resolve_lpk m mode h = (r, h') ->
  h_slot h' = h_slot h \/
  (kr_get (h_slot h) = Ok None /\
   (mode = Remint \/ (mode = Seal /\ exists_ (h_fs h) m = false))).
Proof.
  unfold resolve_lpk. destruct (kr_get (h_slot h)) as [[v|]|e].
  - destruct (decode_lpk v); intros [= <- <-]; by left.
  - destruct mode; [intros [= <- <-]; by left| |intros _; right; auto].
    destruct (exists_ (h_fs h) m); [intros [= <- <-]; by left | intros _; right; auto].
  - intros [= <- <-]. by left.
Qed.

(** A key that was resolved is what any later opening from that slot resolves. *)
Lemma resolve_lpk_again m mode h key h' h2 :
  resolve_lpk m mode h = (Ok key, h') -> h_slot h2 = h_slot h' ->
  exists h3, resolve_lpk m Open h2 = (Ok key, h3).
Proof.
  intros E Es. unfold resolve_lpk at 1. rewrite Es. clear Es.
  assert (Hg : exists v, kr_get (h_slot h') = Ok (Some v) /\ decode_lpk v = Ok key).
  { unfold resolve_lpk in E. destruct (kr_get (h_slot h)) as [[v|]|e] eqn:Eg; [| |done].
    - destruct (decode_lpk v) as [k|] eqn:Ed; [|done]. injection E as -> <-. eauto.
    - assert (Em : mint_lpk m h = (Ok key, h')).
      { destruct mode; [done| |done]. by destruct (exists_ (h_fs h) m). }
      unfold mint_lpk in Em. destruct (fill_bytes 32 (h_rng h)) as [k r1].
      destruct (kr_set (b64_encode k) (h_slot h)) as [[[]|e] slot] eqn:Ek; [|done].
      rewrite (kr_get_set _ _ _ Ek) in Em.
      destruct (decode_lpk (b64_encode k)) as [k'|] eqn:Ed; [|done]. injection Em as -> <-.
      exists (b64_encode k). cbn. by rewrite (kr_get_set _ _ _ Ek). }
  destruct Hg as (v & -> & ->). eauto.
Qed.

Lemma resolve_lpk_new m mode h r h' :
  resolve_lpk m mode h = (r, h') -> kr_new (h_slot h') = kr_new (h_slot h).
Proof.
  unfold resolve_lpk.
  assert (Hm : mint_lpk m h = (r, h') -> kr_new (h_slot h') = kr_new (h_slot h)).
  { unfold mint_lpk. destruct (fill_bytes 32 (h_rng h)) as [k r1].
    destruct (kr_set (b64_encode k) (h_slot h)) as [st slot] eqn:Ek.
    pose proof (kr_new_set _ _ _ _ Ek) as Hn. destruct st as [[]|e].
    - destruct (match kr_get slot with Ok (Some b64) => decode_lpk b64 | _ => Ok k end);
        by intros [= <- <-].
    - by intros [= <- <-]. }
  destruct (kr_get (h_slot h)) as [[v|]|e]; [| |by intros [= <- <-]].
  - destruct (decode_lpk v); by intros [= <- <-].
  - destruct mode; [by intros [= <- <-]| |done].
    destruct (exists_ (h_fs h) m); [by intros [= <- <-]|done].
Qed.
End Resolve.

(** Run the next steps of a concrete schedule. *)
Ltac race_steps := cbn [race_turn race_step race_a race_b race_world fst snd].

Section RaceLemmas.
  Context `{Base64Laws} {K : Type} `{LpkStoreLaws K}.
  Variable marker : path.

Lemma decode_encode_lpk k : length k = 32%nat -> decode_lpk (b64_encode k) = Ok k.
Proof.
  intros Hk. unfold decode_lpk. rewrite trim_ascii, b64_decode_encode.
  - cbn. by rewrite Hk.
  - apply (Forall_impl _ _ _ (b64_encode_chars k)). lia.
  - apply (Forall_impl _ _ _ (b64_encode_chars k)). intros c Hc. unfold is_whitespace.
    repeat (rewrite orb_false_iff || rewrite andb_false_iff).
    rewrite ?Z.leb_gt, ?Z.eqb_neq. lia.
Qed.

(** What the slot holds came from a process in this state. *)
Definition owns (mine v : bytes) (p : proc) : Prop :=
  match p with
  | PStored => v = b64_encode mine
  | PReread key | PAdopted key => decode_lpk v = Ok key
  | _ => False
  end.

(** A process that has written nothing and found nothing. *)
Definition waiting (p : proc) : Prop :=
  match p with PStart | PEmpty | PMinted | PFailed _ => True | _ => False end.

Lemma race_step_waiting mine p w p' w' :
  kr_get w.2 = Ok None -> waiting p -> race_step marker mine p w = (p', w') ->
  (kr_get w'.2 = Ok None /\ waiting p') \/
  exists v, kr_get w'.2 = Ok (Some v) /\ owns mine v p'.
Proof.
  destruct w as [f slot]. cbn [snd]. intros Hg Hp. unfold race_step. destruct p; try done.
  - rewrite Hg. intros [= <- <-]. by left.
  - intros [= <- <-]. left. by destruct (exists_ f marker).
  - destruct (kr_set (b64_encode mine) slot) as [[[]|e] slot'] eqn:Es; intros [= <- <-].
    + right. exists (b64_encode mine). cbn [snd]. by rewrite (kr_get_set _ _ _ Es).
    + left. cbn [snd]. by rewrite (kr_set_err _ _ _ _ Es).
  - intros [= <- <-]. by left.
Qed.

Lemma race_step_full mine p w p' w' v :
  length mine = 32%nat -> kr_get w.2 = Ok (Some v) -> race_step marker mine p w = (p', w') ->
  (kr_get w'.2 = Ok (Some v) /\ (owns mine v p -> owns mine v p')) \/
  exists v', kr_get w'.2 = Ok (Some v') /\ owns mine v' p'.
Proof.
  destruct w as [f slot]. cbn [snd]. intros Hm Hg. unfold race_step.
  destruct p; try (intros [= <- <-]; by left).
  - destruct (kr_set (b64_encode mine) slot) as [[[]|e] slot'] eqn:Es; intros [= <- <-].
    + right. exists (b64_encode mine). cbn [snd]. by rewrite (kr_get_set _ _ _ Es).
    + left. cbn [snd]. by rewrite (kr_set_err _ _ _ _ Es).
  - rewrite Hg. intros [= <- <-]. left. split; [done|]. cbn [owns]. intros ->.
    unfold found. rewrite decode_encode_lpk by done. by apply decode_encode_lpk.
Qed.

Definition race_inv (keys : bytes * bytes) (s : race (K:=K)) : Prop :=
  (kr_get (race_world s).2 = Ok None /\ waiting (race_a s) /\ waiting (race_b s)) \/
  exists v, kr_get (race_world s).2 = Ok (Some v) /\
    (owns keys.1 v (race_a s) \/ owns keys.2 v (race_b s)).

Lemma race_turn_inv keys s turn :
  length keys.1 = 32%nat -> length keys.2 = 32%nat ->
  race_inv keys s -> race_inv keys (race_turn marker keys s turn).
Proof.
  intros H1k H2k. unfold race_inv, race_turn.
  destruct turn; (match goal with |- context [race_step ?m ?x ?p ?w] =>
    destruct (race_step m x p w) as [p' w'] eqn:E end);
    cbn [race_a race_b race_world]; intros [(Hg & Ha & Hb)|(v & Hg & Ho)].
  1,3: eapply race_step_waiting in E as [[? ?]|(v & ? & ?)]; eauto 6.
  all: eapply race_step_full in E as [[? ?]|(v' & ? & ?)]; eauto 6;
    right; exists v; destruct Ho; auto.
Qed.

Lemma race_run_inv keys w schedule :
  length keys.1 = 32%nat -> length keys.2 = 32%nat -> kr_get w.2 = Ok None ->
  race_inv keys (race_run marker keys w schedule).
Proof.
  intros H1k H2k Hg. unfold race_run.
  assert (Hi : race_inv keys {| race_a := PStart; race_b := PStart; race_world := w |})
    by (by left).
  revert Hi. generalize {| race_a := PStart; race_b := PStart; race_world := w |}.
  induction schedule as [|t schedule IH]; intros s Hs; [done|]. cbn [foldl].
  apply IH, race_turn_inv; done.
Qed.

(** Alone, the steps are [resolve_lpk]. *)
Lemma race_alone {R} `{RngOps R} (h : Host K R) r h' other :
  resolve_lpk marker Seal h = (r, h') ->
  let s := race_run marker ((fill_bytes 32 (h_rng h)).1, other) (h_fs h, h_slot h)
             (replicate 5 true) in
  outcome (race_a s) = Some r /\ race_world s = (h_fs h', h_slot h').
Proof.
  unfold resolve_lpk, race_run, mint_lpk. destruct (fill_bytes 32 (h_rng h)) as [k r1].
  cbn [replicate foldl]. race_steps.
  destruct (kr_get (h_slot h)) as [[v|]|e] eqn:Eg.
  - unfold found. destruct (decode_lpk v) as [key|e]; intros [= <- <-]; by cbn.
  - race_steps.
    destruct (exists_ (h_fs h) marker); [intros [= <- <-]; by cbn|]. cbn [race_step].
    destruct (kr_set (b64_encode k) (h_slot h)) as [[[]|e] slot] eqn:Es.
    2:{ intros [= <- <-]. by cbn. }
    cbn. rewrite (kr_get_set _ _ _ Es). unfold found.
    destruct (decode_lpk (b64_encode k)); intros [= <- <-]; by cbn.
  - intros [= <- <-]. by cbn.
Qed.
End RaceLemmas.

(** A secret given in the environment does not depend on the files. *)
Lemma headless_env_only `{HashOps} env f f' :
  headless_secret_file env = None -> headless_lpk_from_env env f = headless_lpk_from_env env f'.
Proof.
  intros Hf. unfold headless_lpk_from_env. rewrite Hf. unfold headless_lpk_from. cbn [not_blank].
  by destruct (not_blank (headless_secret env)).
Qed.

(** The only file resolving a key writes is the marker: what writing it keeps,
    sealing keeps. *)
Section Keeps.
  Context `{HashOps, AeadOps, Base64Ops, Platform} {K R : Type} `{LpkStore K, RngOps R}.
  Variable marker : path.
  Variable keep : fs -> Prop.
  Hypothesis keep_marker : forall f, keep f -> keep (write_minted_marker marker f).

Lemma resolve_lpk_keeps mode (h : Host K R) :
  keep (h_fs h) -> keep (h_fs (resolve_lpk marker mode h).2).
Proof.
  intros Hq. unfold resolve_lpk.
  assert (Hm : keep (h_fs (mint_lpk marker h).2)).
  { unfold mint_lpk. destruct (fill_bytes 32 (h_rng h)) as [k r].
    destruct (kr_set (b64_encode k) (h_slot h)) as [[[]|] slot]; [|done].
    destruct (match kr_get slot with Ok (Some b64) => _ | _ => _ end); [|done].
    by apply keep_marker. }
  destruct (kr_get (h_slot h)) as [[v|]|]; [| |done].
  - destruct (decode_lpk v); [|done]. cbn. destruct (exists_ (h_fs h) marker); [done|].
    by apply keep_marker.
  - destruct mode; [done| |done]. by destruct (exists_ (h_fs h) marker).
Qed.

Lemma cached_keeps env mode (h : Host K R) :
  marker = lpk_minted_marker_path -> keep (h_fs h) -> keep (h_fs (cached_lpk env mode h).2).
Proof.
  intros Em Hq. unfold cached_lpk. destruct (h_cache h) as [[k src]|]; [done|].
  assert (Hr : keep (h_fs (resolve_host_lpk env mode h).2)).
  { unfold resolve_host_lpk, choose_lpk. destruct (os_keyring_persistent env); [|done].
    cbn [negb]. destruct (kr_new (h_slot h)); [|done].
    pose proof (resolve_lpk_keeps mode h Hq) as Hr. rewrite Em in Hr.
    destruct (resolve_lpk lpk_minted_marker_path mode h) as [[k|e] h']; [done|].
    by destruct (reports_missing e). }
  by destruct (resolve_host_lpk env mode h) as [[[k src]|e] h'].
Qed.

Lemma wrap_keeps env p (h : Host K R) :
  marker = lpk_minted_marker_path -> keep (h_fs h) -> keep (h_fs (wrap_at_rest env p h).2).
Proof.
  intros Em Hq. unfold wrap_at_rest, local_protection_key.
  pose proof (cached_keeps env Seal h Em Hq) as Hk.
  destruct (cached_lpk env Seal h) as [[k|e] h']; [|done]. by destruct (wrap_with_key p k (h_rng h')).
Qed.

Lemma unwrap_keeps env d (h : Host K R) :
  marker = lpk_minted_marker_path -> keep (h_fs h) -> keep (h_fs (unwrap_at_rest env d h).2).
Proof.
  intros Em Hq. unfold unwrap_at_rest. destruct (is_wrapped d); [|done]. cbn [negb].
  pose proof (cached_keeps env Open h Em Hq) as Hk. by destruct (cached_lpk env Open h) as [[k|e] h'].
Qed.
End Keeps.

Section Kept.
  Context `{HashOps, AeadOps, Base64Ops, Platform} {K R : Type} `{LpkStore K, RngOps R}.

(** The directory part of writing the marker. *)
Lemma marker_parent m f :
  exists f1, write_minted_marker m f = match fs_write f1 m MARKER_TEXT with Ok f' => f' | Err _ => f1 end /\
    (f1 = f \/ exists d, create_dir_all f d = Ok f1).
Proof.
  unfold write_minted_marker. destruct (parent m) as [d|]; [|eauto].
  destruct (create_dir_all f d) as [f'|] eqn:E; eauto 6.
Qed.

Lemma wrap_dirs q env p (h : Host K R) :
  node_at (h_fs h) q = Some Dir -> node_at (h_fs (wrap_at_rest env p h).2) q = Some Dir.
Proof.
  apply (wrap_keeps lpk_minted_marker_path (fun f => node_at f q = Some Dir)); [|done].
  intros f Hq. destruct (marker_parent lpk_minted_marker_path f) as (f1 & -> & Hf1).
  assert (H1q : node_at f1 q = Some Dir).
  { destruct Hf1 as [->|(d & (_ & Hn & _)%create_dir_all_ok)]; [done|]. rewrite Hn; [done|].
    unfold fs_read. by rewrite Hq. }
  destruct (fs_write f1 _ MARKER_TEXT) eqn:E; [|done]. by apply (fs_write_dir _ _ _ _ _ E).
Qed.

(** No file but the marker is written. *)
Lemma marker_reads q c f0 f :
  q <> lpk_minted_marker_path -> (fs_read f q = Ok c <-> fs_read f0 q = Ok c) ->
  fs_read (write_minted_marker lpk_minted_marker_path f) q = Ok c <-> fs_read f0 q = Ok c.
Proof.
  intros Hne Hq. destruct (marker_parent lpk_minted_marker_path f) as (f1 & -> & Hf1).
  assert (H1q : fs_read f1 q = Ok c <-> fs_read f0 q = Ok c).
  { rewrite <- Hq. destruct Hf1 as [->|(d & (_ & _ & Hn)%create_dir_all_ok)]; [done|]. by apply Hn. }
  destruct (fs_write f1 _ MARKER_TEXT) eqn:E; [|done].
  by rewrite (fs_read_write _ _ _ _ q E), decide_False.
Qed.

Lemma wrap_reads q c env p (h : Host K R) :
  q <> lpk_minted_marker_path ->
  fs_read (h_fs (wrap_at_rest env p h).2) q = Ok c <-> fs_read (h_fs h) q = Ok c.
Proof.
  intros Hne. apply (wrap_keeps lpk_minted_marker_path
    (fun f => fs_read f q = Ok c <-> fs_read (h_fs h) q = Ok c)); [|done|done].
  intros f. by apply marker_reads.
Qed.

Lemma unwrap_reads q c env d (h : Host K R) :
  q <> lpk_minted_marker_path ->
  fs_read (h_fs (unwrap_at_rest env d h).2) q = Ok c <-> fs_read (h_fs h) q = Ok c.
Proof.
  intros Hne. apply (unwrap_keeps lpk_minted_marker_path
    (fun f => fs_read f q = Ok c <-> fs_read (h_fs h) q = Ok c)); [|done|done].
  intros f. by apply marker_reads.
Qed.

Lemma wrap_files q c env p (h : Host K R) :
  q <> lpk_minted_marker_path -> fs_read (h_fs h) q = Ok c ->
  fs_read (h_fs (wrap_at_rest env p h).2) q = Ok c.
Proof. intros Hne. by rewrite wrap_reads. Qed.
End Kept.

(** ** Properties *)

Section Properties.
  Context `{HashOps, AeadLaws, Base64Ops, Platform} {K R : Type} `{LpkStoreLaws K, RngLaws R}.
  Variable env : Env.
  Implicit Types h : Host K R.

(** An empty slot that may not be filled is reported, and nothing changes. *)
Lemma resolve_host_missing mode h :
  os_keyring_persistent env = true -> kr_new (h_slot h) = true -> kr_get (h_slot h) = Ok None ->
  mode = Open \/ (mode = Seal /\ exists_ (h_fs h) lpk_minted_marker_path = true) ->
  exists e, resolve_host_lpk env mode h = (Err e, h) /\ reports_missing e = true.
Proof.
  intros Hp Hn Hg Hmode. unfold resolve_host_lpk, choose_lpk. rewrite Hp, Hn. cbn [negb].
  unfold resolve_lpk. rewrite Hg.
  destruct Hmode as [->|[-> ->]];
    (match goal with |- context [reports_missing ?e] =>
       change (reports_missing e) with true; exists e end; by split).
Qed.

(** On a host without a persistent keyring, sealing leaves the files alone. *)
Lemma wrap_fs_headless p h r h1 :
  h_cache h = None -> os_keyring_persistent env = false -> wrap_at_rest env p h = (r, h1) ->
  h_fs h1 = h_fs h.
Proof.
  intros Hc Hp. unfold wrap_at_rest, local_protection_key, cached_lpk, resolve_host_lpk, choose_lpk.
  rewrite Hc, Hp. cbn [negb].
  destruct (let? x := headless_lpk_from_env env (h_fs h) in _) as [[key src]|e]; [|by intros [= <- <-]].
  destruct (wrap_with_key _ _ _) as [s r1]. by intros [= <- <-].
Qed.

(** What one host sealed opens on any host that resolves the same key. *)
Lemma wrap_reopen p h d h1 h2 :
  h_cache h = None -> wrap_at_rest env p h = (Ok d, h1) ->
  (exists k, h_cache h1 = Some (k, OsKeyring)) \/
  (os_keyring_persistent env = false /\
   headless_lpk_from_env env (h_fs h2) = headless_lpk_from_env env (h_fs h)) ->
  h_cache h2 = None -> h_slot h2 = h_slot h1 ->
  is_wrapped d = true /\ Zlen d = Zlen p + 36 /\ exists h3, unwrap_at_rest env d h2 = (Ok p, h3).
Proof.
  intros Hc Hw Hsrc Hc2 Hs2. unfold wrap_at_rest, local_protection_key, cached_lpk in Hw.
  rewrite Hc in Hw.
  destruct (resolve_host_lpk env Seal h) as [[[key src]|e] h0] eqn:Er; [|done].
  destruct (wrap_with_key p key (h_rng (with_cache (Some (key, src)) h0))) as [[sd|] r1] eqn:Ew; [|done].
  injection Hw as -> <-. apply wrap_with_key_ok in Ew as (Hd & Hu & Hl).
  split; [done|]. split; [done|]. unfold unwrap_at_rest. rewrite Hd. cbn [negb].
  unfold cached_lpk. rewrite Hc2. cbn [h_cache with_cache h_fs h_slot h_rng] in *.
  assert (Hr : exists h3, resolve_host_lpk env Open h2 = (Ok (key, src), h3)).
  { unfold resolve_host_lpk, choose_lpk in Er |- *. destruct (os_keyring_persistent env); cbn [negb] in *.
    - destruct Hsrc as [(k & [= -> ->])|[? _]]; [|done].
      destruct (kr_new (h_slot h)) eqn:En.
      2:{ cbn in Er. destruct (headless_lpk_from_env env (h_fs h)) as [[?|]|]; discriminate Er. }
      destruct (resolve_lpk lpk_minted_marker_path Seal h) as [[key'|e] h'] eqn:E0.
      2:{ destruct (reports_missing e); [done|].
          destruct (headless_lpk_from_env env (h_fs h)) as [[?|]|]; discriminate Er. }
      injection Er as -> <-. rewrite Hs2, (resolve_lpk_new _ _ _ _ _ E0), En.
      destruct (resolve_lpk_again _ _ _ _ _ h2 E0 Hs2) as [h3 ->]. eauto.
    - destruct Hsrc as [(k & [= -> ->])|[_ Hh]].
      + destruct (headless_lpk_from_env env (h_fs h)) as [[?|]|]; discriminate Er.
      + injection Er as Er _. exists h2. rewrite Hh. by rewrite Er. }
  destruct Hr as [h3 ->]. by eexists; rewrite Hu.
Qed.

(** What is sealed at rest opens again, also in a later process.  A payload
    that [wrap_at_rest] sealed is recognised as sealed, is 36 bytes longer than
    the plaintext, and opens to it from the host it left with the cache
    emptied (a restart), whenever the key came from the OS keyring or the host
    has no persistent one; unsealed data passes through unchanged. *)
Theorem at_rest_reopen p h d h1 :
  h_cache h = None -> wrap_at_rest env p h = (Ok d, h1) ->
  os_keyring_persistent env = false \/ (exists k, h_cache h1 = Some (k, OsKeyring)) ->
  is_wrapped d = true /\ Zlen d = Zlen p + 36 /\
  (exists h2, unwrap_at_rest env d (with_cache None h1) = (Ok p, h2)) /\
  (forall q h', is_wrapped q = false -> unwrap_at_rest env q h' = (Ok q, h')).
Proof.
  intros Hc Hw Hsrc.
  destruct (wrap_reopen p h d h1 (with_cache None h1) Hc Hw) as (Hd & Hl & Hu);
    [|done|done|].
  - destruct Hsrc as [Hp|]; [right|by left]. split; [done|]. cbn.
    by rewrite (wrap_fs_headless _ _ _ _ Hc Hp Hw).
  - repeat (split; [done|]). intros q h' Hq. unfold unwrap_at_rest. by rewrite Hq.
Qed.

(** C23: A lost key is an error, never silently replaced.  The keyring slot is
    written only when it is empty, and only for a deliberate re-mint or for
    sealing on an install that has no minted marker; opening sealed data, or
    sealing when the marker says a key was minted, with an empty slot reports
    the key as missing and leaves the host as it was, even where a headless
    secret is configured. *)
Theorem lpk_never_silently_reminted mode h r h' :
  resolve_host_lpk env mode h = (r, h') ->
  (h_slot h' = h_slot h \/
   (kr_get (h_slot h) = Ok None /\
    (mode = Remint \/ (mode = Seal /\ exists_ (h_fs h) lpk_minted_marker_path = false)))) /\
  (os_keyring_persistent env = true -> kr_new (h_slot h) = true -> kr_get (h_slot h) = Ok None ->
   mode = Open \/ (mode = Seal /\ exists_ (h_fs h) lpk_minted_marker_path = true) ->
   h' = h /\ exists e, r = Err e /\ reports_missing e = true).
Proof.
  intros E. unfold resolve_host_lpk, choose_lpk in E. split.
  - destruct (os_keyring_persistent env); cbn [negb] in E.
    2:{ injection E as _ <-. by left. }
    destruct (kr_new (h_slot h)).
    + destruct (resolve_lpk lpk_minted_marker_path mode h) as [[key|e] h0] eqn:E0;
        apply resolve_lpk_slot in E0.
      * by injection E as _ <-.
      * destruct (reports_missing e); by injection E as _ <-.
    + cbn in E. injection E as _ <-. by left.
  - intros Hp Hn Hg Hmode. destruct (resolve_host_missing mode h Hp Hn Hg Hmode) as (e & Er & He).
    unfold resolve_host_lpk, choose_lpk in Er. rewrite Er in E. injection E as <- <-. eauto.
Qed.

(** The headless fallback can strand data.  On a host whose keyring answers
    but refuses to store a new key (without naming the marker), sealing falls back to the configured headless
    secret and the payload opens in the same process; after a restart, opening
    it finds the keyring empty and reports the key as missing, although the
    headless secret is still configured. *)
Theorem headless_fallback_stranded p h key :
  os_keyring_persistent env = true -> h_cache h = None ->
  kr_new (h_slot h) = true -> kr_get (h_slot h) = Ok None ->
  (forall v, exists e, kr_set v (h_slot h) = (Err e, h_slot h) /\
     reports_missing (CredentialStore ("LPK persist failed: " +:+ e)) = false) ->
  exists_ (h_fs h) lpk_minted_marker_path = false ->
  headless_lpk_from_env env (h_fs h) = Ok (Some key) -> Zlen p <= aead_max Aes256Gcm ->
  exists d h1 e, wrap_at_rest env p h = (Ok d, h1) /\
    (unwrap_at_rest env d h1).1 = Ok p /\
    (unwrap_at_rest env d (with_cache None h1)).1 = Err e /\ reports_missing e = true.
Proof.
  intros Hp Hc Hn Hg Hs Hm Hh Hl.
  unfold wrap_at_rest, local_protection_key, cached_lpk. rewrite Hc.
  assert (Er : exists h0, resolve_host_lpk env Seal h = (Ok (key, Headless), h0) /\
                 h_slot h0 = h_slot h).
  { unfold resolve_host_lpk, choose_lpk. rewrite Hp, Hn. cbn [negb].
    unfold resolve_lpk. rewrite Hg, Hm. unfold mint_lpk.
    destruct (fill_bytes 32 (h_rng h)) as [k r1]. destruct (Hs (b64_encode k)) as (e & -> & ->).
    rewrite Hh. by eexists. }
  destruct Er as (h0 & -> & Hslot).
  destruct (wrap_with_key_total p key (h_rng (with_cache (Some (key, Headless)) h0)) Hl)
    as (d & r1 & Ew).
  rewrite Ew. pose proof (wrap_with_key_ok _ _ _ _ _ Ew) as (Hd & Hu & _).
  destruct (resolve_host_missing Open (with_cache None
    {| h_cache := Some (key, Headless); h_fs := h_fs h0; h_slot := h_slot h0; h_rng := r1 |}))
    as (e & Em & He); try (cbn; by rewrite ?Hslot); [by left|].
  eexists d, _, e. split; [reflexivity|]. unfold unwrap_at_rest. rewrite Hd. cbn [negb].
  unfold cached_lpk. cbn [h_cache with_cache h_fs h_slot h_rng] in Em |- *. split; [exact Hu|].
  unfold with_cache in Em |- *. cbn [h_cache h_fs h_slot h_rng] in Em |- *. by rewrite Em.
Qed.
End Properties.

Section RaceProperties.
  Context `{Base64Laws} {K R : Type} `{LpkStoreLaws K, RngOps R}.
  Implicit Types h : Host K R.

(** C32: Two processes that resolve the key on a fresh machine need not converge.
    Run alone, the steps are [resolve_lpk]; in every interleaving in which both
    adopt a key the slot ends up holding a key that one of them adopted, so one
    of them agrees with what later processes read; but the interleaving in
    which each writes and re-reads after the other's check leaves them with
    their own, different keys, and nothing sealed by the first opens after. *)
Theorem mint_race_outcomes marker h other :
  length (fill_bytes 32 (h_rng h)).1 = 32%nat -> length other = 32%nat ->
  kr_get (h_slot h) = Ok None -> exists_ (h_fs h) marker = false ->
  (forall v (k : K), exists k', kr_set v k = (Ok tt, k')) ->
  let mine := (fill_bytes 32 (h_rng h)).1 in
  let run := race_run marker (mine, other) (h_fs h, h_slot h) in
  (let s := run (replicate 5 true) in
   outcome (race_a s) = Some (resolve_lpk marker Seal h).1) /\
  (forall schedule ka kb, race_a (run schedule) = PAdopted ka -> race_b (run schedule) = PAdopted kb ->
     exists v k, kr_get (race_world (run schedule)).2 = Ok (Some v) /\ decode_lpk v = Ok k /\
       (k = ka \/ k = kb)) /\
  (exists schedule v, race_a (run schedule) = PAdopted mine /\
     race_b (run schedule) = PAdopted other /\
     kr_get (race_world (run schedule)).2 = Ok (Some v) /\ decode_lpk v = Ok other).
Proof.
  intros Hm Ho Hg He Hs mine run. split; [|split].
  - destruct (resolve_lpk marker Seal h) as [r h'] eqn:E.
    by apply (race_alone marker h r h' other).
  - intros schedule ka kb Ha Hb. unfold run in *.
    destruct (race_run_inv marker (mine, other) (h_fs h, h_slot h) schedule Hm Ho Hg)
      as [(_ & Hw & _)|(v & Hv & Hown)].
    + by rewrite Ha in Hw.
    + rewrite Ha, Hb in Hown. cbn in Hown. destruct Hown; eauto 6.
  - destruct (Hs (b64_encode mine) (h_slot h)) as [k1 E1].
    destruct (Hs (b64_encode other) k1) as [k2 E2].
    exists [true; false; true; false; true; true; true; false; false; false], (b64_encode other).
    subst run. change (length mine = 32%nat) in Hm. clearbody mine. unfold race_run.
    cbn [foldl]. race_steps. rewrite Hg. race_steps. rewrite He. race_steps. rewrite E1.
    race_steps. rewrite (kr_get_set _ _ _ E1). unfold found.
    rewrite (decode_encode_lpk mine Hm). race_steps. rewrite E2. race_steps.
    rewrite (kr_get_set _ _ _ E2). unfold found. rewrite (decode_encode_lpk other Ho).
    race_steps. repeat split. by apply (kr_get_set _ _ _ E2).
Qed.
End RaceProperties.

(** ** A keyring kept in a variable, and one that cannot be written *)

#[export] Instance toy_keyring : LpkStore (option bytes) := {|
  kr_new _ := true;
  kr_get k := Ok k;
  kr_set v _ := (Ok tt, Some v);
|}.

#[export] Instance toy_keyring_laws : LpkStoreLaws (option bytes).
Proof. split; cbn; congruence. Qed.

Inductive read_only : Type := ReadOnly (v : option bytes).

#[export] Instance read_only_keyring : LpkStore read_only := {|
  kr_new _ := true;
  kr_get k := let 'ReadOnly v := k in Ok v;
  kr_set _ k := (Err "read-only", k);
|}.

#[export] Instance read_only_laws : LpkStoreLaws read_only.
Proof. split; cbn; congruence. Qed.

Definition demo_env (persistent : bool) : Env := {|
  os_keyring_persistent := persistent;
  headless_secret := Some (b "0123456789abcdef0123456789abcdef");
  headless_secret_file := None;
|}.

Definition demo_host {K} (slot : K) : Host K Z := {|
  h_cache := None;
  h_fs := {[ [b "home"] := Dir; [b "home"; b ".config"] := Dir ]};
  h_slot := slot;
  h_rng := 9;
|}.

(** A fresh desktop seals a seed, restarts and opens it. *)
Lemma at_rest_reopen_witness :
  exists d h2, (wrap_at_rest (demo_env true) (b "seed") (demo_host (@None bytes))).1 = Ok d /\
    unwrap_at_rest (demo_env true) d
      (with_cache None (wrap_at_rest (demo_env true) (b "seed") (demo_host (@None bytes))).2) = (Ok (b "seed"), h2).
Proof.
  pose (x := wrap_at_rest (demo_env true) (b "seed") (demo_host (@None bytes))).
  pose (d := match x.1 with Ok d => d | Err _ => [] end).
  assert (Ed : x.1 = Ok d) by (vm_compute; reflexivity).
  destruct (at_rest_reopen (demo_env true) (b "seed") (demo_host (@None bytes)) d x.2) as (_ & _ & (h2 & E) & _).
  - reflexivity.
  - rewrite <- Ed. apply surjective_pairing.
  - right. exists (replicate 32 (as_u8 9)). vm_compute. reflexivity.
  - exists d, h2. by split.
Defined.

Lemma lpk_never_silently_reminted_witness :
  let r := resolve_host_lpk (demo_env true) Open (demo_host (@None bytes)) in
  r.2 = demo_host (@None bytes) /\ exists e, r.1 = Err e /\ reports_missing e = true.
Proof.
  intros r.
  destruct (lpk_never_silently_reminted (demo_env true) Open (demo_host (@None bytes)) r.1 r.2) as [_ H];
    [apply surjective_pairing|].
  apply H; [reflexivity | reflexivity | reflexivity | by left].
Defined.

Lemma headless_fallback_stranded_witness :
  exists d e, (wrap_at_rest (demo_env true) (b "seed") (demo_host (ReadOnly None))).1 = Ok d /\
    reports_missing e = true.
Proof.
  pose (key := derive_headless_lpk (b "0123456789abcdef0123456789abcdef")).
  destruct (headless_fallback_stranded (demo_env true) (b "seed") (demo_host (ReadOnly None)) key)
    as (d & h1 & e & E & _ & _ & He).
  - reflexivity.
  - reflexivity.
  - reflexivity.
  - reflexivity.
  - intros v. eexists. split; [reflexivity | by vm_compute].
  - vm_compute. reflexivity.
  - vm_compute. reflexivity.
  - vm_compute. discriminate.
  - exists d, e. split; [by rewrite E | done].
Defined.

Lemma mint_race_outcomes_witness :
  exists schedule,
    race_a (race_run [b "m"] (replicate 32 (as_u8 9), replicate 32 (as_u8 7))
      (h_fs (demo_host (@None bytes)), None) schedule) = PAdopted (replicate 32 (as_u8 9)) /\
    race_b (race_run [b "m"] (replicate 32 (as_u8 9), replicate 32 (as_u8 7))
      (h_fs (demo_host (@None bytes)), None) schedule) = PAdopted (replicate 32 (as_u8 7)).
Proof.
  destruct (mint_race_outcomes [b "m"] (demo_host (@None bytes)) (replicate 32 (as_u8 7)))
    as (_ & _ & (schedule & v & Ha & Hb & _)).
  - reflexivity.
  - reflexivity.
  - reflexivity.
  - vm_compute. reflexivity.
  - intros v k. by eexists.
  - exists schedule. split; [exact Ha | exact Hb].
Defined.
