(* ===== verification/AtRest.v ===== *)
(** Sealing at rest over the life of a machine: processes come and go, other
    programs change any file, and the operations of
    [passkey-core/src/keywrap.rs] run in any order over one keyring. *)

From S2P Require Import Prelude Bytes Interfaces Toy Fs PasskeyError Users KeyWrap.

Section AtRest.
  Context `{HashOps, AeadLaws, Base64Ops, Platform} {K R : Type} `{LpkStoreLaws K, RngLaws R}.
  Variable env : Env.
  Implicit Types h : Host K R.

Definition with_slot (k : K) h : Host K R :=
  {| h_cache := h_cache h; h_fs := h_fs h; h_slot := k; h_rng := h_rng h |}.

(** One operation, restart or change of files, with what it sealed. *)
Inductive lpk_step h : list (bytes * bytes) -> Host K R -> Prop :=
  | step_restart : lpk_step h [] (with_cache None h)
  | step_files f :
      lpk_step h [] {| h_cache := h_cache h; h_fs := f; h_slot := h_slot h; h_rng := h_rng h |}
  | step_wrap p d h2 : wrap_at_rest env p h = (Ok d, h2) -> lpk_step h [(p, d)] h2
  | step_wrap_failed p e h2 : wrap_at_rest env p h = (Err e, h2) -> lpk_step h [] h2
  | step_unwrap d r h2 : unwrap_at_rest env d h = (r, h2) -> lpk_step h [] h2
  | step_remint r h2 : remint_local_protection_key env h = (r, h2) -> lpk_step h [] h2.

(** [life h log h']: the machine goes from [h] to [h'], having sealed the payloads
    of [log], each with what came out. *)
Inductive life (h : Host K R) : list (bytes * bytes) -> Host K R -> Prop :=
  | life_start : life h [] h
  | life_step log h1 sealed h2 :
      life h log h1 -> lpk_step h1 sealed h2 -> life h (log ++ sealed) h2
  | life_keyring log h1 k :
      life h log h1 -> kr_new k = kr_new (h_slot h1) -> kr_get k = kr_get (h_slot h1) ->
      life h log (with_slot k h1).

(** The keyring holds the key, and a process that has one has this one. *)
Record settled (key : bytes) (h : Host K R) : Prop := {
  st_new : kr_new (h_slot h) = true;
  st_slot : exists v, kr_get (h_slot h) = Ok (Some v) /\ decode_lpk v = Ok key;
  st_cache : h_cache h = None \/ exists src, h_cache h = Some (key, src);
}.

Hypothesis Hpersistent : os_keyring_persistent env = true.

(** Every mode resolves the key the keyring holds; even a re-mint keeps it. *)
Lemma settled_resolves key mode h :
  settled key h -> exists h', resolve_host_lpk env mode h = (Ok (key, OsKeyring), h') /\
    h_slot h' = h_slot h.
Proof.
  intros [Hn (v & Hg & Hd) _]. unfold resolve_host_lpk, choose_lpk, resolve_lpk.
  rewrite Hpersistent, Hn, Hg, Hd. cbn [negb]. eauto.
Qed.

Lemma settled_slot key h h' :
  settled key h -> h_slot h' = h_slot h ->
  (h_cache h' = None \/ exists src, h_cache h' = Some (key, src)) -> settled key h'.
Proof. intros [Hn Hs _] E Hc. by split; [rewrite E|rewrite E|]. Qed.

Lemma settled_cached key mode h :
  settled key h -> exists h', cached_lpk env mode h = (Ok key, h') /\ settled key h'.
Proof.
  intros Hs. unfold cached_lpk. destruct (st_cache key h Hs) as [Hc|[src Hc]]; rewrite Hc.
  - destruct (settled_resolves key mode h Hs) as (h' & -> & E). eexists. split; [done|].
    eapply settled_slot; [exact Hs | exact E |]. right. by eexists.
  - by exists h.
Qed.

Lemma settled_wrap key p h r h' :
  settled key h -> wrap_at_rest env p h = (r, h') ->
  settled key h' /\ (forall d, r = Ok d -> is_wrapped d = true /\ unwrap_with_key d key = Ok p) /\
  (Zlen p <= aead_max Aes256Gcm -> is_ok r = true).
Proof.
  intros Hs. unfold wrap_at_rest, local_protection_key.
  destruct (settled_cached key Seal h Hs) as (h1 & -> & H1s).
  destruct (wrap_with_key p key (h_rng h1)) as [s r1] eqn:Ew. intros [= <- <-]. split; [|split].
  - eapply settled_slot; [exact H1s | done | exact (st_cache key h1 H1s)].
  - intros d ->. by apply wrap_with_key_ok in Ew as (? & ? & _).
  - intros Hp. destruct (wrap_with_key_total p key (h_rng h1) Hp) as (d & r2 & E).
    rewrite E in Ew. by injection Ew as <- _.
Qed.

Lemma settled_unwrap key d h r h' :
  settled key h -> unwrap_at_rest env d h = (r, h') ->
  settled key h' /\ (is_wrapped d = true -> r = unwrap_with_key d key).
Proof.
  intros Hs. unfold unwrap_at_rest. destruct (is_wrapped d); cbn [negb].
  - destruct (settled_cached key Open h Hs) as (h1 & -> & H1s). by intros [= <- <-].
  - by intros [= <- <-].
Qed.

Lemma settled_remint key h r h' :
  settled key h -> remint_local_protection_key env h = (r, h') -> settled key h' /\ r = Ok tt.
Proof.
  intros Hs. unfold remint_local_protection_key.
  destruct (settled_resolves key Remint h Hs) as (h1 & -> & E). intros [= <- <-]. split; [|done].
  eapply settled_slot; [exact Hs | exact E |]. right. by eexists.
Qed.

(** The log's payloads open under the key. *)
Definition opens (key : bytes) (pd : bytes * bytes) : Prop :=
  is_wrapped pd.2 = true /\ unwrap_with_key pd.2 key = Ok pd.1.

Lemma step_settled key h sealed h' :
  settled key h -> lpk_step h sealed h' -> settled key h' /\ Forall (opens key) sealed.
Proof.
  intros Hs. destruct 1 as [|f|p d h2 E|p e h2 E|d r h2 E|r h2 E].
  - split; [|done]. eapply settled_slot; [exact Hs|done|by left].
  - split; [|done]. eapply settled_slot; [exact Hs|done|exact (st_cache key h Hs)].
  - destruct (settled_wrap key p h _ _ Hs E) as (Hs2 & Hd & _). split; [done|].
    apply Forall_singleton. by apply (Hd d).
  - split; [|done]. by apply (settled_wrap key p h _ _ Hs E).
  - split; [|done]. by apply (settled_unwrap key d h _ _ Hs E).
  - split; [|done]. by apply (settled_remint key h _ _ Hs E).
Qed.

Lemma life_settled key h log h' :
  settled key h -> life h log h' -> settled key h' /\ Forall (opens key) log.
Proof.
  intros Hs. induction 1 as [|log h1 sealed h2 _ [IH Hl] E|log h1 k _ [IH Hl] En Eg]; [by split| |].
  - destruct (step_settled key h1 sealed h2 IH E) as [Hs2 Hd]. split; [done|]. by apply Forall_app.
  - split; [|done]. destruct IH as [Hn Hk Hc].
    split; cbn [with_slot h_slot h_cache]; [by rewrite En|by rewrite Eg|done].
Qed.

(** The first key the keyring gives settles the machine. *)
Lemma first_wrap_settles p h d h1 key :
  h_cache h = None -> wrap_at_rest env p h = (Ok d, h1) -> h_cache h1 = Some (key, OsKeyring) ->
  settled key h1.
Proof.
  intros Hc Hw Hk. unfold wrap_at_rest, local_protection_key, cached_lpk in Hw. rewrite Hc in Hw.
  destruct (resolve_host_lpk env Seal h) as [[[k src]|e] h0] eqn:Er; [|done].
  destruct (wrap_with_key p k _) as [[sd|] r1]; [|done]. injection Hw as -> <-.
  cbn [h_cache with_cache] in Hk. injection Hk as -> ->.
  unfold resolve_host_lpk, choose_lpk in Er. rewrite Hpersistent in Er. cbn [negb] in Er.
  destruct (kr_new (h_slot h)) eqn:En.
  2:{ cbn in Er. destruct (headless_lpk_from_env env (h_fs h)) as [[?|]|]; discriminate Er. }
  destruct (resolve_lpk lpk_minted_marker_path Seal h) as [[k|e] h2] eqn:E0.
  2:{ destruct (reports_missing e); [done|].
      destruct (headless_lpk_from_env env (h_fs h)) as [[?|]|]; discriminate Er. }
  injection Er as -> <-. split; cbn [h_slot h_cache with_cache].
  - by rewrite (resolve_lpk_new _ _ _ _ _ E0).
  - destruct (resolve_lpk_again _ _ _ _ _ h2 E0 eq_refl) as [h3 E]. unfold resolve_lpk in E.
    destruct (kr_get (h_slot h2)) as [[v|]|]; [|done|done]. exists v. split; [done|].
    destruct (decode_lpk v); [by injection E as ->|done].
  - right. by eexists.
Qed.

Lemma first_wrap_opens p h d h1 key :
  h_cache h = None -> wrap_at_rest env p h = (Ok d, h1) -> h_cache h1 = Some (key, OsKeyring) ->
  opens key (p, d).
Proof.
  intros Hc Hw Hk. unfold wrap_at_rest, local_protection_key, cached_lpk in Hw. rewrite Hc in Hw.
  destruct (resolve_host_lpk env Seal h) as [[[k src]|e] h0'] eqn:Er; [|done].
  destruct (wrap_with_key p k _) as [[sd|] r1] eqn:Ew; [|done]. injection Hw as -> <-.
  cbn [h_cache with_cache] in Hk. injection Hk as -> ->.
  by apply wrap_with_key_ok in Ew as (? & ? & _).
Qed.

End AtRest.

(** ** A concrete machine: two seals, a wiped file system, a restart, a re-mint *)

