(* ===== verification/Identity.v ===== *)
(** [passkey-core/src/identity/mod.rs], [identity/storage.rs] and
    [identity/export.rs]: OpenPGP identities and their files.

    A save or load runs on the {!KeyWrap.Host} of the process, because the
    secret key is sealed and opened under its protection key.  What the sources
    read of an OpenPGP certificate beyond {!Interfaces.PgpOps} is [CertOps]. *)

From S2P Require Import Prelude Bytes Utf8 Interfaces Toy Fs PasskeyError Users KeyWrap.

Definition SECRET_KEY_FILE : bytes := b "secret.pgp".
Definition PUBLIC_KEY_FILE : bytes := b "public.pgp".

(** [sequoia_openpgp]: building, serializing and naming certificates. *)
Class CertOps (Cert R : Type) : Type := {
  cert_generate : bytes -> R -> option Cert * R;    (* the v4 Cv25519 builder *)
  cert_tsk : Cert -> option bytes;                  (* with secret material *)
  cert_serialize : Cert -> option bytes;            (* without *)
  cert_secret_armor : Cert -> option bytes;
  cert_userids : Cert -> list bytes;
}.

(** Serializing with secret material loses nothing. *)
Class CertLaws (Cert R : Type) `{PgpOps Cert, CertOps Cert R} : Prop := {
  cert_parse_tsk c bs : cert_tsk c = Some bs -> cert_parse bs = Some c;
  cert_parse_armor c bs : cert_secret_armor c = Some bs -> cert_parse bs = Some c;
  cert_secret_armor_utf8 c bs : cert_secret_armor c = Some bs -> valid_utf8 bs = true;
  cert_generate_userid u (r : R) c r' :
    cert_generate u r = (Some c, r') -> cert_userids c = [u];
}.

Record Identity (Cert : Type) : Type := {
  cert : Cert;
  user_id : bytes;
}.
Arguments cert {Cert} _.
Arguments user_id {Cert} _.

(** [identity_exists_at] *)
Definition identity_exists_at (f : fs) (p : path) : bool := exists_ f (p ++ [SECRET_KEY_FILE]).

Section Identities.
  Context {Cert K R : Type} `{PgpOps Cert, CertOps Cert R}.
  Context `{HashOps, AeadOps, Base64Ops, Platform, LpkStore K, RngOps R}.
  Variable env : Env.

  Abbreviation host := (Host K R).
  Abbreviation prog A := (stateful host PasskeyError A).

Definition with_fs (f : fs) (h : host) : host :=
  {| h_cache := h_cache h; h_fs := f; h_slot := h_slot h; h_rng := h_rng h |}.

(** A file-system call whose failure becomes [err]. *)
Definition fs_do {E} (err : io_error -> E) (op : fs -> io fs) : stateful host E unit :=
  fun h => match op (h_fs h) with Ok f => (Ok tt, with_fs f h) | Err e => (Err (err e), h) end.

Definition generate (uid : bytes) : prog (Identity Cert) := fun h =>
  let '(c, r) := cert_generate uid (h_rng h) in
  (let? c := ok_or c (KeyGeneration "{e}") in Ok {| cert := c; user_id := uid |},
   {| h_cache := h_cache h; h_fs := h_fs h; h_slot := h_slot h; h_rng := r |}).

(** The user id of a parsed certificate. *)
Definition first_user_id (c : Cert) : bytes :=
  match cert_userids c with
  | u :: _ => default (b "unknown") (from_utf8 u)
  | [] => b "unknown"
  end.

Definition seal_secret_key (tsk : bytes) : prog bytes :=
  smap_err (fun _ => KeySave "refusing to write the secret key unsealed: the at-rest seal could not be made ({e}). Nothing was written.")
    (wrap_at_rest env tsk).

(** Setting the file mode is not modelled: it changes no content. *)
Definition save_to_with_sealer (i : Identity Cert) (p : path) (seal : bytes -> prog bytes) : prog unit :=
  let* tsk := sret (ok_or (cert_tsk (cert i)) (KeySave "Failed to write secret key: {}")) in
  let* secret_to_write := seal tsk in
  let* _ := fs_do (fun _ => KeySave "Failed to create directory {:?}: {}")
              (fun f => create_dir_all f p) in
  let* _ := fs_do (fun _ => KeySave "Failed to create {}: {}")
              (fun f => fs_write f (p ++ [SECRET_KEY_FILE]) secret_to_write) in
  let* _ := fs_do (fun _ => KeySave "Failed to create {}: {}")
              (fun f => fs_write f (p ++ [PUBLIC_KEY_FILE]) []) in
  let* public := sret (ok_or (cert_serialize (cert i)) (KeySave "Failed to write public key: {}")) in
  fs_do (fun _ => KeySave "Failed to write public key: {}")
    (fun f => fs_write f (p ++ [PUBLIC_KEY_FILE]) public).

Definition save_to (i : Identity Cert) (p : path) : prog unit :=
  save_to_with_sealer i p seal_secret_key.

Definition load_from (p : path) : prog (Identity Cert) :=
  let secret_path := p ++ [SECRET_KEY_FILE] in
  let* present := asks (fun h => exists_ (h_fs h) secret_path) in
  if negb present then sret (Err IdentityNotFound)
  else
    let* content := asks (fun h => fs_read (h_fs h) secret_path) in
    let* raw := sret (map_err (fun _ => KeyLoad "Failed to read {}: {}") content) in
    let* cert_data :=
      (if is_wrapped raw
       then smap_err (fun _ => KeyLoad "Failed to open sealed secret key: {}") (unwrap_at_rest env raw)
       else sret (Ok raw)) in
    let* c := sret (ok_or (cert_parse cert_data) (KeyLoad "Failed to parse certificate: {}")) in
    sret (Ok {| cert := c; user_id := first_user_id c |}).

Variable config : PasskeyConfig.

Definition identity_dir_of (username : bytes) : prog path := fun h =>
  (checked_identity_dir config (h_fs h) username, h).

Definition load_user (username : bytes) : prog (Identity Cert) :=
  let* p := identity_dir_of username in load_from p.

Definition save_for_user (i : Identity Cert) (username : bytes) : prog unit :=
  let* p := identity_dir_of username in save_to i p.

Definition exists_for_user (f : fs) (username : bytes) : bool :=
  match checked_identity_dir config f username with
  | Ok d => exists_ f (d ++ [SECRET_KEY_FILE])
  | Err _ => false
  end.

(** [identity/storage.rs] *)
Definition delete_identity_at (p : path) : prog unit :=
  let remove file : prog unit :=
    let* present := asks (fun h => exists_ (h_fs h) (p ++ [file])) in
    if present then fs_do Io (fun f => remove_file f (p ++ [file])) else sret (Ok tt) in
  let* _ := remove (b "secret.pgp") in
  remove (b "public.pgp").

Definition delete_user_identity (username : bytes) : prog unit :=
  let* p := identity_dir_of username in delete_identity_at p.

Definition ensure_identity_dir (username : bytes) : prog unit :=
  let* p := identity_dir_of username in fs_do Io (fun f => create_dir_all f p).
End Identities.

Section Naming.
  Context {Cert R : Type} `{PgpOps Cert, CertOps Cert R}.

Definition fingerprint (i : Identity Cert) : bytes := cert_fingerprint (cert i).

(** The last 16 bytes; a fingerprint is ASCII, so the slice is a string. *)
Definition key_id (i : Identity Cert) : bytes :=
  let fp := fingerprint i in
  if 16 <=? Zlen fp then drop (length fp - 16) fp else fp.

Definition usable_secret (purpose : key_view -> bool) (i : Identity Cert) : bool :=
  existsb (fun k => kv_supported k && kv_alive k && negb (kv_revoked k) && purpose k &&
                    match kv_secret k with Some _ => true | None => false end)
    (cert_keys (cert i)).

Definition has_encryption_key (i : Identity Cert) : bool := usable_secret kv_for_transport i.
Definition has_signing_key (i : Identity Cert) : bool := usable_secret kv_for_signing i.

Definition from_cert (c : Cert) (uid : bytes) : result PasskeyError (Identity Cert) :=
  Ok {| cert := c; user_id := uid |}.

(** [identity/export.rs].  An armored public key is the export of {!PgpOps}. *)
Definition export_public_key (i : Identity Cert) : result PasskeyError bytes :=
  let? out := ok_or (cert_public_armor (cert i)) (KeySave "Failed to serialize: {}") in
  ok_or (from_utf8 out) (KeySave "Invalid UTF-8: {}").

Definition export_secret_key (i : Identity Cert) : result PasskeyError bytes :=
  let? out := ok_or (cert_secret_armor (cert i)) (KeySave "Failed to serialize: {}") in
  ok_or (from_utf8 out) (KeySave "Invalid UTF-8: {}").

Definition from_armored_secret_key (armored : bytes) : result PasskeyError (Identity Cert) :=
  let? c := ok_or (cert_parse armored) (KeyLoad "Failed to parse armored key: {}") in
  Ok {| cert := c; user_id := first_user_id c |}.

Definition from_armored_public_key (armored : bytes) : result PasskeyError (Identity Cert) :=
  let? c := ok_or (cert_parse armored) (KeyLoad "Failed to parse armored key: {}") in
  Ok {| cert := c; user_id := first_user_id c |}.

Definition parse_public_key (armored : bytes) : result PasskeyError Cert :=
  ok_or (cert_parse armored) (InvalidPublicKey "Failed to parse public key: {}").
End Naming.

(** ** Lemmas *)

Section Files.
  Context {K R : Type}.

Lemma fs_do_inv {E} (err : io_error -> E) op (h : Host K R) r h' :
  fs_do err op h = (r, h') ->
  (exists f, op (h_fs h) = Ok f /\ r = Ok tt /\ h' = with_fs f h) \/
  (exists e, r = Err (err e) /\ h' = h).
Proof. unfold fs_do. destruct (op (h_fs h)); intros [= <- <-]; eauto. Qed.

(** A property of the file system is kept by a sequence whose calls keep it. *)
Lemma fs_do_state {E} (P : fs -> Prop) (err : io_error -> E) op (h : Host K R) :
  P (h_fs h) -> (forall f, op (h_fs h) = Ok f -> P f) -> P (h_fs (fs_do err op h).2).
Proof. unfold fs_do. destruct (op (h_fs h)); cbn; auto. Qed.

Lemma write_keeps (f f0 : fs) p c q d :
  fs_write f p c = Ok f0 -> fs_read f0 q = Ok d -> fs_read f q = Ok d \/ (q = p /\ d = c).
Proof.
  intros Hw. rewrite (fs_read_write _ _ _ _ q Hw). destruct (decide (q = p)); [|by left].
  intros [= ->]. by right.
Qed.

Lemma secret_ne_public (p : path) : p ++ [SECRET_KEY_FILE] <> p ++ [PUBLIC_KEY_FILE].
Proof. by intros [=]%app_inv_head. Qed.
End Files.

Section Saving.
  Context {Cert K R : Type} `{PgpOps Cert, CertOps Cert R}.
  Implicit Types h : Host K R.
  Implicit Types i : Identity Cert.

(** The save ended here, with an error. *)
Ltac stop := cbn; split; [done | split; [done | split; [by eauto 6 | done]]].

(** What a save did once the secret key was sealed as [d]: on success both
    files are there; in every case the secret file holds what it held or [d],
    and no third file changed. *)
Lemma save_after_seal i p (seal : bytes -> stateful (Host K R) PasskeyError bytes) h tsk d h0 r h' :
  cert_tsk (cert i) = Some tsk -> seal tsk h = (Ok d, h0) ->
  save_to_with_sealer i p seal h = (r, h') ->
  h_cache h' = h_cache h0 /\ h_slot h' = h_slot h0 /\
  (forall q c, fs_read (h_fs h') q = Ok c -> q <> p ++ [PUBLIC_KEY_FILE] ->
     fs_read (h_fs h0) q = Ok c \/ (q = p ++ [SECRET_KEY_FILE] /\ c = d)) /\
  (r = Ok tt -> fs_read (h_fs h') (p ++ [SECRET_KEY_FILE]) = Ok d /\
     exists pub, cert_serialize (cert i) = Some pub /\
       fs_read (h_fs h') (p ++ [PUBLIC_KEY_FILE]) = Ok pub).
Proof.
  intros Et Es. unfold save_to_with_sealer. rewrite Et. cbn [ok_or].
  erewrite sbind_Ok by reflexivity. rewrite (sbind_Ok _ _ _ _ _ Es).
  intros [([] & h1 & E & Hk)|(e & E & ->)]%sbind_inv;
    apply fs_do_inv in E as [(f1 & E1 & ? & ->)|(? & ? & ->)]; simplify_eq; [|by stop].
  apply create_dir_all_ok in E1 as (_ & _ & Hr1).
  assert (Hf1 : forall q c, fs_read f1 q = Ok c -> fs_read (h_fs h0) q = Ok c)
    by (intros q c; apply Hr1). clear Hr1.
  apply sbind_inv in Hk as [([] & h2 & E & Hk)|(e & E & ->)];
    apply fs_do_inv in E as [(f2 & E2 & ? & ->)|(? & ? & ->)]; simplify_eq;
    [|by stop].
  cbn [h_fs with_fs] in E2.
  assert (Hf2 : forall q c, fs_read f2 q = Ok c ->
            fs_read (h_fs h0) q = Ok c \/ (q = p ++ [SECRET_KEY_FILE] /\ c = d)).
  { intros q c Hq. destruct (write_keeps _ _ _ _ _ _ E2 Hq); auto. }
  pose proof (fs_read_write _ _ _ _ (p ++ [SECRET_KEY_FILE]) E2) as Hs.
  rewrite decide_True in Hs by done.
  apply sbind_inv in Hk as [([] & h3 & E & Hk)|(e & E & ->)];
    apply fs_do_inv in E as [(f3 & E3 & ? & ->)|(? & ? & ->)]; simplify_eq;
    [|by stop].
  cbn [h_fs with_fs] in E3.
  assert (Hf3 : forall q c, q <> p ++ [PUBLIC_KEY_FILE] -> fs_read f3 q = Ok c -> fs_read f2 q = Ok c).
  { intros q c Hne Hq. destruct (write_keeps _ _ _ _ _ _ E3 Hq) as [|[? _]]; done. }
  pose proof (fs_read_write _ _ _ _ (p ++ [SECRET_KEY_FILE]) E3) as Hs3.
  rewrite decide_False, Hs in Hs3 by apply secret_ne_public.
  destruct (cert_serialize (cert i)) as [pub|]; cbn [ok_or] in Hk.
  2:{ injection Hk as <- <-. stop. }
  erewrite sbind_Ok in Hk by reflexivity.
  apply fs_do_inv in Hk as [(f4 & E4 & -> & ->)|(? & -> & ->)]; [|by stop].
  cbn in *. split; [done|]. split; [done|]. split.
  - intros q c Hq Hne. apply Hf2, Hf3; [done|].
    destruct (write_keeps _ _ _ _ _ _ E4 Hq) as [|[? _]]; done.
  - intros _. rewrite !(fs_read_write _ _ _ _ _ E4).
    rewrite decide_False, decide_True by (done || apply secret_ne_public). eauto.
Qed.

(** A third file is kept. *)
Lemma save_keeps i p (seal : bytes -> stateful (Host K R) PasskeyError bytes) h q c :
  q <> p ++ [SECRET_KEY_FILE] -> q <> p ++ [PUBLIC_KEY_FILE] ->
  (forall tsk h, fs_read (h_fs h) q = Ok c -> fs_read (h_fs (seal tsk h).2) q = Ok c) ->
  fs_read (h_fs h) q = Ok c -> fs_read (h_fs (save_to_with_sealer i p seal h).2) q = Ok c.
Proof.
  intros Hs Hp Hseal. pose (P h := fs_read (h_fs h) q = Ok c).
  assert (Hw : forall err x d h, q <> x -> P h -> P (fs_do (E:=PasskeyError) err (fun f => fs_write f x d) h).2).
  { intros err x d h' Hne Hh. apply (fs_do_state (fun f => fs_read f q = Ok c)); [done|].
    intros f Hf. by rewrite (fs_read_write _ _ _ _ q Hf), decide_False. }
  intros Hh. unfold save_to_with_sealer.
  apply (sbind_state P); [done|]. intros tsk h1 H1q.
  apply (sbind_state P); [by apply Hseal|]. intros d h2 H2q.
  apply (sbind_state P).
  { apply (fs_do_state (fun f => fs_read f q = Ok c)); [done|].
    intros f (_ & _ & Hr)%create_dir_all_ok. by apply Hr. }
  intros _ h3 H3q. apply (sbind_state P); [by apply Hw|]. intros _ h4 H4q.
  apply (sbind_state P); [by apply Hw|]. intros _ h5 H5q.
  apply (sbind_state P); [done|]. intros pub h6 H6q. by apply Hw.
Qed.

Lemma save_seal_fails i p (seal : bytes -> stateful (Host K R) PasskeyError bytes) h tsk e h0 :
  cert_tsk (cert i) = Some tsk -> seal tsk h = (Err e, h0) ->
  save_to_with_sealer i p seal h = (Err e, h0).
Proof.
  intros Et Es. unfold save_to_with_sealer. rewrite Et. cbn [ok_or].
  erewrite sbind_Ok by reflexivity. by apply sbind_Err.
Qed.
End Saving.

(** ** Properties *)

Section Properties.
  Context {Cert K R : Type} `{CertLaws Cert R}.
  Context `{HashOps, AeadLaws, Base64Ops, Platform, LpkStoreLaws K, RngLaws R}.
  Variable env : Env.
  Implicit Types h : Host K R.
  Implicit Types i : Identity Cert.

(** C18: A secret key never reaches the disk unsealed.  When the at-rest seal
    fails, saving returns that error and does nothing more, not even the
    directory; when it succeeds, whatever happens later the secret file holds
    what it held or the sealed payload, no file but the two of the identity
    changes, and a save that returns has written both. *)
Theorem identity_save_sealed i p h r h' tsk :
  cert_tsk (cert i) = Some tsk -> save_to env i p h = (r, h') ->
  match seal_secret_key env tsk h with
  | (Err e, h0) => r = Err e /\ h' = h0
  | (Ok d, h0) =>
      is_wrapped d = true /\
      (forall q c, fs_read (h_fs h') q = Ok c -> q <> p ++ [PUBLIC_KEY_FILE] ->
         fs_read (h_fs h0) q = Ok c \/ (q = p ++ [SECRET_KEY_FILE] /\ c = d)) /\
      (r = Ok tt -> fs_read (h_fs h') (p ++ [SECRET_KEY_FILE]) = Ok d /\
         exists pub, cert_serialize (cert i) = Some pub /\
           fs_read (h_fs h') (p ++ [PUBLIC_KEY_FILE]) = Ok pub)
  end.
Proof.
  intros Et Hs. destruct (seal_secret_key env tsk h) as [[d|e] h0] eqn:Es.
  - unfold save_to in Hs. destruct (save_after_seal _ _ _ _ _ _ _ _ _ Et Es Hs) as (_ & _ & Hf & Hok).
    split; [|by split]. unfold seal_secret_key, smap_err in Es.
    destruct (wrap_at_rest env tsk h) as [[d'|] h1] eqn:Ew; [|done]. injection Es as -> ->.
    unfold wrap_at_rest in Ew. destruct (local_protection_key env h) as [[key|] h2]; [|done].
    destruct (wrap_with_key tsk key (h_rng h2)) as [[s|] r1] eqn:Ek; [|done].
    injection Ew as -> _. by apply wrap_with_key_ok in Ek as (? & _).
  - unfold save_to in Hs. rewrite (save_seal_fails _ _ _ _ _ _ _ Et Es) in Hs.
    by injection Hs as <- <-.
Qed.

(** Loading what a save that returned left, in a process with an empty cache. *)
Lemma saved_loads i p h h1 :
  h_cache h = None -> save_to env i p h = (Ok tt, h1) ->
  (exists k, h_cache h1 = Some (k, OsKeyring)) \/
  (os_keyring_persistent env = false /\ headless_secret_file env = None) ->
  exists h2, load_from env p (with_cache None h1) =
    (Ok {| cert := cert i; user_id := first_user_id (cert i) |}, h2).
Proof.
  intros Hc Hs Hsrc. destruct (cert_tsk (cert i)) as [tsk|] eqn:Et.
  2:{ unfold save_to, save_to_with_sealer in Hs. rewrite Et in Hs. discriminate Hs. }
  destruct (seal_secret_key env tsk h) as [[d|e] h0] eqn:Es.
  2:{ unfold save_to in Hs. by rewrite (save_seal_fails _ _ _ _ _ _ _ Et Es) in Hs. }
  unfold save_to in Hs.
  destruct (save_after_seal _ _ _ _ _ _ _ _ _ Et Es Hs) as (Hk & Hsl & _ & [Hr _]); [done|].
  unfold seal_secret_key, smap_err in Es.
  destruct (wrap_at_rest env tsk h) as [[d'|] h0'] eqn:Ew; [|done]. injection Es as -> ->.
  destruct (wrap_reopen env tsk h d h0 (with_cache None h1) Hc Ew) as (Hw & _ & h3 & Hu);
    [|done|exact Hsl|].
  { rewrite Hk in Hsrc. destruct Hsrc as [?|[Hp Hf]]; [by left|]. right. split; [done|].
    by apply headless_env_only. }
  exists h3. unfold load_from. erewrite sbind_Ok by reflexivity. cbn [h_fs with_cache].
  rewrite (exists_read _ _ _ Hr). cbn [negb].
  erewrite sbind_Ok by reflexivity. cbn [h_fs with_cache]. rewrite Hr. cbn [map_err].
  erewrite sbind_Ok by reflexivity. rewrite Hw.
  erewrite sbind_Ok by (unfold smap_err; rewrite Hu; reflexivity).
  by rewrite (cert_parse_tsk _ _ Et).
Qed.

(** A saved identity loads back in a later process: the same certificate,
    with the user id its first user-id packet carries, when the protection key
    came from the OS keyring or from the headless secret of the environment. *)
Theorem identity_save_load i p h h1 :
  h_cache h = None -> save_to env i p h = (Ok tt, h1) ->
  (exists k, h_cache h1 = Some (k, OsKeyring)) \/
  (os_keyring_persistent env = false /\ headless_secret_file env = None) ->
  exists h2, load_from env p (with_cache None h1) =
    (Ok {| cert := cert i; user_id := first_user_id (cert i) |}, h2).
Proof. apply saved_loads. Qed.
End Properties.

(** ** Certificates that are their own user id *)

#[export] Instance toy_certs : CertOps bytes Z := {|
  cert_generate u r := (match u with [] => None | _ => Some u end, r + 1);
  cert_tsk c := match c with [] => None | _ => Some c end;
  cert_serialize c := match c with [] => None | _ => Some (b "public " ++ c) end;
  cert_secret_armor c := match c with [] => None | _ => if valid_utf8 c then Some c else None end;
  cert_userids c := [c];
|}.

#[export] Instance toy_cert_laws : CertLaws bytes Z.
Proof.
  split; cbn.
  - by intros [|? ?] bs; intros [= <-].
  - intros [|? ?] bs; [done|]. destruct (valid_utf8 _); by intros [= <-].
  - intros [|x c] bs; [done|]. destruct (valid_utf8 (x :: c)) eqn:E; by intros [= <-].
  - by intros [|? ?] r c r'; intros [= <- _].
Qed.

Definition alice : Identity bytes := {| cert := b "alice@example.com"; user_id := b "alice" |}.
Definition alice_dir : path := [b "home"; b ".config"; b "gitcellar"; b "users"; b "alice"].

(** On a machine whose keyring cannot be written and that has no headless
    secret, the files stay as they were. *)
Lemma identity_save_sealed_witness :
  let env := {| os_keyring_persistent := true; headless_secret := None; headless_secret_file := None |} in
  let s := save_to env alice alice_dir (demo_host (ReadOnly None)) in
  is_err s.1 = true /\ s.2 = (seal_secret_key env (b "alice@example.com") (demo_host (ReadOnly None))).2.
Proof.
  intros env s. assert (Hd : is_err s.1 = true) by (vm_compute; reflexivity). split; [exact Hd|].
  pose proof (identity_save_sealed env alice alice_dir (demo_host (ReadOnly None)) s.1 s.2
    (b "alice@example.com") eq_refl (surjective_pairing _)) as E.
  assert (Hs : is_err (seal_secret_key env (b "alice@example.com") (demo_host (ReadOnly None))).1 = true)
    by (vm_compute; reflexivity).
  destruct (seal_secret_key env _ _) as [[d|e] h0]; [discriminate Hs|]. destruct E as [_ E]. exact E.
Defined.

Lemma identity_save_load_witness :
  exists h2, load_from (demo_env true) alice_dir
    (with_cache None (save_to (demo_env true) alice alice_dir (demo_host (@None bytes))).2) =
    (Ok {| cert := cert alice; user_id := first_user_id (cert alice) |}, h2) /\
    first_user_id (cert alice) = b "alice@example.com".
Proof.
  pose (s := save_to (demo_env true) alice alice_dir (demo_host (@None bytes))).
  assert (Es : s.1 = Ok tt) by (vm_compute; reflexivity).
  destruct (identity_save_load (demo_env true) alice alice_dir (demo_host (@None bytes)) s.2)
    as [h2 E].
  - reflexivity.
  - rewrite <- Es. apply surjective_pairing.
  - left. exists (replicate 32 (as_u8 9)). vm_compute. reflexivity.
  - exists h2. split; [exact E | vm_compute; reflexivity].
Defined.
