(* ===== verification/Keystore.v ===== *)
(** [gitcellar-crypto/src/keystore.rs]: the device-key store.

    [KeystoreBackend] is the trait, with the contract its callers rely on;
    [FileSystemKeystore] is the one backend, over the host whose protection key
    seals the device seed.  Secret buffers are values here: wiping them is not
    modelled, and neither is the file mode. *)

From S2P Require Import Prelude Bytes Utf8 Interfaces Toy Fs Users KeyWrap Identity Certs.

Definition DEVICE_PRIVATE_FILENAME : bytes := b "device.key.bin".
Definition DEVICE_PUBLIC_FILENAME : bytes := b "device.pub.bin".
Definition DEVICE_CERT_FILENAME : bytes := b "device-cert.bin".
Definition MASTER_PUBLIC_FILENAME : bytes := b "master.pub.bin".

Inductive KeystoreError : Type :=
  | Unavailable
  | SealUnavailable (m : string)
  | NotInitialized
  | NoCertificate
  | NoMasterPubkey
  | Io (e : io_error)
  | InvalidKey (m : string)
  | Cert (m : string).

#[export] Instance KeystoreError_eq_dec : EqDecision KeystoreError.
Proof. solve_decision. Defined.

(** ** The trait *)

Class KeystoreBackend (S : Type) : Type := {
  available : S -> bool;
  generate_device_keypair : stateful S KeystoreError bytes;
  sign : bytes -> stateful S KeystoreError bytes;
  export_pubkey : stateful S KeystoreError bytes;
  export_cert : stateful S KeystoreError DeviceCert.DeviceCertificate;
  import_cert : DeviceCert.DeviceCertificate -> stateful S KeystoreError unit;
  export_master_pubkey : stateful S KeystoreError bytes;
  import_master_pubkey : bytes -> stateful S KeystoreError unit;
}.

(** Generating is idempotent and agrees with the exported key; what is imported
    is what is exported, and only a curve point is imported as a master key. *)
Class KeystoreContract (S : Type) `{KeystoreBackend S} (well : bytes -> bool) : Prop := {
  generate_export s pk s' :
    generate_device_keypair s = (Ok pk, s') -> (export_pubkey s').1 = Ok pk;
  generate_again s pk s' :
    generate_device_keypair s = (Ok pk, s') -> generate_device_keypair s' = (Ok pk, s');
  import_export_cert c s s' : import_cert c s = (Ok tt, s') -> (export_cert s').1 = Ok c;
  import_export_master pk s s' :
    length pk = 32%nat -> import_master_pubkey pk s = (Ok tt, s') ->
    well pk = true /\ (export_master_pubkey s').1 = Ok pk;
}.

(** ** The file-system backend *)

Record FileSystemKeystore (K R : Type) : Type := {
  identity_dir : path;
  cached_pubkey : option bytes;
  ks_host : Host K R;
}.
Arguments identity_dir {K R} _.
Arguments cached_pubkey {K R} _.
Arguments ks_host {K R} _.

Section Keystore.
  Context `{HashOps, AeadOps, Base64Ops, Ed25519Ops, Platform} {K R : Type}.
  Context `{LpkStore K, RngOps R, Codec DeviceCert.DeviceCertificate}.
  Variable env : Env.

  Abbreviation host := (Host K R).
  Abbreviation store := (FileSystemKeystore K R).

Definition try_seal_device_seed_at_rest (seed : bytes) : stateful host KeystoreError bytes :=
  smap_err (fun _ => SealUnavailable "{e}") (wrap_at_rest env seed).

Definition open_device_seed_at_rest (raw : bytes) : stateful host KeystoreError bytes :=
  if is_wrapped raw
  then smap_err (fun _ => InvalidKey "device seed at-rest open failed: {e}") (unwrap_at_rest env raw)
  else sret (Ok raw).

(** A [SigningKey] is its 32-byte seed. *)
Definition signing_key_from_seed (seed : bytes) : result KeystoreError bytes :=
  if Zlen seed =? 32 then Ok seed else Err (InvalidKey "device private key is not 32 bytes").

Definition on_host {E A} (m : stateful host E A) : stateful store E A := fun s =>
  let '(r, h) := m (ks_host s) in
  (r, {| identity_dir := identity_dir s; cached_pubkey := cached_pubkey s; ks_host := h |}).

Definition fs_of (s : store) : fs := h_fs (ks_host s).
Definition in_dir (name : bytes) (s : store) : path := identity_dir s ++ [name].

Definition new (dir : path) (h : host) : store :=
  {| identity_dir := dir; cached_pubkey := None; ks_host := h |}.

Definition ensure_dir : stateful store KeystoreError unit := fun s =>
  on_host (fs_do Io (fun f => create_dir_all f (identity_dir s))) s.

Definition tmp_path (target : path) : path :=
  default [] (parent target) ++ [default (b "file") (file_name target ≫= from_utf8) ++ b ".tmp"].

Definition write_atomic (target : path) (contents : bytes) : stateful store KeystoreError unit :=
  let* _ := on_host (fs_do Io (fun f => fs_write f (tmp_path target) contents)) in
  on_host (fs_do Io (fun f => rename f (tmp_path target) target)).

Definition read_file (p : path) : stateful store KeystoreError bytes := fun s =>
  (map_err Io (fs_read (fs_of s) p), s).

Definition read_signing_key : stateful store KeystoreError bytes :=
  let* p := asks (in_dir DEVICE_PRIVATE_FILENAME) in
  let* present := asks (fun s => exists_ (fs_of s) p) in
  if negb present then sret (Err NotInitialized)
  else
    let* raw := read_file p in
    let* seed := on_host (open_device_seed_at_rest raw) in
    sret (signing_key_from_seed seed).

(** A stored public key, checked on the way out. *)
Definition read_point (p : path) (absent : KeystoreError) (bad : string)
    : stateful store KeystoreError bytes :=
  let* present := asks (fun s => exists_ (fs_of s) p) in
  if negb present then sret (Err absent)
  else
    let* bs := read_file p in
    if negb (Zlen bs =? 32) then sret (Err (InvalidKey bad))
    else if negb (ed_point bs) then sret (Err (InvalidKey "{e}"))
    else sret (Ok bs).

Definition fs_export_pubkey : stateful store KeystoreError bytes := fun s =>
  match cached_pubkey s with
  | Some p => (Ok p, s)
  | None => read_point (in_dir DEVICE_PUBLIC_FILENAME s) NotInitialized
              "device public key is not 32 bytes" s
  end.

Definition draw (n : nat) : stateful host KeystoreError bytes := fun h =>
  let '(bs, r) := fill_bytes n (h_rng h) in
  (Ok bs, {| h_cache := h_cache h; h_fs := h_fs h; h_slot := h_slot h; h_rng := r |}).

(** With the sealer of the store; {!try_seal_device_seed_at_rest} outside tests. *)
Definition fs_generate_device_keypair (sealer : bytes -> stateful host KeystoreError bytes)
    : stateful store KeystoreError bytes :=
  let* _ := ensure_dir in
  let* private := asks (in_dir DEVICE_PRIVATE_FILENAME) in
  let* public := asks (in_dir DEVICE_PUBLIC_FILENAME) in
  let* present := asks (fun s => exists_ (fs_of s) private && exists_ (fs_of s) public) in
  if present then fs_export_pubkey
  else
    let* secret_bytes := on_host (draw 32) in
    let pubkey := ed_public secret_bytes in
    let* sealed := on_host (sealer secret_bytes) in
    let* _ := write_atomic private sealed in
    let* _ := write_atomic public pubkey in
    fun s => (Ok pubkey, {| identity_dir := identity_dir s; cached_pubkey := Some pubkey;
                            ks_host := ks_host s |}).

Definition fs_sign (message : bytes) : stateful store KeystoreError bytes :=
  let* key := read_signing_key in
  sret (Ok (ed_sign key message)).

Definition fs_export_cert : stateful store KeystoreError DeviceCert.DeviceCertificate :=
  let* p := asks (in_dir DEVICE_CERT_FILENAME) in
  let* present := asks (fun s => exists_ (fs_of s) p) in
  if negb present then sret (Err NoCertificate)
  else
    let* bs := read_file p in
    sret (map_err (fun _ => Cert "{e}") (DeviceCert.from_cbor bs)).

Definition fs_import_cert (c : DeviceCert.DeviceCertificate) : stateful store KeystoreError unit :=
  let* _ := ensure_dir in
  let* bs := sret (map_err (fun _ => Cert "{e}") (DeviceCert.to_cbor c)) in
  let* p := asks (in_dir DEVICE_CERT_FILENAME) in
  write_atomic p bs.

Definition fs_export_master_pubkey : stateful store KeystoreError bytes := fun s =>
  read_point (in_dir MASTER_PUBLIC_FILENAME s) NoMasterPubkey "master public key is not 32 bytes" s.

Definition fs_import_master_pubkey (master_pubkey : bytes) : stateful store KeystoreError unit :=
  let* _ := ensure_dir in
  if negb (ed_point master_pubkey) then sret (Err (InvalidKey "{e}"))
  else
    let* p := asks (in_dir MASTER_PUBLIC_FILENAME) in
    write_atomic p master_pubkey.

Definition filesystem_keystore (sealer : bytes -> stateful host KeystoreError bytes)
    : KeystoreBackend store := {|
  available _ := true;
  generate_device_keypair := fs_generate_device_keypair sealer;
  sign := fs_sign;
  export_pubkey := fs_export_pubkey;
  export_cert := fs_export_cert;
  import_cert := fs_import_cert;
  export_master_pubkey := fs_export_master_pubkey;
  import_master_pubkey := fs_import_master_pubkey;
|}.
End Keystore.

(** ** Lemmas *)

Section Files.
  Context {K R : Type}.
  Implicit Types s : FileSystemKeystore K R.

Definition set_fs (f : fs) s : FileSystemKeystore K R :=
  {| identity_dir := identity_dir s; cached_pubkey := cached_pubkey s;
     ks_host := with_fs f (ks_host s) |}.

(** The store's directory is there, with the directories above it. *)
Definition dir_ready s : Prop :=
  forall q, q ∈ prefixes (identity_dir s) -> node_at (fs_of s) q = Some Dir.

Lemma set_fs_id s : set_fs (fs_of s) s = s.
Proof. by destruct s as [d c []]. Qed.

Lemma on_fs_inv op s r s' :
  on_host (fs_do Io op) s = (r, s') ->
  (exists f, op (fs_of s) = Ok f /\ r = Ok tt /\ s' = set_fs f s) \/
  (exists e, r = Err (Io e) /\ s' = s).
Proof.
  unfold on_host. destruct (fs_do Io op (ks_host s)) as [r0 h0] eqn:E.
  apply fs_do_inv in E as [(f & E & -> & ->)|(e & -> & ->)]; intros [= <- <-].
  - left. by exists f.
  - right. exists e. by destruct s.
Qed.

Lemma ensure_dir_Ok s s' :
  ensure_dir s = (Ok tt, s') ->
  exists f, s' = set_fs f s /\ dir_ready s' /\
    (forall q c, fs_read f q = Ok c <-> fs_read (fs_of s) q = Ok c).
Proof.
  intros [(f & E & _ & ->)|(e & [=] & _)]%on_fs_inv. exists f. split; [done|]. split.
  - intros q Hq. by apply (create_dir_all_prefixes _ _ _ _ E).
  - by apply create_dir_all_ok in E as (_ & _ & Hr).
Qed.

Lemma ensure_dir_ready s : dir_ready s -> ensure_dir s = (Ok tt, s).
Proof.
  intros Hd. unfold ensure_dir, on_host, fs_do. fold (fs_of s).
  rewrite (create_dir_all_id _ _ Hd). f_equal. apply set_fs_id.
Qed.

Lemma tmp_path_in_dir n s : valid_utf8 n = true ->
  tmp_path (in_dir n s) = identity_dir s ++ [n ++ b ".tmp"].
Proof.
  intros Hv. unfold tmp_path, in_dir, file_name. rewrite parent_snoc, last_snoc. cbn.
  unfold from_utf8. by rewrite Hv.
Qed.

Lemma write_atomic_Ok n p c s s' :
  valid_utf8 n = true -> p = in_dir n s -> write_atomic p c s = (Ok tt, s') ->
  exists f, s' = set_fs f s /\
    (forall q, node_at (fs_of s) q = Some Dir -> node_at f q = Some Dir) /\
    (forall q, fs_read f q =
       if decide (q = p) then Ok c
       else if decide (q = identity_dir s ++ [n ++ b ".tmp"]) then Err NotFound
       else fs_read (fs_of s) q).
Proof.
  intros Hv ->. unfold write_atomic. rewrite tmp_path_in_dir by done.
  intros ([] & s1 & E1 & E2)%sbind_Ok_inv.
  apply on_fs_inv in E1 as [(f1 & E1 & _ & ->)|(? & [=] & _)].
  apply on_fs_inv in E2 as [(f2 & E2 & _ & ->)|(? & [=] & _)].
  exists f2. split; [done|]. split.
  - intros q Hq. apply (rename_dir _ _ _ _ _ E2). by apply (fs_write_dir _ _ _ _ _ E1).
  - intros q. apply (write_rename (fs_of s) f1 f2); [|done|done].
    unfold in_dir. intros [= E]%app_inv_head. apply (f_equal length) in E.
    rewrite length_app in E. cbn in E. lia.
Qed.
End Files.

Section Backend.
  Context `{HashOps, AeadOps, Base64Ops, Ed25519Laws, Platform} {K R : Type}.
  Context `{LpkStore K, RngLaws R, CodecLaws DeviceCert.DeviceCertificate}.
  Implicit Types s : FileSystemKeystore K R.

(** Reading leaves the store as it was. *)
Lemma read_point_pure p absent bad s : (read_point p absent bad s).2 = s.
Proof.
  unfold read_point, sbind, asks, sret, read_file. destruct (exists_ (fs_of s) p); [|done].
  cbn [negb]. destruct (fs_read (fs_of s) p) as [bs|e]; [|done]. cbn [map_err].
  destruct (Zlen bs =? 32); [|done]. cbn [negb]. by destruct (ed_point bs).
Qed.

Lemma export_pubkey_pure s : (fs_export_pubkey s).2 = s.
Proof. unfold fs_export_pubkey. destruct (cached_pubkey s); [done | apply read_point_pure]. Qed.

Lemma read_point_Ok p absent bad s pk :
  fs_read (fs_of s) p = Ok pk -> length pk = 32%nat -> ed_point pk = true ->
  read_point p absent bad s = (Ok pk, s).
Proof.
  intros Hr Hl Hp. unfold read_point, sbind, asks, sret, read_file.
  rewrite (exists_read _ _ _ Hr).
  cbn [negb]. rewrite Hr. cbn [map_err]. rewrite Hl. cbn [Z.eqb negb]. by rewrite Hp.
Qed.

Definition key_files_present s : bool :=
  exists_ (fs_of s) (in_dir DEVICE_PRIVATE_FILENAME s) &&
  exists_ (fs_of s) (in_dir DEVICE_PUBLIC_FILENAME s).

Variable sealer : bytes -> stateful (Host K R) KeystoreError bytes.

(** A successful generation either found both files or made and stored a pair. *)
Lemma generate_Ok s pk s' :
  fs_generate_device_keypair sealer s = (Ok pk, s') ->
  exists s1, ensure_dir s = (Ok tt, s1) /\
  ((key_files_present s1 = true /\ s' = s1 /\ fs_export_pubkey s1 = (Ok pk, s1)) \/
   (key_files_present s1 = false /\ exists seed r sealed h f,
     fill_bytes 32 (h_rng (ks_host s1)) = (seed, r) /\ pk = ed_public seed /\
     sealer seed {| h_cache := h_cache (ks_host s1); h_fs := h_fs (ks_host s1);
                    h_slot := h_slot (ks_host s1); h_rng := r |} = (Ok sealed, h) /\
     s' = {| identity_dir := identity_dir s; cached_pubkey := Some pk; ks_host := with_fs f h |} /\
     fs_read f (in_dir DEVICE_PRIVATE_FILENAME s) = Ok sealed /\
     fs_read f (in_dir DEVICE_PUBLIC_FILENAME s) = Ok pk /\
     (forall q, node_at (h_fs h) q = Some Dir -> node_at f q = Some Dir))).
Proof.
  unfold fs_generate_device_keypair. intros ([] & s1 & E1 & E)%sbind_Ok_inv.
  exists s1. split; [done|].
  assert (Hid : identity_dir s1 = identity_dir s)
    by (by apply ensure_dir_Ok in E1 as (f & -> & _)).
  do 3 (erewrite sbind_Ok in E by reflexivity). fold (key_files_present s1) in E.
  destruct (key_files_present s1).
  { left. split; [done|]. pose proof (export_pubkey_pure s1) as Hp. rewrite E in Hp.
    cbn in Hp. by subst s'. }
  right. split; [done|]. apply sbind_Ok_inv in E as (seed & s2 & E2 & E).
  unfold on_host, draw in E2. destruct (fill_bytes 32 _) as [seed' r] eqn:Er.
  injection E2 as <- <-. apply sbind_Ok_inv in E as (sealed & s3 & E3 & E).
  unfold on_host in E3. cbn [ks_host identity_dir cached_pubkey] in E3.
  destruct (sealer seed' _) as [[sl|] h] eqn:Es; [|done]. injection E3 as -> <-.
  apply sbind_Ok_inv in E as ([] & s4 & E4 & E).
  apply (write_atomic_Ok DEVICE_PRIVATE_FILENAME) in E4 as (f4 & -> & Hd4 & Hf4); [|by_eval|done].
  apply sbind_Ok_inv in E as ([] & s5 & E5 & E).
  apply (write_atomic_Ok DEVICE_PUBLIC_FILENAME) in E5 as (f5 & -> & Hd5 & Hf5); [|by_eval|done].
  injection E as <- <-. exists seed', r, sealed, h, f5.
  unfold in_dir in *. cbn [identity_dir ks_host set_fs fs_of h_fs with_fs] in *.
  rewrite Hid in *. split; [done|]. split; [done|]. split; [done|]. split; [done|].
  split; [|split; [|auto]].
  - rewrite (Hf5 (_ ++ [DEVICE_PRIVATE_FILENAME])), decide_False, decide_False, Hf4.
    + by rewrite decide_True.
    + by intros [=]%app_inv_head.
    + by intros [=]%app_inv_head.
  - by rewrite (Hf5 (_ ++ [DEVICE_PUBLIC_FILENAME])), decide_True.
Qed.

(** With a sealer that keeps the directories, the store is ready afterwards. *)
Lemma generate_ready s pk s' :
  (forall seed h q, node_at (h_fs h) q = Some Dir ->
     node_at (h_fs (sealer seed h).2) q = Some Dir) ->
  fs_generate_device_keypair sealer s = (Ok pk, s') ->
  dir_ready s' /\ key_files_present s' = true /\ fs_export_pubkey s' = (Ok pk, s').
Proof.
  intros Hkeep (s1 & E1 & [(Hk & -> & He)|(Hk & seed & r & sealed & h & f & _ & _ & Es & -> & Hpr & Hpu & Hd)])%generate_Ok;
    apply ensure_dir_Ok in E1 as (f1 & -> & Hready & _); [done|]. split; [|split; [|done]].
  - intros q Hq. apply Hd. match type of Es with sealer _ ?h0 = _ =>
      specialize (Hkeep seed h0 q (Hready q Hq)) end. by rewrite Es in Hkeep.
  - unfold key_files_present, fs_of, in_dir in *. cbn [ks_host identity_dir h_fs with_fs] in *.
    by rewrite (exists_read _ _ _ Hpr), (exists_read _ _ _ Hpu).
Qed.
End Backend.

(** ** Properties *)

Section Properties.
  Context `{HashOps, AeadLaws, Base64Ops, Ed25519Laws, Platform} {K R : Type}.
  Context `{LpkStoreLaws K, RngLaws R, CodecLaws DeviceCert.DeviceCertificate}.
  Variable env : Env.
  Implicit Types s : FileSystemKeystore K R.

(** C20: The file-system backend honours the contract of the trait, with its
    production sealer: a generation that returns is idempotent and agrees with
    the exported key, an imported certificate or master key is what is exported,
    and a master key that is no curve point is refused. *)
Theorem filesystem_keystore_contract :
  @KeystoreContract (FileSystemKeystore K R)
    (filesystem_keystore env (try_seal_device_seed_at_rest env)) ed_point.
Proof.
  assert (Hkeep : forall seed (h : Host K R) q, node_at (h_fs h) q = Some Dir ->
            node_at (h_fs (try_seal_device_seed_at_rest env seed h).2) q = Some Dir).
  { intros seed h q Hq. unfold try_seal_device_seed_at_rest, smap_err.
    pose proof (wrap_dirs q env seed h Hq) as Hw. by destruct (wrap_at_rest env seed h). }
  split; cbn [generate_device_keypair export_pubkey import_cert export_cert
    import_master_pubkey export_master_pubkey filesystem_keystore].
  - intros s pk s' (_ & _ & He)%generate_ready; [by rewrite He | done].
  - intros s pk s' (Hd & Hk & He)%generate_ready; [|done]. unfold fs_generate_device_keypair.
    rewrite (sbind_Ok _ _ _ _ _ (ensure_dir_ready _ Hd)).
    do 3 (erewrite sbind_Ok by reflexivity). fold (key_files_present s'). by rewrite Hk.
  - intros c s s'. unfold fs_import_cert. intros ([] & s1 & E1 & E)%sbind_Ok_inv.
    destruct (ser c) as [bs|] eqn:Ec; unfold DeviceCert.to_cbor in E; rewrite Ec in E; [|done].
    do 2 (erewrite sbind_Ok in E by reflexivity).
    apply (write_atomic_Ok DEVICE_CERT_FILENAME) in E as (f & -> & _ & Hf); [|by_eval|done].
    specialize (Hf (in_dir DEVICE_CERT_FILENAME s1)). rewrite decide_True in Hf by done.
    unfold fs_export_cert. do 2 (erewrite sbind_Ok by reflexivity; cbv beta).
    change (in_dir _ (set_fs f s1)) with (in_dir DEVICE_CERT_FILENAME s1).
    change (fs_of (set_fs f s1)) with f. rewrite (exists_read _ _ _ Hf). cbn [negb].
    erewrite sbind_Ok by (unfold read_file; change (fs_of (set_fs f s1)) with f; by rewrite Hf).
    unfold DeviceCert.from_cbor. by rewrite (de_ser _ _ Ec).
  - intros pk s s' Hl. unfold fs_import_master_pubkey. intros ([] & s1 & E1 & E)%sbind_Ok_inv.
    destruct (ed_point pk) eqn:Ep; cbn [negb] in E; [|done]. split; [done|].
    erewrite sbind_Ok in E by reflexivity.
    apply (write_atomic_Ok MASTER_PUBLIC_FILENAME) in E as (f & -> & _ & Hf); [|by_eval|done].
    specialize (Hf (in_dir MASTER_PUBLIC_FILENAME s1)). rewrite decide_True in Hf by done.
    unfold fs_export_master_pubkey. by rewrite (read_point_Ok _ _ _ _ pk).
Qed.

(** A generated device key is usable after a restart, and was never written
    unsealed.  When the key files were not both there and generation returns,
    the private file holds a sealed payload; a later process with empty caches
    exports the same public key and signs under it, when the protection key
    came from the OS keyring or from the headless secret of the environment.
    When the seal fails, generation fails with the host as the seal left it:
    nothing but the directory was written. *)
Theorem keystore_generate_sign s s1 r s' m :
  h_cache (ks_host s) = None -> ensure_dir s = (Ok tt, s1) -> key_files_present s1 = false ->
  fs_generate_device_keypair (try_seal_device_seed_at_rest env) s = (r, s') ->
  (forall pk, r = Ok pk ->
     (exists k, h_cache (ks_host s') = Some (k, OsKeyring)) \/
     (os_keyring_persistent env = false /\ headless_secret_file env = None) ->
     let later := new (identity_dir s) (with_cache None (ks_host s')) in
     (exists d, fs_read (fs_of s') (in_dir DEVICE_PRIVATE_FILENAME s) = Ok d /\ is_wrapped d = true) /\
     (fs_export_pubkey later).1 = Ok pk /\
     exists sig, (fs_sign env m later).1 = Ok sig /\ ed_verify_strict pk m sig = true) /\
  (let seed := (fill_bytes 32 (h_rng (ks_host s1))).1 in
   let w := wrap_at_rest env seed (draw 32 (ks_host s1)).2 in
   is_err w.1 = true -> r = Err (SealUnavailable "{e}") /\ ks_host s' = w.2).
Proof.
  intros Hc E1 Hn Hg. split.
  - intros pk -> Hsrc later.
    apply generate_Ok in Hg as (s1' & E1' & Hg). rewrite E1' in E1. injection E1 as ->.
    destruct Hg as [(Hk & _)|(_ & seed & rr & sealed & h & f & Er & -> & Es & -> & Hpr & Hpu & _)];
      [congruence|].
    pose proof (fill_bytes_length 32 (h_rng (ks_host s1))) as Hl. rewrite Er in Hl. cbn in Hl.
    unfold try_seal_device_seed_at_rest, smap_err in Es.
    match type of Es with context [wrap_at_rest env seed ?h0] => set (hs := h0) in Es end.
    destruct (wrap_at_rest env seed hs) as [[sd|] h'] eqn:Ew; [|done]. injection Es as -> ->.
    assert (Hcs : h_cache hs = None).
    { unfold hs. apply ensure_dir_Ok in E1' as (f1 & -> & _). exact Hc. }
    destruct (wrap_reopen env seed hs sealed h (with_cache None (with_fs f h)) Hcs Ew)
      as (Hw & _ & h3 & Hu); [|done|done|].
    { destruct Hsrc as [?|[Hp Hf]]; [by left|]. right. split; [done|].
      by apply headless_env_only. }
    split; [by exists sealed|]. split.
    + change (later) with (new (identity_dir s) (with_cache None (with_fs f h))).
      unfold fs_export_pubkey. cbn [cached_pubkey new]. rewrite (read_point_Ok _ _ _ _ (ed_public seed));
        [done | exact Hpu | apply ed_public_length | apply ed_point_public].
    + exists (ed_sign seed m). split; [|apply ed_verify_sign].
      unfold fs_sign. erewrite sbind_Ok; [reflexivity|]. unfold read_signing_key.
      do 2 (erewrite sbind_Ok by reflexivity; cbv beta).
      change (in_dir _ later) with (in_dir DEVICE_PRIVATE_FILENAME s).
      change (fs_of later) with f. rewrite (exists_read _ _ _ Hpr). cbn [negb].
      erewrite sbind_Ok by (unfold read_file; change (fs_of later) with f; by rewrite Hpr).
      unfold open_device_seed_at_rest. rewrite Hw.
      erewrite sbind_Ok by (unfold on_host, smap_err;
        change (ks_host later) with (with_cache None (with_fs f h)); rewrite Hu; reflexivity).
      unfold signing_key_from_seed. by rewrite Hl.
  - intros seed w Hw. unfold fs_generate_device_keypair in Hg.
    rewrite (sbind_Ok _ _ _ _ _ E1) in Hg. do 3 (erewrite sbind_Ok in Hg by reflexivity).
    fold (key_files_present s1) in Hg. rewrite Hn in Hg.
    unfold sbind at 1, on_host at 1 in Hg. subst w seed. revert Hw. unfold draw in *.
    destruct (fill_bytes 32 (h_rng (ks_host s1))) as [seed rr]. cbn [fst snd ks_host] in *.
    unfold sbind at 1, on_host at 1, try_seal_device_seed_at_rest, smap_err in Hg.
    cbn [ks_host] in Hg. destruct (wrap_at_rest env seed _) as [[d|e] h]; [done|].
    cbn [map_err] in Hg. by injection Hg as <- <-.
Qed.
End Properties.

#[export] Instance device_cert_eq_dec : EqDecision DeviceCert.DeviceCertificate.
Proof. solve_decision. Defined.

#[export] Program Instance device_cert_countable : Countable DeviceCert.DeviceCertificate :=
  inj_countable' (fun c => (DeviceCert.body c, DeviceCert.signature c))
    (fun '(p, s) => {| DeviceCert.body := p; DeviceCert.signature := s |}) _.
Next Obligation. by intros []. Qed.

#[local] Instance device_cert_codec : Codec DeviceCert.DeviceCertificate := countable_codec.
#[local] Instance device_cert_codec_laws : CodecLaws DeviceCert.DeviceCertificate.
Proof. apply countable_codec_laws. Qed.

Definition demo_store : FileSystemKeystore (option bytes) Z := new alice_dir (demo_host (@None bytes)).
Definition demo_sealer := try_seal_device_seed_at_rest (K := option bytes) (R := Z) (demo_env true).

Lemma filesystem_keystore_contract_witness :
  let g := fs_generate_device_keypair demo_sealer demo_store in
  g.1 = Ok (ed_public (replicate 32 (as_u8 9))) /\ fs_generate_device_keypair demo_sealer g.2 = g.
Proof.
  intros g. assert (Eg : g.1 = Ok (ed_public (replicate 32 (as_u8 9)))) by (vm_compute; reflexivity).
  split; [exact Eg|].
  pose proof (@generate_again _ _ _ (filesystem_keystore_contract (K := option bytes) (R := Z)
    (demo_env true)) demo_store (ed_public (replicate 32 (as_u8 9))) g.2) as Ha.
  transitivity (g.1, g.2); [|symmetry; apply surjective_pairing].
  rewrite Eg. apply Ha. rewrite <- Eg. apply surjective_pairing.
Defined.

Lemma keystore_generate_sign_witness :
  let g := fs_generate_device_keypair demo_sealer demo_store in
  exists sig, (fs_sign (demo_env true) (b "hello") (new alice_dir (with_cache None (ks_host g.2)))).1 = Ok sig /\
    ed_verify_strict (ed_public (replicate 32 (as_u8 9))) (b "hello") sig = true.
Proof.
  intros g. assert (Eg : g.1 = Ok (ed_public (replicate 32 (as_u8 9)))) by (vm_compute; reflexivity).
  destruct (keystore_generate_sign (demo_env true) demo_store (ensure_dir demo_store).2
    g.1 g.2 (b "hello")) as [H _].
  - reflexivity.
  - vm_compute. reflexivity.
  - vm_compute. reflexivity.
  - apply surjective_pairing.
  - destruct (H _ Eg) as (_ & _ & Hs); [|exact Hs].
    left. exists (replicate 32 (as_u8 10)). vm_compute. reflexivity.
Defined.
