(* ===== verification/Crash.v ===== *)
(** What a crash leaves of the device keystore ([gitcellar-crypto/src/keystore.rs]).

    A write is not atomic: a crash in the middle of it leaves a prefix of the
    contents.  A rename is.  [crash ops f g]: running the operations [ops] from
    the files [f] was cut short and left [g].  The store writes through
    [write_atomic], and the private key before the public one; the theorem is
    what that order buys. *)

From S2P Require Import Prelude Bytes Utf8 Interfaces Toy Fs PasskeyError Users KeyWrap AtRest Identity.
From S2P Require Import Certs Keystore.

(** ** Disk operations and crashes *)

Inductive disk_op : Type :=
  | Write (p : path) (c : bytes)
  | Rename (p q : path).

Definition exec (o : disk_op) (f : fs) : io fs :=
  match o with Write p c => fs_write f p c | Rename p q => rename f p q end.

Fixpoint exec_all (ops : list disk_op) (f : fs) : io fs :=
  match ops with
  | [] => Ok f
  | o :: ops => let? f := exec o f in exec_all ops f
  end.

(** The files a crash within one operation may leave. *)
Inductive torn (f : fs) : disk_op -> fs -> Prop :=
  | torn_before o : torn f o f
  | torn_write p c c' f' :
      fs_write f p c = Ok f' -> c' `prefix_of` c -> torn f (Write p c) (<[p := File c']> f).

Inductive crash : list disk_op -> fs -> fs -> Prop :=
  | crash_end f : crash [] f f
  | crash_in o ops f g : torn f o g -> crash (o :: ops) f g
  | crash_later o ops f f' g : exec o f = Ok f' -> crash ops f' g -> crash (o :: ops) f g.

Lemma exec_all_app ops ops' f :
  exec_all (ops ++ ops') f = let? f := exec_all ops f in exec_all ops' f.
Proof.
  revert f; induction ops as [|o ops IH]; intros f; [done|]. cbn.
  destruct (exec o f) as [f'|]; [|done]. apply IH.
Qed.

Lemma crash_app ops ops' f g :
  crash (ops ++ ops') f g ->
  crash ops f g \/ exists f', exec_all ops f = Ok f' /\ crash ops' f' g.
Proof.
  revert f; induction ops as [|o ops IH]; intros f Hc; [right; by exists f|].
  inversion Hc as [|? ? ? ? Ht|? ? ? f' ? E Hc']; subst.
  - left. by apply crash_in.
  - destruct (IH f' Hc') as [Hl|(f2 & E2 & H2c)].
    + left. by eapply crash_later.
    + right. exists f2. split; [|done]. cbn. by rewrite E.
Qed.

Lemma exec_all_crash ops f g : exec_all ops f = Ok g -> crash ops f g.
Proof.
  revert f; induction ops as [|o ops IH]; intros f; cbn; [intros [= ->]; constructor|].
  intros (f' & E & Ef)%rbind_Ok_inv. eapply crash_later; [exact E|by apply IH].
Qed.

Lemma crash_app_r ops ops' f f' g :
  exec_all ops f = Ok f' -> crash ops' f' g -> crash (ops ++ ops') f g.
Proof.
  revert f; induction ops as [|o ops IH]; intros f; cbn; [by intros [= ->]|].
  intros (f1 & E & Ef)%rbind_Ok_inv Hc. eapply crash_later; [exact E|by apply IH].
Qed.

Lemma crash_app_l ops ops' f g : crash ops f g -> crash (ops ++ ops') f g.
Proof.
  induction 1 as [f|o ops f g Ht|o ops f f' g E _ IH]; [|by apply crash_in|by eapply crash_later].
  destruct ops' as [|o ops']; [constructor | apply crash_in, torn_before].
Qed.

Lemma exec_prefix_crash n ops f g : exec_all (take n ops) f = Ok g -> crash ops f g.
Proof.
  intros E. rewrite <- (take_drop n ops). by apply crash_app_l, exec_all_crash.
Qed.

(** ** [write_atomic] *)

Definition atomic_ops (dir : path) (n c : bytes) : list disk_op :=
  [Write (dir ++ [n ++ b ".tmp"]) c; Rename (dir ++ [n ++ b ".tmp"]) (dir ++ [n])].

Arguments atomic_ops : simpl never.

Lemma tmp_ne (n : bytes) : n ++ b ".tmp" <> n.
Proof. intros E%(f_equal length). rewrite length_app in E. cbn in E. lia. Qed.

(** A crash in an atomic write leaves the target as it was or complete, and every
    other file but the temporary one as it was. *)
Lemma atomic_crash dir n c f g q :
  crash (atomic_ops dir n c) f g ->
  (q = dir ++ [n] /\ fs_read g q = Ok c) \/ q = dir ++ [n ++ b ".tmp"] \/ fs_read g q = fs_read f q.
Proof.
  set (tmp := dir ++ [n ++ b ".tmp"]). set (t := dir ++ [n]).
  assert (Hne : tmp <> t).
  { unfold tmp, t. intros E%app_inv_head. injection E as E. by apply tmp_ne in E. }
  intros Hc. destruct (decide (q = tmp)) as [|Hq]; [by right; left|].
  inversion Hc as [|? ? ? ? Ht|? ? ? f1 ? E1 Hc1]; subst.
  { inversion Ht as [|? ? c' f' Hw Hp]; subst; [by right; right|].
    right; right. apply fs_write_ok in Hw as [Hp0 _]. unfold fs_read. by rewrite node_at_insert_ne. }
  assert (Hr1 : fs_read f1 q = fs_read f q)
    by (cbn in E1; rewrite (fs_read_write _ _ _ _ q E1); by rewrite decide_False).
  inversion Hc1 as [|? ? ? ? Ht|? ? ? f2 ? E2 Hc2]; subst.
  { inversion Ht; subst. by right; right. }
  inversion Hc2; subst. cbn in E1, E2.
  pose proof (write_rename f f1 g tmp t c q Hne E1 E2) as Hr.
  destruct (decide (q = t)) as [->|Hqt]; [by left|].
  rewrite decide_False in Hr by done. by right; right.
Qed.

Lemma atomic_exec dir n c f f' q :
  exec_all (atomic_ops dir n c) f = Ok f' ->
  fs_read f' q = if decide (q = dir ++ [n]) then Ok c
                 else if decide (q = dir ++ [n ++ b ".tmp"]) then Err NotFound else fs_read f q.
Proof.
  unfold atomic_ops. cbn. intros (f1 & E1 & E2)%rbind_Ok_inv. apply rbind_Ok_inv in E2 as (f2 & E2 & [= <-]).
  eapply write_rename; [|exact E1|exact E2].
  intros E%app_inv_head. injection E as E. by apply tmp_ne in E.
Qed.

(** ** What the store's operations do to the disk *)

Section Writes.
  Context `{HashOps, AeadOps, Base64Ops, Ed25519Ops, Platform} {K R : Type}.
  Context `{LpkStore K, RngOps R, Codec DeviceCert.DeviceCertificate}.
  Variable env : Env.
  Implicit Types s : FileSystemKeystore K R.

(** Where the key files are. *)
Definition key_file (s : FileSystemKeystore K R) (p : path) : Prop :=
  p = in_dir DEVICE_PRIVATE_FILENAME s \/ p = in_dir DEVICE_PUBLIC_FILENAME s.

(** The host and the pending disk operations of a generation that has sealed its
    seed: everything it changes afterwards is on the disk. *)
Definition generate_writes s : option (Host K R * list disk_op) :=
  match ensure_dir s with
  | (Err _, _) => None
  | (Ok _, s1) =>
      if key_files_present s1 then None
      else
        let '(seed, r) := fill_bytes 32 (h_rng (ks_host s1)) in
        match try_seal_device_seed_at_rest env seed
                {| h_cache := h_cache (ks_host s1); h_fs := h_fs (ks_host s1);
                   h_slot := h_slot (ks_host s1); h_rng := r |} with
        | (Err _, _) => None
        | (Ok sealed, h) =>
            Some (h, atomic_ops (identity_dir s) DEVICE_PRIVATE_FILENAME sealed ++
                     atomic_ops (identity_dir s) DEVICE_PUBLIC_FILENAME (ed_public seed))
        end
  end.

(** [write_atomic] is its operations; a failure leaves what a crash may leave. *)
Lemma write_atomic_ops n c s r s' :
  valid_utf8 n = true -> write_atomic (in_dir n s) c s = (r, s') ->
  exists f, s' = set_fs f s /\
    match r with
    | Ok _ => exec_all (atomic_ops (identity_dir s) n c) (fs_of s) = Ok f
    | Err _ => crash (atomic_ops (identity_dir s) n c) (fs_of s) f
    end.
Proof.
  intros Hv. unfold write_atomic. rewrite tmp_path_in_dir by done.
  intros [([] & s1 & E1 & E2)|(e & E1 & ->)]%sbind_inv.
  - apply on_fs_inv in E1 as [(f1 & E1 & _ & ->)|(? & [=] & _)].
    apply on_fs_inv in E2 as [(f2 & E2 & -> & ->)|(e & -> & ->)].
    + exists f2. split; [done|]. unfold atomic_ops. cbn [exec_all exec]. rewrite E1. cbn [rbind].
      change (fs_of (set_fs f1 s)) with f1 in E2. unfold in_dir in E2. by rewrite E2.
    + exists f1. split; [done|]. eapply crash_later; [exact E1|]. apply crash_in, torn_before.
  - apply on_fs_inv in E1 as [(f1 & E1 & [=] & _)|(? & [= ->] & ->)].
    exists (fs_of s). split; [symmetry; apply set_fs_id|]. apply crash_in, torn_before.
Qed.
End Writes.

(** ** What is on the disk is a usable pair *)

Section Pair.
  Context `{HashOps, AeadLaws, Base64Ops, Ed25519Laws, Platform} {K R : Type}.
  Context `{LpkStoreLaws K, RngLaws R, CodecLaws DeviceCert.DeviceCertificate}.
  Variable env : Env.
  Hypothesis Hpersistent : os_keyring_persistent env = true.
  Implicit Types s : FileSystemKeystore K R.

Definition exported (dir : path) (f : fs) (pk : bytes) : Prop :=
  fs_read f (dir ++ [DEVICE_PUBLIC_FILENAME]) = Ok pk /\ Zlen pk = 32 /\ ed_point pk = true.

Definition signer (key : bytes) (dir : path) (f : fs) (seed : bytes) : Prop :=
  exists raw, fs_read f (dir ++ [DEVICE_PRIVATE_FILENAME]) = Ok raw /\
    (if is_wrapped raw then unwrap_with_key raw key else Ok raw) = Ok seed /\ Zlen seed = 32.

(** A public key that would be exported is that of the seed that would sign. *)
Definition consistent (key : bytes) (dir : path) (f : fs) : Prop :=
  forall pk, exported dir f pk -> exists seed, signer key dir f seed /\ ed_public seed = pk.

Record good (key : bytes) s : Prop := {
  g_settled : settled key (ks_host s);
  g_cached : forall pk, cached_pubkey s = Some pk -> exported (identity_dir s) (fs_of s) pk;
  g_consistent : consistent key (identity_dir s) (fs_of s);
}.

Lemma read_point_inv p absent bad s pk :
  (read_point p absent bad s).1 = Ok pk ->
  fs_read (fs_of s) p = Ok pk /\ Zlen pk = 32 /\ ed_point pk = true.
Proof.
  unfold read_point, sbind, asks, sret, read_file.
  destruct (exists_ (fs_of s) p); [|done]. cbn [negb].
  destruct (fs_read (fs_of s) p) as [bs|e]; [|done]. cbn [map_err].
  destruct (Z.eqb_spec (Zlen bs) 32) as [Hl|]; [|done]. cbn [negb].
  destruct (ed_point bs) eqn:Ep; [|done]. cbn. by intros [= <-].
Qed.

Lemma export_exported s pk :
  (forall pk, cached_pubkey s = Some pk -> exported (identity_dir s) (fs_of s) pk) ->
  (fs_export_pubkey s).1 = Ok pk <-> exported (identity_dir s) (fs_of s) pk.
Proof.
  intros Hc. unfold fs_export_pubkey. destruct (cached_pubkey s) as [p|] eqn:E.
  - destruct (Hc p eq_refl) as (Hp & Hl & Hpt). cbn. split; [by intros [= <-]|].
    intros (Hr & _). rewrite Hp in Hr. by injection Hr as ->.
  - split; [apply read_point_inv|]. intros (Hr & Hl & Hp).
    rewrite (read_point_Ok _ _ _ _ pk); [done|exact Hr|lia|done].
Qed.

(** Signing opens the private file under the settled key. *)
Lemma sign_signer key s seed m :
  settled key (ks_host s) -> signer key (identity_dir s) (fs_of s) seed ->
  (fs_sign env m s).1 = Ok (ed_sign seed m).
Proof.
  intros Hs (raw & Hr & Ho & Hl). unfold fs_sign, read_signing_key.
  unfold sbind at 1 2 3 4. unfold asks, read_file at 1.
  change (in_dir DEVICE_PRIVATE_FILENAME s) with (identity_dir s ++ [DEVICE_PRIVATE_FILENAME]).
  rewrite (exists_read _ _ _ Hr). cbn [negb]. unfold sbind at 1, read_file. rewrite Hr. cbn [map_err].
  unfold open_device_seed_at_rest. destruct (is_wrapped raw) eqn:Ew.
  - unfold sbind, on_host, smap_err. destruct (unwrap_at_rest env raw (ks_host s)) as [r h'] eqn:E.
    destruct (settled_unwrap env Hpersistent key raw _ r h' Hs E) as [_ Hu].
    rewrite (Hu Ew), Ho. cbn. unfold signing_key_from_seed. by rewrite (proj2 (Z.eqb_eq _ _) Hl).
  - injection Ho as ->. unfold sbind, on_host, sret. cbn. unfold signing_key_from_seed.
    by rewrite (proj2 (Z.eqb_eq _ _) Hl).
Qed.

Definition same_keys (dir : path) (f g : fs) : Prop :=
  forall n c, n = DEVICE_PRIVATE_FILENAME \/ n = DEVICE_PUBLIC_FILENAME ->
    fs_read g (dir ++ [n]) = Ok c <-> fs_read f (dir ++ [n]) = Ok c.

Lemma same_exported dir f g pk : same_keys dir f g -> exported dir g pk <-> exported dir f pk.
Proof. intros Hs. unfold exported. by rewrite (Hs DEVICE_PUBLIC_FILENAME pk) by (by right). Qed.

Lemma same_consistent key dir f g : same_keys dir f g -> consistent key dir f -> consistent key dir g.
Proof.
  intros Hs Hc pk (seed & (raw & Hr & Ho) & Hp)%(same_exported _ _ _ _ Hs)%Hc.
  exists seed. split; [|done]. exists raw. split; [|done]. apply Hs; [by left|done].
Qed.

(** Nothing but the key files and the protection key matters. *)
Lemma good_same key s s' :
  good key s -> identity_dir s' = identity_dir s -> settled key (ks_host s') ->
  cached_pubkey s' = None \/ cached_pubkey s' = cached_pubkey s ->
  same_keys (identity_dir s) (fs_of s) (fs_of s') -> good key s'.
Proof.
  intros [_ Hc Hk] Ed Hst Hcache Hs. split; [done| |].
  - intros pk Hp. rewrite Ed. apply (same_exported _ _ _ _ Hs). apply Hc.
    destruct Hcache as [E|E]; rewrite E in Hp; done.
  - rewrite Ed. by apply (same_consistent key _ _ _ Hs).
Qed.

Lemma settled_with_fs key f (h : Host K R) : settled key h -> settled key (with_fs f h).
Proof. intros [Hn Hs Hc]. by split. Qed.

(** A pair whose files are not both there is not exported. *)
Lemma absent_not_exported key s pk :
  consistent key (identity_dir s) (fs_of s) -> key_files_present s = false ->
  ~ exported (identity_dir s) (fs_of s) pk.
Proof.
  intros Hc Hk Hx. destruct (Hc pk Hx) as (seed & (raw & Hr & _) & _). destruct Hx as (Hp & _).
  unfold key_files_present, in_dir in Hk.
  by rewrite (exists_read _ _ _ Hr), (exists_read _ _ _ Hp) in Hk.
Qed.

(** ** Generation cut short *)

Lemma name_ne dir (n m : bytes) : n <> m -> dir ++ [n] <> dir ++ [m].
Proof. intros Hne E%app_inv_head. congruence. Qed.

(** With no exported key to start from, writing the private half first leaves a
    consistent pair wherever the crash comes. *)
Lemma pair_crash key dir sealed seed f g :
  (forall pk, ~ exported dir f pk) ->
  is_wrapped sealed = true -> unwrap_with_key sealed key = Ok seed -> Zlen seed = 32 ->
  crash (atomic_ops dir DEVICE_PRIVATE_FILENAME sealed ++
         atomic_ops dir DEVICE_PUBLIC_FILENAME (ed_public seed)) f g ->
  consistent key dir g.
Proof.
  intros Hx Hw Hu Hl [Hc|(f1 & E1 & Hc)]%crash_app pk Hpk.
  - apply atomic_crash with (q := dir ++ [DEVICE_PUBLIC_FILENAME]) in Hc as [[E _]|[E|E]].
    + by apply name_ne in E.
    + by apply name_ne in E.
    + destruct (Hx pk). unfold exported in *. by rewrite <- E.
  - pose proof (atomic_exec _ _ _ _ _ (dir ++ [DEVICE_PRIVATE_FILENAME]) E1) as Hpr.
    rewrite decide_True in Hpr by done.
    pose proof (atomic_exec _ _ _ _ _ (dir ++ [DEVICE_PUBLIC_FILENAME]) E1) as Hpu.
    rewrite !decide_False in Hpu by (by apply name_ne).
    assert (Hs : signer key dir g seed).
    { exists sealed. rewrite Hw. split; [|done].
      pose proof (atomic_crash _ _ _ _ _ (dir ++ [DEVICE_PRIVATE_FILENAME]) Hc) as [[E _]|[E|E]];
        [by apply name_ne in E|by apply name_ne in E|by rewrite E]. }
    apply atomic_crash with (q := dir ++ [DEVICE_PUBLIC_FILENAME]) in Hc as [[_ E]|[E|E]].
    + exists seed. split; [done|]. destruct Hpk as (Hr & _). rewrite E in Hr. by injection Hr.
    + by apply name_ne in E.
    + destruct (Hx pk). unfold exported in *. by rewrite <- Hpu, <- E.
Qed.

(** So a good store signs under whatever it exports. *)
Lemma good_signs key s pk m :
  good key s -> (fs_export_pubkey s).1 = Ok pk ->
  exists sig, (fs_sign env m s).1 = Ok sig /\ ed_verify_strict pk m sig = true.
Proof.
  intros [Hs Hc Hk] (seed & Hsig & <-)%export_exported%Hk; [|done].
  exists (ed_sign seed m). split; [by apply (sign_signer key)|apply ed_verify_sign].
Qed.

Lemma ensure_dir_same s r s1 :
  ensure_dir s = (r, s1) ->
  exists f, s1 = set_fs f s /\ same_keys (identity_dir s) (fs_of s) f.
Proof.
  intros E. destruct r as [[]|e].
  - apply ensure_dir_Ok in E as (f & -> & _ & Hf). exists f. split; [done|]. intros n c _. apply Hf.
  - apply on_fs_inv in E as [(? & _ & [=] & _)|(? & _ & ->)]. exists (fs_of s).
    split; [symmetry; apply set_fs_id|]. by intros n c _.
Qed.

Lemma seal_same dir seed (h h' : Host K R) r :
  try_seal_device_seed_at_rest env seed h = (r, h') -> same_keys dir (h_fs h) (h_fs h').
Proof.
  unfold try_seal_device_seed_at_rest, smap_err. intros E n c Hn.
  pose proof (wrap_reads (dir ++ [n]) c env seed h) as Hw.
  destruct (wrap_at_rest env seed h) as [r0 h0]. injection E as _ <-. apply Hw.
  unfold lpk_minted_marker_path. intros [_ E]%app_inj_tail. destruct Hn as [->| ->]; discriminate E.
Qed.

Lemma same_keys_trans dir f g k : same_keys dir f g -> same_keys dir g k -> same_keys dir f k.
Proof. intros Hf Hg n c Hn. by rewrite (Hg n c Hn), (Hf n c Hn). Qed.

(** The writes of a generation start from no exported key, and store the sealed
    seed before its public key. *)
Record fresh_pair (key : bytes) s (h : Host K R) (ops : list disk_op) (seed : bytes) : Prop := {
  fp_settled : settled key h;
  fp_same : same_keys (identity_dir s) (fs_of s) (h_fs h);
  fp_absent : forall pk, ~ exported (identity_dir s) (h_fs h) pk;
  fp_length : Zlen seed = 32;
  fp_ops : exists sealed, is_wrapped sealed = true /\ unwrap_with_key sealed key = Ok seed /\
    ops = atomic_ops (identity_dir s) DEVICE_PRIVATE_FILENAME sealed ++
          atomic_ops (identity_dir s) DEVICE_PUBLIC_FILENAME (ed_public seed);
}.

Lemma generate_writes_fresh key s h ops :
  good key s -> generate_writes env s = Some (h, ops) -> exists seed, fresh_pair key s h ops seed.
Proof.
  intros Hg. unfold generate_writes. destruct (ensure_dir s) as [[[]|] s1] eqn:E1; [|done].
  apply ensure_dir_same in E1 as (f1 & -> & Hs1).
  destruct (key_files_present (set_fs f1 s)) eqn:Hk; [done|]. cbn [ks_host set_fs h_cache h_slot h_rng with_fs h_fs].
  pose proof (fill_bytes_length 32 (h_rng (ks_host s))) as Hl.
  destruct (fill_bytes 32 _) as [seed r]. cbn [fst] in Hl.
  match goal with |- context [try_seal_device_seed_at_rest env seed ?h0] => set (h1 := h0) end.
  destruct (try_seal_device_seed_at_rest env seed h1) as [[sealed|] h2] eqn:Es; [|done].
  intros [= <- <-]. pose proof (seal_same (identity_dir s) _ _ _ _ Es) as Hs2. cbn in Hs2.
  assert (Hst : settled key h1) by (destruct (g_settled key s Hg); by split).
  unfold try_seal_device_seed_at_rest, smap_err in Es.
  destruct (wrap_at_rest env seed h1) as [[d|] h3] eqn:Ew; [|done]. injection Es as -> ->.
  destruct (settled_wrap env Hpersistent key seed h1 _ _ Hst Ew) as (Hst2 & Hd & _).
  destruct (Hd sealed eq_refl) as [Hw Hu]. exists seed. split; [done| | |lia|].
  - by apply (same_keys_trans _ _ f1).
  - intros pk Hx%(same_exported _ _ _ _ Hs2). revert Hx.
    apply (absent_not_exported key (set_fs f1 s)); [|done].
    apply (same_consistent key _ _ _ Hs1). apply Hg.
  - by exists sealed.
Qed.

(** A crash during those writes, and a restart. *)
Lemma crash_good key s h ops seed g s' :
  fresh_pair key s h ops seed -> crash ops (h_fs h) g ->
  identity_dir s' = identity_dir s -> settled key (ks_host s') -> fs_of s' = g ->
  (forall pk, cached_pubkey s' = Some pk -> exported (identity_dir s) g pk) -> good key s'.
Proof.
  intros [_ _ Hx Hl (sealed & Hw & Hu & ->)] Hc Ed Hst <- Hca. split; [done| |]; rewrite Ed; [done|].
  by apply (pair_crash key _ sealed seed (h_fs h)).
Qed.

(** What [fs_generate_device_keypair] does when it has reached its writes: those
    operations, and nothing after a failure. *)
Lemma generate_run s h ops r s' :
  generate_writes env s = Some (h, ops) ->
  fs_generate_device_keypair (try_seal_device_seed_at_rest env) s = (r, s') ->
  exists f, identity_dir s' = identity_dir s /\ ks_host s' = with_fs f h /\
    match r with
    | Ok pk => exec_all ops (h_fs h) = Ok f /\ cached_pubkey s' = Some pk /\
               exported (identity_dir s) f pk
    | Err _ => crash ops (h_fs h) f /\ cached_pubkey s' = cached_pubkey s
    end.
Proof.
  unfold generate_writes, fs_generate_device_keypair. destruct (ensure_dir s) as [[[]|] s1] eqn:E1; [|done].
  rewrite (sbind_Ok _ _ _ _ _ E1). apply ensure_dir_same in E1 as (f1 & -> & _).
  do 3 (erewrite sbind_Ok by reflexivity). fold (key_files_present (set_fs f1 s)).
  destruct (key_files_present (set_fs f1 s)); [done|].
  unfold sbind at 1, on_host at 1, draw. destruct (fill_bytes 32 _) as [seed rr].
  unfold sbind at 1, on_host at 1. cbn [ks_host identity_dir cached_pubkey].
  destruct (try_seal_device_seed_at_rest env seed _) as [[sealed|] h2]; [|done].
  match goal with |- Some (_, ?o) = _ -> _ => set (ops' := o) end. intros [= <- <-]. unfold ops'.
  set (s2 := {| identity_dir := identity_dir (set_fs f1 s) |}).
  intros [([] & s3 & E3 & E)|(e & E3 & ->)]%sbind_inv;
    apply (write_atomic_ops DEVICE_PRIVATE_FILENAME _ s2) in E3 as (f3 & -> & E3); [|by_eval| |by_eval].
  2:{ exists f3. split; [done|]. split; [done|]. split; [|done]. apply crash_app_l, E3. }
  apply sbind_inv in E as [([] & s4 & E4 & E)|(e & E4 & ->)];
    apply (write_atomic_ops DEVICE_PUBLIC_FILENAME _ (set_fs f3 s2)) in E4 as (f4 & -> & E4);
    [|by_eval| |by_eval].
  2:{ exists f4. split; [done|]. split; [done|]. split; [|done].
      by apply (crash_app_r _ _ _ f3). }
  injection E as <- <-. exists f4. split; [done|]. split; [done|]. split; [|split; [done|]].
  - rewrite exec_all_app.
    change (exec_all (atomic_ops (identity_dir s) DEVICE_PRIVATE_FILENAME sealed) (h_fs h2) = Ok f3) in E3.
    rewrite E3. exact E4.
  - split; [|split; [rewrite ed_public_length; lia|apply ed_point_public]].
    rewrite (atomic_exec _ _ _ _ _ _ E4). by rewrite decide_True.
Qed.

(** Otherwise it changes no key file. *)
Lemma generate_no_run key s r s' :
  settled key (ks_host s) -> generate_writes env s = None ->
  fs_generate_device_keypair (try_seal_device_seed_at_rest env) s = (r, s') ->
  identity_dir s' = identity_dir s /\ cached_pubkey s' = cached_pubkey s /\
  same_keys (identity_dir s) (fs_of s) (fs_of s') /\ settled key (ks_host s').
Proof.
  intros Hst. unfold generate_writes, fs_generate_device_keypair.
  destruct (ensure_dir s) as [[[]|e] s1] eqn:E1; pose proof (ensure_dir_same _ _ _ E1) as (f1 & -> & Hs).
  2:{ intros _. rewrite (sbind_Err _ _ _ _ _ E1). intros [= <- <-].
      do 3 (split; [done|]). by apply settled_with_fs. }
  rewrite (sbind_Ok _ _ _ _ _ E1).
  do 3 (erewrite sbind_Ok by reflexivity). fold (key_files_present (set_fs f1 s)).
  destruct (key_files_present (set_fs f1 s)).
  { intros _ E. pose proof (export_pubkey_pure (set_fs f1 s)) as Hp. rewrite E in Hp. cbn in Hp.
    subst s'. do 3 (split; [done|]). by apply settled_with_fs. }
  unfold sbind at 1, on_host at 1, draw. destruct (fill_bytes 32 _) as [seed rr].
  unfold sbind at 1, on_host at 1. cbn [ks_host identity_dir cached_pubkey].
  destruct (try_seal_device_seed_at_rest env seed _) as [[sealed|e] h2] eqn:Es; [done|].
  intros _ [= <- <-]. do 2 (split; [done|]). split.
  { apply (same_keys_trans _ _ f1 _ Hs). exact (seal_same _ _ _ _ _ Es). }
  unfold try_seal_device_seed_at_rest, smap_err in Es.
  destruct (wrap_at_rest env seed _) as [rw h3] eqn:Ew in Es. injection Es as _ ->.
  eapply (settled_wrap env Hpersistent key); [|exact Ew]. destruct Hst as [Hn Hsl Hc]. by split.
Qed.

(** ** The life of a store *)

(** One step of a store: an operation, a restart, a change to any other file, or
    a crash within the writes of a generation, with the restart after it. *)
Inductive ks_step s : FileSystemKeystore K R -> Prop :=
  | ks_restart : ks_step s (new (identity_dir s) (with_cache None (ks_host s)))
  | ks_files f : same_keys (identity_dir s) (fs_of s) f -> ks_step s (set_fs f s)
  | ks_sign m r s' : fs_sign env m s = (r, s') -> ks_step s s'
  | ks_cert c r s' : fs_import_cert c s = (r, s') -> ks_step s s'
  | ks_master pk r s' : fs_import_master_pubkey pk s = (r, s') -> ks_step s s'
  | ks_generate r s' :
      fs_generate_device_keypair (try_seal_device_seed_at_rest env) s = (r, s') -> ks_step s s'
  | ks_crash h ops g :
      generate_writes env s = Some (h, ops) -> crash ops (h_fs h) g ->
      ks_step s (new (identity_dir s) (with_cache None (with_fs g h))).

(** A write beside the key files leaves them alone, even cut short. *)
Lemma write_other n c s r s' :
  valid_utf8 n = true -> n <> DEVICE_PRIVATE_FILENAME -> n <> DEVICE_PUBLIC_FILENAME ->
  n ++ b ".tmp" <> DEVICE_PRIVATE_FILENAME -> n ++ b ".tmp" <> DEVICE_PUBLIC_FILENAME ->
  write_atomic (in_dir n s) c s = (r, s') ->
  exists f, s' = set_fs f s /\ same_keys (identity_dir s) (fs_of s) f.
Proof.
  intros Hv N1 N2 N3 N4 E. apply write_atomic_ops in E as (f & -> & E); [|done]. exists f.
  split; [done|]. intros k d Hk.
  assert (Hc : crash (atomic_ops (identity_dir s) n c) (fs_of s) f)
    by (destruct r; [by apply exec_all_crash|done]).
  apply atomic_crash with (q := identity_dir s ++ [k]) in Hc as [[[_ E']%app_inj_tail _]|[[_ E']%app_inj_tail|E']].
  - by destruct Hk; congruence.
  - by destruct Hk; congruence.
  - by rewrite E'.
Qed.

Lemma import_same {A} (m : stateful (FileSystemKeystore K R) KeystoreError A) n (k : A -> bytes) s r s' :
  (let* _ := ensure_dir in let* a := m in let* p := asks (in_dir n) in write_atomic p (k a)) s = (r, s') ->
  (forall s0, (m s0).2 = s0) ->
  valid_utf8 n = true -> n <> DEVICE_PRIVATE_FILENAME -> n <> DEVICE_PUBLIC_FILENAME ->
  n ++ b ".tmp" <> DEVICE_PRIVATE_FILENAME -> n ++ b ".tmp" <> DEVICE_PUBLIC_FILENAME ->
  exists f, s' = set_fs f s /\ same_keys (identity_dir s) (fs_of s) f.
Proof.
  intros E Hm Hv N1 N2 N3 N4. apply sbind_inv in E as [([] & s1 & E1 & E)|(e & E1 & ->)];
    apply ensure_dir_same in E1 as (f1 & -> & Hs1); [|by exists f1].
  specialize (Hm (set_fs f1 s)).
  apply sbind_inv in E as [(a & s2 & E2 & E)|(e & E2 & ->)]; rewrite E2 in Hm; cbn in Hm; subst;
    [|by exists f1].
  erewrite sbind_Ok in E by reflexivity.
  apply write_other in E as (f & -> & Hf); [|done..]. exists f. split; [done|].
  by apply (same_keys_trans _ _ f1).
Qed.

Lemma import_cert_same c s r s' :
  fs_import_cert c s = (r, s') -> exists f, s' = set_fs f s /\ same_keys (identity_dir s) (fs_of s) f.
Proof.
  intros E. eapply (import_same _ DEVICE_CERT_FILENAME (fun x => x)); [exact E|..];
    by vm_compute.
Qed.

Lemma import_master_same pk s r s' :
  fs_import_master_pubkey pk s = (r, s') ->
  exists f, s' = set_fs f s /\ same_keys (identity_dir s) (fs_of s) f.
Proof.
  unfold fs_import_master_pubkey. destruct (ed_point pk); cbn [negb]; intros E.
  - eapply (import_same (sret (Ok pk)) MASTER_PUBLIC_FILENAME (fun x => x)); [exact E|..];
      by vm_compute.
  - apply sbind_inv in E as [([] & s1 & E1 & [= _ <-])|(e & E1 & ->)];
      apply ensure_dir_same in E1 as (f & -> & Hf); by exists f.
Qed.

Lemma sign_same key m s r s' :
  settled key (ks_host s) -> fs_sign env m s = (r, s') ->
  identity_dir s' = identity_dir s /\ cached_pubkey s' = cached_pubkey s /\
  same_keys (identity_dir s) (fs_of s) (fs_of s') /\ settled key (ks_host s').
Proof.
  intros Hst. unfold fs_sign, read_signing_key.
  assert (Hrefl : same_keys (identity_dir s) (fs_of s) (fs_of s)) by (by intros n c _).
  unfold sbind at 1 2 3. unfold asks. destruct (exists_ _ _); cbn [negb]; [|by intros [= <- <-]].
  unfold sbind at 1, read_file. destruct (fs_read _ _) as [raw|e]; cbn [map_err]; [|by intros [= <- <-]].
  unfold sbind, on_host, open_device_seed_at_rest.
  destruct (is_wrapped raw); [|intros E; assert (s' = s) as -> by (destruct s as [d c []]; cbn in E;
    destruct (signing_key_from_seed raw); by injection E); done].
  unfold smap_err. destruct (unwrap_at_rest env raw (ks_host s)) as [u h'] eqn:Eu. intros E.
  assert (s' = {| identity_dir := identity_dir s; cached_pubkey := cached_pubkey s; ks_host := h' |}) as ->
    by (destruct u as [u|]; cbn in E; [destruct (signing_key_from_seed u)|]; by injection E).
  split; [done|]. split; [done|]. split; [|by apply (settled_unwrap env Hpersistent key raw _ _ _ Hst Eu)].
  intros n c Hn. pose proof (unwrap_reads (identity_dir s ++ [n]) c env raw (ks_host s)) as Hw.
  rewrite Eu in Hw. apply Hw. unfold lpk_minted_marker_path. intros [_ E']%app_inj_tail.
  destruct Hn as [->| ->]; discriminate E'.
Qed.

(** Every step keeps a good store good, and the key files of a store that
    exports a key. *)
Lemma step_good key s s' :
  good key s -> ks_step s s' ->
  identity_dir s' = identity_dir s /\ good key s' /\
  (forall pk, exported (identity_dir s) (fs_of s) pk -> same_keys (identity_dir s) (fs_of s) (fs_of s')).
Proof.
  intros Hg Hstep.
  assert (Hquiet : forall t, identity_dir t = identity_dir s -> settled key (ks_host t) ->
    cached_pubkey t = None \/ cached_pubkey t = cached_pubkey s ->
    same_keys (identity_dir s) (fs_of s) (fs_of t) ->
    identity_dir t = identity_dir s /\ good key t /\
    (forall pk, exported (identity_dir s) (fs_of s) pk -> same_keys (identity_dir s) (fs_of s) (fs_of t))).
  { intros t Ed Hst Hc Hs. split; [done|]. split; [by apply (good_same key s)|done]. }
  pose proof (g_settled key s Hg) as Hst.
  destruct Hstep as [|f Hf|m r s' E|c r s' E|pk r s' E|r s' E|h ops g Ew Hc].
  - apply Hquiet; [done| |by left|by intros n c _].
    destruct Hst as [Hn Hsl _]. split; [done|done|by left].
  - apply Hquiet; [done|by apply settled_with_fs|by right|done].
  - apply (sign_same key) in E as (E1 & E2 & E3 & E4); [|done]. apply Hquiet; [done|done|by right|done].
  - apply import_cert_same in E as (f & -> & Hf). apply Hquiet; [done|by apply settled_with_fs|by right|done].
  - apply import_master_same in E as (f & -> & Hf). apply Hquiet; [done|by apply settled_with_fs|by right|done].
  - destruct (generate_writes env s) as [[h ops]|] eqn:Ew.
    + destruct (generate_writes_fresh key s h ops Hg Ew) as [seed Hfp].
      destruct (generate_run s h ops r s' Ew E) as (f & Ed & Eh & Hr). split; [done|]. split.
      * assert (Hf : fs_of s' = f) by (unfold fs_of; by rewrite Eh).
        apply (crash_good key s h ops seed f); [done| |done| |done|].
        -- destruct r; [apply exec_all_crash|]; apply Hr.
        -- rewrite Eh. apply settled_with_fs, Hfp.
        -- intros pk Hpk. destruct r as [pk'|e].
           ++ destruct Hr as (_ & Ec & Hx). rewrite Ec in Hpk. by injection Hpk as <-.
           ++ destruct Hr as [_ Ec]. rewrite Ec in Hpk. destruct (fp_absent _ _ _ _ _ Hfp pk).
              apply (same_exported _ _ _ _ (fp_same _ _ _ _ _ Hfp)). by apply Hg.
      * intros pk Hx. destruct (fp_absent _ _ _ _ _ Hfp pk).
        by apply (same_exported _ _ _ _ (fp_same _ _ _ _ _ Hfp)).
    + apply (generate_no_run key) in E as (E1 & E2 & E3 & E4); [|done|done].
      apply Hquiet; [done|done|by right|done].
  - destruct (generate_writes_fresh key s h ops Hg Ew) as [seed Hfp]. split; [done|]. split.
    + apply (crash_good key s h ops seed g); [done|done|done| |done|done].
      destruct (fp_settled _ _ _ _ _ Hfp) as [Hn Hsl _]. split; [done|done|by left].
    + intros pk Hx. destruct (fp_absent _ _ _ _ _ Hfp pk).
      by apply (same_exported _ _ _ _ (fp_same _ _ _ _ _ Hfp)).
Qed.

Lemma life_good key s s' :
  good key s -> rtc ks_step s s' ->
  identity_dir s' = identity_dir s /\ good key s' /\
  (forall pk, exported (identity_dir s) (fs_of s) pk -> same_keys (identity_dir s) (fs_of s) (fs_of s')).
Proof.
  intros Hg Hl. revert Hg. induction Hl as [s|s s1 s2 H1s _ IH]; intros Hg.
  { split; [done|]. split; [done|]. by intros pk _ n c _. }
  destruct (step_good key s s1 Hg H1s) as (E1 & Hg1 & Hx1). destruct (IH Hg1) as (E2 & Hg2 & Hx2).
  rewrite E1 in *. split; [done|]. split; [done|]. intros pk Hx. pose proof (Hx1 pk Hx) as Hs.
  apply (same_keys_trans _ _ (fs_of s1) _ Hs), (Hx2 pk). by apply (same_exported _ _ _ _ Hs).
Qed.

Lemma no_key_consistent key dir (h : Host K R) :
  is_err (fs_export_pubkey (new dir h)).1 = true -> consistent key dir (h_fs h).
Proof.
  intros He p Hx. apply (proj2 (export_exported (new dir h) p ltac:(done))) in Hx. by rewrite Hx in He.
Qed.

(** C17: A device key survives crashes.  Start with no device key, or with a
    usable pair that an earlier run left (sealed, or in plaintext as before
    sealing), on a machine whose keyring holds its protection key.  However
    often generation is attempted, fails or is cut short (before, within or
    between its writes), the machine restarts, messages are signed, certificates
    and master keys are imported and other files change: once the store exports
    a public key it exports that one for ever, and signs verifiably under it; it
    never exports a key it cannot sign for; and neither key file is written
    again, so that a plaintext seed stays one. *)
Theorem keystore_crash_safe key dir h0 s1 s2 pk m :
  settled key h0 -> consistent key dir (h_fs h0) ->
  rtc ks_step (new dir h0) s1 -> rtc ks_step s1 s2 ->
  (fs_export_pubkey s1).1 = Ok pk ->
  (fs_export_pubkey s2).1 = Ok pk /\
  (exists sig, (fs_sign env m s2).1 = Ok sig /\ ed_verify_strict pk m sig = true) /\
  (forall c, fs_read (fs_of s1) (dir ++ [DEVICE_PRIVATE_FILENAME]) = Ok c ->
     fs_read (fs_of s2) (dir ++ [DEVICE_PRIVATE_FILENAME]) = Ok c).
Proof.
  intros Hst Hk Hl1 Hl2 He. assert (Hg0 : good key (new dir h0)) by by split.
  destruct (life_good key _ _ Hg0 Hl1) as (Ed1 & Hg1 & _).
  destruct (life_good key _ _ Hg1 Hl2) as (Ed & Hg2 & Hx). cbn [identity_dir new] in Ed1.
  apply export_exported in He; [|apply Hg1]. specialize (Hx pk He).
  assert (He2 : (fs_export_pubkey s2).1 = Ok pk).
  { apply export_exported; [apply Hg2|]. rewrite Ed. by apply (same_exported _ _ _ _ Hx). }
  split; [done|]. split; [by apply (good_signs key)|].
  intros c Hc. rewrite Ed1 in Hx. apply Hx; [by left|done].
Qed.

(** Two processes that generate at once need not agree.  The check asks for
    both files, so a second process that comes between the two writes of the
    first generates a pair of its own, and the first then writes its public key
    over the second's: the store exports a key that it does not sign under. *)
Lemma generation_race key sa sb ha hb ops ops' seed seed' g s m :
  fresh_pair key sa ha ops seed -> fresh_pair key sb hb ops' seed' ->
  identity_dir sb = identity_dir sa ->
  exec_all (take 2 ops ++ ops' ++ drop 2 ops) (h_fs ha) = Ok g ->
  identity_dir s = identity_dir sa -> cached_pubkey s = None -> fs_of s = g ->
  settled key (ks_host s) ->
  (fs_export_pubkey s).1 = Ok (ed_public seed) /\ (fs_sign env m s).1 = Ok (ed_sign seed' m).
Proof.
  intros [_ _ _ Hl (sealed & _ & _ & ->)] [_ _ _ Hl' (sealed' & Hw & Hu & ->)] Eb E Ed Hc Ef Hst.
  rewrite Eb in E. set (dir := identity_dir sa) in *.
  change (take 2 _) with (atomic_ops dir DEVICE_PRIVATE_FILENAME sealed) in E.
  change (drop 2 _) with (atomic_ops dir DEVICE_PUBLIC_FILENAME (ed_public seed)) in E.
  rewrite exec_all_app in E. apply rbind_Ok_inv in E as (f1 & _ & E).
  rewrite <- app_assoc, exec_all_app in E. apply rbind_Ok_inv in E as (f2 & E2 & E).
  rewrite exec_all_app in E. apply rbind_Ok_inv in E as (f3 & E3 & E4).
  assert (Hpr : fs_read g (dir ++ [DEVICE_PRIVATE_FILENAME]) = Ok sealed').
  { rewrite (atomic_exec _ _ _ _ _ _ E4), !decide_False by (by apply name_ne).
    rewrite (atomic_exec _ _ _ _ _ _ E3), !decide_False by (by apply name_ne).
    by rewrite (atomic_exec _ _ _ _ _ _ E2), decide_True. }
  split.
  - apply export_exported; [by rewrite Hc|]. rewrite Ed, Ef. split; [|split].
    + rewrite (atomic_exec _ _ _ _ _ _ E4). by rewrite decide_True.
    + rewrite ed_public_length. lia.
    + apply ed_point_public.
  - apply (sign_signer key); [done|]. rewrite Ed, Ef. exists sealed'. by rewrite Hw.
Qed.
End Pair.

(** ** A crash between the two writes, a second attempt, a restart *)

#[local] Instance crash_cert_codec : Codec DeviceCert.DeviceCertificate := countable_codec.
#[local] Instance crash_cert_codec_laws : CodecLaws DeviceCert.DeviceCertificate.
Proof. apply countable_codec_laws. Qed.

Definition demo_settled : Host (option bytes) Z :=
  with_cache None (wrap_at_rest (demo_env true) (b "seed") (demo_host (@None bytes))).2.

Lemma keystore_crash_safe_witness :
  let w := default (demo_settled, []) (generate_writes (demo_env true) (new alice_dir demo_settled)) in
  exists g pk sig, key_files_present (new alice_dir (with_cache None (with_fs g w.1))) = false /\
    crash w.2 (h_fs w.1) g /\ ed_verify_strict pk (b "hello") sig = true.
Proof.
  intros w.
  pose (g := match exec_all (take 2 w.2) (h_fs w.1) with Ok g => g | Err _ => ∅ end).
  pose (half := new alice_dir (with_cache None (with_fs g w.1))).
  pose (again := fs_generate_device_keypair demo_sealer half).
  pose (pk := match again.1 with Ok pk => pk | Err _ => [] end).
  assert (Hsome : bool_decide (is_Some (generate_writes (demo_env true) (new alice_dir demo_settled))) = true)
    by (vm_compute; reflexivity).
  assert (Ew : generate_writes (demo_env true) (new alice_dir demo_settled) = Some w)
    by (unfold w; by destruct (generate_writes (demo_env true) (new alice_dir demo_settled))).
  assert (Hok : is_ok (exec_all (take 2 w.2) (h_fs w.1)) = true) by (vm_compute; reflexivity).
  assert (Eg : exec_all (take 2 w.2) (h_fs w.1) = Ok g)
    by (unfold g; by destruct (exec_all (take 2 w.2) (h_fs w.1))).
  pose proof (exec_prefix_crash _ _ _ _ Eg) as Hc.
  destruct (keystore_crash_safe (demo_env true) eq_refl (replicate 32 (as_u8 9)) alice_dir demo_settled
    again.2 (new alice_dir (with_cache None (ks_host again.2))) pk (b "hello"))
    as (_ & (sig & _ & Hv) & _).
  - split; [reflexivity| |by left]. exists (b64_encode (replicate 32 (as_u8 9))).
    split; vm_compute; reflexivity.
  - apply no_key_consistent. vm_compute. reflexivity.
  - eapply rtc_l; [apply (ks_crash _ _ w.1 w.2 g); [rewrite Ew; apply f_equal, surjective_pairing|exact Hc]|].
    apply rtc_once, (ks_generate _ _ again.1), surjective_pairing.
  - apply rtc_once, ks_restart.
  - vm_compute. reflexivity.
  - exists g, pk, sig. split; [vm_compute; reflexivity|]. by split.
Defined.

(** ** Two first launches at once *)

Definition other_settled : Host (option bytes) Z :=
  {| h_cache := h_cache demo_settled; h_fs := h_fs demo_settled; h_slot := h_slot demo_settled;
     h_rng := 100 |}.

Definition raced : result io_error (FileSystemKeystore (option bytes) Z) :=
  match generate_writes (demo_env true) (new alice_dir demo_settled),
        generate_writes (demo_env true) (new alice_dir other_settled) with
  | Some (h, ops), Some (_, ops') =>
      let? g := exec_all (take 2 ops ++ ops' ++ drop 2 ops) (h_fs h) in
      Ok (new alice_dir (with_cache None (with_fs g h)))
  | _, _ => Err NotFound
  end.

Example raced_mismatch :
  match raced with
  | Ok s =>
      match (fs_export_pubkey s).1, (fs_sign (demo_env true) (b "hello") s).1 with
      | Ok pk, Ok sig => ed_verify_strict pk (b "hello") sig
      | _, _ => true
      end
  | Err _ => true
  end = false.
Proof. vm_compute. reflexivity. Qed.
