(* ===== verification/Transfer.v ===== *)
(** [gitcellar-crypto/src/transfer.rs]: exporting an identity to a [.gckey] file
    and importing it.

    The file's inner text is JSON, of the current form ([GckeyFile]) or of the
    older one, whose [data] is itself JSON text. *)

From S2P Require Import Prelude Bytes Utf8 Interfaces Toy CryptoError Identity Json.

Definition GCKEY_HEADER_BEGIN : bytes := b "-----BEGIN GITCELLAR KEY FILE-----".
Definition GCKEY_HEADER_END : bytes := b "-----END GITCELLAR KEY FILE-----".
Definition GCKEY_VERSION : bytes := b "3.0".

Record IdentityBundle : Type := {
  version : bytes;
  created_at : bytes;
  bundle_user_id : bytes;
  bundle_fingerprint : bytes;
  secret_key : bytes;
  public_key : bytes;
}.

Record GckeyFile : Type := {
  file_version : bytes;
  encrypted : bool;
  data : IdentityBundle;
}.

(** ** The format's JSON *)

Definition bundle_fields : list bytes :=
  [b "version"; b "created_at"; b "user_id"; b "fingerprint"; b "secret_key"; b "public_key"].

Definition bundle_tree (x : IdentityBundle) : json := JObject
  [(b "version", JString (version x)); (b "created_at", JString (created_at x));
   (b "user_id", JString (bundle_user_id x)); (b "fingerprint", JString (bundle_fingerprint x));
   (b "secret_key", JString (secret_key x)); (b "public_key", JString (public_key x))].

Definition bundle_of (v : json) : option IdentityBundle :=
  fs ← as_struct bundle_fields 6 v;
  ver ← required as_str (b "version") fs;
  created ← required as_str (b "created_at") fs;
  user ← required as_str (b "user_id") fs;
  fp ← required as_str (b "fingerprint") fs;
  secret ← required as_str (b "secret_key") fs;
  public ← required as_str (b "public_key") fs;
  Some {| version := ver; created_at := created; bundle_user_id := user; bundle_fingerprint := fp;
          secret_key := secret; public_key := public |}.

Definition gckey_tree (g : GckeyFile) : json := JObject
  [(b "version", JString (file_version g)); (b "encrypted", JBool (encrypted g));
   (b "data", bundle_tree (data g))].

Definition gckey_of (v : json) : option GckeyFile :=
  fs ← as_struct [b "version"; b "encrypted"; b "data"] 3 v;
  ver ← required as_str (b "version") fs;
  enc ← required as_bool (b "encrypted") fs;
  d ← required bundle_of (b "data") fs;
  Some {| file_version := ver; encrypted := enc; data := d |}.

Section Transfer.
  Context `{JsonOps, Base64Ops}.
  Context {Cert R : Type} `{PgpOps Cert, CertOps Cert R}.

(** [now] is [chrono::Utc::now().to_rfc3339()]. *)
Definition from_identity (now : bytes) (i : Identity Cert) : result CryptoError IdentityBundle :=
  let? secret := map_err from_passkey (export_secret_key i) in
  let? public := map_err from_passkey (export_public_key i) in
  Ok {| version := GCKEY_VERSION; created_at := now; bundle_user_id := user_id i;
        bundle_fingerprint := fingerprint i; secret_key := b64_encode secret;
        public_key := b64_encode public |}.

Definition wrap_gckey_format (content : bytes) : bytes :=
  GCKEY_HEADER_BEGIN ++ [NL] ++ content ++ [NL] ++ GCKEY_HEADER_END.

(** [&trimmed[BEGIN.len()..end_pos]] panics when the end is before the start. *)
Definition unwrap_gckey_format (gckey_content : bytes) : run (result CryptoError bytes) :=
  let trimmed := trim gckey_content in
  if negb (starts_with GCKEY_HEADER_BEGIN trimmed)
  then Done (Err (BundleFormat "Invalid file format. Expected header: {}"))
  else
    match find_sub GCKEY_HEADER_END trimmed with
    | None => Done (Err (BundleFormat "Missing end marker: {}"))
    | Some end_pos =>
        if end_pos <? Zlen GCKEY_HEADER_BEGIN then Panic "slice index starts at {} but ends at {}"
        else Done (Ok (trim (slice (Zlen GCKEY_HEADER_BEGIN) end_pos trimmed)))
    end.

Definition parse_gckey_content (content : bytes) : result CryptoError IdentityBundle :=
  let? v := ok_or (json_parse content) (BundleFormat "Invalid JSON: {}") in
  let? _ :=
    (if bool_decide (json_get (b "encrypted") v ≫= as_bool = Some true)
     then Err (BundleFormat "Password-protected gckey files are no longer supported. Please re-export your identity using the latest version.")
     else Ok tt) in
  let unrecognized := Err (BundleFormat "Unrecognized gckey format. Expected v2.0 or v3.0 format.") in
  match json_get (b "data") v with
  | None => unrecognized
  | Some d =>
      if is_object d then
        let? file := ok_or (json_parse content ≫= gckey_of) (BundleFormat "Invalid v3.0 format: {}") in
        Ok (data file)
      else
        match as_str d with
        | Some s => ok_or (json_parse s ≫= bundle_of) (BundleFormat "Invalid v2.0 bundle: {}")
        | None => unrecognized
        end
  end.

(** Printing text and booleans does not fail. *)
Definition export (now : bytes) (i : Identity Cert) : result CryptoError bytes :=
  let? bundle := from_identity now i in
  Ok (wrap_gckey_format
    (json_to_string_pretty (gckey_tree
      {| file_version := GCKEY_VERSION; encrypted := false; data := bundle |}))).

Definition import (gckey_content : bytes) : run (result CryptoError (Identity Cert)) :=
  let! inner := unwrap_gckey_format gckey_content in
  Done
    (let? inner_content := inner in
     let? bundle := parse_gckey_content inner_content in
     let? secret_key_bytes := ok_or (b64_decode (secret_key bundle))
                                (BundleFormat "Invalid secret key encoding: {}") in
     let? secret_key_str := ok_or (from_utf8 secret_key_bytes)
                              (BundleFormat "Invalid secret key UTF-8: {}") in
     map_err from_passkey (from_armored_secret_key secret_key_str)).
End Transfer.

(** ** Lemmas *)

Lemma starts_with_before {A} `{EqDecision A} (c : A) p u v :
  (c ∉ p) -> starts_with p (u ++ c :: v) = true -> starts_with p u = true.
Proof.
  intros Hc [r E]%starts_with_true. apply starts_with_true.
  apply app_eq_inv in E as [(k & -> & E)|(k & -> & E)]; [by exists k|].
  destruct k as [|x k]; [exists []; by rewrite !app_nil_r|]. injection E as <- _.
  destruct Hc. apply elem_of_app. right. by left.
Qed.

Lemma contains_sub_at {A} `{EqDecision A} (p l u : list A) :
  starts_with p u = true -> contains_sub p (l ++ u) = true.
Proof.
  intros [r ->]%starts_with_true. unfold contains_sub.
  pose proof (find_sub_None_no p l r). by destruct (find_sub p (l ++ p ++ r)).
Qed.

Lemma NL_not_in_end : NL ∉ GCKEY_HEADER_END.
Proof. by_eval. Qed.

(** The end marker is found at the end: it spans no newline, is not in the
    header, and by hypothesis is not in the content. *)
Lemma find_end content :
  contains_sub GCKEY_HEADER_END content = false ->
  find_sub GCKEY_HEADER_END ((GCKEY_HEADER_BEGIN ++ NL :: content ++ [NL]) ++ GCKEY_HEADER_END) =
  Some (Zlen (GCKEY_HEADER_BEGIN ++ NL :: content ++ [NL])).
Proof.
  intros Hn. rewrite <- (app_nil_r GCKEY_HEADER_END) at 2. apply find_sub_first.
  intros l1 l2 El Hl2. apply not_true_iff_false. intros Hs. rewrite app_nil_r in Hs.
  destruct (exists_last Hl2) as (u & x & ->).
  replace (GCKEY_HEADER_BEGIN ++ NL :: content ++ [NL])
    with ((GCKEY_HEADER_BEGIN ++ NL :: content) ++ [NL]) in El by (by rewrite <- app_assoc).
  rewrite app_assoc in El. apply app_inj_tail in El as [El <-]. rewrite <- app_assoc in Hs.
  apply starts_with_before in Hs; [|apply NL_not_in_end].
  apply app_eq_inv in El as [(k & E & ->)|(k & -> & E)].
  - apply starts_with_before in Hs; [|apply NL_not_in_end].
    apply (contains_sub_at _ l1) in Hs. rewrite <- E in Hs. revert Hs. by vm_compute.
  - destruct k as [|y k]; cbn in E.
    + subst u. apply (starts_with_before NL _ []) in Hs; [|apply NL_not_in_end]. done.
    + injection E as <- ->. apply (contains_sub_at _ k) in Hs. congruence.
Qed.

(** The inner text of what was wrapped, when it is text in braces. *)
Lemma unwrap_wrap m :
  let content := b "{" ++ m ++ b "}" in
  valid_utf8 m = true -> contains_sub GCKEY_HEADER_END content = false ->
  unwrap_gckey_format (wrap_gckey_format content) = Done (Ok content).
Proof.
  intros content Hm Hn. unfold unwrap_gckey_format.
  assert (Hc : valid_utf8 content = true)
    by (unfold content; repeat (apply valid_utf8_app; [reflexivity || done|]); reflexivity).
  assert (Ht : trim (wrap_gckey_format content) = wrap_gckey_format content).
  { assert (Hv : valid_utf8 (drop 1 GCKEY_HEADER_BEGIN ++ [NL] ++ content ++ [NL] ++
                   take 31 GCKEY_HEADER_END) = true)
      by (repeat (apply valid_utf8_app; [reflexivity || done|]); reflexivity).
    pose proof (trim_framed [] DASH _ DASH [] eq_refl eq_refl eq_refl eq_refl Hv) as E.
    cbn [app] in E. rewrite app_nil_r in E.
    match type of E with _ = ?x => replace x with (wrap_gckey_format content) in E; [exact E|] end.
    unfold wrap_gckey_format. do 3 (rewrite <- ?app_assoc; cbn [app]). reflexivity. }
  rewrite Ht. unfold wrap_gckey_format. rewrite starts_with_app. cbn [negb].
  replace (GCKEY_HEADER_BEGIN ++ [NL] ++ content ++ [NL] ++ GCKEY_HEADER_END)
    with ((GCKEY_HEADER_BEGIN ++ NL :: content ++ [NL]) ++ GCKEY_HEADER_END)
    by (rewrite <- app_assoc; cbn [app]; by rewrite <- app_assoc).
  rewrite (find_end content Hn), <- app_assoc.
  destruct (Z.ltb_spec (Zlen (GCKEY_HEADER_BEGIN ++ NL :: content ++ [NL])) (Zlen GCKEY_HEADER_BEGIN))
    as [Hlt|_]; [rewrite Zlen_app in Hlt; lia|].
  rewrite (slice_app_mid GCKEY_HEADER_BEGIN (NL :: content ++ [NL])); [|done|by rewrite Zlen_app].
  do 2 f_equal. apply (trim_framed [NL] _ m _ [NL]); first [done | by vm_compute].
Qed.

(** Where the header can overlap the end marker. *)
Lemma header_overlap p u r :
  (p < length GCKEY_HEADER_BEGIN)%nat -> drop p GCKEY_HEADER_BEGIN ++ u = GCKEY_HEADER_END ++ r ->
  (29 <= p)%nat /\ u = drop (34 - p) GCKEY_HEADER_END ++ r.
Proof.
  intros Hp E. pose proof (f_equal (take (Nat.min (34 - p) 32)) E) as Et.
  change (length GCKEY_HEADER_BEGIN) with 34%nat in Hp.
  rewrite !take_app_le in Et by (rewrite ?length_drop; change (length GCKEY_HEADER_BEGIN) with 34%nat;
    change (length GCKEY_HEADER_END) with 32%nat; lia).
  assert (Hall : Forall (fun p => take (Nat.min (34 - p) 32) (drop p GCKEY_HEADER_BEGIN)
      = take (Nat.min (34 - p) 32) GCKEY_HEADER_END ->
      (29 <= p)%nat /\ drop p GCKEY_HEADER_BEGIN = take (34 - p) GCKEY_HEADER_END) (seq 0 34)) by by_eval.
  rewrite Forall_forall in Hall. specialize (Hall p). rewrite elem_of_seq in Hall.
  destruct Hall as [Hge Hd]; [lia | done |]. split; [done|]. rewrite Hd in E.
  rewrite <- (take_drop (34 - p) GCKEY_HEADER_END) in E at 2. rewrite <- app_assoc in E.
  by apply app_inv_head in E.
Qed.

(** ** Properties *)

Lemma bundle_back x : bundle_of (bundle_tree x) = Some x.
Proof. by destruct x. Qed.

Lemma gckey_back g : gckey_of (gckey_tree g) = Some g.
Proof. by destruct g as [v e []]. Qed.

(** The file of the older form. *)
Definition legacy_tree (text : bytes) : json := JObject
  [(b "version", JString (b "2.0")); (b "encrypted", JBool false); (b "salt", JNull);
   (b "nonce", JNull); (b "data", JString text)].

Section Properties.
  Context `{JsonLaws, Base64Laws}.
  Context {Cert R : Type} `{CertLaws Cert R}.
  Implicit Types i : Identity Cert.

Lemma parse_current content g :
  json_parse content = Some (gckey_tree g) -> encrypted g = false ->
  parse_gckey_content content = Ok (data g).
Proof.
  intros Ec He. unfold parse_gckey_content. rewrite Ec. cbn [ok_or rbind].
  change (json_get (b "encrypted") (gckey_tree g)) with (Some (JBool (encrypted g))).
  change (json_get (b "data") (gckey_tree g)) with (Some (bundle_tree (data g))).
  rewrite He. cbn [mbind option_bind as_bool]. rewrite bool_decide_false by done.
  cbn [rbind is_object bundle_tree]. rewrite gckey_back. done.
Qed.

Lemma parse_legacy content text :
  json_parse content = Some (legacy_tree text) ->
  parse_gckey_content content =
    ok_or (json_parse text ≫= bundle_of) (BundleFormat "Invalid v2.0 bundle: {}").
Proof.
  intros Ec. unfold parse_gckey_content. rewrite Ec. cbn [ok_or rbind].
  change (json_get (b "encrypted") (legacy_tree text)) with (Some (JBool false)).
  change (json_get (b "data") (legacy_tree text)) with (Some (JString text)).
  cbn [mbind option_bind as_bool]. by rewrite bool_decide_false.
Qed.

(** Importing a wrapped tree, when no field spells the end marker. *)
Lemma import_wrapped v :
  is_object v = true -> json_plain v = true ->
  let s := wrap_gckey_format (json_to_string_pretty v) in
  find_sub GCKEY_HEADER_END s = Some (Zlen s - Zlen GCKEY_HEADER_END) ->
  exists content, json_parse content = Some v /\
    import (Cert := Cert) s = Done (let? bundle := parse_gckey_content content in
      let? secret_key_bytes := ok_or (b64_decode (secret_key bundle))
                                 (BundleFormat "Invalid secret key encoding: {}") in
      let? secret_key_str := ok_or (from_utf8 secret_key_bytes)
                               (BundleFormat "Invalid secret key UTF-8: {}") in
      map_err from_passkey (from_armored_secret_key secret_key_str)).
Proof.
  intros Ho Hp s Hfirst. subst s. destruct v as [| | | | | |fs]; try done.
  destruct (json_pretty_braces fs) as (m & Em & Hm).
  set (content := json_to_string_pretty (JObject fs)) in *. exists content.
  split; [by apply json_parse_pretty|].
  assert (Hn : contains_sub GCKEY_HEADER_END content = false).
  { apply not_true_iff_false. intros (l & r & El)%contains_sub_true. rewrite El in Hfirst.
    unfold wrap_gckey_format in Hfirst.
    replace (GCKEY_HEADER_BEGIN ++ [NL] ++ (l ++ GCKEY_HEADER_END ++ r) ++ [NL] ++ GCKEY_HEADER_END)
      with ((GCKEY_HEADER_BEGIN ++ [NL] ++ l) ++ GCKEY_HEADER_END ++ (r ++ [NL] ++ GCKEY_HEADER_END))
      in Hfirst by (by rewrite <- !app_assoc).
    pose proof (find_sub_le _ _ _ _ Hfirst) as Hle. rewrite !Zlen_app in Hle. cbn in Hle. lia. }
  clearbody content. subst content. unfold import. rewrite (unwrap_wrap m Hm Hn). done.
Qed.

(** The secret key of an identity's bundle imports to the identity. *)
Lemma bundle_identity now i bundle :
  from_identity now i = Ok bundle ->
  (let? secret_key_bytes := ok_or (b64_decode (secret_key bundle))
                              (BundleFormat "Invalid secret key encoding: {}") in
   let? secret_key_str := ok_or (from_utf8 secret_key_bytes)
                            (BundleFormat "Invalid secret key UTF-8: {}") in
   map_err from_passkey (from_armored_secret_key secret_key_str))
  = Ok {| cert := cert i; user_id := first_user_id (cert i) |}.
Proof.
  unfold from_identity. intros Eb. inv_bind.
  match goal with Hs : map_err from_passkey (export_secret_key i) = Ok ?x |- _ =>
    rename x into secret; rename Hs into Es end.
  cbn [secret_key]. rewrite b64_decode_encode. cbn [ok_or rbind].
  unfold export_secret_key in Es.
  destruct (cert_secret_armor (cert i)) as [armor|] eqn:Ea; [|done]. cbn [ok_or rbind] in Es.
  pose proof (cert_secret_armor_utf8 _ _ Ea) as Hu. unfold from_utf8 in Es |- *.
  rewrite Hu in Es. injection Es as <-. rewrite Hu. cbn [ok_or rbind].
  unfold from_armored_secret_key. by rewrite (cert_parse_armor _ _ Ea).
Qed.

(** C35: Key files import to the identity they were made from: the same
    certificate, with the user id the certificate carries.  So does an exported
    file, and so does a file of the older form, whose data is JSON text of its
    own, provided the file's first end marker is its last line (no field spells
    the marker); a file of either form marked as encrypted is refused. *)
Theorem gckey_roundtrip now i bundle :
  from_identity now i = Ok bundle ->
  let back s := import s = Done (Ok {| cert := cert i; user_id := first_user_id (cert i) |}) in
  let marked_last s := find_sub GCKEY_HEADER_END s = Some (Zlen s - Zlen GCKEY_HEADER_END) in
  (exists s, export now i = Ok s /\ (marked_last s -> back s)) /\
  (forall print, print = json_to_string \/ print = json_to_string_pretty ->
     let s := wrap_gckey_format (json_to_string_pretty (legacy_tree (print (bundle_tree bundle)))) in
     marked_last s -> back s) /\
  (forall fs, json_plain (JObject fs) = true ->
     json_get (b "encrypted") (JObject fs) = Some (JBool true) ->
     let s := wrap_gckey_format (json_to_string_pretty (JObject fs)) in
     marked_last s -> exists m, import (Cert := Cert) s = Done (Err (BundleFormat m))).
Proof.
  intros Eb back marked_last. split; [|split].
  - unfold export. rewrite Eb. cbn [rbind]. eexists. split; [done|]. intros Hl.
    destruct (import_wrapped (gckey_tree _) eq_refl eq_refl Hl) as (content & Ec & Ei). unfold back. rewrite Ei.
    rewrite (parse_current _ _ Ec eq_refl). by apply (f_equal Done), (bundle_identity now).
  - intros print Hpr s Hl. subst s.
    destruct (import_wrapped (legacy_tree _) eq_refl eq_refl Hl) as (content & Ec & Ei). unfold back. rewrite Ei.
    assert (Hp : json_parse (print (bundle_tree bundle)) = Some (bundle_tree bundle))
      by (destruct Hpr as [->| ->]; [by apply json_parse_print|by apply json_parse_pretty]).
    rewrite (parse_legacy _ _ Ec), Hp. cbn [mbind option_bind]. rewrite bundle_back.
    by apply (f_equal Done), (bundle_identity now).
  - intros fs Hp He s Hl. subst s. destruct (import_wrapped (JObject fs) eq_refl Hp Hl) as (content & Ec & ->).
    unfold parse_gckey_content. rewrite Ec. cbn [ok_or rbind]. rewrite He. cbn [mbind option_bind as_bool].
    rewrite bool_decide_true by done. cbn [rbind]. by eexists.
Qed.
End Properties.

(** C39: Importing panics on some malformed files instead of reporting them: those
    whose header runs into the end marker, sharing one to five of its dashes.
    The first end marker is then found before the header ends, and the slice
    between the two is out of order. *)
Theorem gckey_unwrap_panics_iff s :
  (exists w, unwrap_gckey_format s = Panic w) <->
  exists k r, (1 <= k <= 5)%nat /\ trim s = GCKEY_HEADER_BEGIN ++ drop k GCKEY_HEADER_END ++ r.
Proof.
  unfold unwrap_gckey_format. set (t := trim s). clearbody t. split.
  - destruct (starts_with GCKEY_HEADER_BEGIN t) eqn:Hs; [|by intros [w [=]]]. cbn [negb].
    apply starts_with_true in Hs as [u ->].
    destruct (find_sub GCKEY_HEADER_END (GCKEY_HEADER_BEGIN ++ u)) as [i|] eqn:Ei; [|by intros [w [=]]].
    destruct (Z.ltb_spec i (Zlen GCKEY_HEADER_BEGIN)) as [Hlt|]; [|by intros [w [=]]].
    intros _. apply find_sub_Some in Ei as (l & r & E & ->).
    assert (Hl : (length l < length GCKEY_HEADER_BEGIN)%nat) by lia.
    apply (f_equal (drop (length l))) in E. rewrite drop_app_length, drop_app_le in E by lia.
    apply header_overlap in E as [Hp ->]; [|done].
    change (length GCKEY_HEADER_BEGIN) with 34%nat in Hl.
    exists (34 - length l)%nat, r. split; [lia|done].
  - intros (k & r & Hk & ->). rewrite starts_with_app. cbn [negb].
    assert (E : GCKEY_HEADER_BEGIN ++ drop k GCKEY_HEADER_END ++ r
                = take (34 - k) GCKEY_HEADER_BEGIN ++ GCKEY_HEADER_END ++ r).
    { assert (Hall : Forall (fun k => GCKEY_HEADER_BEGIN ++ drop k GCKEY_HEADER_END
          = take (34 - k) GCKEY_HEADER_BEGIN ++ GCKEY_HEADER_END) (seq 1 5)) by by_eval.
      rewrite Forall_forall in Hall. rewrite !app_assoc, Hall; [done|]. apply elem_of_seq. lia. }
    rewrite E.
    destruct (find_sub GCKEY_HEADER_END _) as [i|] eqn:Ei;
      [|by apply find_sub_None_no in Ei].
    pose proof (find_sub_le _ _ _ _ Ei) as Hle. rewrite length_take in Hle.
    destruct (Z.ltb_spec i (Zlen GCKEY_HEADER_BEGIN)) as [_|Hge]; [eauto|].
    change (length GCKEY_HEADER_BEGIN) with 34%nat in *. lia.
Qed.

#[local] Existing Instance toy_json.
#[local] Existing Instance toy_json_laws.

Lemma gckey_roundtrip_witness :
  exists bundle s, from_identity (b "2026-01-01") alice = Ok bundle /\
    export (b "2026-01-01") alice = Ok s /\
    import s = Done (Ok {| cert := cert alice; user_id := first_user_id (cert alice) |}).
Proof.
  pose (bundle := match from_identity (b "2026-01-01") alice with Ok x => Some x | Err _ => None end).
  destruct bundle as [x|] eqn:Ex; [|discriminate Ex].
  assert (Eb : from_identity (b "2026-01-01") alice = Ok x).
  { revert Ex. unfold bundle. destruct (from_identity _ alice); congruence. }
  destruct (gckey_roundtrip (b "2026-01-01") alice x Eb) as ((s & Es & Hs) & _).
  exists x, s. split; [exact Eb|]. split; [exact Es|].
  apply Hs. assert (E : match export (b "2026-01-01") alice with
      | Ok s => bool_decide (find_sub GCKEY_HEADER_END s = Some (Zlen s - Zlen GCKEY_HEADER_END))
      | Err _ => false end = true) by (vm_compute; reflexivity).
  rewrite Es in E. exact (proj1 (bool_decide_eq_true _) E).
Defined.
