(* ===== verification/Account.v ===== *)
(** [gitcellar-identity/src/lib.rs] and [gitcellar-crypto/src/lib.rs]: identities
    of the active user, under GitCellar's own configuration.

    The convenience functions of gitcellar-identity apply those of {!Identity}
    and {!MultiUser} to {!Users.gitcellar}; they are the calls below. *)

From S2P Require Import Prelude Bytes Utf8 Interfaces Toy Fs PasskeyError Users MultiUser.
From S2P Require Import KeyWrap Identity.
From S2P Require CryptoError.

Abbreviation CryptoError := CryptoError.CryptoError.

Section Account.
  Context {Cert K R : Type} `{PgpOps Cert, CertOps Cert R}.
  Context `{HashOps, AeadOps, Base64Ops, Platform, LpkStore K, RngOps R}.
  Variable env : Env.

  Abbreviation host := (Host K R).

(** An operation on the files of the host. *)
Definition on_files {A} (op : fs -> result PasskeyError A * fs) : stateful host PasskeyError A :=
  fun h => let '(r, f) := op (h_fs h) in (r, with_fs f h).

Definition of_passkey {A} (m : stateful host PasskeyError A) : stateful host CryptoError A :=
  smap_err CryptoError.from_passkey m.

(** [identity::load_active] of gitcellar-identity. *)
Definition load_active : stateful host PasskeyError (Identity Cert) :=
  let* u := asks (fun h => get_active_user gitcellar (h_fs h)) in
  let* username := sret (ok_or u NoActiveUser) in
  load_user env gitcellar username.

(** [load_active_identity] *)
Definition load_active_identity : stateful host CryptoError (Identity Cert) :=
  of_passkey load_active.

Definition open_secret_key_at_rest (raw : bytes) : stateful host CryptoError bytes :=
  if is_wrapped raw
  then smap_err (fun _ => CryptoError.KeyLoad "secret key at-rest open failed: {e}")
         (unwrap_at_rest env raw)
  else sret (Ok raw).

Definition identity_exists (f : fs) : bool :=
  match evaluate_state gitcellar f with
  | Ready _ => true
  | ReadyMultiUser _ _ => true
  | NeedsUserSelection users => match users with [] => false | _ => true end
  | ActiveUserMissing _ available => match available with [] => false | _ => true end
  | NoIdentity | Corrupted _ => false
  end.

Definition identity_dir (f : fs) : path :=
  match get_active_user gitcellar f with
  | Some username =>
      match checked_identity_dir gitcellar f username with
      | Ok dir => dir
      | Err _ => config_dir gitcellar ++ [b "identity"]
      end
  | None => config_dir gitcellar ++ [b "identity"]
  end.

Definition save_identity (i : Identity Cert) : stateful host CryptoError unit :=
  let* user := asks (fun h => get_active_user gitcellar (h_fs h)) in
  let* username :=
    (match user with
     | Some u => sret (Ok u)
     | None =>
         let default_user := b "default" in
         let* present := asks (fun h => user_exists gitcellar (h_fs h) default_user) in
         let* _ := (if present then sret (Ok tt)
                    else of_passkey (on_files (fun f => create_user gitcellar f default_user))) in
         let* _ := of_passkey (on_files (fun f => set_active_user gitcellar f default_user)) in
         sret (Ok default_user)
     end) in
  of_passkey (save_for_user env gitcellar i username).

(** A user's data path; the user directory is not checked here. *)
Definition user_data_path (f : fs) (subpath : bytes) : path :=
  match get_active_user gitcellar f with
  | Some username => path_join (user_dir gitcellar username) subpath
  | None =>
      if is_multi_user gitcellar f then
        match List.filter valid_utf8 (dir_entries f (config_dir gitcellar ++ [b "users"])) with
        | name :: _ => path_join (user_dir gitcellar name) subpath
        | [] => path_join (config_dir gitcellar) subpath
        end
      else path_join (config_dir gitcellar) subpath
  end.

Definition keyring_dir (f : fs) : path := user_data_path f (b "keyring").
Definition registry_path (f : fs) : path := user_data_path f (b "registry.db").

Definition user_info_path (f : fs) : path :=
  if (match get_active_user gitcellar f with Some _ => true | None => false end)
     || is_multi_user gitcellar f
  then user_data_path f (b "user_info.json")
  else config_dir gitcellar ++ [b "identity"; b "user_info.json"].
End Account.

(** ** Lemmas *)

Section Pointer.
  Context `{Platform}.

Lemma get_active_user_read f f' :
  (forall c, fs_read f (active_user_path gitcellar) = Ok c ->
     fs_read f' (active_user_path gitcellar) = Ok c) ->
  forall u, get_active_user gitcellar f = Some u -> get_active_user gitcellar f' = Some u.
Proof.
  intros Hr u. unfold get_active_user, read_to_string.
  destruct (exists_ f (active_user_path gitcellar)); [|done]. cbn [negb].
  destruct (fs_read f (active_user_path gitcellar)) as [c|] eqn:E; [|done].
  pose proof (Hr _ eq_refl) as E'. rewrite (exists_read _ _ _ E'), E'. done.
Qed.

Lemma pointer_ne_marker : active_user_path gitcellar <> lpk_minted_marker_path.
Proof. by intros [=]%app_inv_head. Qed.

Lemma pointer_ne_identity u n :
  active_user_path gitcellar <> (users_dir gitcellar ++ [u] ++ [b "identity"]) ++ [n].
Proof.
  unfold active_user_path, users_dir. intros E%(f_equal length).
  rewrite !length_app in E. cbn in E. lia.
Qed.
End Pointer.

Section Saved.
  Context {Cert K R : Type} `{CertLaws Cert R}.
  Context `{HashOps, AeadLaws, Base64Ops, NoLinks, LpkStoreLaws K, RngLaws R}.
  Variable env : Env.
  Implicit Types h : Host K R.
  Implicit Types i : Identity Cert.

Lemma checked_identity_dir_Ok f u p :
  checked_identity_dir gitcellar f u = Ok p ->
  validate_user_dir_name u = Ok tt /\ p = users_dir gitcellar ++ [u] ++ [b "identity"].
Proof.
  unfold checked_identity_dir. intros E. inv_bind.
  match goal with Hc : checked_user_dir _ _ _ = Ok _ |- _ =>
    apply checked_user_dir_iff in Hc as (Hv & -> & _) end.
  by rewrite <- app_assoc.
Qed.

Lemma checked_identity_dir_plain f u :
  validate_user_dir_name u = Ok tt ->
  checked_identity_dir gitcellar f u = Ok (users_dir gitcellar ++ [u] ++ [b "identity"]).
Proof.
  intros Hv. unfold checked_identity_dir. rewrite checked_user_dir_plain by done.
  cbn [rbind]. by rewrite <- app_assoc.
Qed.

Lemma on_files_Ok {A} (op : fs -> result PasskeyError A * fs) h a h' :
  of_passkey (on_files op) h = (Ok a, h') ->
  exists f, op (h_fs h) = (Ok a, f) /\ h' = with_fs f h.
Proof.
  unfold of_passkey, smap_err, on_files. destruct (op (h_fs h)) as [[x|e] f]; [|done].
  intros [= -> <-]. eauto.
Qed.

(** Saving for the user the pointer names: a later process loads it back. *)
Lemma save_for_active u i h h1 :
  get_active_user gitcellar (h_fs h) = Some u ->
  h_cache h = None -> save_for_user env gitcellar i u h = (Ok tt, h1) ->
  (exists k, h_cache h1 = Some (k, OsKeyring)) \/
  (os_keyring_persistent env = false /\ headless_secret_file env = None) ->
  get_active_user gitcellar (h_fs h1) = Some u /\
  exists h2, load_active env (with_cache None h1) =
    (Ok {| cert := cert i; user_id := first_user_id (cert i) |}, h2).
Proof.
  intros Hu Hc Hs Hsrc. unfold save_for_user in Hs.
  apply sbind_Ok_inv in Hs as (p & h0 & Ep & Hs).
  unfold identity_dir_of in Ep. injection Ep as Ep <-.
  apply checked_identity_dir_Ok in Ep as [Hv ->].
  assert (Ha : get_active_user gitcellar (h_fs h1) = Some u).
  { revert Hu. apply get_active_user_read. intros c Hr.
    change h1 with ((Ok tt : result PasskeyError unit, h1).2). rewrite <- Hs.
    apply save_keeps; [apply pointer_ne_identity | apply pointer_ne_identity | | done].
    intros tsk h' Hh. unfold seal_secret_key, smap_err.
    pose proof (wrap_files _ c env tsk h' pointer_ne_marker Hh) as Hw.
    by destruct (wrap_at_rest env tsk h'). }
  split; [done|].
  destruct (saved_loads env i _ h h1 Hc Hs Hsrc) as [h2 Hl]. exists h2.
  unfold load_active. erewrite sbind_Ok by reflexivity. cbn [h_fs with_cache]. rewrite Ha.
  cbn [ok_or]. erewrite sbind_Ok by reflexivity. unfold load_user.
  erewrite sbind_Ok; [exact Hl|]. unfold identity_dir_of. by rewrite checked_identity_dir_plain.
Qed.

Lemma saved_active_loads i h h1 :
  h_cache h = None -> save_identity env i h = (Ok tt, h1) ->
  (exists k, h_cache h1 = Some (k, OsKeyring)) \/
  (os_keyring_persistent env = false /\ headless_secret_file env = None) ->
  (exists u, get_active_user gitcellar (h_fs h1) = Some u /\
     (forall v, get_active_user gitcellar (h_fs h) = Some v -> u = v)) /\
  exists h2, load_active_identity env (with_cache None h1) =
    (Ok {| cert := cert i; user_id := first_user_id (cert i) |}, h2).
Proof.
  intros Hc Hs Hsrc. unfold save_identity in Hs. erewrite sbind_Ok in Hs by reflexivity.
  apply sbind_Ok_inv in Hs as (u & h0 & Eu & Hs).
  assert (Hu : get_active_user gitcellar (h_fs h0) = Some u /\ h_cache h0 = None /\
    (forall v, get_active_user gitcellar (h_fs h) = Some v -> u = v)).
  { destruct (get_active_user gitcellar (h_fs h)) as [v|] eqn:Eg.
    - injection Eu as <- <-. split; [done|]. split; [done|]. by intros v' [= ->].
    - erewrite sbind_Ok in Eu by reflexivity.
      apply sbind_Ok_inv in Eu as ([] & h' & Ec & Eu).
      apply sbind_Ok_inv in Eu as ([] & h'' & Ed & [= <- <-]).
      assert (Hc' : h_cache h' = None).
      { destruct (user_exists _ _ _); [by injection Ec as <-|].
        by apply on_files_Ok in Ec as (f & _ & ->). }
      apply on_files_Ok in Ed as (f & Ed & ->). split; [|by split].
      apply set_active_user_cases in Ed as [(_ & [=] & _)|(Hv & _ & [[_ Hn]|[[=] _]])].
      by apply get_active_user_written. }
  destruct Hu as (Hu & Hc0 & Hv). unfold of_passkey, smap_err in Hs.
  destruct (save_for_user env gitcellar i u h0) as [[[]|e] h1'] eqn:Es; [|done].
  injection Hs as <-.
  destruct (save_for_active u i h0 h1' Hu Hc0 Es Hsrc) as [Ha [h2 Hl]].
  split; [eauto|]. exists h2. unfold load_active_identity, of_passkey, smap_err. by rewrite Hl.
Qed.

(** Saving for the active user works end to end.  A save that returns leaves a
    pointer to a user (the one it named, or [default]), and a later process with
    an empty cache loads the saved certificate for the active user, when the
    protection key came from the OS keyring or from the headless secret of the
    environment. *)
Theorem save_identity_load_active i h h1 :
  h_cache h = None -> save_identity env i h = (Ok tt, h1) ->
  (exists k, h_cache h1 = Some (k, OsKeyring)) \/
  (os_keyring_persistent env = false /\ headless_secret_file env = None) ->
  (exists u, get_active_user gitcellar (h_fs h1) = Some u /\
     (forall v, get_active_user gitcellar (h_fs h) = Some v -> u = v)) /\
  exists h2, load_active_identity env (with_cache None h1) =
    (Ok {| cert := cert i; user_id := first_user_id (cert i) |}, h2).
Proof. apply saved_active_loads. Qed.
End Saved.

(** The identity directory of the active user is always under the
    configuration directory, one valid name below the users directory or the
    legacy place; the other user paths are only as safe as the pointer.  With a
    valid name they lie in that user's directory, but they do not check it: a
    pointer file that holds an absolute path moves the keyring and the registry
    there, where the identity path falls back. *)
Theorem active_user_paths `{Platform} f :
  (identity_dir f = config_dir gitcellar ++ [b "identity"] \/
   exists u, validate_user_dir_name u = Ok tt /\
     identity_dir f = users_dir gitcellar ++ [u; b "identity"]) /\
  (forall u, get_active_user gitcellar f = Some u -> validate_user_dir_name u = Ok tt ->
     keyring_dir f = users_dir gitcellar ++ [u; b "keyring"] /\
     registry_path f = users_dir gitcellar ++ [u; b "registry.db"]) /\
  (forall p, get_active_user gitcellar f = Some p -> starts_with [SLASH] p = true ->
     identity_dir f = config_dir gitcellar ++ [b "identity"] /\
     keyring_dir f = components p ++ [b "keyring"] /\
     registry_path f = components p ++ [b "registry.db"]).
Proof.
  split; [|split].
  - unfold identity_dir. destruct (get_active_user gitcellar f) as [u|]; [|by left].
    destruct (checked_identity_dir gitcellar f u) as [d|] eqn:E; [|by left].
    apply checked_identity_dir_Ok in E as [Hv ->]. right. by exists u.
  - intros u Hu Hv. apply valid_dir_name_plain in Hv as (_ & _ & _ & _ & _ & Hc & Hs).
    unfold keyring_dir, registry_path, user_data_path. rewrite Hu. unfold user_dir, path_join.
    rewrite Hs, Hc. change (starts_with [SLASH] (b "keyring")) with false.
    change (starts_with [SLASH] (b "registry.db")) with false. cbv iota.
    by rewrite <- !app_assoc.
  - intros p Hp Hs. unfold identity_dir, keyring_dir, registry_path, user_data_path. rewrite Hp.
    split; [|by unfold user_dir, path_join; rewrite Hs].
    destruct (checked_identity_dir gitcellar f p) as [d|] eqn:E; [|done].
    apply checked_identity_dir_Ok in E as [Hv _].
    apply valid_dir_name_plain in Hv as (_ & _ & _ & _ & _ & _ & Hns). congruence.
Qed.

(** ** Witnesses *)

Definition account_host : Host (option bytes) Z := demo_host (@None bytes).

Lemma save_identity_load_active_witness :
  exists h2, load_active_identity (demo_env true)
    (with_cache None (save_identity (demo_env true) alice account_host).2) =
    (Ok {| cert := cert alice; user_id := first_user_id (cert alice) |}, h2).
Proof.
  pose (s := save_identity (demo_env true) alice account_host).
  assert (Es : s.1 = Ok tt) by (vm_compute; reflexivity).
  destruct (save_identity_load_active (demo_env true) alice account_host s.2) as [_ H].
  - reflexivity.
  - rewrite <- Es. apply surjective_pairing.
  - left. exists (replicate 32 (as_u8 9)). vm_compute. reflexivity.
  - exact H.
Defined.

Lemma active_user_paths_witness :
  keyring_dir {[ active_user_path gitcellar := File (b "/etc") ]} = [b "etc"; b "keyring"].
Proof.
  exact (proj1 (proj2 (proj2 (proj2 (active_user_paths {[ active_user_path gitcellar := File (b "/etc") ]}))
    (b "/etc") eq_refl eq_refl))).
Defined.
