(* ===== verification/MachineId.v ===== *)
(** [passkey-core/src/auth/machine_id.rs]: machine ids, which name a device by
    the whole fingerprint of its key. *)

From S2P Require Import Prelude Bytes Utf8 Interfaces Toy PasskeyError Users Identity.

Definition MACHINE_ID_HEX_WIDTHS : list Z := [40; 64].

(** [chars().all(is_ascii_hexdigit)] on bytes: a byte of a longer character is
    no hex digit. *)
Definition is_valid_fingerprint_hex (s : bytes) : bool :=
  bool_decide (Zlen s ∈ MACHINE_ID_HEX_WIDTHS) && forallb is_ascii_hexdigit s.

Definition split_dash (s : bytes) : list bytes := split_on DASH s.

Section MachineId.
  Context `{UnicodeOps} {Cert : Type} `{PgpOps Cert}.

Definition derive_machine_id_from_fingerprint (prefix fingerprint : bytes) : bytes :=
  prefix ++ [DASH] ++ str_to_lowercase fingerprint.

Definition derive_machine_id_from_identity (c : PasskeyConfig) (i : Identity Cert) : bytes :=
  derive_machine_id_from_fingerprint (machine_id_prefix c) (cert_fingerprint (cert i)).

Definition derive_machine_id_from_cert (c : PasskeyConfig) (x : Cert) : bytes :=
  derive_machine_id_from_fingerprint (machine_id_prefix c) (cert_fingerprint x).

Definition derive_machine_id (c : PasskeyConfig) (public_key : bytes) : result PasskeyError bytes :=
  let? x := parse_public_key public_key in
  Ok (derive_machine_id_from_cert c x).

Definition verify_machine_id (c : PasskeyConfig) (public_key claimed_machine_id : bytes)
    : result PasskeyError bool :=
  let? expected := derive_machine_id c public_key in
  Ok (bool_decide (expected = claimed_machine_id)).

Definition is_valid_machine_id (c : PasskeyConfig) (machine_id : bytes) : bool :=
  match split_dash machine_id with
  | [p; hex] => bool_decide (p = machine_id_prefix c) && is_valid_fingerprint_hex hex
  | _ => false
  end.

Definition is_valid_machine_id_format (machine_id : bytes) : bool :=
  match split_dash machine_id with
  | [p; hex] =>
      negb (Zlen p <? 2) && negb (Zlen p >? 6) && forallb char_is_alphanumeric (chars p)
      && is_valid_fingerprint_hex hex
  | _ => false
  end.

(** [split] always has a first part. *)
Definition extract_prefix (machine_id : bytes) : option bytes := head (split_dash machine_id).

Definition extract_fingerprint (machine_id : bytes) : option bytes :=
  match split_dash machine_id with [_; hex] => Some hex | _ => None end.
End MachineId.

(** ** Lemmas *)

Lemma split_dash_two x y :
  (DASH ∉ x) -> (DASH ∉ y) -> split_dash (x ++ [DASH] ++ y) = [x; y].
Proof. intros Hx Hy. unfold split_dash. cbn [app]. by rewrite split_on_app, split_on_no. Qed.

Lemma hex_lowercase c : is_ascii_hexdigit c = true ->
  is_ascii_hexdigit (to_ascii_lowercase_byte c) = true /\ to_ascii_lowercase_byte c <> DASH /\ u8 c < 128.
Proof.
  pose proof (byte_forall (fun c => negb (is_ascii_hexdigit c) ||
    bool_decide (is_ascii_hexdigit (to_ascii_lowercase_byte c) = true /\
      to_ascii_lowercase_byte c <> DASH /\ u8 c < 128)) eq_refl c) as E.
  cbn beta in E. intros Hc. rewrite Hc in E. by apply bool_decide_eq_true in E.
Qed.

Section Hex.
  Context `{UnicodeLaws}.

(** A hexadecimal fingerprint, lowercased, is hexadecimal and has no dash. *)
Lemma lowercase_fingerprint fp :
  forallb is_ascii_hexdigit fp = true ->
  str_to_lowercase fp = to_ascii_lowercase fp /\ (DASH ∉ to_ascii_lowercase fp) /\
  forallb is_ascii_hexdigit (to_ascii_lowercase fp) = true.
Proof.
  intros Hf. rewrite forallb_forall in Hf. split; [|split].
  - apply str_to_lowercase_ascii, Forall_forall. intros c Hc%list_elem_of_In.
    by apply hex_lowercase, Hf.
  - intros (c & Ec & Hc%list_elem_of_In)%list_elem_of_fmap. apply Hf, hex_lowercase in Hc. naive_solver.
  - apply forallb_forall. intros c (d & <- & Hd)%in_map_iff. by apply hex_lowercase, Hf.
Qed.
End Hex.

(** ** Properties *)

(** A machine id names the whole fingerprint of the key.  With a dash-free
    prefix the parts of a derived id are the prefix and the lowercased
    fingerprint, and the id is valid exactly when the fingerprint has one of the
    two full widths; keys with one id have the same fingerprint up to case.  With
    a prefix that has a dash, no id is ever valid, not even a derived one. *)
Theorem machine_id_spec `{UnicodeLaws} {Cert} `{PgpOps Cert} c (x : Cert) :
  forallb is_ascii_hexdigit (cert_fingerprint x) = true ->
  let id := derive_machine_id_from_cert c x in
  ((DASH ∉ machine_id_prefix c) ->
     extract_prefix id = Some (machine_id_prefix c) /\
     extract_fingerprint id = Some (to_ascii_lowercase (cert_fingerprint x)) /\
     (is_valid_machine_id c id = true <-> Zlen (cert_fingerprint x) ∈ MACHINE_ID_HEX_WIDTHS)) /\
  (DASH ∈ machine_id_prefix c -> forall id', is_valid_machine_id c id' = false) /\
  (forall y : Cert, forallb is_ascii_hexdigit (cert_fingerprint y) = true ->
     derive_machine_id_from_cert c y = id ->
     to_ascii_lowercase (cert_fingerprint y) = to_ascii_lowercase (cert_fingerprint x)).
Proof.
  intros Hx id. destruct (lowercase_fingerprint _ Hx) as (El & Hd & Hh).
  assert (Eid : id = machine_id_prefix c ++ [DASH] ++ to_ascii_lowercase (cert_fingerprint x))
    by (unfold id, derive_machine_id_from_cert, derive_machine_id_from_fingerprint; by rewrite El).
  split; [|split].
  - intros Hp. unfold extract_prefix, extract_fingerprint, is_valid_machine_id.
    rewrite Eid, split_dash_two by done. split; [done|]. split; [done|].
    rewrite bool_decide_true by done. unfold is_valid_fingerprint_hex. rewrite Hh, andb_true_r.
    cbn [andb]. unfold to_ascii_lowercase. rewrite (length_map to_ascii_lowercase_byte). apply bool_decide_eq_true.
  - intros Hp id'. unfold is_valid_machine_id. destruct (split_dash id') as [|p [|hex [|? ?]]] eqn:E;
      try done. case_bool_decide as Hpe; [|done]. subst p. exfalso. revert Hp.
    pose proof (split_on_parts DASH id') as Hf. unfold split_dash in E. rewrite E in Hf.
    by apply Forall_cons in Hf as [Hf _].
  - intros y Hy. destruct (lowercase_fingerprint _ Hy) as (Ey & _ & _). rewrite Eid.
    unfold derive_machine_id_from_cert, derive_machine_id_from_fingerprint. rewrite Ey.
    intros E%app_inv_head. by injection E.
Qed.

Lemma machine_id_spec_witness :
  is_valid_machine_id gitcellar (derive_machine_id_from_cert gitcellar (b "0123456789abcdefghij")) = true.
Proof.
  refine (proj2 (proj2 (proj2 (proj1 (machine_id_spec gitcellar (b "0123456789abcdefghij") _) _))) _);
    by_eval.
Defined.
