(* ===== verification/Words.v ===== *)
(** [passkey-core/src/recovery/bip39_impl.rs]: the word list behind recovery
    phrases, with completion and correction of typed words.

    The word list is the crate's; the edit distance is the two-row table the
    source fills, over the characters of the two words. *)

From S2P Require Import Prelude Bytes Utf8 Interfaces Toy.

(** [bip39::Language::English.word_list()] *)
Class WordList : Type := { word_list : list bytes }.

Section Levenshtein.
  Context {A : Type} `{EqDecision A}.
  Variables a s : list A.

(** Cell [j] of the current row, from the row above and the cell before it.
    [i] and [j] are at least 1 and within the words. *)
Definition lev_cell (prev curr : list nat) (i j : nat) : nat :=
  let cost := if decide (a !! (i - 1)%nat = s !! (j - 1)%nat) then 0%nat else 1%nat in
  (Nat.min (Nat.min (nth j prev 0 + 1) (nth (j - 1) curr 0 + 1)) (nth (j - 1) prev 0 + cost))%nat.

(** The inner loop over [1..=n], on a row whose cell 0 was set to [i]. *)
Definition lev_row (prev curr : list nat) (i : nat) : list nat :=
  foldl (fun curr j => <[j := lev_cell prev curr i j]> curr) (<[0%nat := i]> curr)
    (seq 1 (length s)).

(** The outer loop over [1..=m]; the rows are swapped after each. *)
Definition lev_rows (m : nat) : list nat * list nat :=
  foldl (fun '(prev, curr) i => (lev_row prev curr i, prev))
    (seq 0 (length s + 1), replicate (length s + 1) 0%nat) (seq 1 m).

Definition lev : nat :=
  match length a, length s with
  | O, n => n
  | m, O => m
  | m, n => nth n (lev_rows m).1 0%nat
  end.
End Levenshtein.

Definition levenshtein_distance (x y : bytes) : nat := lev (chars x) (chars y).

(** [min_by_key]: the first of the least. *)
Fixpoint min_by_snd {A} (l : list (A * nat)) : option (A * nat) :=
  match l with
  | [] => None
  | x :: l =>
      match min_by_snd l with
      | Some y => if (snd y <? snd x)%nat then Some y else Some x
      | None => Some x
      end
  end.

Section Words.
  Context `{UnicodeOps, WordList}.

Definition is_valid_word (word : bytes) : bool :=
  bool_decide (str_to_lowercase word ∈ word_list).

Definition get_word_suggestions (prefix : bytes) (max_results : nat) : list bytes :=
  take max_results (List.filter (starts_with (str_to_lowercase prefix)) word_list).

Definition find_closest_word (word : bytes) (max_distance : nat) : option bytes :=
  let word_lower := str_to_lowercase word in
  let close := List.filter (fun wd : bytes * nat => (wd.2 <=? max_distance)%nat)
                 (map (fun w => (w, levenshtein_distance word_lower w)) word_list) in
  match min_by_snd close with Some wd => Some wd.1 | None => None end.
End Words.

(** ** The edit distance *)

(** An alignment of two lists with [n] insertions, deletions and substitutions. *)
Inductive edits {A : Type} : nat -> list A -> list A -> Prop :=
  | edits_nil : edits 0 [] []
  | edits_keep n x l k : edits n l k -> edits n (x :: l) (x :: k)
  | edits_change n x y l k : edits n l k -> edits (S n) (x :: l) (y :: k)
  | edits_delete n x l k : edits n l k -> edits (S n) (x :: l) k
  | edits_insert n y l k : edits n l k -> edits (S n) l (y :: k).

(** [n] edits turn one list into the other, and no fewer do. *)
Definition distance {A} (n : nat) (l k : list A) : Prop :=
  edits n l k /\ forall m, edits m l k -> (n <= m)%nat.

Section Edits.
  Context {A : Type} `{EqDecision A}.
  Implicit Types l k : list A.

Lemma edits_refl l : edits 0 l l.
Proof. induction l; by constructor. Qed.

Lemma edits_app n m l k l' k' : edits n l k -> edits m l' k' -> edits (n + m) (l ++ l') (k ++ k').
Proof. intros H1 H2. induction H1; cbn; by (constructor || auto). Qed.

Lemma edits_rev n l k : edits n l k -> edits n (rev l) (rev k).
Proof.
  induction 1 as [|n x l k _ IH|n x y l k _ IH|n x l k _ IH|n y l k _ IH]; cbn [rev].
  - constructor.
  - rewrite <- (Nat.add_0_r n). apply edits_app; [done|apply edits_refl].
  - rewrite <- Nat.add_1_r. apply edits_app; [done|]. repeat constructor.
  - rewrite <- Nat.add_1_r, <- (app_nil_r (rev k)). apply edits_app; [done|]. repeat constructor.
  - rewrite <- Nat.add_1_r, <- (app_nil_r (rev l)). apply edits_app; [done|]. repeat constructor.
Qed.

Lemma distance_rev n l k : distance n (rev l) (rev k) <-> distance n l k.
Proof.
  unfold distance. split; intros [He Hm]; split.
  - apply edits_rev in He. by rewrite !rev_involutive in He.
  - intros m Hd%edits_rev. auto.
  - by apply edits_rev.
  - intros m Hd%edits_rev. rewrite !rev_involutive in Hd. auto.
Qed.

(** The recursion on the first elements. *)
Fixpoint edit l k : nat :=
  match l with
  | [] => length k
  | x :: l' =>
      (fix edit' k : nat :=
         match k with
         | [] => length l
         | y :: k' =>
             Nat.min (Nat.min (edit l' k + 1) (edit' k' + 1))
               (edit l' k' + if decide (x = y) then 0 else 1)
         end) k
  end%nat.

Lemma edit_nil_r l : edit l [] = length l.
Proof. by destruct l. Qed.

Lemma edit_cons x y l k :
  edit (x :: l) (y :: k) =
  Nat.min (Nat.min (edit l (y :: k) + 1) (edit (x :: l) k + 1))
    (edit l k + if decide (x = y) then 0 else 1).
Proof. done. Qed.

Lemma edits_inserts k : edits (length k) [] k.
Proof. induction k; by constructor. Qed.
Lemma edits_deletes l : edits (length l) l [].
Proof. induction l; by constructor. Qed.

Lemma edit_edits l k : edits (edit l k) l k.
Proof.
  revert k. induction l as [|x l IHl]; intros k; [apply edits_inserts|].
  induction k as [|y k IHk]; [apply edits_deletes|]. rewrite edit_cons.
  destruct (Nat.min_dec (Nat.min (edit l (y :: k) + 1) (edit (x :: l) k + 1))
    (edit l k + if decide (x = y) then 0 else 1)) as [->| ->].
  - destruct (Nat.min_dec (edit l (y :: k) + 1) (edit (x :: l) k + 1)) as [->| ->];
      rewrite Nat.add_1_r; [apply edits_delete|apply edits_insert]; auto.
  - destruct (decide (x = y)) as [->|_].
    + rewrite Nat.add_0_r. by apply edits_keep.
    + rewrite Nat.add_1_r. by apply edits_change.
Qed.

Lemma edit_step_l x l k : (edit (x :: l) k <= edit l k + 1)%nat.
Proof. destruct k as [|y k]; [rewrite !edit_nil_r; cbn; lia|]. rewrite edit_cons. lia. Qed.

Lemma edit_step_r y l k : (edit l (y :: k) <= edit l k + 1)%nat.
Proof. destruct l as [|x l]; [cbn; lia|]. rewrite edit_cons. lia. Qed.

Lemma edits_least n l k : edits n l k -> (edit l k <= n)%nat.
Proof.
  induction 1 as [|n x l k _ IH|n x y l k _ IH|n x l k _ IH|n y l k _ IH].
  - done.
  - rewrite edit_cons, decide_True by done. lia.
  - rewrite edit_cons. destruct (decide (x = y)); lia.
  - pose proof (edit_step_l x l k). lia.
  - pose proof (edit_step_r y l k). lia.
Qed.

Lemma edit_distance l k : distance (edit l k) l k.
Proof. split; [apply edit_edits|intros m; apply edits_least]. Qed.
End Edits.

(** ** The table *)

Section Table.
  Context {A : Type} `{EqDecision A}.
  Variables a s : list A.

(** What cell [j] of row [i] holds. *)
Definition cell (i j : nat) : nat := edit (rev (take i a)) (rev (take j s)).

Lemma cell_0_j j : (j <= length s)%nat -> cell 0 j = j.
Proof. intros Hj. unfold cell. rewrite take_0. cbn [rev edit]. rewrite length_rev, length_take. lia. Qed.

Lemma cell_i_0 i : (i <= length a)%nat -> cell i 0 = i.
Proof. intros Hi. unfold cell. rewrite take_0. cbn [rev]. rewrite edit_nil_r, length_rev, length_take. lia. Qed.

Lemma rev_take_S (l : list A) i x : l !! i = Some x -> rev (take (S i) l) = x :: rev (take i l).
Proof. intros Hi. by rewrite (take_S_r _ _ _ Hi), rev_app_distr. Qed.

Lemma cell_S i j :
  (i < length a)%nat -> (j < length s)%nat ->
  cell (S i) (S j) =
  Nat.min (Nat.min (cell i (S j) + 1) (cell (S i) j + 1))
    (cell i j + if decide (a !! i = s !! j) then 0 else 1)%nat.
Proof.
  intros [x Hx]%lookup_lt_is_Some [y Hy]%lookup_lt_is_Some. unfold cell.
  rewrite (rev_take_S a i x Hx), (rev_take_S s j y Hy), edit_cons, Hx, Hy.
  do 2 f_equal. destruct (decide (x = y)), (decide (Some x = Some y)); congruence.
Qed.

(** The first [k] cells of a row hold the values of row [i]. *)
Definition row_ok (i k : nat) (row : list nat) : Prop :=
  length row = S (length s) /\ forall j, (j < k)%nat -> nth j row 0%nat = cell i j.

Lemma nth_insert_eq (l : list nat) j v d : (j < length l)%nat -> nth j (<[j := v]> l) d = v.
Proof. intros Hj. by rewrite nth_lookup, list_lookup_insert_eq. Qed.

Lemma nth_insert_ne (l : list nat) j k v d : j <> k -> nth j (<[k := v]> l) d = nth j l d.
Proof. intros Hj. by rewrite !nth_lookup, list_lookup_insert_ne. Qed.

Lemma lev_row_upto i k prev curr :
  (S i <= length a)%nat -> (k <= length s)%nat ->
  row_ok i (S (length s)) prev -> length curr = S (length s) ->
  row_ok (S i) (S k)
    (foldl (fun curr j => <[j := lev_cell a s prev curr (S i) j]> curr)
       (<[0%nat := S i]> curr) (seq 1 k)).
Proof.
  intros Hi Hk [_ Hp] Hc. induction k as [|k IH].
  - cbn [seq foldl]. split; [by rewrite length_insert|]. intros j Hj. replace j with 0%nat by lia.
    by rewrite nth_insert_eq, cell_i_0 by lia.
  - rewrite seq_S, foldl_snoc. destruct IH as [Hl Hn]; [lia|].
    set (row := foldl _ _ (seq 1 k)) in *.
    split; [by rewrite length_insert|]. intros j Hj. replace (1 + k)%nat with (S k) by lia.
    destruct (decide (j = S k)) as [->|Hne].
    + rewrite nth_insert_eq by lia. unfold lev_cell. replace (S k - 1)%nat with k by lia.
      replace (S i - 1)%nat with i by lia.
      by rewrite (Hp (S k)), (Hp k), (Hn k), cell_S by lia.
    + rewrite nth_insert_ne by done. apply Hn. lia.
Qed.

Lemma lev_rows_ok i :
  (i <= length a)%nat ->
  row_ok i (S (length s)) (lev_rows a s i).1 /\ length (lev_rows a s i).2 = S (length s).
Proof.
  unfold lev_rows. induction i as [|i IH]; intros Hi.
  - cbn [foldl seq fst snd]. rewrite length_replicate. split; [split|lia].
    + rewrite length_seq. lia.
    + intros j Hj. rewrite seq_nth, cell_0_j by lia. lia.
  - rewrite seq_S, foldl_snoc. destruct IH as [Hr Hc]; [lia|].
    destruct (foldl _ _ _) as [prev curr]. cbn [fst snd] in *. split; [|by destruct Hr].
    replace (1 + i)%nat with (S i) by lia. by apply lev_row_upto.
Qed.

Lemma lev_distance : distance (lev a s) a s.
Proof.
  apply distance_rev.
  assert (lev a s = cell (length a) (length s)) as ->.
  { unfold lev. destruct (length a) as [|m] eqn:Ha; [by rewrite cell_0_j|].
    destruct (length s) as [|n] eqn:Hs; [by rewrite cell_i_0 by lia|].
    destruct (lev_rows_ok (S m)) as [[_ Hr] _]; [lia|]. rewrite Hs in Hr. apply Hr. lia. }
  unfold cell. rewrite !take_ge by lia. apply edit_distance.
Qed.
End Table.

(** ** Correction *)

(** C37: [levenshtein_distance] is the edit distance between the characters of
    the two words: that many insertions, deletions and substitutions turn one
    into the other, and no fewer do. *)
Theorem levenshtein_distance_spec (x y : bytes) :
  distance (levenshtein_distance x y) (chars x) (chars y).
Proof. apply lev_distance. Qed.

Lemma min_by_snd_spec {A} (l : list (A * nat)) :
  match min_by_snd l with
  | Some y => y ∈ l /\ forall x, x ∈ l -> (snd y <= snd x)%nat
  | None => l = []
  end.
Proof.
  induction l as [|x l IH]; [done|]. cbn [min_by_snd]. destruct (min_by_snd l) as [y|].
  - destruct IH as [Hy Hm]. destruct (Nat.ltb_spec (snd y) (snd x)) as [Hlt|Hle].
    + split; [by right|]. intros z [->|Hz]%elem_of_cons; [lia|auto].
    + split; [by left|]. intros z [->|Hz]%elem_of_cons; [lia|]. specialize (Hm z Hz). lia.
  - subst l. split; [by left|]. intros z [->|Hz]%elem_of_cons; [lia|]. by apply elem_of_nil in Hz.
Qed.

Section Correction.
  Context `{UnicodeOps, WordList}.

(** The words [find_closest_word] looks at, with their distances. *)
Lemma close_words (word : bytes) (d : nat) (p : bytes * nat) :
  p ∈ List.filter (fun wd : bytes * nat => (wd.2 <=? d)%nat)
        (map (fun w => (w, levenshtein_distance word w)) word_list) <->
  p.1 ∈ word_list /\ p.2 = levenshtein_distance word p.1 /\ (p.2 <= d)%nat.
Proof.
  rewrite !list_elem_of_In, filter_In, in_map_iff, Nat.leb_le. destruct p as [w n]; cbn [fst snd].
  split.
  - intros [(w' & [= <- <-] & Hw) Hd]. done.
  - intros (Hw & -> & Hd). eauto.
Qed.

(** the correction offered for a typed word is a word of the list at the
    least edit distance from it within the threshold; none is offered exactly
    when every word of the list is further away. *)
Theorem find_closest_word_spec (word : bytes) (d : nat) :
  let dist w := levenshtein_distance (str_to_lowercase word) w in
  match find_closest_word word d with
  | Some w => w ∈ word_list /\ (dist w <= d)%nat /\ forall w', w' ∈ word_list -> (dist w <= dist w')%nat
  | None => forall w', w' ∈ word_list -> (d < dist w')%nat
  end.
Proof.
  intros dist. unfold find_closest_word. cbv zeta.
  match goal with |- context [min_by_snd ?l] => pose proof (min_by_snd_spec l) as Hs end.
  destruct (min_by_snd _) as [[w n]|].
  - destruct Hs as [(Hw & Hn & Hd)%close_words Hm]. cbn [fst snd] in *. subst n.
    repeat split; try done. intros w' Hw'. destruct (Nat.le_gt_cases (dist w') d) as [Hle|Hgt].
    + apply (Hm (w', dist w')). by apply close_words.
    + unfold dist in *. lia.
  - intros w' Hw'. destruct (Nat.le_gt_cases (dist w') d) as [Hle|]; [|done].
    assert ((w', dist w') ∈ ([] : list (bytes * nat))) as []%elem_of_nil.
    rewrite <- Hs. by apply close_words.
Qed.
End Correction.

Example lev_kitten : levenshtein_distance (b "kitten") (b "sitting") = 3%nat.
Proof. vm_compute. reflexivity. Qed.
