(* ===== verification/Recovery.v ===== *)
(** [passkey-core/src/recovery/mod.rs] and [derive.rs]: 24-word recovery codes,
    the key material and the verification hash derived from them, their display
    forms, and the checks made while a user types one.

    The BIP39 codec ([bip39::Mnemonic]) is a parameter.  [Words] has the word
    list's own helpers. *)

From S2P Require Import Prelude Bytes Utf8 Interfaces Toy PasskeyError Words.
From S2P Require Master.

Local Open Scope gc_scope.

(** [bip39::Mnemonic], in English: [parse_in_normalized], [to_string],
    [to_seed("")] and [from_entropy_in]. *)
Class Bip39Ops (Mnemonic : Type) : Type := {
  parse_in_normalized : bytes -> option Mnemonic;
  mnemonic_string : Mnemonic -> bytes;
  mnemonic_to_seed : Mnemonic -> bytes;
  from_entropy_in : bytes -> option Mnemonic;
}.

(** A mnemonic prints as its words, of the list, with single spaces, and reads
    back; parsing only looks at the words; 32 bytes of entropy make 24 words.
    The list's words are lower-case letters. *)
Class Bip39Laws (Mnemonic : Type) `{Bip39Ops Mnemonic, WordList} : Prop := {
  mnemonic_words (m : Mnemonic) :
    exists ws, Forall (fun w => w ∈ word_list) ws /\ mnemonic_string m = join (b " ") ws;
  parse_mnemonic_string (m : Mnemonic) : parse_in_normalized (mnemonic_string m) = Some m;
  parse_words s (m : Mnemonic) :
    parse_in_normalized s = Some m -> split_whitespace s = split_whitespace (mnemonic_string m);
  from_entropy_words e :
    length e = 32%nat -> exists m : Mnemonic, from_entropy_in e = Some m /\
      length (split_whitespace (mnemonic_string m)) = 24%nat;
  word_list_letters w : w ∈ word_list -> w <> [] /\ Forall (fun c => is_lower c = true) w;
}.

Definition RECOVERY_CODE_WORD_COUNT : Z := 24.
Definition DERIVATION_INFO : bytes := b "gitcellar-passkey-recovery-v1".
Definition VERSION : Z := 1.

(** [slice::chunks]: pieces of [n] elements, the last one possibly shorter. *)
Fixpoint chunks {A} (fuel n : nat) (l : list A) : list (list A) :=
  match fuel, l with
  | O, _ | _, [] => []
  | S fuel, _ => take n l :: chunks fuel n (drop n l)
  end.

(** The [{:2}] format: at least two columns, padded on the left. *)
Definition pad2 (z : Z) : bytes := replicate (2 - length (dec z)) Byte.x20 ++ dec z.

Section Recovery.
  Context {Mnemonic R : Type} `{Bip39Ops Mnemonic, WordList, HashOps, HexOps, UnicodeOps, RngOps R}.

Record RecoveryCode : Type := { mnemonic : Mnemonic }.

Definition normalize_phrase (phrase : bytes) : bytes :=
  join (b " ") (split_whitespace (str_to_lowercase phrase)).

Definition from_phrase (phrase : bytes) : result PasskeyError RecoveryCode :=
  let normalized := normalize_phrase phrase in
  let word_count := Zlen (split_whitespace normalized) in
  if negb (word_count =? RECOVERY_CODE_WORD_COUNT)
  then Err (InvalidRecoveryCode "Expected {} words, got {}")
  else
    let? m := ok_or (parse_in_normalized normalized) (InvalidRecoveryCode "Invalid mnemonic: {}") in
    Ok {| mnemonic := m |}.

Definition phrase (c : RecoveryCode) : bytes := mnemonic_string (mnemonic c).

Definition derive_key_material (c : RecoveryCode) : run bytes :=
  let seed := mnemonic_to_seed (mnemonic c) in
  expect (hkdf_sha256 None seed DERIVATION_INFO 32) "HKDF-SHA256 expand to 32 bytes cannot fail".

Definition is_valid (c : RecoveryCode) : bool := true.

Definition format_for_display (c : RecoveryCode) : bytes :=
  let words := split_whitespace (phrase c) in
  join [NL] (map (join (b " ")) (chunks (length words) 4 words)).

Definition format_with_numbers (c : RecoveryCode) : bytes :=
  let words := split_whitespace (phrase c) in
  join [NL] (imap (fun i chunk =>
    let start := Z.of_nat i * 4 + 1 in
    let stop := start + Zlen chunk - 1 in
    pad2 start ++ b "-" ++ pad2 stop ++ b ": " ++ join (b " ") chunk)
    (chunks (length words) 4 words)).

Definition generate_recovery_code (r : R) : result PasskeyError RecoveryCode * R :=
  let (entropy, r) := fill_bytes 32 r in
  (let? m := ok_or (from_entropy_in entropy) (KeyGeneration "Failed to generate mnemonic: {}") in
   Ok {| mnemonic := m |}, r).

Definition is_valid_phrase (phrase : bytes) : bool := is_ok (from_phrase phrase).

Definition find_invalid_words (phrase : bytes) : list (Z * bytes) :=
  omap (fun iw : nat * bytes =>
          if is_valid_word iw.2 then None else Some (Z.of_nat iw.1 + 1, iw.2))
    (imap pair (split_whitespace phrase)).

Definition derive_verification_hash (c : RecoveryCode) : run bytes :=
  let! key_material := derive_key_material c in
  Done (hex_encode (sha256 (key_material ++ b "verification"))).

Definition derive_identifier (c : RecoveryCode) : run bytes :=
  let! key_material := derive_key_material c in
  Done (hex_encode (take 8 (sha256 (key_material ++ b "identifier")))).

Definition verify_against_hash (c : RecoveryCode) (stored_hash : bytes) : run bool :=
  let! h := derive_verification_hash c in
  Done (bool_decide (h = stored_hash)).

Definition hash_recovery_phrase (phrase : bytes) : run (option bytes) :=
  match from_phrase phrase with
  | Ok c => let! h := derive_verification_hash c in Done (Some h)
  | Err _ => Done None
  end.
End Recovery.
Arguments RecoveryCode : clear implicits.

(** The mnemonic operations [gitcellar-crypto]'s master key uses are the same
    crate's. *)
Definition bip39_mnemonic {Mnemonic} `{Bip39Ops Mnemonic} : Master.MnemonicOps :=
  {| Master.mnemonic_seed p := mnemonic_to_seed <$> parse_in_normalized p |}.

(** ** Display *)

Lemma chunks_concat {A} fuel n (l : list A) :
  (0 < n)%nat -> (length l <= fuel)%nat -> concat (chunks fuel n l) = l.
Proof.
  intros Hn. revert l; induction fuel as [|fuel IH]; intros l Hl; [by destruct l; [|cbn in Hl; lia]|].
  destruct l as [|x l]; [done|]. cbn [chunks concat].
  rewrite IH, take_drop; [done|]. rewrite length_drop. cbn [length] in *. lia.
Qed.

Lemma Forall_concat_map {A} (P : A -> Prop) (ls : list (list A)) :
  Forall P (concat ls) -> Forall (Forall P) ls.
Proof.
  induction ls as [|l ls IH]; [constructor|]. cbn [concat]. rewrite Forall_app. intros [? ?].
  constructor; auto.
Qed.

(** Lines of words read back as the words. *)
Lemma split_lines sep (lines : list (list bytes)) :
  ascii_space sep = true -> Forall (Forall word_like) lines ->
  split_whitespace (join [NL] (map (join [sep]) lines)) = concat lines.
Proof.
  intros Hsep Hl. induction Hl as [|l ls Hl Hls IH]; [done|].
  destruct ls as [|l' ls]; cbn [map join concat].
  - rewrite app_nil_r. by apply split_whitespace_join.
  - cbn [app]. rewrite split_whitespace_join_app by done. f_equal. apply IH.
Qed.

Section Correct.
  Context {Mnemonic R : Type}.
  Context `{Bip39Laws Mnemonic, HashLaws, HexLaws, UnicodeLaws, RngLaws R}.

Lemma word_list_word w : w ∈ word_list -> word_like w /\ to_ascii_lowercase w = w.
Proof.
  intros [Hn Hw]%word_list_letters.
  assert (Hc : forall c, is_lower c = true -> ascii_visible c = true /\ to_ascii_lowercase_byte c = c).
  { intros c Hc. pose proof (byte_forall (fun c => negb (is_lower c) ||
      (ascii_visible c && bool_decide (to_ascii_lowercase_byte c = c))) eq_refl c) as E.
    cbn beta in E. rewrite Hc in E. cbn [negb orb] in E. apply andb_true_iff in E as [E1 E2].
    by apply bool_decide_eq_true in E2. }
  split; [split; [done|]|].
  - apply forallb_forall. intros c Hin%list_elem_of_In. rewrite Forall_forall in Hw.
    by apply Hc, Hw.
  - clear Hn. induction Hw as [|c w Hx Hw IH]; [done|]. cbn. f_equal; [by apply Hc|done].
Qed.

Lemma mnemonic_split (m : Mnemonic) :
  exists ws, split_whitespace (mnemonic_string m) = ws /\ mnemonic_string m = join (b " ") ws /\
    Forall (fun w => w ∈ word_list) ws /\ Forall word_like ws.
Proof.
  destruct (mnemonic_words m) as (ws & Hws & E). exists ws.
  assert (Hl : Forall word_like ws) by (eapply Forall_impl; [exact Hws|]; apply word_list_word).
  split; [|done]. rewrite E. by apply split_whitespace_join.
Qed.

(** Text made of the list's words and white space. *)
Lemma text_lowercase lines :
  Forall (Forall (fun w => w ∈ word_list)) lines ->
  str_to_lowercase (join [NL] (map (join (b " ")) lines)) = join [NL] (map (join (b " ")) lines).
Proof.
  intros Hl.
  assert (Hj : forall sep ls, Forall (fun w => Forall (fun c => u8 c < 128) w /\ to_ascii_lowercase w = w) ls ->
    u8 sep < 128 -> to_ascii_lowercase_byte sep = sep ->
    Forall (fun c => u8 c < 128) (join [sep] ls) /\ to_ascii_lowercase (join [sep] ls) = join [sep] ls).
  { intros sep ls Hls Hs Hsl. induction Hls as [|w ls [Ha Hw] Hls [IHa IHl]]; [by split|].
    destruct ls as [|w' ls]; [done|]. split.
    - apply Forall_app. split; [done|]. by constructor.
    - change (join [sep] (w :: w' :: ls)) with (w ++ sep :: join [sep] (w' :: ls)).
      unfold to_ascii_lowercase in *. rewrite map_app. cbn [map]. by rewrite Hw, Hsl, IHl. }
  destruct (Hj NL (map (join (b " ")) lines)) as [Ha E]; [|done|done|].
  - apply Forall_map. eapply Forall_impl; [exact Hl|]. intros l Hin. apply Hj; [|done|done].
    eapply Forall_impl; [exact Hin|]. intros w [[_ Hw] Hlow]%word_list_word.
    split; [by apply word_like_ascii|done].
  - by rewrite str_to_lowercase_ascii.
Qed.

Lemma from_phrase_words (c : RecoveryCode Mnemonic) (p : bytes) :
  Zlen (split_whitespace (phrase c)) = RECOVERY_CODE_WORD_COUNT ->
  split_whitespace (str_to_lowercase p) = split_whitespace (phrase c) ->
  from_phrase p = Ok c.
Proof.
  intros Hn Hp. destruct c as [m]. unfold phrase in *. cbn [mnemonic] in *.
  unfold from_phrase, normalize_phrase. rewrite Hp.
  destruct (mnemonic_split m) as (ws & Hs & E & _). rewrite Hs, <- E, Hs.
  rewrite Hs in Hn. rewrite Hn, Z.eqb_refl. cbn [negb]. by rewrite parse_mnemonic_string.
Qed.

Lemma from_phrase_count (p : bytes) (c : RecoveryCode Mnemonic) :
  from_phrase p = Ok c -> Zlen (split_whitespace (phrase c)) = RECOVERY_CODE_WORD_COUNT.
Proof.
  unfold from_phrase. destruct (Z.eqb_spec (Zlen (split_whitespace (normalize_phrase p)))
    RECOVERY_CODE_WORD_COUNT) as [Hc|]; [|done].
  cbn [negb]. destruct (parse_in_normalized _) as [m|] eqn:Hm; [|done]. intros [= <-].
  unfold phrase. cbn [mnemonic]. by rewrite <- (parse_words _ _ Hm).
Qed.

Lemma derive_key_material_Done (c : RecoveryCode Mnemonic) :
  exists k, derive_key_material c = Done k /\ length k = 32%nat /\
    hkdf_sha256 None (mnemonic_to_seed (mnemonic c)) DERIVATION_INFO 32 = Some k.
Proof.
  unfold derive_key_material.
  destruct (hkdf_sha256_Some None (mnemonic_to_seed (mnemonic c)) DERIVATION_INFO 32)
    as (k & E & Hl); [lia|]. exists k. by rewrite E.
Qed.

Lemma generate_code_Ok (r : R) :
  exists c, (generate_recovery_code r).1 = Ok c /\
    Zlen (split_whitespace (phrase c)) = RECOVERY_CODE_WORD_COUNT.
Proof.
  unfold generate_recovery_code. pose proof (fill_bytes_length 32 r) as Hl.
  destruct (fill_bytes 32 r) as [e r']. cbn [fst] in *.
  destruct (from_entropy_words e Hl) as (m & E & Hm). rewrite E. eexists.
  split; [done|]. unfold phrase. cbn [mnemonic]. by rewrite Hm.
Qed.

Lemma generate_count (r : R) c :
  (generate_recovery_code r).1 = Ok c -> Zlen (split_whitespace (phrase c)) = RECOVERY_CODE_WORD_COUNT.
Proof. destruct (generate_code_Ok r) as (c' & E & Hn). congruence. Qed.

(** The words of the display form, and of the phrase, in lower case. *)
Lemma display_words (c : RecoveryCode Mnemonic) :
  split_whitespace (str_to_lowercase (format_for_display c)) = split_whitespace (phrase c).
Proof.
  destruct c as [m]. destruct (mnemonic_split m) as (ws & Hs & E & Hin & Hw).
  unfold format_for_display, phrase in *. cbn [mnemonic]. rewrite Hs.
  assert (Hl : concat (chunks (length ws) 4 ws) = ws) by (apply chunks_concat; lia).
  rewrite text_lowercase by (apply Forall_concat_map; by rewrite Hl).
  etrans; [|exact Hl]. apply (split_lines Byte.x20); [done|]. apply Forall_concat_map. by rewrite Hl.
Qed.

Lemma phrase_lowercase (c : RecoveryCode Mnemonic) : str_to_lowercase (phrase c) = phrase c.
Proof.
  destruct (mnemonic_split (mnemonic c)) as (ws & _ & E & Hin & _).
  unfold phrase. rewrite E. by apply (text_lowercase [ws]); repeat constructor.
Qed.

(** A generated code, and any code read from a phrase, is read back from its
    phrase and from its display form of four words a line, and the hash stored
    for the displayed phrase is the one the code verifies against; generating
    never fails. *)
Theorem recovery_code_roundtrip (r : R) (p : bytes) (c : RecoveryCode Mnemonic) :
  (generate_recovery_code r).1 = Ok c \/ from_phrase p = Ok c ->
  from_phrase (phrase c) = Ok c /\
  from_phrase (format_for_display c) = Ok c /\
  (exists h, hash_recovery_phrase (format_for_display c) = Done (Some h) /\
     verify_against_hash c h = Done true) /\
  (forall r' : R, exists c', (generate_recovery_code r').1 = Ok c').
Proof.
  intros Hc.
  assert (Hn : Zlen (split_whitespace (phrase c)) = RECOVERY_CODE_WORD_COUNT)
    by (destruct Hc as [Hc|Hc]; [by eapply generate_count | by eapply from_phrase_count]).
  assert (Hd : from_phrase (format_for_display c) = Ok c)
    by (apply from_phrase_words; [done | apply display_words]).
  split; [|split; [done|split]].
  - apply from_phrase_words; [done|]. by rewrite phrase_lowercase.
  - destruct (derive_key_material_Done c) as (k & Ek & _).
    unfold hash_recovery_phrase, verify_against_hash, derive_verification_hash.
    rewrite Hd, Ek. cbn [run_bind]. eexists. split; [done|]. by rewrite bool_decide_true.
  - intros r'. destruct (generate_code_Ok r') as (c' & ? & _). eauto.
Qed.

(** A recovery code and the recovery master key read the same phrases, but for
    the word count, which only the recovery code checks; they derive their
    keys from the same seed under different labels. *)
Theorem recovery_master_agree `{Ed25519Ops} (p : bytes) :
  match from_phrase p, @Master.from_phrase _ _ _ bip39_mnemonic p with
  | Ok c, Ok m =>
      Zlen (split_whitespace (normalize_phrase p)) = RECOVERY_CODE_WORD_COUNT /\
      exists k seed, derive_key_material c = Done k /\
        hkdf_sha256 None seed DERIVATION_INFO 32 = Some k /\
        hkdf_sha256 None seed Master.DERIVATION_INFO 32 = Some (Master.secret_bytes m) /\
        DERIVATION_INFO <> Master.DERIVATION_INFO
  | Ok _, Err _ => False
  | Err _, Ok _ => Zlen (split_whitespace (normalize_phrase p)) <> RECOVERY_CODE_WORD_COUNT
  | Err _, Err _ => True
  end.
Proof.
  unfold from_phrase, Master.from_phrase. change (Master.normalize_phrase p) with (normalize_phrase p).
  cbn [Master.mnemonic_seed bip39_mnemonic].
  destruct (parse_in_normalized _) as [m|]; cbn [fmap option_fmap option_map ok_or rbind].
  - destruct (hkdf_sha256_Some None (mnemonic_to_seed m) Master.DERIVATION_INFO 32)
      as (s & Es & _); [lia|]. rewrite Es. cbn [ok_or rbind].
    destruct (Z.eqb_spec (Zlen (split_whitespace (normalize_phrase p))) RECOVERY_CODE_WORD_COUNT)
      as [Hn|Hn]; cbn [negb]; [|done].
    destruct (derive_key_material_Done {| mnemonic := m |}) as (k & Ek & _ & Eh).
    split; [done|]. exists k, (mnemonic_to_seed m). done.
  - by destruct (negb _).
Qed.
End Correct.

(** ** Words being typed *)

Lemma lower_space c :
  u8 c < 128 ->
  is_whitespace (u8 (to_ascii_lowercase_byte c)) = is_whitespace (u8 c) /\
  u8 (to_ascii_lowercase_byte c) < 128.
Proof.
  intros Hc. pose proof (byte_forall (fun c => negb (u8 c <? 128) ||
    (bool_decide (is_whitespace (u8 (to_ascii_lowercase_byte c)) = is_whitespace (u8 c)) &&
     (u8 (to_ascii_lowercase_byte c) <? 128))) eq_refl c) as E. cbn beta in E.
  apply Z.ltb_lt in Hc. rewrite Hc in E. cbn [negb orb] in E. apply andb_true_iff in E as [E1 E2].
  split; [by apply bool_decide_eq_true in E1 | by zbool].
Qed.

Lemma split_ws_lower s cur :
  Forall (fun c => u8 c < 128) s ->
  split_ws (map (fun c => [c]) (to_ascii_lowercase s)) (map (fun c => [c]) (to_ascii_lowercase cur)) =
  map to_ascii_lowercase (split_ws (map (fun c => [c]) s) (map (fun c => [c]) cur)).
Proof.
  intros Hs. revert cur; induction Hs as [|c s Hc Hs IH]; intros cur.
  - destruct cur as [|x cur]; [done|]. cbn [to_ascii_lowercase map split_ws].
    by rewrite <- !(map_cons (fun c => [c])), !concat_singletons.
  - destruct (lower_space c Hc) as [Hw _]. cbn [to_ascii_lowercase map split_ws].
    change (code_point [?x]) with (u8 x). rewrite Hw.
    fold (to_ascii_lowercase s). fold (to_ascii_lowercase cur).
    destruct (is_whitespace (u8 c)).
    + specialize (IH []). cbn [to_ascii_lowercase map] in IH. rewrite IH.
      destruct cur as [|x cur]; [done|]. cbn [to_ascii_lowercase map].
      by rewrite <- !(map_cons (fun c => [c])), !concat_singletons.
    + specialize (IH (cur ++ [c])). unfold to_ascii_lowercase in *. rewrite !map_app in IH. exact IH.
Qed.

Lemma split_whitespace_lower s :
  Forall (fun c => u8 c < 128) s ->
  split_whitespace (to_ascii_lowercase s) = map to_ascii_lowercase (split_whitespace s).
Proof.
  intros Hs. unfold split_whitespace. rewrite !chars_ascii; [by apply (split_ws_lower s [])|done|].
  apply Forall_map. eapply Forall_impl; [exact Hs|]. intros c Hc. by apply lower_space.
Qed.

Section Typing.
  Context {Mnemonic : Type} `{Bip39Laws Mnemonic, UnicodeLaws}.

Lemma invalid_words_elem (ws : list bytes) (k : nat) (i : Z) (w : bytes) :
  (i, w) ∈ omap (fun iw : nat * bytes =>
      if is_valid_word iw.2 then None else Some (Z.of_nat iw.1 + 1, iw.2))
    (imap (fun n w => ((k + n)%nat, w)) ws) <->
  exists n : nat, i = Z.of_nat (k + n) + 1 /\ ws !! n = Some w /\ is_valid_word w = false.
Proof.
  rewrite list_elem_of_omap. split.
  - intros ([j w'] & (n & y & E & Hn)%elem_of_lookup_imap & Hi). injection E as -> ->.
    cbn [fst snd] in Hi. destruct (is_valid_word y) eqn:Hw; [done|]. injection Hi as <- <-. eauto.
  - intros (n & -> & Hn & Hw). exists ((k + n)%nat, w). split; [|by cbn; rewrite Hw].
    apply elem_of_lookup_imap. eauto.
Qed.

(** The typed words reported as wrong are exactly those whose lower-case form
    is not in the list, each with its position from 1; an ASCII phrase that
    is a recovery code has none. *)
Theorem find_invalid_words_spec (p : bytes) :
  (forall i w, (i, w) ∈ find_invalid_words p <->
    1 <= i /\ split_whitespace p !! Z.to_nat (i - 1) = Some w /\ (str_to_lowercase w ∉ word_list)) /\
  (Forall (fun c => u8 c < 128) p -> @is_valid_phrase Mnemonic _ _ p = true -> find_invalid_words p = []).
Proof.
  assert (Hspec : forall i w, (i, w) ∈ find_invalid_words p <->
    1 <= i /\ split_whitespace p !! Z.to_nat (i - 1) = Some w /\ (str_to_lowercase w ∉ word_list)).
  { intros i w. etrans; [apply (invalid_words_elem (split_whitespace p) 0)|].
    unfold is_valid_word. split.
    - intros (n & -> & Hn & Hw%bool_decide_eq_false). split; [lia|]. split; [|done].
      by replace (Z.to_nat _) with n by lia.
    - intros (Hi & Hn & Hw). exists (Z.to_nat (i - 1)). split; [lia|]. split; [done|].
      by apply bool_decide_eq_false. }
  split; [done|]. intros Ha Hv.
  destruct (find_invalid_words p) as [|[i w] l] eqn:Hf; [done|].
  destruct (proj1 (Hspec i w)) as (_ & Hi%list_elem_of_lookup_2 & Hw); [by left|].
  exfalso. apply Hw. unfold is_valid_phrase in Hv. unfold from_phrase in Hv.
  destruct (negb _); [done|].
  destruct (parse_in_normalized _) as [m|] eqn:Em; [|done]. apply parse_words in Em.
  destruct (mnemonic_split m) as (ws & Es & _ & Hin & _).
  assert (Hl : Forall word_like (split_whitespace (to_ascii_lowercase p))).
  { apply split_whitespace_likes, Forall_map. eapply Forall_impl; [exact Ha|]. apply lower_space. }
  assert (Hlow : map to_ascii_lowercase (split_whitespace p) = ws).
  { rewrite <- split_whitespace_lower, <- Es, <- Em by done. unfold normalize_phrase.
    rewrite str_to_lowercase_ascii by done. symmetry. by apply (split_whitespace_join Byte.x20). }
  assert (Hwa : Forall (fun c => u8 c < 128) w).
  { pose proof (split_whitespace_likes p Ha) as Hp. rewrite Forall_forall in Hp.
    by apply word_like_ascii, Hp. }
  rewrite str_to_lowercase_ascii by done. rewrite Forall_forall in Hin. apply Hin.
  rewrite <- Hlow. by apply list_elem_of_fmap_2.
Qed.
End Typing.

(** ** On concrete input *)

(** Two words, a bit each. *)
#[export] Instance toy_words : WordList := {| word_list := [b "abandon"; b "zoo"] |}.

Definition toy_word (x : bool) : bytes := if x then b "zoo" else b "abandon".
Definition toy_bit (w : bytes) : option bool :=
  if decide (w = b "zoo") then Some true else if decide (w = b "abandon") then Some false else None.

#[export] Instance toy_bip39 : Bip39Ops (list bool) := {|
  parse_in_normalized s := mapM toy_bit (split_whitespace s);
  mnemonic_string m := join (b " ") (map toy_word m);
  mnemonic_to_seed m := replicate 63 NUL ++ [as_u8 (Zlen m)];
  from_entropy_in e := Some (map (fun c => Z.odd (u8 c)) (take 24 e));
|}.

Lemma toy_word_like x : word_like (toy_word x).
Proof. by destruct x. Qed.

Lemma toy_split m : split_whitespace (join (b " ") (map toy_word m)) = map toy_word m.
Proof.
  apply (split_whitespace_join Byte.x20); [|done]. apply Forall_map, Forall_forall. intros x _.
  apply toy_word_like.
Qed.

Lemma toy_bit_word m : mapM toy_bit (map toy_word m) = Some m.
Proof. induction m as [|x m IH]; [done|]. cbn [map mapM]. rewrite IH. by destruct x. Qed.

Lemma toy_word_bit ws m : mapM toy_bit ws = Some m -> map toy_word m = ws.
Proof.
  intros Hm%mapM_Some. induction Hm as [|w x ws m Hx _ IH]; [done|]. cbn [map]. rewrite IH.
  f_equal. unfold toy_bit in Hx. repeat case_decide; by simplify_eq.
Qed.

#[export] Instance toy_bip39_laws : Bip39Laws (list bool).
Proof.
  split; cbn [parse_in_normalized mnemonic_string from_entropy_in toy_bip39].
  - intros m. exists (map toy_word m). split; [|done]. apply Forall_map, Forall_forall.
    intros [] _; repeat constructor.
  - intros m. rewrite toy_split. apply toy_bit_word.
  - intros s m Hm. rewrite toy_split. symmetry. by apply toy_word_bit.
  - intros e He. eexists. split; [done|]. rewrite toy_split, !length_map, length_take. lia.
  - intros w Hw. cbn in Hw. repeat setoid_rewrite elem_of_cons in Hw.
    destruct Hw as [->|[->|[]%elem_of_nil]]; (split; [done|]); repeat constructor.
Qed.

Lemma recovery_code_roundtrip_witness :
  match (generate_recovery_code (Mnemonic := list bool) (R := Z) 3).1 with
  | Ok c => from_phrase (format_for_display c) = Ok c
  | Err _ => False
  end.
Proof.
  destruct (generate_recovery_code 3).1 as [c|e] eqn:E; [|by vm_compute in E].
  apply (recovery_code_roundtrip (R := Z) 3 [] c). by left.
Defined.

Example numbered_code :
  match (generate_recovery_code (Mnemonic := list bool) (R := Z) 3).1 with
  | Ok c => take 26 (format_with_numbers c) = b " 1- 4: zoo zoo zoo zoo" ++ NL :: b " 5-"
  | Err _ => False
  end.
Proof. vm_compute. reflexivity. Qed.

Lemma ascii_by_eval s : forallb (fun c => u8 c <? 128) s = true -> Forall (fun c => u8 c < 128) s.
Proof.
  intros Hs. apply Forall_forall. intros c Hc%list_elem_of_In. rewrite forallb_forall in Hs.
  by apply Z.ltb_lt, Hs.
Qed.

Definition demo_phrase : bytes := join (b " ") (replicate 24 (b "ZOO")).

Lemma recovery_master_agree_witness :
  exists k s seed, hkdf_sha256 None seed DERIVATION_INFO 32 = Some k /\
    hkdf_sha256 None seed Master.DERIVATION_INFO 32 = Some s.
Proof.
  pose proof (recovery_master_agree (Mnemonic := list bool) demo_phrase) as Ha.
  assert (is_ok (from_phrase (Mnemonic := list bool) demo_phrase) = true) as Hok by (by vm_compute).
  revert Ha Hok. generalize demo_phrase. intros p Ha Hok.
  destruct (from_phrase p) as [c|e]; [|done].
  destruct (@Master.from_phrase _ _ _ bip39_mnemonic p) as [m|e]; [|by destruct Ha].
  destruct Ha as (_ & k & seed & _ & Hk & Hs & _). by exists k, (Master.secret_bytes m), seed.
Defined.

Lemma find_invalid_words_spec_witness : find_invalid_words demo_phrase = [].
Proof.
  apply (find_invalid_words_spec (Mnemonic := list bool) demo_phrase); [|by vm_compute].
  apply ascii_by_eval. by vm_compute.
Defined.
