(* ===== verification/CloudBackup.v ===== *)
(** [gitcellar-crypto/src/cloud_backup.rs]: the bundle a user's identity is
    recovered from, sealed under the recovery code's key material and,
    optionally, under a passkey's. *)

From S2P Require Import Prelude Bytes Utf8 Interfaces Toy CryptoError Identity.
From S2P Require Import Words Recovery.

Local Open Scope gc_scope.

Definition BUNDLE_VERSION : bytes := b "1.0".
Definition SALT_SIZE : Z := 32.
Definition NONCE_SIZE : Z := 12.
Definition RECOVERY_CODE_CONTEXT : bytes := b "gitcellar-cloud-backup-recovery-code-v1".
Definition PASSKEY_CONTEXT : bytes := b "gitcellar-cloud-backup-passkey-v1".

(** The fields hold base64 text. *)
Record EncryptedPayload : Type := { salt : bytes; nonce : bytes; ciphertext : bytes }.

Record PasskeyPayload : Type := { credential_id : bytes; encrypted : EncryptedPayload }.

Record CloudBackupBundle : Type := {
  version : bytes;
  bundle_fingerprint : bytes;
  bundle_user_id : bytes;
  created_at : bytes;
  recovery_code : option EncryptedPayload;
  passkey : option PasskeyPayload;
}.

Section Backup.
  Context {Cert R : Type} `{PgpOps Cert, CertOps Cert R}.
  Context `{HashOps, AeadOps, Base64Ops, RngOps R, Codec CloudBackupBundle}.

Definition serialize_identity (i : Identity Cert) : result CryptoError bytes :=
  map_err from_passkey (export_secret_key i).

Definition deserialize_identity (data : bytes) : result CryptoError (Identity Cert) :=
  let? secret_key_str :=
    ok_or (from_utf8 data) (Decryption "Invalid UTF-8 in decrypted identity: {}") in
  map_err from_passkey (from_armored_secret_key secret_key_str).

(** The callers have checked the length the debug assertion asks for; a cipher
    made from 32 bytes is always created. *)
Definition encrypt_payload (data key_material context : bytes) (r : R)
    : result CryptoError EncryptedPayload * R :=
  let '(salt_bytes, r) := fill_bytes (Z.to_nat SALT_SIZE) r in
  let '(nonce_bytes, r) := fill_bytes (Z.to_nat NONCE_SIZE) r in
  (let? encryption_key :=
     ok_or (hkdf_sha256 (Some salt_bytes) key_material context 32) (Encryption "HKDF expansion failed") in
   let? ct := ok_or (aead_encrypt Aes256Gcm encryption_key nonce_bytes [] data)
                (Encryption "Encryption failed: {}") in
   Ok {| salt := b64_encode salt_bytes; nonce := b64_encode nonce_bytes; ciphertext := b64_encode ct |},
   r).

Definition decrypt_payload (payload : EncryptedPayload) (key_material context : bytes)
    : result CryptoError bytes :=
  let? salt_bytes := ok_or (b64_decode (salt payload)) (BundleFormat "Invalid salt encoding: {}") in
  let? nonce_bytes := ok_or (b64_decode (nonce payload)) (BundleFormat "Invalid nonce encoding: {}") in
  let? ct := ok_or (b64_decode (ciphertext payload)) (BundleFormat "Invalid ciphertext encoding: {}") in
  let? encryption_key :=
    ok_or (hkdf_sha256 (Some salt_bytes) key_material context 32) (Decryption "HKDF expansion failed") in
  if negb (Zlen nonce_bytes =? NONCE_SIZE)
  then Err (BundleFormat "Invalid nonce size: {} (expected {})")
  else ok_or (aead_decrypt Aes256Gcm encryption_key nonce_bytes [] ct) InvalidPassword.

(** [now] is [chrono::Utc::now().to_rfc3339()]. *)
Definition create_with_recovery_code (now : bytes) (i : Identity Cert) (recovery_key_material : bytes)
    (r : R) : result CryptoError CloudBackupBundle * R :=
  if negb (Zlen recovery_key_material =? 32)
  then (Err (Encryption "Recovery key material must be 32 bytes, got {}"), r)
  else
    match serialize_identity i with
    | Err e => (Err e, r)
    | Ok identity_data =>
        let '(payload, r) :=
          encrypt_payload identity_data recovery_key_material RECOVERY_CODE_CONTEXT r in
        (let? recovery_payload := payload in
         Ok {| version := BUNDLE_VERSION; bundle_fingerprint := fingerprint i;
               bundle_user_id := user_id i; created_at := now;
               recovery_code := Some recovery_payload; passkey := None |}, r)
    end.

(** On the bundle in place. *)
Definition add_passkey_encryption (s : CloudBackupBundle) (i : Identity Cert)
    (passkey_key_material cred : bytes) (r : R)
    : result CryptoError unit * CloudBackupBundle * R :=
  if negb (Zlen passkey_key_material =? 32)
  then (Err (Encryption "Passkey key material must be 32 bytes, got {}"), s, r)
  else if negb (bool_decide (fingerprint i = bundle_fingerprint s))
  then (Err (Encryption "Identity fingerprint does not match bundle"), s, r)
  else
    match serialize_identity i with
    | Err e => (Err e, s, r)
    | Ok identity_data =>
        let '(payload, r) := encrypt_payload identity_data passkey_key_material PASSKEY_CONTEXT r in
        match payload with
        | Err e => (Err e, s, r)
        | Ok enc =>
            (Ok tt,
             {| version := version s; bundle_fingerprint := bundle_fingerprint s;
                bundle_user_id := bundle_user_id s; created_at := created_at s;
                recovery_code := recovery_code s;
                passkey := Some {| credential_id := b64_encode cred; encrypted := enc |} |}, r)
        end
    end.

Definition decrypt_with_recovery_code (s : CloudBackupBundle) (recovery_key_material : bytes)
    : result CryptoError (Identity Cert) :=
  if negb (Zlen recovery_key_material =? 32)
  then Err (Decryption "Recovery key material must be 32 bytes, got {}")
  else
    let? payload :=
      ok_or (recovery_code s) (Decryption "Bundle does not contain recovery code encryption") in
    let? identity_data := decrypt_payload payload recovery_key_material RECOVERY_CODE_CONTEXT in
    let? i := deserialize_identity identity_data in
    if negb (bool_decide (fingerprint i = bundle_fingerprint s))
    then Err (Decryption "Decrypted identity fingerprint does not match bundle")
    else Ok i.

Definition decrypt_with_passkey (s : CloudBackupBundle) (passkey_key_material : bytes)
    : result CryptoError (Identity Cert) :=
  if negb (Zlen passkey_key_material =? 32)
  then Err (Decryption "Passkey key material must be 32 bytes, got {}")
  else
    let? payload := ok_or (passkey s) (Decryption "Bundle does not contain passkey encryption") in
    let? identity_data := decrypt_payload (encrypted payload) passkey_key_material PASSKEY_CONTEXT in
    let? i := deserialize_identity identity_data in
    if negb (bool_decide (fingerprint i = bundle_fingerprint s))
    then Err (Decryption "Decrypted identity fingerprint does not match bundle")
    else Ok i.

Definition passkey_credential_id (s : CloudBackupBundle) : option bytes :=
  match passkey s with Some p => b64_decode (credential_id p) | None => None end.

Definition has_recovery_code (s : CloudBackupBundle) : bool := bool_decide (is_Some (recovery_code s)).
Definition has_passkey (s : CloudBackupBundle) : bool := bool_decide (is_Some (passkey s)).

Definition to_json (s : CloudBackupBundle) : result CryptoError bytes :=
  ok_or (ser s) (Encryption "Failed to serialize bundle: {}").
Definition from_json (json : bytes) : result CryptoError CloudBackupBundle :=
  ok_or (de json) (BundleFormat "Failed to parse bundle JSON: {}").
End Backup.

(** ** Lemmas *)

Section Payloads.
  Context `{HashLaws, AeadLaws, Base64Laws, RngLaws R}.

(** What a payload decrypts to: the decoded fields, in order, then the cipher. *)
Lemma decrypt_payload_Ok payload km ctx data :
  decrypt_payload payload km ctx = Ok data <->
  exists sb nb ct k, b64_decode (salt payload) = Some sb /\ b64_decode (nonce payload) = Some nb /\
    b64_decode (ciphertext payload) = Some ct /\ hkdf_sha256 (Some sb) km ctx 32 = Some k /\
    Zlen nb = NONCE_SIZE /\ aead_decrypt Aes256Gcm k nb [] ct = Some data.
Proof.
  unfold decrypt_payload. split.
  - destruct (b64_decode (salt payload)) as [sb|]; [|done]. cbn [ok_or rbind].
    destruct (b64_decode (nonce payload)) as [nb|]; [|done]. cbn [ok_or rbind].
    destruct (b64_decode (ciphertext payload)) as [ct|]; [|done]. cbn [ok_or rbind].
    destruct (hkdf_sha256 _ _ _ _) as [k|] eqn:Ek; [|done]. cbn [ok_or rbind].
    destruct (Z.eqb_spec (Zlen nb) NONCE_SIZE); [|done]. cbn [negb].
    destruct (aead_decrypt _ _ _ _ _) as [d|] eqn:Ed; [|done]. intros [= ->].
    by exists sb, nb, ct, k.
  - intros (sb & nb & ct & k & -> & -> & -> & Ek & Hn & Ed). cbn [ok_or rbind].
    rewrite Ek, Hn. cbn [ok_or rbind]. rewrite Z.eqb_refl. cbn [negb]. by rewrite Ed.
Qed.

Lemma encrypt_decrypt_payload data km ctx (r : R) p r' :
  encrypt_payload data km ctx r = (Ok p, r') -> decrypt_payload p km ctx = Ok data.
Proof.
  unfold encrypt_payload. destruct (fill_bytes (Z.to_nat SALT_SIZE) r) as [sb r1].
  destruct (fill_bytes (Z.to_nat NONCE_SIZE) r1) as [nb r2] eqn:En.
  destruct (hkdf_sha256 _ _ _ _) as [k|] eqn:Ek; [|done]. cbn [ok_or rbind].
  destruct (aead_encrypt _ _ _ _ _) as [ct|] eqn:Ec; [|done]. intros [= <- _].
  apply decrypt_payload_Ok. exists sb, nb, ct, k. cbn [salt nonce ciphertext].
  rewrite !b64_decode_encode. repeat split; try done.
  - pose proof (fill_bytes_length (Z.to_nat NONCE_SIZE) r1) as Hl. rewrite En in Hl. cbn [fst] in Hl.
    by rewrite Hl.
  - by apply aead_decrypt_encrypt.
Qed.
End Payloads.

Section Bundles.
  Context {Cert R : Type} `{CertLaws Cert R}.
  Context `{HashLaws, AeadLaws, Base64Laws, RngLaws R, CodecLaws CloudBackupBundle}.

Lemma serialize_deserialize (i : Identity Cert) data :
  serialize_identity i = Ok data ->
  deserialize_identity data = Ok {| cert := cert i; user_id := first_user_id (cert i) |}.
Proof.
  unfold serialize_identity, export_secret_key, deserialize_identity, from_armored_secret_key.
  destruct (cert_secret_armor (cert i)) as [out|] eqn:Ea; [|done]. cbn [ok_or rbind map_err].
  unfold from_utf8. rewrite (cert_secret_armor_utf8 _ _ Ea). cbn [ok_or map_err]. intros [= <-].
  rewrite (cert_secret_armor_utf8 _ _ Ea). cbn [ok_or rbind].
  by rewrite (cert_parse_armor _ _ Ea).
Qed.

(** What a successful create leaves in the bundle. *)
Lemma create_inv now (i : Identity Cert) km (r : R) s r' :
  create_with_recovery_code now i km r = (Ok s, r') ->
  Zlen km = 32 /\ bundle_fingerprint s = fingerprint i /\ bundle_user_id s = user_id i /\
  passkey s = None /\
  exists data p, serialize_identity i = Ok data /\ recovery_code s = Some p /\
    decrypt_payload p km RECOVERY_CODE_CONTEXT = Ok data.
Proof.
  unfold create_with_recovery_code. destruct (Z.eqb_spec (Zlen km) 32) as [Hk|]; [|done]. cbn [negb].
  destruct (serialize_identity i) as [data|]; [|done].
  destruct (encrypt_payload _ _ _ r) as [[p|e] r1] eqn:Ep; [|done]. intros [= <- <-].
  apply encrypt_decrypt_payload in Ep. repeat split; try done. eauto.
Qed.

Lemma add_passkey_inv s (i : Identity Cert) km cred (r : R) s' r' :
  add_passkey_encryption s i km cred r = (Ok tt, s', r') ->
  Zlen km = 32 /\ bundle_fingerprint s' = bundle_fingerprint s /\ fingerprint i = bundle_fingerprint s /\
  recovery_code s' = recovery_code s /\
  exists data p, serialize_identity i = Ok data /\
    passkey s' = Some {| credential_id := b64_encode cred; encrypted := p |} /\
    decrypt_payload p km PASSKEY_CONTEXT = Ok data.
Proof.
  unfold add_passkey_encryption. destruct (Z.eqb_spec (Zlen km) 32) as [Hk|]; [|done]. cbn [negb].
  case_bool_decide; [|done]. cbn [negb].
  destruct (serialize_identity i) as [data|]; [|done].
  destruct (encrypt_payload _ _ _ r) as [[p|e] r1] eqn:Ep; [|done]. intros [= <- <-].
  apply encrypt_decrypt_payload in Ep. repeat split; try done. eauto.
Qed.

Lemma decrypt_recovery_serialized s p km data (i : Identity Cert) :
  Zlen km = 32 -> recovery_code s = Some p -> decrypt_payload p km RECOVERY_CODE_CONTEXT = Ok data ->
  serialize_identity i = Ok data -> bundle_fingerprint s = fingerprint i ->
  decrypt_with_recovery_code s km = Ok {| cert := cert i; user_id := first_user_id (cert i) |}.
Proof.
  intros Hk Hp Hd Hi Hf. unfold decrypt_with_recovery_code.
  rewrite Hk, Hp. cbn [Z.eqb Pos.eqb negb ok_or rbind]. rewrite Hd. cbn [rbind].
  rewrite (serialize_deserialize i data Hi). cbn [rbind]. unfold fingerprint in *. cbn [cert].
  by rewrite Hf, bool_decide_true.
Qed.

Lemma decrypt_passkey_serialized s p km data (i : Identity Cert) :
  Zlen km = 32 -> passkey s = Some p -> decrypt_payload (encrypted p) km PASSKEY_CONTEXT = Ok data ->
  serialize_identity i = Ok data -> bundle_fingerprint s = fingerprint i ->
  decrypt_with_passkey s km = Ok {| cert := cert i; user_id := first_user_id (cert i) |}.
Proof.
  intros Hk Hp Hd Hi Hf. unfold decrypt_with_passkey.
  rewrite Hk, Hp. cbn [Z.eqb Pos.eqb negb ok_or rbind]. rewrite Hd. cbn [rbind].
  rewrite (serialize_deserialize i data Hi). cbn [rbind]. unfold fingerprint in *. cbn [cert].
  by rewrite Hf, bool_decide_true.
Qed.

(** A bundle opens with the key material it was made with, to the identity it
    was made from, and has no passkey to open; with a passkey added it opens
    with either, gives back the credential id, and survives the upload as
    JSON; an attempt to add a passkey that fails changes nothing. *)
Theorem cloud_backup_roundtrip now (i : Identity Cert) km pkm cred (r r1 r2 : R) s s' res :
  create_with_recovery_code now i km r = (Ok s, r1) ->
  add_passkey_encryption s i pkm cred r1 = (res, s', r2) ->
  let back := Ok {| cert := cert i; user_id := first_user_id (cert i) |} in
  decrypt_with_recovery_code s km = back /\ is_err (decrypt_with_passkey (Cert := Cert) s pkm) = true /\
  rbind (to_json s') from_json = Ok s' /\ decrypt_with_recovery_code s' km = back /\
  match res with
  | Ok _ => decrypt_with_passkey s' pkm = back /\ passkey_credential_id s' = Some cred
  | Err _ => s' = s
  end.
Proof.
  intros (Hkm & Hf & _ & Hnone & data & p & Hi & Hp & Hd)%create_inv Hadd back.
  assert (Hopen : decrypt_with_recovery_code s km = back)
    by (by eapply decrypt_recovery_serialized).
  split; [done|]. split.
  { unfold decrypt_with_passkey. rewrite Hnone. by destruct (negb _). }
  split.
  { unfold to_json, from_json. destruct (ser_total s') as [j Ej]. rewrite Ej. cbn [ok_or rbind].
    by rewrite (de_ser _ _ Ej). }
  destruct res as [[]|e].
  - apply add_passkey_inv in Hadd as (Hpk & Hf' & _ & Hr & data' & p' & Hi' & Hp' & Hd').
    split; [eapply decrypt_recovery_serialized; by rewrite ?Hr, ?Hf'|]. split.
    + eapply decrypt_passkey_serialized; by rewrite ?Hp', ?Hf'.
    + unfold passkey_credential_id. rewrite Hp'. apply b64_decode_encode.
  - assert (s' = s) as ->; [|done]. unfold add_passkey_encryption in Hadd.
    destruct (negb _); [congruence|]. destruct (negb _); [congruence|].
    destruct (serialize_identity i); [|congruence].
    destruct (encrypt_payload _ _ _ _) as [[|] ?]; congruence.
Qed.

(** Whatever is in a bundle, only 32 bytes of key material open it, only a
    payload the cipher authenticates under the key derived from them is read,
    and only an identity with the bundle's fingerprint is returned; a payload
    that decodes but does not authenticate is a wrong password. *)
Theorem cloud_backup_open_checked s km :
  match decrypt_with_recovery_code (Cert := Cert) s km with
  | Ok i => Zlen km = 32 /\ fingerprint i = bundle_fingerprint s /\
      exists p data, recovery_code s = Some p /\ from_utf8 data = Some data /\
        decrypt_payload p km RECOVERY_CODE_CONTEXT = Ok data /\ cert_parse data = Some (cert i)
  | Err InvalidPassword =>
      exists p sb nb ct k, recovery_code s = Some p /\ b64_decode (salt p) = Some sb /\
        b64_decode (nonce p) = Some nb /\ b64_decode (ciphertext p) = Some ct /\ Zlen nb = NONCE_SIZE /\
        hkdf_sha256 (Some sb) km RECOVERY_CODE_CONTEXT 32 = Some k /\
        aead_decrypt Aes256Gcm k nb [] ct = None
  | Err _ => True
  end.
Proof.
  unfold decrypt_with_recovery_code. destruct (Z.eqb_spec (Zlen km) 32) as [Hk|]; [|done]. cbn [negb].
  destruct (recovery_code s) as [p|]; [|done]. cbn [ok_or rbind].
  destruct (decrypt_payload p km RECOVERY_CODE_CONTEXT) as [data|e] eqn:Ed; cbn [rbind].
  - unfold deserialize_identity, from_armored_secret_key, from_utf8.
    destruct (valid_utf8 data) eqn:Hv; [|done]. cbn [ok_or rbind].
    destruct (cert_parse data) as [c|] eqn:Ec; [|done]. cbn [ok_or rbind map_err].
    case_bool_decide as Hf; [|done]. cbn [negb]. split; [done|]. split; [done|].
    exists p, data. by rewrite Hv.
  - unfold decrypt_payload in Ed. destruct e; try done.
    destruct (b64_decode (salt p)) as [sb|] eqn:Es; [|done]. cbn [ok_or rbind] in Ed.
    destruct (b64_decode (nonce p)) as [nb|] eqn:En; [|done]. cbn [ok_or rbind] in Ed.
    destruct (b64_decode (ciphertext p)) as [ct|] eqn:Et; [|done]. cbn [ok_or rbind] in Ed.
    destruct (hkdf_sha256 _ _ _ _) as [k|] eqn:Ek; [|done]. cbn [ok_or rbind] in Ed.
    destruct (Z.eqb_spec (Zlen nb) NONCE_SIZE) as [Hn|]; [|done]. cbn [negb] in Ed.
    destruct (aead_decrypt _ _ _ _ _) as [|] eqn:Ea; [done|]. by exists p, sb, nb, ct, k.
Qed.
End Bundles.

(** ** Getting an identity back from the phrase *)

Section Restore.
  Context {Mnemonic Cert R : Type} `{Recovery.Bip39Laws Mnemonic, UnicodeLaws, CertLaws Cert R}.
  Context `{HashLaws, HexLaws, AeadLaws, Base64Laws, RngLaws R, CodecLaws CloudBackupBundle}.

(** C13: From the phrase to the identity: a bundle made with a generated code's key
    material and uploaded as JSON is opened, to the identity that was backed
    up, by whoever types the code's display form, or its words with any
    spacing and in any case. *)
Theorem account_recovery (r0 r r1 : R) (c : Recovery.RecoveryCode Mnemonic) km now
    (i : Identity Cert) s j typed :
  Recovery.generate_recovery_code r0 = (Ok c, r) ->
  Recovery.derive_key_material c = Done km ->
  create_with_recovery_code now i km r = (Ok s, r1) -> to_json s = Ok j ->
  typed = Recovery.format_for_display c \/
  split_whitespace (str_to_lowercase typed) = split_whitespace (Recovery.phrase c) ->
  exists c' km', Recovery.from_phrase typed = Ok c' /\
    Recovery.derive_key_material c' = Done km' /\
    (let? s' := from_json j in decrypt_with_recovery_code s' km') =
      Ok {| cert := cert i; user_id := first_user_id (cert i) |}.
Proof.
  intros Hgen Hkm Hs Hj Ht.
  assert (Hw : split_whitespace (str_to_lowercase typed) = split_whitespace (Recovery.phrase c))
    by (destruct Ht as [->|]; [apply Recovery.display_words | done]).
  exists c, km. split; [|split; [done|]].
  - apply Recovery.from_phrase_words; [|done]. apply (Recovery.generate_count r0). by rewrite Hgen.
  - apply create_inv in Hs as (Hk & Hf & _ & _ & data & p & Hi & Hp & Hd).
    unfold to_json, from_json in *. destruct (ser s) as [j'|] eqn:Ej; [|done]. injection Hj as ->.
    rewrite (de_ser _ _ Ej). cbn [ok_or rbind]. by eapply decrypt_recovery_serialized.
Qed.
End Restore.

(** ** On concrete input *)

#[export] Instance payload_eq_dec : EqDecision EncryptedPayload.
Proof. solve_decision. Defined.
#[export] Program Instance payload_countable : Countable EncryptedPayload :=
  inj_countable' (fun p => (salt p, nonce p, ciphertext p))
    (fun '(a, n, c) => {| salt := a; nonce := n; ciphertext := c |}) _.
Next Obligation. by intros []. Qed.
#[export] Instance passkey_payload_eq_dec : EqDecision PasskeyPayload.
Proof. solve_decision. Defined.
#[export] Program Instance passkey_payload_countable : Countable PasskeyPayload :=
  inj_countable' (fun p => (credential_id p, encrypted p))
    (fun '(c, e) => {| credential_id := c; encrypted := e |}) _.
Next Obligation. by intros []. Qed.
#[export] Instance backup_eq_dec : EqDecision CloudBackupBundle.
Proof. solve_decision. Defined.
#[export] Program Instance backup_countable : Countable CloudBackupBundle :=
  inj_countable' (fun s => (version s, bundle_fingerprint s, bundle_user_id s, created_at s,
                            recovery_code s, passkey s))
    (fun '(v, f, u, t, r, p) => {| version := v; bundle_fingerprint := f; bundle_user_id := u;
       created_at := t; recovery_code := r; passkey := p |}) _.
Next Obligation. by intros []. Qed.

Section Demo.
#[local] Instance backup_codec : Codec CloudBackupBundle := countable_codec.

Definition demo_now : bytes := b "2026-07-20T00:00:00Z".
Definition demo_key : bytes := replicate 32 (as_u8 5).
Definition demo_bundle := create_with_recovery_code demo_now alice demo_key 1.

Lemma cloud_backup_roundtrip_witness :
  match demo_bundle.1 with
  | Ok s => decrypt_with_recovery_code s demo_key = Ok {| cert := cert alice; user_id := first_user_id (cert alice) |}
  | Err _ => False
  end.
Proof.
  assert (Hok : is_ok demo_bundle.1 = true) by (vm_compute; reflexivity).
  pose proof (surjective_pairing demo_bundle) as E. revert Hok E. generalize demo_bundle.1, demo_bundle.2.
  intros [s|] r1 Hok E; [|done].
  destruct (add_passkey_encryption s alice (replicate 32 (as_u8 6)) (b "cred") r1) as [[res s'] r2] eqn:Ea.
  by apply (cloud_backup_roundtrip demo_now alice demo_key (replicate 32 (as_u8 6)) (b "cred") 1 r1 r2 s s' res).
Defined.

Lemma cloud_backup_open_checked_witness :
  match demo_bundle.1 with
  | Ok s =>
      decrypt_with_recovery_code (Cert := bytes) s (replicate 32 (as_u8 7)) = Err InvalidPassword /\
      exists p k sb nb ct, recovery_code s = Some p /\ aead_decrypt Aes256Gcm k nb [] ct = None /\
        hkdf_sha256 (Some sb) (replicate 32 (as_u8 7)) RECOVERY_CODE_CONTEXT 32 = Some k
  | Err _ => False
  end.
Proof.
  assert (Hok : match demo_bundle.1 with
    | Ok s => decrypt_with_recovery_code (Cert := bytes) s (replicate 32 (as_u8 7)) = Err InvalidPassword
    | Err _ => False end) by (vm_compute; reflexivity).
  revert Hok. generalize demo_bundle.1. intros [s|] Hok; [|done]. split; [done|].
  pose proof (cloud_backup_open_checked (Cert := bytes) s (replicate 32 (as_u8 7))) as Hc.
  rewrite Hok in Hc. destruct Hc as (p & sb & nb & ct & k & Hp & _ & _ & _ & _ & Hk & Ha).
  by exists p, k, sb, nb, ct.
Defined.

Definition demo_code := Recovery.generate_recovery_code (Mnemonic := list bool) (R := Z) 3.

Lemma account_recovery_witness :
  match demo_code.1 with
  | Ok c => exists c', Recovery.from_phrase (Recovery.format_for_display c) = Ok c'
  | Err _ => False
  end.
Proof.
  pose (k c := match Recovery.derive_key_material c with Done k => k | _ => [] end).
  pose (s c := create_with_recovery_code demo_now alice (k c) demo_code.2).
  assert (Hok : match demo_code.1 with
    | Ok c => Recovery.derive_key_material c = Done (k c) /\
        match (s c).1 with Ok s => is_ok (to_json s) = true | Err _ => False end
    | Err _ => False end) by (vm_compute; split; reflexivity).
  pose proof (surjective_pairing demo_code) as E. revert Hok E. unfold s.
  generalize demo_code.1, demo_code.2. intros [c|] r Hok E; [|done]. destruct Hok as [Hk Hs].
  pose proof (surjective_pairing (create_with_recovery_code demo_now alice (k c) r)) as Es.
  revert Hs Es. generalize (create_with_recovery_code demo_now alice (k c) r).1,
    (create_with_recovery_code demo_now alice (k c) r).2. intros [bundle|] r1 Hs Es; [|done].
  destruct (to_json bundle) as [j|] eqn:Ej; [|done].
  destruct (account_recovery 3 r r1 c (k c) demo_now alice bundle j (Recovery.format_for_display c)
    E Hk Es Ej (or_introl eq_refl)) as (c' & km' & Hc & _). by exists c'.
Defined.
End Demo.
