(* ===== verification/Credentials.v ===== *)
(** [passkey-core/src/credential_store/]: the tokens of a login session and the
    recovery hash, in the operating system's keyring or in memory.

    [CredentialBackend] is the source's trait; its contract, that a backend is a
    map from keys to values, is [CredentialLaws], which both backends meet.
    The session's own operations are written over the trait. *)

From S2P Require Import Prelude Bytes PasskeyError.

Local Open Scope gc_scope.

Class CredentialBackend (S : Type) : Type := {
  cred_store : bytes -> bytes -> stateful S PasskeyError unit;   (* key, value *)
  cred_get : bytes -> S -> result PasskeyError (option bytes);
  cred_delete : bytes -> stateful S PasskeyError unit;
}.

(** A backend holds at most one value per key, [view]; a call that fails leaves
    every key as it was, and a read tells the truth when it succeeds. *)
Class CredentialLaws (S : Type) `{CredentialBackend S} (view : S -> bytes -> option bytes) : Prop := {
  cred_store_view k v s : let '(r, s') := cred_store k v s in
    forall k', view s' k' = if decide (is_ok r = true /\ k' = k) then Some v else view s k';
  cred_delete_view k s : let '(r, s') := cred_delete k s in
    forall k', view s' k' = if decide (is_ok r = true /\ k' = k) then None else view s k';
  cred_get_view k s o : cred_get k s = Ok o -> o = view s k;
}.

(** [keys] *)
Definition ACCESS_TOKEN : bytes := b "access_token".
Definition REFRESH_TOKEN : bytes := b "refresh_token".
Definition USER_ID : bytes := b "user_id".
Definition USER_EMAIL : bytes := b "user_email".
Definition TOKEN_EXPIRES_AT : bytes := b "token_expires_at".
Definition RECOVERY_HASH : bytes := b "recovery_hash".

(** ** The session operations *)

Section Session.
  Context {S : Type} `{CredentialBackend S}.

Definition store_access_token (token : bytes) := cred_store ACCESS_TOKEN token.
Definition get_access_token (s : S) := cred_get ACCESS_TOKEN s.
Definition store_refresh_token (token : bytes) := cred_store REFRESH_TOKEN token.
Definition get_refresh_token (s : S) := cred_get REFRESH_TOKEN s.
Definition store_user_id (user_id : bytes) := cred_store USER_ID user_id.
Definition get_user_id (s : S) := cred_get USER_ID s.
Definition store_user_email (email : bytes) := cred_store USER_EMAIL email.
Definition get_user_email (s : S) := cred_get USER_EMAIL s.

Definition store_token_expires_at (expires_at : Z) : stateful S PasskeyError unit :=
  cred_store TOKEN_EXPIRES_AT (dec expires_at).

Definition get_token_expires_at (s : S) : result PasskeyError (option Z) :=
  let? o := cred_get TOKEN_EXPIRES_AT s in
  match o with
  | Some t =>
      let? z := ok_or (parse_i64 t) (CredentialStore "Invalid expiration timestamp") in Ok (Some z)
  | None => Ok None
  end.

Definition store_all (access_token refresh_token user_id email : bytes) (expires_at : Z)
    : stateful S PasskeyError unit :=
  let* _ := store_access_token access_token in
  let* _ := store_refresh_token refresh_token in
  let* _ := store_user_id user_id in
  let* _ := store_user_email email in
  let* _ := store_token_expires_at expires_at in
  sret (Ok tt).

Definition is_logged_in (s : S) : bool :=
  match get_access_token s with Ok o => bool_decide (is_Some o) | Err _ => false end.

Definition store_recovery_hash (hash : bytes) := cred_store RECOVERY_HASH hash.
Definition get_recovery_hash (s : S) := cred_get RECOVERY_HASH s.

Definition keys_to_clear : list bytes :=
  [ACCESS_TOKEN; REFRESH_TOKEN; USER_ID; USER_EMAIL; TOKEN_EXPIRES_AT].

(** A failed deletion is logged and passed over. *)
Definition clear_all : stateful S PasskeyError unit := fun s =>
  (Ok tt, foldl (fun s key => (cred_delete key s).2) s keys_to_clear).
End Session.

(** ** The in-memory backend

    The lock around the map is never poisoned: no operation panics. *)

Module MemoryCredentialStore.

Definition t : Type := gmap bytes bytes.
Definition new : t := ∅.
Definition store (key value : bytes) : stateful t PasskeyError unit :=
  fun s => (Ok tt, <[key := value]> s).
Definition get (key : bytes) (s : t) : result PasskeyError (option bytes) := Ok (s !! key).
Definition delete (key : bytes) : stateful t PasskeyError unit := fun s => (Ok tt, base.delete key s).
Definition contains (key : bytes) (s : t) : bool := bool_decide (is_Some (s !! key)).
Definition clear (s : t) : t := ∅.
Definition len (s : t) : Z := Z.of_nat (size s).
Definition is_empty (s : t) : bool := len s =? 0.
End MemoryCredentialStore.

#[export] Instance memory_backend : CredentialBackend MemoryCredentialStore.t := {|
  cred_store := MemoryCredentialStore.store;
  cred_get := MemoryCredentialStore.get;
  cred_delete := MemoryCredentialStore.delete;
|}.

(** ** The OS keyring

    [keyring::Entry]: [entry_new] is whether [Entry::new] succeeds; an entry is
    named by its service and user. *)

Inductive keyring_error : Type := NoEntry | Ambiguous | OtherError.

Class KeyringOps (K : Type) : Type := {
  entry_new : bytes -> bytes -> K -> bool;
  set_password : bytes -> bytes -> bytes -> stateful K keyring_error unit;
  get_password : bytes -> bytes -> K -> result keyring_error bytes;
  delete_credential : bytes -> bytes -> stateful K keyring_error unit;
}.

(** A platform store in which an entry names one credential: it holds what was
    last set, and a failed call changes nothing. *)
Class KeyringLaws (K : Type) `{KeyringOps K} (entries : K -> gmap (bytes * bytes) bytes) : Prop := {
  set_password_entries sv u v k : let '(r, k') := set_password sv u v k in
    entries k' = match r with Ok _ => <[(sv, u) := v]> (entries k) | Err _ => entries k end;
  get_password_entries sv u k : match get_password sv u k with
    | Ok v => entries k !! (sv, u) = Some v
    | Err NoEntry => entries k !! (sv, u) = None
    | Err Ambiguous => False
    | Err OtherError => True
    end;
  delete_credential_entries sv u k : let '(r, k') := delete_credential sv u k in
    match r with
    | Ok _ => entries k' = base.delete (sv, u) (entries k)
    | Err NoEntry => entries k !! (sv, u) = None /\ entries k' = entries k
    | Err _ => entries k' = entries k
    end;
}.

Module KeyringStore.
Section Keyring.
  Context {K : Type} `{KeyringOps K}.
  Variable service_name : bytes.

Definition create_error : PasskeyError := CredentialStore "Failed to create entry: {}".

Definition store (key value : bytes) : stateful K PasskeyError unit := fun k =>
  if negb (entry_new service_name key k) then (Err create_error, k)
  else smap_err (fun _ => CredentialStore "Failed to set value: {}")
         (set_password service_name key value) k.

Definition get (key : bytes) (k : K) : result PasskeyError (option bytes) :=
  if negb (entry_new service_name key k) then Err create_error
  else
    match get_password service_name key k with
    | Ok value => Ok (Some value)
    | Err NoEntry => Ok None
    | Err Ambiguous => Ok None
    | Err OtherError => Err (CredentialStore "Failed to retrieve '{}': {}")
    end.

Definition delete (key : bytes) : stateful K PasskeyError unit := fun k =>
  if negb (entry_new service_name key k) then (Err create_error, k)
  else
    let '(r, k') := delete_credential service_name key k in
    (match r with
     | Ok _ => Ok tt
     | Err NoEntry => Ok tt
     | Err _ => Err (CredentialStore "Failed to delete '{}': {}")
     end, k').
End Keyring.
End KeyringStore.

(** [CredentialStore::with_service_name] *)
Definition keyring_backend {K} `{KeyringOps K} (service_name : bytes) : CredentialBackend K := {|
  cred_store := KeyringStore.store service_name;
  cred_get := KeyringStore.get service_name;
  cred_delete := KeyringStore.delete service_name;
|}.

(** ** Both backends are maps *)

Definition memory_view (s : MemoryCredentialStore.t) (k : bytes) : option bytes := s !! k.
Definition keyring_view {K} (entries : K -> gmap (bytes * bytes) bytes) (service : bytes)
    (k : K) (key : bytes) : option bytes := entries k !! (service, key).

Lemma memory_laws : @CredentialLaws MemoryCredentialStore.t memory_backend memory_view.
Proof.
  split; unfold memory_view; cbn.
  - intros k v s k'. destruct (decide (true = true /\ k' = k)) as [[_ ->]|Hn].
    + apply lookup_insert_eq.
    + apply lookup_insert_ne. naive_solver.
  - intros k s k'. destruct (decide (true = true /\ k' = k)) as [[_ ->]|Hn].
    + apply lookup_delete_eq.
    + apply lookup_delete_ne. naive_solver.
  - by intros k s o [= <-].
Qed.

Section Refine.
  Context {K : Type} `{KeyringLaws K entries}.

Lemma keyring_laws service :
  @CredentialLaws K (keyring_backend service) (keyring_view entries service).
Proof.
  split; unfold keyring_view; cbn [cred_store cred_get cred_delete keyring_backend].
  - intros k v s. unfold KeyringStore.store, smap_err.
    destruct (entry_new service k s); cbn [negb]; [|intros k'; by rewrite decide_False by naive_solver].
    pose proof (set_password_entries service k v s) as He.
    destruct (set_password service k v s) as [[[]|e] s']; rewrite He; intros k'; cbn [map_err is_ok].
    + destruct (decide (true = true /\ k' = k)) as [[_ ->]|Hn]; [apply lookup_insert_eq|].
      apply lookup_insert_ne. naive_solver.
    + by rewrite decide_False by naive_solver.
  - intros k s. unfold KeyringStore.delete.
    destruct (entry_new service k s); cbn [negb]; [|intros k'; by rewrite decide_False by naive_solver].
    pose proof (delete_credential_entries service k s) as He.
    destruct (delete_credential service k s) as [[[]|e] s']; cbn [is_ok].
    + rewrite He. intros k'. destruct (decide (true = true /\ k' = k)) as [[_ ->]|Hn];
        [apply lookup_delete_eq|]. apply lookup_delete_ne. naive_solver.
    + destruct e; cbn [is_ok]; intros k'.
      * destruct He as [Hn ->]. destruct (decide _) as [[_ ->]|]; done.
      * rewrite He. by rewrite decide_False by naive_solver.
      * rewrite He. by rewrite decide_False by naive_solver.
  - intros k s o. unfold KeyringStore.get. destruct (entry_new service k s); [|done]. cbn [negb].
    pose proof (get_password_entries service k s) as He.
    destruct (get_password service k s) as [v|[]]; try done; intros [= <-]; done.
Qed.
End Refine.

(** ** What a login and a logout leave *)

Section Laws.
  Context {S : Type} `{CredentialLaws S view}.
  Implicit Types s : S.

(** A sequence of stores: every key it reached has its value, or the sequence
    stopped there; the others are as they were. *)
Definition stored (kvs : list (bytes * bytes)) (s : S) : result PasskeyError unit * S :=
  foldl (fun '(r, s) kv => match r with Ok _ => cred_store kv.1 kv.2 s | Err e => (Err e, s) end)
    (Ok tt, s) kvs.

Lemma stored_Err kvs e s :
  foldl (fun '(r, s) kv => match r with Ok _ => cred_store kv.1 kv.2 s | Err e => (Err e, s) end)
    (Err e, s) kvs = (@Err PasskeyError unit e, s).
Proof. by induction kvs. Qed.

Lemma stored_cons k v kvs s :
  stored ((k, v) :: kvs) s =
  match cred_store k v s with (Ok _, s1) => stored kvs s1 | (Err e, s1) => (Err e, s1) end.
Proof.
  unfold stored. cbn [foldl fst snd]. destruct (cred_store k v s) as [[[]|e] s1]; [done|]. apply stored_Err.
Qed.

Lemma stored_other kvs s k : (k ∉ kvs.*1) -> view (stored kvs s).2 k = view s k.
Proof.
  revert s; induction kvs as [|[k0 v0] kvs IH]; intros s; [done|]. rewrite stored_cons. cbn [fmap list_fmap fst].
  intros [Hne Hk]%not_elem_of_cons. pose proof (cred_store_view k0 v0 s) as Hv.
  destruct (cred_store k0 v0 s) as [[[]|e] s1]; cbn [snd]; [rewrite IH by done|]; rewrite Hv;
    by rewrite decide_False by naive_solver.
Qed.

Lemma stored_Ok kvs s s' k v :
  NoDup kvs.*1 -> stored kvs s = (Ok tt, s') -> (k, v) ∈ kvs -> view s' k = Some v.
Proof.
  revert s; induction kvs as [|[k0 v0] kvs IH]; intros s; [by intros _ _ ?%elem_of_nil|].
  cbn [fmap list_fmap fst]. intros [Hn Hd]%NoDup_cons. rewrite stored_cons.
  pose proof (cred_store_view k0 v0 s) as Hv.
  destruct (cred_store k0 v0 s) as [[[]|e] s1]; [|done]. intros Hs [[= -> ->]|Hin]%elem_of_cons; [|by eapply IH].
  pose proof (stored_other kvs s1 k0 Hn) as Ho. rewrite Hs in Ho. cbn [snd] in Ho.
  by rewrite Ho, Hv, decide_True.
Qed.

Lemma store_all_stored a r u e x s :
  store_all a r u e x s =
  stored [(ACCESS_TOKEN, a); (REFRESH_TOKEN, r); (USER_ID, u); (USER_EMAIL, e); (TOKEN_EXPIRES_AT, dec x)] s.
Proof.
  unfold store_all, store_access_token, store_refresh_token, store_user_id,
    store_user_email, store_token_expires_at, sbind.
  repeat (rewrite stored_cons; match goal with |- context [cred_store ?k ?v ?s] =>
    destruct (cred_store k v s) as [[[]|?] ?]; [|done] end). done.
Qed.

(** The deletions of a logout. *)
Lemma cleared_other ks s k :
  (k ∉ ks) -> view (foldl (fun s key => (cred_delete key s).2) s ks) k = view s k.
Proof.
  revert s; induction ks as [|k0 ks IH]; intros s; [done|]. cbn [foldl].
  intros [Hne Hk]%not_elem_of_cons. rewrite IH by done. pose proof (cred_delete_view k0 s) as Hv.
  destruct (cred_delete k0 s) as [r s1]. cbn [snd]. rewrite Hv. by rewrite decide_False by naive_solver.
Qed.

Lemma cleared ks s k :
  k ∈ ks -> (forall s, is_ok (cred_delete k s).1 = true) ->
  view (foldl (fun s key => (cred_delete key s).2) s ks) k = None.
Proof.
  intros Hin Hok. assert (Hgone : forall s, view (cred_delete k s).2 k = None).
  { intros s'. pose proof (cred_delete_view k s') as Hv. specialize (Hok s').
    destruct (cred_delete k s') as [r s1]. cbn [fst snd] in *. by rewrite Hv, decide_True. }
  assert (Hstay : forall ks s, view s k = None ->
            view (foldl (fun s key => (cred_delete key s).2) s ks) k = None).
  { intros l. induction l as [|k0 l IH]; intros s' Hs; [done|]. cbn [foldl]. apply IH.
    pose proof (cred_delete_view k0 s') as Hv. destruct (cred_delete k0 s') as [r s1]. cbn [snd].
    rewrite Hv. by destruct (decide _). }
  revert s; induction ks as [|k0 ks IH]; intros s; [by apply elem_of_nil in Hin|].
  apply elem_of_cons in Hin as [<-|Hin]; cbn [foldl]; [apply Hstay, Hgone | by apply IH].
Qed.

(** On every backend that is a map: after a login that succeeds each of the
    five reads that succeeds gives what was stored, the expiry as the number;
    a login that fails has stored nothing or has already replaced the access
    token; a logout reports success whatever its deletions did, and with every
    deletion done the session is gone; and neither touches the recovery
    hash. *)
Theorem credential_session (a r u e : bytes) (x : Z) s res s1 :
  store_all a r u e x s = (res, s1) -> in_i64 x ->
  match res with
  | Ok _ =>
      (forall o, get_access_token s1 = Ok o -> o = Some a) /\
      (forall o, get_refresh_token s1 = Ok o -> o = Some r) /\
      (forall o, get_user_id s1 = Ok o -> o = Some u) /\
      (forall o, get_user_email s1 = Ok o -> o = Some e) /\
      (forall o, cred_get TOKEN_EXPIRES_AT s1 = Ok o -> get_token_expires_at s1 = Ok (Some x))
  | Err _ => (forall k, view s1 k = view s k) \/ view s1 ACCESS_TOKEN = Some a
  end /\
  (clear_all s1).1 = Ok tt /\
  ((forall k t, is_ok (cred_delete k t).1 = true) -> is_logged_in (clear_all s1).2 = false) /\
  view s1 RECOVERY_HASH = view s RECOVERY_HASH /\
  view (clear_all s1).2 RECOVERY_HASH = view s RECOVERY_HASH.
Proof.
  rewrite store_all_stored. intros Hs Hx.
  assert (Hnew : forall k, (k ∉ keys_to_clear) -> view s1 k = view s k).
  { intros k Hk. match type of Hs with stored ?l _ = _ => pose proof (stored_other l s k Hk) as Ho end.
    by rewrite Hs in Ho. }
  assert (Hrh : RECOVERY_HASH ∉ keys_to_clear) by (apply (bool_decide_unpack _); by vm_compute).
  split; [|split; [done|split; [|split; [by apply Hnew|]]]].
  - destruct res as [[]|err].
    + assert (Hd : NoDup keys_to_clear) by (apply (bool_decide_unpack _); by vm_compute).
      assert (Hg : forall k v, (k, v) ∈ [(ACCESS_TOKEN, a); (REFRESH_TOKEN, r); (USER_ID, u);
                (USER_EMAIL, e); (TOKEN_EXPIRES_AT, dec x)] ->
                forall o, cred_get k s1 = Ok o -> o = Some v).
      { intros k v Hin o ->%cred_get_view. refine (stored_Ok _ _ _ _ _ _ Hs Hin); exact Hd. }
      unfold get_access_token, get_refresh_token, get_user_id, get_user_email, get_token_expires_at.
      repeat split; try (apply Hg; by repeat constructor).
      intros o Ho. rewrite Ho. rewrite (Hg _ (dec x) ltac:(by repeat constructor) _ Ho).
      cbn [rbind]. by rewrite parse_i64_dec.
    + rewrite stored_cons in Hs. pose proof (cred_store_view ACCESS_TOKEN a s) as Hv.
      destruct (cred_store ACCESS_TOKEN a s) as [[[]|e0] s0].
      * right. match type of Hs with stored ?l _ = _ =>
          pose proof (stored_other l s0 ACCESS_TOKEN ltac:(apply (bool_decide_unpack _); by vm_compute)) as Ho end.
        rewrite Hs in Ho. cbn [snd] in Ho. by rewrite Ho, Hv, decide_True.
      * left. injection Hs as _ <-. intros k. by rewrite Hv, decide_False by naive_solver.
  - intros Hok. unfold is_logged_in, get_access_token. destruct (cred_get _ _) as [o|] eqn:Eo; [|done].
    apply cred_get_view in Eo. rewrite Eo. unfold clear_all. cbn [snd].
    rewrite cleared; [done|by left|]. intros t. apply Hok.
  - unfold clear_all. cbn [snd]. rewrite cleared_other by done. by apply Hnew.
Qed.
End Laws.

Section Backends.
  Context {K : Type} `{KeyringLaws K entries}.

(** Both backends are maps from keys to values: the in-memory one, and under
    every service name the operating system's keyring, whose operations
    moreover leave the entries of every other service as they were. *)
Theorem credential_backends_refine :
  @CredentialLaws MemoryCredentialStore.t memory_backend memory_view /\
  forall service, @CredentialLaws K (keyring_backend service) (keyring_view entries service) /\
    forall other key value k, other <> service -> forall key',
      keyring_view entries other (KeyringStore.store service key value k).2 key' =
        keyring_view entries other k key' /\
      keyring_view entries other (KeyringStore.delete service key k).2 key' =
        keyring_view entries other k key'.
Proof.
  split; [apply memory_laws|]. intros service. split; [apply keyring_laws|].
  intros other key value k Hne key'. unfold keyring_view, KeyringStore.store, KeyringStore.delete, smap_err.
  destruct (entry_new service key k); [|done]. cbn [negb].
  pose proof (set_password_entries service key value k) as Hs.
  pose proof (delete_credential_entries service key k) as Hd.
  destruct (set_password service key value k) as [r1 k1], (delete_credential service key k) as [r2 k2].
  cbn [snd]. split.
  - rewrite Hs. destruct r1; [|done]. apply lookup_insert_ne. congruence.
  - destruct r2 as [|[]]; [rewrite Hd; apply lookup_delete_ne; congruence|..];
      [destruct Hd as [_ ->] | rewrite Hd | rewrite Hd]; done.
Qed.
End Backends.

(** ** On concrete input *)

(** A keyring whose entries are those of a map. *)
#[export] Instance toy_os_keyring : KeyringOps (gmap (bytes * bytes) bytes) := {|
  entry_new _ _ _ := true;
  set_password sv u v k := (Ok tt, <[(sv, u) := v]> k);
  get_password sv u k := match k !! (sv, u) with Some v => Ok v | None => Err NoEntry end;
  delete_credential sv u k :=
    match k !! (sv, u) with Some _ => (Ok tt, base.delete (sv, u) k) | None => (Err NoEntry, k) end;
|}.

#[export] Instance toy_os_keyring_laws : KeyringLaws (gmap (bytes * bytes) bytes) id.
Proof.
  split; cbn; intros; [done| |].
  - by destruct (k !! (sv, u)) eqn:E.
  - by destruct (k !! (sv, u)) eqn:E.
Qed.

Lemma credential_backends_refine_witness :
  @CredentialLaws _ (keyring_backend (b "gitcellar")) (keyring_view id (b "gitcellar")).
Proof. apply (credential_backends_refine (K := gmap (bytes * bytes) bytes)). Defined.

Lemma credential_session_witness :
  let s := store_all (b "at") (b "rt") (b "alice") (b "a@example.com") 1790000000
             MemoryCredentialStore.new in
  is_ok s.1 = true /\ is_logged_in s.2 = true /\ get_token_expires_at s.2 = Ok (Some 1790000000) /\
  is_logged_in (clear_all s.2).2 = false.
Proof.
  intros s. assert (Hok : s.1 = Ok tt) by (vm_compute; reflexivity).
  assert (Hin : is_logged_in s.2 = true) by (vm_compute; reflexivity).
  assert (Hget : cred_get TOKEN_EXPIRES_AT s.2 = Ok (Some (b "1790000000"))) by (vm_compute; reflexivity).
  split; [by rewrite Hok|]. split; [exact Hin|].
  destruct (@credential_session _ memory_backend _ memory_laws (b "at") (b "rt") (b "alice") (b "a@example.com") 1790000000
    MemoryCredentialStore.new s.1 s.2) as (Hlogin & _ & Hout & _).
  - apply surjective_pairing.
  - unfold in_i64. lia.
  - rewrite Hok in Hlogin. destruct Hlogin as (_ & _ & _ & _ & Hx).
    split; [exact (Hx _ Hget)|]. apply Hout. intros k t. reflexivity.
Defined.

(** A keyring that reports an ambiguous entry is read as an empty one. *)
Lemma ambiguous_is_absent {K} `{KeyringOps K} service key k :
  entry_new service key k = true -> get_password service key k = Err Ambiguous ->
  KeyringStore.get service key k = Ok None.
Proof. intros He Hg. unfold KeyringStore.get. by rewrite He, Hg. Qed.
