(* ===== verification/OsKeyring.v ===== *)
(** One OS keyring, two users of it: the Local Protection Key of
    [passkey-core/src/keywrap.rs] and the login session of
    [passkey-core/src/credential_store/] live under the same service name
    (GitCellar's [app_name] is [KEYWRAP_SERVICE]), told apart by their entries.

    [KeyringLpkStore] implements the slot interface [LpkStore] over the keyring,
    and [lpk_store_laws] discharges that interface's laws; the theorem is that
    neither user disturbs the other. *)

From S2P Require Import Prelude Bytes Interfaces Toy Fs PasskeyError Users KeyWrap AtRest Credentials.

Definition KEYWRAP_SERVICE : bytes := b "gitcellar".
Definition LPK_ENTRY : bytes := b "at-rest-protection-key-v1".

(** ** The slot *)

Module KeyringLpkStore.
Section Slot.
  Context {K : Type} `{KeyringOps K}.

Definition new (k : K) : bool := entry_new KEYWRAP_SERVICE LPK_ENTRY k.

Definition get (k : K) : result string (option bytes) :=
  match get_password KEYWRAP_SERVICE LPK_ENTRY k with
  | Ok v => Ok (Some v)
  | Err NoEntry => Ok None
  | Err _ => Err "{e}"%string
  end.

Definition set (b64 : bytes) (k : K) : result string unit * K :=
  smap_err (fun _ => "{e}"%string) (set_password KEYWRAP_SERVICE LPK_ENTRY b64) k.
End Slot.
End KeyringLpkStore.

#[export] Instance keyring_lpk_store {K} `{KeyringOps K} : LpkStore K := {|
  kr_new := KeyringLpkStore.new;
  kr_get := KeyringLpkStore.get;
  kr_set := KeyringLpkStore.set;
|}.

(** A keyring that stays unlocked: an entry that is there can be read, whether
    an entry can be named does not change, a failed write changes nothing. *)
Class KeyringHealthy (K : Type) `{KeyringOps K} (entries : K -> gmap (bytes * bytes) bytes) : Prop := {
  healthy_get sv u k v : entries k !! (sv, u) = Some v -> get_password sv u k = Ok v;
  healthy_new sv u k k' : entry_new sv u k = entry_new sv u k';
  healthy_err sv u v k e k' : set_password sv u v k = (Err e, k') -> k' = k;
}.

Definition lpk_name : bytes * bytes := (KEYWRAP_SERVICE, LPK_ENTRY).

Section Keyring.
  Context {K : Type} `{KeyringOps K} {entries : K -> gmap (bytes * bytes) bytes}.
  Context `{!KeyringLaws K entries, !KeyringHealthy K entries}.

#[export] Instance lpk_store_laws : LpkStoreLaws K.
Proof.
  split; cbn; unfold KeyringLpkStore.new, KeyringLpkStore.get, KeyringLpkStore.set, smap_err.
  - intros v k k'. pose proof (set_password_entries KEYWRAP_SERVICE LPK_ENTRY v k) as He.
    destruct (set_password _ _ v k) as [[[]|e] k1]; [|done]. intros [= <-].
    rewrite (healthy_get _ _ k1 v); [done|]. rewrite He. apply lookup_insert_eq.
  - intros. apply healthy_new.
  - intros v k k' e. destruct (set_password _ _ v k) as [[[]|e'] k1] eqn:E; [done|]. intros [= _ <-].
    by apply healthy_err in E.
Qed.

(** Setting the slot leaves every other entry. *)
Lemma set_frame v (k : K) n : n <> lpk_name -> entries (kr_set v k).2 !! n = entries k !! n.
Proof.
  intros Hn. cbn. unfold KeyringLpkStore.set, smap_err.
  pose proof (set_password_entries KEYWRAP_SERVICE LPK_ENTRY v k) as He.
  destruct (set_password _ _ v k) as [[[]|e] k1]; cbn [snd]; rewrite He; [|done].
  by rewrite lookup_insert_ne.
Qed.

(** A read of the slot that gives a key depends on its entry alone. *)
Lemma get_entry (k k' : K) v :
  kr_get k = Ok (Some v) -> entries k' !! lpk_name = entries k !! lpk_name -> kr_get k' = kr_get k.
Proof.
  cbn. unfold KeyringLpkStore.get. intros Hg Ee.
  pose proof (get_password_entries KEYWRAP_SERVICE LPK_ENTRY k) as Hk.
  destruct (get_password KEYWRAP_SERVICE LPK_ENTRY k) as [w|[]] eqn:E; try done.
  rewrite (healthy_get _ _ k' w); [done|]. unfold lpk_name in Ee. by rewrite Ee.
Qed.
End Keyring.

(** ** The slot under [keywrap.rs] *)

Section Frame.
  Context `{HashOps, AeadOps, Base64Ops, Platform} {K R : Type} `{RngOps R}.
  Context `{KeyringOps K} {entries : K -> gmap (bytes * bytes) bytes}.
  Context `{!KeyringLaws K entries, !KeyringHealthy K entries}.
  Variable env : Env.
  Implicit Types h : Host K R.

(** An operation that leaves the slot, or sets it once. *)
Definition slot_only (k k' : K) : Prop := k' = k \/ exists v, k' = (kr_set v k).2.

Lemma slot_only_frame k k' n : slot_only k k' -> n <> lpk_name -> entries k' !! n = entries k !! n.
Proof. intros [->|(v & ->)] Hn; [done|]. by apply set_frame. Qed.

Lemma mint_slot m h : slot_only (h_slot h) (h_slot (mint_lpk m h).2).
Proof.
  unfold mint_lpk. destruct (fill_bytes 32 (h_rng h)) as [key r]. right. exists (b64_encode key).
  destruct (kr_set (b64_encode key) (h_slot h)) as [[[]|e] slot]; [|done].
  by destruct (match kr_get slot with Ok (Some b64) => decode_lpk b64 | _ => Ok key end).
Qed.

Lemma resolve_slot mode h : slot_only (h_slot h) (h_slot (resolve_host_lpk env mode h).2).
Proof.
  unfold resolve_host_lpk, choose_lpk. destruct (os_keyring_persistent env); cbn [negb]; [|by left].
  destruct (kr_new (h_slot h)); [|by left].
  assert (Hr : slot_only (h_slot h) (h_slot (resolve_lpk lpk_minted_marker_path mode h).2)).
  { unfold resolve_lpk. destruct (kr_get (h_slot h)) as [[v|]|]; [by destruct (decode_lpk v); left| |by left].
    destruct mode; [by left| |apply mint_slot]. destruct (exists_ _ _); [by left|apply mint_slot]. }
  destruct (resolve_lpk lpk_minted_marker_path mode h) as [[k|e] h1]; [done|]. by destruct (reports_missing e).
Qed.

Lemma cached_slot mode h : slot_only (h_slot h) (h_slot (cached_lpk env mode h).2).
Proof.
  unfold cached_lpk. destruct (h_cache h) as [[k s]|]; [by left|].
  pose proof (resolve_slot mode h) as Hr. by destruct (resolve_host_lpk env mode h) as [[[k s]|e] h1].
Qed.

Lemma wrap_slot p h : slot_only (h_slot h) (h_slot (wrap_at_rest env p h).2).
Proof.
  unfold wrap_at_rest, local_protection_key. pose proof (cached_slot Seal h) as Hr.
  destruct (cached_lpk env Seal h) as [[k|e] h1]; [|done]. by destruct (wrap_with_key p k (h_rng h1)).
Qed.

Lemma step_slot h sealed h' : lpk_step env h sealed h' -> slot_only (h_slot h) (h_slot h').
Proof.
  destruct 1 as [|f|p d h2 E|p e h2 E|d r h2 E|r h2 E].
  - by left.
  - by left.
  - pose proof (wrap_slot p h) as Hw. by rewrite E in Hw.
  - pose proof (wrap_slot p h) as Hw. by rewrite E in Hw.
  - unfold unwrap_at_rest in E. destruct (is_wrapped d); cbn [negb] in E; [|injection E as _ <-; by left].
    pose proof (cached_slot Open h) as Hr.
    destruct (cached_lpk env Open h) as [[k|e] h1]; by injection E as _ <-.
  - unfold remint_local_protection_key in E. pose proof (resolve_slot Remint h) as Hr.
    destruct (resolve_host_lpk env Remint h) as [[[k s]|e] h1]; by injection E as _ <-.
Qed.
End Frame.

(** ** Both users at work *)

Definition session_keys : list bytes := keys_to_clear ++ [RECOVERY_HASH].

(** What the session did to an entry: stored a value or deleted it, and whether
    that succeeded. *)
Record session_write : Type := { sw_key : bytes; sw_value : option bytes; sw_done : bool }.

(** The reference: a map in which a successful write replaces the value. *)
Definition replay (ws : list session_write) (view : bytes -> option bytes) : bytes -> option bytes :=
  foldl (fun view w k => if sw_done w && bool_decide (k = sw_key w) then sw_value w else view k) view ws.

Section Machine.
  Context `{HashOps, AeadLaws, Base64Ops, Platform} {K R : Type} `{RngLaws R}.
  Context `{KeyringOps K} {entries : K -> gmap (bytes * bytes) bytes}.
  Context `{!KeyringLaws K entries, !KeyringHealthy K entries}.
  Variable env : Env.
  Variable service : bytes.
  Implicit Types h : Host K R.

(** [machine h log ws h']: sealing, restarts and changes of files, interleaved
    with writes of the session to its entries of the same keyring. *)
Inductive machine h : list (bytes * bytes) -> list session_write -> Host K R -> Prop :=
  | m_start : machine h [] [] h
  | m_lpk log ws h1 sealed h2 :
      machine h log ws h1 -> lpk_step env h1 sealed h2 -> machine h (log ++ sealed) ws h2
  | m_store log ws h1 key v r k :
      machine h log ws h1 -> key ∈ session_keys ->
      KeyringStore.store service key v (h_slot h1) = (r, k) ->
      machine h log (ws ++ [{| sw_key := key; sw_value := Some v; sw_done := is_ok r |}]) (with_slot k h1)
  | m_delete log ws h1 key r k :
      machine h log ws h1 -> key ∈ session_keys ->
      KeyringStore.delete service key (h_slot h1) = (r, k) ->
      machine h log (ws ++ [{| sw_key := key; sw_value := None; sw_done := is_ok r |}]) (with_slot k h1).

(** A login and a logout are such writes. *)
Lemma stored_machine kvs h log ws h1 :
  machine h log ws h1 -> kvs.*1 ⊆ session_keys -> exists ws',
    machine h log (ws ++ ws') (with_slot (@stored K (keyring_backend service) kvs (h_slot h1)).2 h1).
Proof.
  revert ws h1; induction kvs as [|[k v] kvs IH]; intros ws h1 Hm Hk.
  { exists []. rewrite app_nil_r. by destruct h1. }
  rewrite stored_cons. cbn [cred_store keyring_backend].
  assert (Hin : k ∈ session_keys) by (apply Hk; left).
  assert (Hrest : kvs.*1 ⊆ session_keys) by (intros x Hx; apply Hk; by right).
  destruct (KeyringStore.store service k v (h_slot h1)) as [r k1] eqn:E.
  pose proof (m_store _ _ _ _ _ _ _ _ Hm Hin E) as Hm1. destruct r as [[]|e]; [|by eexists].
  destruct (IH _ _ Hm1 Hrest) as [ws' Hm2]. rewrite <- app_assoc in Hm2. by eexists.
Qed.

Lemma cleared_machine ks h log ws h1 :
  machine h log ws h1 -> ks ⊆ session_keys -> exists ws',
    machine h log (ws ++ ws')
      (with_slot (foldl (fun s key => (@cred_delete K (keyring_backend service) key s).2) (h_slot h1) ks) h1).
Proof.
  revert ws h1; induction ks as [|k ks IH]; intros ws h1 Hm Hk.
  { exists []. rewrite app_nil_r. by destruct h1. }
  cbn [foldl cred_delete keyring_backend].
  assert (Hin : k ∈ session_keys) by (apply Hk; left).
  assert (Hrest : ks ⊆ session_keys) by (intros x Hx; apply Hk; by right).
  destruct (KeyringStore.delete service k (h_slot h1)) as [r k1] eqn:E.
  pose proof (m_delete _ _ _ _ _ _ _ Hm Hin E) as Hm1.
  destruct (IH _ _ Hm1 Hrest) as [ws' Hm2]. rewrite <- app_assoc in Hm2. by eexists.
Qed.

Lemma lpk_entry_not_session : LPK_ENTRY ∉ session_keys.
Proof. apply (bool_decide_unpack _). by vm_compute. Qed.

Lemma session_name key : key ∈ session_keys -> (service, key) <> lpk_name.
Proof. intros Hk [= _ ->]. by apply lpk_entry_not_session. Qed.

(** A write of the session leaves the entries of every other name. *)
Lemma store_other key v k r k' n :
  KeyringStore.store service key v k = (r, k') -> n <> (service, key) -> entries k' !! n = entries k !! n.
Proof.
  unfold KeyringStore.store, smap_err. destruct (entry_new service key k); cbn [negb]; [|by intros [= _ <-]].
  pose proof (set_password_entries service key v k) as He.
  destruct (set_password service key v k) as [[[]|e] k1]; intros [= _ <-] Hn; rewrite He; [|done].
  by rewrite lookup_insert_ne.
Qed.

Lemma delete_other key k r k' n :
  KeyringStore.delete service key k = (r, k') -> n <> (service, key) -> entries k' !! n = entries k !! n.
Proof.
  unfold KeyringStore.delete. destruct (entry_new service key k); cbn [negb]; [|by intros [= _ <-]].
  pose proof (delete_credential_entries service key k) as He.
  destruct (delete_credential service key k) as [[[]|[]] k1]; intros [= _ <-] Hn; rewrite ?He; try done.
  - by rewrite lookup_delete_ne.
  - by destruct He as [_ ->].
Qed.

Lemma settled_life key h log ws h' :
  os_keyring_persistent env = true -> settled key h -> machine h log ws h' ->
  settled key h' /\ Forall (opens key) log.
Proof.
  intros Hp Hs. induction 1 as [|log ws h1 sealed h2 _ [IH Hl] E|log ws h1 k v r k' _ [IH Hl] Hin E
    |log ws h1 k r k' _ [IH Hl] Hin E]; [by split| | |].
  - destruct (step_settled env Hp key h1 sealed h2 IH E) as [Hs2 Hd]. split; [done|]. by apply Forall_app.
  - split; [|done]. pose proof (store_other _ _ _ _ _ lpk_name E) as He.
    destruct IH as [Hn (v0 & Hg & Hd) Hc]. split; cbn [with_slot h_slot h_cache]; [|exists v0; split; [|done]|done].
    + rewrite <- Hn. apply healthy_new.
    + rewrite <- Hg. apply (get_entry _ _ v0 Hg), He. intros En. by apply (session_name k Hin).
  - split; [|done]. pose proof (delete_other _ _ _ _ lpk_name E) as He.
    destruct IH as [Hn (v0 & Hg & Hd) Hc]. split; cbn [with_slot h_slot h_cache]; [|exists v0; split; [|done]|done].
    + rewrite <- Hn. apply healthy_new.
    + rewrite <- Hg. apply (get_entry _ _ v0 Hg), He. intros En. by apply (session_name k Hin).
Qed.

Lemma replay_snoc ws w view k :
  replay (ws ++ [w]) view k =
  if sw_done w && bool_decide (k = sw_key w) then sw_value w else replay ws view k.
Proof. unfold replay. by rewrite foldl_app. Qed.

Lemma decide_bool {A} (ok : bool) (k key : bytes) (x y : A) :
  (if decide (ok = true /\ k = key) then x else y) = if ok && bool_decide (k = key) then x else y.
Proof.
  destruct ok; cbn [andb].
  - case_bool_decide as E; [by rewrite decide_True|by rewrite decide_False by (by intros [])].
  - by rewrite decide_False by (by intros []).
Qed.

(** The session's entries are what its own writes made of them. *)
Lemma machine_view h log ws h' k :
  machine h log ws h' -> k ∈ session_keys ->
  keyring_view entries service (h_slot h') k = replay ws (keyring_view entries service (h_slot h)) k.
Proof.
  intros Hm Hk. induction Hm as [|log ws h1 sealed h2 _ IH E|log ws h1 key v r k' _ IH Hin E
    |log ws h1 key r k' _ IH Hin E]; [done| | |].
  - rewrite <- IH. unfold keyring_view. apply (slot_only_frame _ _ _ (step_slot _ _ _ _ E)).
    by apply session_name.
  - rewrite replay_snoc, <- IH. cbn [sw_done sw_key sw_value with_slot h_slot].
    pose proof (@cred_store_view K (keyring_backend service) _ (keyring_laws service) key v (h_slot h1)) as Hv.
    cbn [cred_store keyring_backend] in Hv. rewrite E in Hv. rewrite Hv.
    apply decide_bool.
  - rewrite replay_snoc, <- IH. cbn [sw_done sw_key sw_value with_slot h_slot].
    pose proof (@cred_delete_view K (keyring_backend service) _ (keyring_laws service) key (h_slot h1)) as Hv.
    cbn [cred_delete keyring_backend] in Hv. rewrite E in Hv. rewrite Hv.
    apply decide_bool.
Qed.

Lemma opens_later key h p d :
  os_keyring_persistent env = true -> settled key h -> opens key (p, d) ->
  (unwrap_at_rest env d h).1 = Ok p /\ (unwrap_at_rest env d (with_cache None h)).1 = Ok p.
Proof.
  intros Hp Hs [Hd Hu]. cbn [fst snd] in *.
  assert (Hs' : settled key (with_cache None h)) by (destruct Hs as [? ? _]; split; [done|done|by left]).
  split.
  - destruct (unwrap_at_rest env d h) as [r h'] eqn:E. cbn [fst].
    destruct (settled_unwrap env Hp key d h r h' Hs E) as [_ Hr]. by rewrite (Hr Hd).
  - destruct (unwrap_at_rest env d (with_cache None h)) as [r h'] eqn:E. cbn [fst].
    destruct (settled_unwrap env Hp key d _ r h' Hs' E) as [_ Hr]. by rewrite (Hr Hd).
Qed.

(** C16: The keyring's two users do not disturb each other.  After a first seal
    under a key of the keyring, interleave sealing, opening, re-minting,
    restarts and changes of files with any writes of the session, under any
    service name, the protection key's own included.  Then every payload sealed
    opens, now and after a restart, and still does after one more login and
    logout; and each of the session's entries is what its own successful writes
    made of it. *)
Theorem shared_keyring p0 h0 d0 h1 key log ws h2 :
  os_keyring_persistent env = true ->
  h_cache h0 = None -> wrap_at_rest env p0 h0 = (Ok d0, h1) -> h_cache h1 = Some (key, OsKeyring) ->
  machine h1 log ws h2 ->
  (forall p d, (p, d) ∈ (p0, d0) :: log ->
     (unwrap_at_rest env d h2).1 = Ok p /\ (unwrap_at_rest env d (with_cache None h2)).1 = Ok p /\
     forall at_ rt u e x,
       let login := (@store_all K (keyring_backend service) at_ rt u e x (h_slot h2)).2 in
       let logout := (@clear_all K (keyring_backend service) login).2 in
       (unwrap_at_rest env d (with_cache None (with_slot login h2))).1 = Ok p /\
       (unwrap_at_rest env d (with_cache None (with_slot logout h2))).1 = Ok p) /\
  (forall k, k ∈ session_keys ->
     keyring_view entries service (h_slot h2) k = replay ws (keyring_view entries service (h_slot h0)) k).
Proof.
  intros Hp Hc Hw Hk Hm. pose proof (first_wrap_settles env Hp p0 h0 d0 h1 key Hc Hw Hk) as Hs1.
  split.
  - intros p d Hin.
    assert (Ho : opens key (p, d)).
    { destruct (settled_life key h1 log ws h2 Hp Hs1 Hm) as [_ Hl].
      apply elem_of_cons in Hin as [->|Hin]; [|by eapply Forall_forall in Hl].
      by apply (first_wrap_opens env p0 h0 d0 h1 key Hc Hw Hk). }
    assert (Hopen : forall ws' h', machine h1 log ws' h' ->
      (unwrap_at_rest env d h').1 = Ok p /\ (unwrap_at_rest env d (with_cache None h')).1 = Ok p).
    { intros ws' h' Hm'. apply (opens_later key); [done| |done]. by apply (settled_life key h1 log ws' h'). }
    destruct (Hopen ws h2 Hm) as [Hnow Hlater]. split; [done|]. split; [done|].
    intros at_ rt u e x login logout.
    assert (exists ws1, machine h1 log ws1 (with_slot login h2)) as [ws1 Hm1].
    { unfold login. rewrite store_all_stored.
      edestruct stored_machine as [ws1 Hm1]; [exact Hm| |by exists (ws ++ ws1)].
      apply (bool_decide_unpack _). by vm_compute. }
    assert (exists ws2, machine h1 log ws2 (with_slot logout h2)) as [ws2 Hm2].
    { edestruct (cleared_machine keys_to_clear) as [ws2 Hm2]; [exact Hm1| |by exists (ws1 ++ ws2)].
      apply (bool_decide_unpack _). by vm_compute. }
    split; [by apply (Hopen ws1)|by apply (Hopen ws2)].
  - intros k Hks. rewrite (machine_view h1 log ws h2 k Hm Hks).
    assert (Hv : keyring_view entries service (h_slot h1) k = keyring_view entries service (h_slot h0) k).
    { unfold keyring_view. apply slot_only_frame; [|by apply session_name].
      pose proof (wrap_slot env p0 h0) as Hsl. by rewrite Hw in Hsl. }
    revert Hv. clear. intros Hv. induction ws as [|w ws' IH] using rev_ind; [done|].
    rewrite !replay_snoc. by rewrite IH.
Qed.
End Machine.

(** ** On concrete input: a seal, a login, a logout, a restart *)

#[export] Instance toy_os_keyring_healthy : KeyringHealthy (gmap (bytes * bytes) bytes) id.
Proof. split; cbn; [by intros sv u k v ->|done|done]. Qed.

Lemma shared_keyring_witness :
  let K := gmap (bytes * bytes) bytes in
  exists d (h : Host K Z),
    keyring_view id (b "gitcellar") (h_slot h) ACCESS_TOKEN = Some (b "tok") /\
    (unwrap_at_rest (demo_env true) d (with_cache None (with_slot
       (@clear_all K (keyring_backend (b "gitcellar"))
          (@store_all K (keyring_backend (b "gitcellar")) (b "a") (b "r") (b "u") (b "e") 7 (h_slot h)).2).2 h))).1
      = Ok (b "seed").
Proof.
  intros K. pose (x := wrap_at_rest (demo_env true) (b "seed") (demo_host (∅ : K))).
  pose (d := match x.1 with Ok d => d | Err _ => [] end).
  pose (st := KeyringStore.store (b "gitcellar") ACCESS_TOKEN (b "tok") (h_slot x.2)).
  assert (Ed : x.1 = Ok d) by (vm_compute; reflexivity).
  assert (Hm : machine (demo_env true) (b "gitcellar") x.2 []
    [{| sw_key := ACCESS_TOKEN; sw_value := Some (b "tok"); sw_done := true |}]
    (with_slot st.2 x.2)).
  { refine (m_store _ _ _ [] [] x.2 ACCESS_TOKEN (b "tok") st.1 st.2 (m_start _ _ _) _ _);
      [by left|apply surjective_pairing]. }
  destruct (shared_keyring (entries := id) (demo_env true) (b "gitcellar") (b "seed") (demo_host (∅ : K)) d x.2
    (replicate 32 (as_u8 9)) [] [{| sw_key := ACCESS_TOKEN; sw_value := Some (b "tok"); sw_done := true |}]
    (with_slot st.2 x.2)) as (Ho & Hv).
  - reflexivity.
  - reflexivity.
  - rewrite <- Ed. apply surjective_pairing.
  - vm_compute. reflexivity.
  - exact Hm.
  - exists d, (with_slot st.2 x.2). split.
    + etransitivity; [apply (Hv ACCESS_TOKEN); by left|reflexivity].
    + destruct (Ho (b "seed") d) as (_ & _ & Hl); [by left|]. apply Hl.
Defined.
