(* ===== verification/Verification.v ===== *)
(** [passkey-core/src/auth/verification.rs]: the server's check of a detached
    signature, and the challenge-response exchange it ends. *)

From S2P Require Import Prelude Bytes Interfaces Toy PasskeyError Canonical Challenge Identity.
From S2P Require CryptoError Signing.

Local Open Scope gc_scope.

Section Verification.
  Context {Cert : Type} `{PgpOps Cert, Base64Ops, HexOps}.

(** [Helper::check]: the first verified signature of the first group that has
    one accepts the message. *)
Fixpoint check (structure : list message_layer) : bool :=
  match structure with
  | [] => false
  | LayerSignatureGroup results :: rest =>
      (fix each (results : list bool) : bool :=
         match results with
         | [] => check rest
         | ok :: results => if ok then true else each results
         end) results
  | _ :: rest => check rest
  end.

Definition verify_detached_signature_with_cert (cert : Cert) (data signature : bytes)
    : result PasskeyError bool :=
  let? structure := ok_or (detached_layers cert data signature) InvalidSignature in
  Ok (check structure).

Definition verify_detached_signature (public_key_pem data signature : bytes)
    : result PasskeyError bool :=
  let? cert := parse_public_key public_key_pem in
  verify_detached_signature_with_cert cert data signature.

Definition parse_signature_base64 (encoded : bytes) : result PasskeyError bytes :=
  ok_or (b64_decode encoded) InvalidSignature.

Definition parse_signature_hex (encoded : bytes) : result PasskeyError bytes :=
  ok_or (hex_decode encoded) InvalidSignature.
End Verification.

(** ** Lemmas *)

Lemma check_iff layers :
  check layers = true <-> exists results, LayerSignatureGroup results ∈ layers /\ true ∈ results.
Proof.
  induction layers as [|l layers IH]; cbn [check].
  - split; [done|]. by intros (? & ?%elem_of_nil & _).
  - destruct l as [| |results].
    1,2: rewrite IH; split; intros (rs & Hin & Ht); exists rs; (split; [|done]);
      [by right | by apply elem_of_cons in Hin as [?|]].
    transitivity (true ∈ results \/ check layers = true).
    + induction results as [|[] results IHr].
      * split; [by right | intros [?%elem_of_nil|]; done].
      * split; [by left; left | done].
      * rewrite IHr. split; [intros [?|?]; [left; by right | by right]|].
        intros [[?|?]%elem_of_cons|?]; [done | by left | by right].
    + rewrite IH. split.
      * intros [Ht|(rs & Hin & Ht)]; [exists results; split; [by left|done]|].
        exists rs. split; [by right|done].
      * intros (rs & [[= ->]|Hin]%elem_of_cons & Ht); [by left|]. right. by exists rs.
Qed.

Lemma check_structure_check layers : Signing.check_structure layers = check layers.
Proof.
  apply eq_true_iff_eq. rewrite check_iff. unfold Signing.check_structure.
  rewrite existsb_exists. split.
  - intros (l & Hl%list_elem_of_In & He). destruct l as [| |rs]; try done. exists rs. split; [done|].
    apply existsb_exists in He as (x & Hx%list_elem_of_In & Ex). cbn in Ex. by rewrite Ex in Hx.
  - intros (rs & Hin%list_elem_of_In & Ht%list_elem_of_In). exists (LayerSignatureGroup rs).
    split; [done|]. apply existsb_exists. by exists true.
Qed.

Section Correct.
  Context {Cert : Type} `{PgpOps Cert}.

Lemma verified_same (armor data signature : bytes) :
  verify_detached_signature armor data signature = Ok true <->
  Signing.verify_detached armor data signature = Ok true.
Proof.
  unfold verify_detached_signature, parse_public_key, verify_detached_signature_with_cert,
    Signing.verify_detached.
  destruct (cert_parse armor) as [c|]; cbn [ok_or rbind]; [|by split].
  destruct (detached_layers c data signature) as [layers|]; cbn [ok_or rbind]; [|by split].
  rewrite check_structure_check. split; by intros [= ->].
Qed.

(** A signature is accepted exactly when the key parses and some signature of
    the structure verified over the data; an unreadable key and an unreadable
    signature are errors, never acceptance; and the check accepts the same
    signatures as gitcellar-crypto's own. *)
Theorem verify_detached_signature_iff (armor data signature : bytes) :
  (verify_detached_signature armor data signature = Ok true <->
   exists c layers results, cert_parse armor = Some c /\
     detached_layers c data signature = Some layers /\
     LayerSignatureGroup results ∈ layers /\ true ∈ results) /\
  (verify_detached_signature armor data signature = Ok true <->
   Signing.verify_detached armor data signature = Ok true) /\
  (forall e, verify_detached_signature armor data signature = Err e ->
     e = InvalidPublicKey "Failed to parse public key: {}" /\ cert_parse armor = None \/
     e = InvalidSignature /\ exists c, cert_parse armor = Some c /\ detached_layers c data signature = None).
Proof.
  split; [|split; [apply verified_same|]];
    unfold verify_detached_signature, parse_public_key, verify_detached_signature_with_cert;
    destruct (cert_parse armor) as [c|]; cbn [ok_or rbind].
  - destruct (detached_layers c data signature) as [layers|] eqn:El; cbn [ok_or rbind].
    + transitivity (check layers = true); [split; [by intros [= ->] | by intros ->]|].
      rewrite check_iff. split.
      * intros (rs & ? & ?). by exists c, layers, rs.
      * intros (? & ? & rs & [= <-] & E & ? & ?). rewrite El in E. injection E as <-. by exists rs.
    + split; [done|]. intros (? & ? & ? & [= <-] & E & _). congruence.
  - split; [done|]. by intros (? & ? & ? & ? & _).
  - destruct (detached_layers c data signature) eqn:El; [done|]. intros e [= <-]. right. eauto.
  - intros e [= <-]. by left.
Qed.
End Correct.

(** ** The exchange *)

Section Exchange.
  Context {Cert R : Type} `{PgpLaws Cert, HexLaws, Base64Laws, RngLaws R}.

(** C21: Challenge-response: a server's fresh challenge is one a client signs; the
    signature, sent as base64 or hexadecimal, is accepted over the payload the
    server rebuilds, under the public key the client exported; and that payload
    belongs to this purpose and this challenge alone, so the signature
    answers no other. *)
Theorem challenge_response (e : Signing.EncryptionEngine Cert) (armor : bytes) (p : ChallengePurpose)
    (r : R) :
  Signing.signer e armor ->
  let c := (generate_challenge r).1 in
  exists sig payload, Signing.sign_auth_challenge e p c = Ok sig /\
    challenge_signing_payload p c = Ok payload /\
    rbind (parse_signature_base64 (b64_encode sig)) (verify_detached_signature armor payload) = Ok true /\
    rbind (parse_signature_hex (hex_encode sig)) (verify_detached_signature armor payload) = Ok true /\
    forall p' c', challenge_signing_payload p' c' = Ok payload -> p' = p /\ c' = c.
Proof.
  intros Hsig c. unfold Signing.sign_auth_challenge.
  assert (Hp : exists payload, challenge_signing_payload p c = Ok payload).
  { unfold challenge_signing_payload, c. rewrite generate_challenge_well_formed. by eexists. }
  destruct Hp as [payload Ep]. rewrite Ep. cbn [map_err rbind].
  destruct (Signing.sign_data_verifies e armor payload Hsig) as (sig & Es & Hv).
  exists sig, payload. split; [done|]. split; [done|].
  apply verified_same in Hv. unfold parse_signature_base64, parse_signature_hex.
  rewrite b64_decode_encode, hex_decode_encode. split; [done|]. split; [done|].
  intros p' c' Ep'. apply challenge_payload_ok in Ep as [_ E], Ep' as [_ E'].
  rewrite E in E'. apply lp_fields_inj in E'. injection E' as E1 ->. split; [|done].
  by destruct p, p'.
Qed.
End Exchange.

(** ** On concrete input *)

Definition demo_engine : Signing.EncryptionEngine bytes :=
  {| Signing.ee_cert := b "alice"; Signing.key_version := None |}.

Lemma challenge_response_witness :
  exists sig payload,
    Signing.sign_auth_challenge demo_engine Login (generate_challenge 7).1 = Ok sig /\
    challenge_signing_payload Login (generate_challenge 7).1 = Ok payload /\
    verify_detached_signature (b "alice") payload sig = Ok true.
Proof.
  destruct (challenge_response demo_engine (b "alice") Login 7) as (sig & payload & Hs & Hp & Hv & _).
  - split; [|reflexivity]. eexists. split; [reflexivity|]. intros data. by eexists.
  - exists sig, payload. split; [exact Hs|]. split; [exact Hp|].
    unfold parse_signature_base64 in Hv. rewrite b64_decode_encode in Hv. exact Hv.
Defined.
