(* ===== verification/Jwt.v ===== *)
(** [passkey-core/src/auth/jwt.rs]: access and refresh tokens.

    The token codec ([jsonwebtoken], HS256), the URL-safe base64 of its parts
    and the calendar arithmetic of [chrono] are parameters.  Times are seconds
    since the epoch: adding whole seconds to an instant adds them to its
    timestamp. *)

From S2P Require Import Prelude Bytes Interfaces Toy PasskeyError Users.

Local Open Scope gc_scope.

Record Claims : Type := { sub : bytes; email : bytes; iat : Z; exp : Z }.

Record TokenPair : Type := { access_token : bytes; refresh_token : bytes; expires_in : Z }.

Definition DOT : byte := Byte.x2e.

Inductive jwt_error : Type := ExpiredSignature | OtherKind.

Class JwtOps : Type := {
  jwt_encode : Claims -> bytes -> option bytes;                       (* secret *)
  jwt_decode : bytes -> bytes -> Z -> result jwt_error Claims;        (* token, secret, now *)
  url_encode : bytes -> bytes;
  url_decode : bytes -> option bytes;
  (* [Duration::seconds] and adding it; [None] where either panics *)
  utc_add : Z -> Z -> option Z;
}.

(** The default validation's leeway, in seconds. *)
Definition LEEWAY : Z := 60.

(** A token is three dotted parts, the second the claims' JSON in base64; its
    own secret validates it until the leeway after its expiry. *)
Class JwtLaws `{JwtOps, Codec Claims} : Prop := {
  url_decode_encode x : url_decode (url_encode x) = Some x;
  jwt_encode_total c s : is_Some (jwt_encode c s);
  jwt_encode_shape c s t : jwt_encode c s = Some t ->
    exists h p sig, t = h ++ [DOT] ++ url_encode p ++ [DOT] ++ sig /\ (DOT ∉ h) /\
      (DOT ∉ url_encode p) /\ (DOT ∉ sig) /\ de p = Some c;
  jwt_decode_encode c s t now : jwt_encode c s = Some t -> 0 <= exp c -> LEEWAY <= now ->
    jwt_decode t s now = if exp c <? now - LEEWAY then Err ExpiredSignature else Ok c;
  utc_add_Some now secs : 0 <= now -> 0 <= secs -> now + secs < 2 ^ 42 ->
    utc_add now secs = Some (now + secs);
}.

Section Jwt.
  Context {R : Type} `{JwtOps, Codec Claims, HashOps, HexOps, RngOps R}.

(** [user_id] is the text of the UUID, [now] is [Utc::now()]. *)
Definition generate_access_token (user_id mail : bytes) (config : JwtConfig) (now : Z)
    : run (result PasskeyError bytes) :=
  let! e := expect (utc_add now (access_token_expiry_secs config)) "TimeDelta::seconds out of bounds" in
  let claims := {| sub := user_id; email := mail; iat := now; exp := e |} in
  Done (ok_or (jwt_encode claims (secret config)) (Other "Failed to generate token: {}")).

Definition generate_refresh_token (r : R) : bytes * R :=
  let '(bs, r) := fill_bytes 32 r in (url_encode bs, r).

Definition hash_refresh_token (token : bytes) : bytes := hex_encode (sha256 token).

Definition validate_access_token (token : bytes) (config : JwtConfig) (now : Z)
    : result PasskeyError Claims :=
  map_err (fun e => match e with ExpiredSignature => TokenExpired | _ => InvalidToken end)
    (jwt_decode token (secret config) now).

Definition generate_token_pair (user_id mail : bytes) (config : JwtConfig) (now : Z) (r : R)
    : run (result PasskeyError TokenPair * R) :=
  let! access := generate_access_token user_id mail config now in
  match access with
  | Err e => Done (Err e, r)
  | Ok access_token =>
      let '(refresh_token, r) := generate_refresh_token r in
      Done (Ok {| access_token := access_token; refresh_token := refresh_token;
                  expires_in := access_token_expiry_secs config |}, r)
  end.

Definition decode_token_parts (token : bytes) : option Claims :=
  match split_on DOT token with
  | [_; part1; _] =>
      match url_decode part1 with
      | Some payload => de payload
      | None => None
      end
  | _ => None
  end.

Definition is_token_expired (token : bytes) (now : Z) : bool :=
  match decode_token_parts token with
  | Some claims => exp claims <? now
  | None => true
  end.

Definition extract_subject_unsafe (token : bytes) : option bytes :=
  sub <$> decode_token_parts token.
End Jwt.

(** ** Lemmas *)

Section Tokens.
  Context {R : Type} `{JwtLaws, RngLaws R}.

Lemma decode_parts_encode c s t : jwt_encode c s = Some t -> decode_token_parts t = Some c.
Proof.
  intros (h & p & sig & -> & Hh & Hp & Hs & Hd)%jwt_encode_shape.
  unfold decode_token_parts. cbn [app].
  rewrite (split_on_app DOT h), (split_on_app DOT (url_encode p)), (split_on_no DOT sig) by done.
  by rewrite url_decode_encode.
Qed.

Lemma generate_access_token_Done u m config now :
  0 <= now -> 0 <= access_token_expiry_secs config -> now + access_token_expiry_secs config < 2 ^ 42 ->
  let c := {| sub := u; email := m; iat := now; exp := now + access_token_expiry_secs config |} in
  exists t, generate_access_token u m config now = Done (Ok t) /\ jwt_encode c (secret config) = Some t.
Proof.
  intros Hn He Hb c. unfold generate_access_token. rewrite utc_add_Some by done. cbn [expect run_bind].
  destruct (jwt_encode_total c (secret config)) as [t Et]. exists t. unfold c in Et. by rewrite Et.
Qed.

(** C36: A token pair made with an expiry within the calendar validates under the
    same secret, to the claims it was made with, until one minute after the
    expiry and is expired afterwards; the unverified check, which has no
    leeway, calls it expired that minute earlier; its subject is the user, and
    the refresh token carries 32 random bytes. *)
Theorem token_pair_lifecycle (u m : bytes) (config : JwtConfig) (now later : Z) (r : R) :
  0 <= now -> 0 <= access_token_expiry_secs config ->
  now + access_token_expiry_secs config < 2 ^ 42 -> LEEWAY <= later ->
  let e := now + access_token_expiry_secs config in
  exists tp r', generate_token_pair u m config now r = Done (Ok tp, r') /\
    expires_in tp = access_token_expiry_secs config /\
    validate_access_token (access_token tp) config later =
      (if e + LEEWAY <? later then Err TokenExpired
       else Ok {| sub := u; email := m; iat := now; exp := e |}) /\
    is_token_expired (access_token tp) later = (e <? later) /\
    extract_subject_unsafe (access_token tp) = Some u /\
    exists bs, url_decode (refresh_token tp) = Some bs /\ length bs = 32%nat.
Proof.
  intros Hn Hx Hb Hl e.
  destruct (generate_access_token_Done u m config now Hn Hx Hb) as (t & Eg & Et).
  unfold generate_token_pair, generate_refresh_token. rewrite Eg. cbn [run_bind].
  pose proof (fill_bytes_length 32 r) as Hr. destruct (fill_bytes 32 r) as [bs r'].
  eexists _, r'. split; [reflexivity|]. cbn [access_token refresh_token expires_in].
  split; [done|]. unfold validate_access_token, is_token_expired, extract_subject_unsafe.
  rewrite (decode_parts_encode _ _ _ Et), (jwt_decode_encode _ _ _ _ Et) by (cbn; lia).
  cbn [exp]. split.
  - fold e. replace (e <? later - LEEWAY) with (e + LEEWAY <? later) by lia.
    destruct (e + LEEWAY <? later); reflexivity.
  - split; [done|]. split; [done|]. exists bs. by rewrite url_decode_encode.
Qed.
End Tokens.

(** ** On concrete input *)

#[export] Instance claims_eq_dec : EqDecision Claims.
Proof. solve_decision. Defined.
#[export] Program Instance claims_countable : Countable Claims :=
  inj_countable' (fun c => (sub c, email c, iat c, exp c))
    (fun '(s, m, i, e) => {| sub := s; email := m; iat := i; exp := e |}) _.
Next Obligation. by intros []. Qed.

Section Demo.
#[local] Instance claims_codec : Codec Claims := countable_codec.

(** The signature is a checksum of the payload under the secret. *)
Definition toy_sign (payload s : bytes) : bytes := hex_encode (checksum (s ++ NUL :: payload)).

#[local] Instance toy_jwt : JwtOps := {|
  jwt_encode c s :=
    match ser c with
    | Some p => Some (b "h" ++ [DOT] ++ hex_encode p ++ [DOT] ++ toy_sign p s)
    | None => None
    end;
  jwt_decode t s now :=
    match split_on DOT t with
    | [_; part1; sig] =>
        match hex_decode part1 with
        | Some p =>
            match de p with
            | Some c =>
                if bool_decide (sig = toy_sign p s)
                then if exp c <? now - LEEWAY then Err ExpiredSignature else Ok c
                else Err OtherKind
            | None => Err OtherKind
            end
        | None => Err OtherKind
        end
    | _ => Err OtherKind
    end;
  url_encode := hex_encode;
  url_decode := hex_decode;
  utc_add now secs := if now + secs <? 2 ^ 42 then Some (now + secs) else None;
|}.

Lemma dot_not_hex x : DOT ∉ hex_encode x.
Proof.
  intros Hin. pose proof (hex_encode_chars x) as Hf. rewrite Forall_forall in Hf. by apply Hf in Hin.
Qed.

#[local] Instance toy_jwt_laws : JwtLaws.
Proof.
  split; cbn [jwt_encode jwt_decode url_encode url_decode utc_add toy_jwt].
  - apply hex_decode_encode.
  - intros c s. destruct (ser_total c) as [p ->]. by eexists.
  - intros c s t. destruct (ser c) as [p|] eqn:Ep; [|done]. intros [= <-].
    exists (b "h"), p, (toy_sign p s). split; [done|].
    split; [apply (bool_decide_unpack _); by vm_compute|].
    split; [apply dot_not_hex|]. split; [apply dot_not_hex | by apply de_ser].
  - intros c s t now. destruct (ser c) as [p|] eqn:Ep; [|done]. intros [= <-] _ _.
    change (Byte.x68 :: DOT :: toy_hex_encode p ++ ?x) with (b "h" ++ DOT :: hex_encode p ++ x).
    rewrite (split_on_app DOT (b "h")) by (apply (bool_decide_unpack _); by vm_compute).
    rewrite split_on_app, split_on_no by apply dot_not_hex.
    rewrite hex_decode_encode, (de_ser c p Ep), bool_decide_true by done. done.
  - intros now secs _ _ Hb. apply Z.ltb_lt in Hb. by rewrite Hb.
Qed.

Definition demo_config : JwtConfig :=
  {| secret := b "s3cret"; access_token_expiry_secs := 3600; refresh_token_expiry_secs := 2592000 |}.

Lemma token_pair_lifecycle_witness :
  exists tp r', generate_token_pair (b "u-1") (b "a@example.com") demo_config 1000000 (5 : Z) = Done (Ok tp, r') /\
    is_token_expired (access_token tp) 1003630 = true /\
    is_ok (validate_access_token (access_token tp) demo_config 1003630) = true.
Proof.
  destruct (token_pair_lifecycle (b "u-1") (b "a@example.com") demo_config 1000000 1003630 (5 : Z))
    as (tp & r' & Hg & _ & Hv & He & _); [lia | cbn; lia | cbn; lia | unfold LEEWAY; lia |].
  exists tp, r'. split; [exact Hg|]. split; [rewrite He; reflexivity|]. rewrite Hv. reflexivity.
Defined.
End Demo.
