(* ===== verification/JsonTypes.v ===== *)
(** The JSON forms of the sources' types, field by field: [UserInfo]
    ([passkey-core/src/multi_user/mod.rs]), [Claims] ([auth/jwt.rs]),
    [GrantBundle] ([gitcellar-crypto/src/grant_signing.rs]), [CloudBackupBundle]
    ([cloud_backup.rs]), the broadcast types ([broadcast.rs]),
    [IdentitySuccession] ([identity_succession.rs]), and [S3Config],
    [PackLocation] and [ChunkMetadata] of vault-core.

    With the readers of [Json] they give the codecs the components take.  A
    timestamp prints and parses through [chrono], a parameter. *)

From S2P Require Import Prelude Bytes Utf8 Interfaces Toy Fs BoundedHttp Json Users MultiUser.
From S2P Require Storage Pack Chunking CryptoError Grant CloudBackup Broadcast Succession Jwt.

(** ** passkey-core *)

(** [#[serde(default)]] on the structure: any field may be missing. *)
Definition user_info_tree (u : UserInfo) : json := JObject
  [(b "email", JString (email u)); (b "username", JString (username u));
   (b "machine_id", JString (machine_id u)); (b "user_id", JString (user_id u))].

Definition user_info_of (v : json) : option UserInfo :=
  fs ← as_struct [b "email"; b "username"; b "machine_id"; b "user_id"] 0 v;
  mail ← defaulted as_str [] (b "email") fs;
  name ← defaulted as_str [] (b "username") fs;
  machine ← defaulted as_str [] (b "machine_id") fs;
  user ← defaulted as_str [] (b "user_id") fs;
  Some {| email := mail; username := name; machine_id := machine; user_id := user |}.

Definition claims_tree (c : Jwt.Claims) : json := JObject
  [(b "sub", JString (Jwt.sub c)); (b "email", JString (Jwt.email c));
   (b "iat", JInt (Jwt.iat c)); (b "exp", JInt (Jwt.exp c))].

Definition claims_of (v : json) : option Jwt.Claims :=
  fs ← as_struct [b "sub"; b "email"; b "iat"; b "exp"] 4 v;
  s ← required as_str (b "sub") fs;
  mail ← required as_str (b "email") fs;
  issued ← required as_i64 (b "iat") fs;
  expires ← required as_i64 (b "exp") fs;
  Some {| Jwt.sub := s; Jwt.email := mail; Jwt.iat := issued; Jwt.exp := expires |}.

(** ** Grants *)

Definition delegation_tree (d : Grant.GrantDelegation) : json := JObject
  [(b "repo_uid", JString (Grant.del_repo_uid d));
   (b "delegate_account", JString (Grant.delegate_account d));
   (b "delegate_fingerprint", JString (Grant.delegate_fingerprint d));
   (b "key_version", JInt (Grant.del_key_version d));
   (b "timestamp_unix", JInt (Grant.del_timestamp_unix d));
   (b "expires_at_unix", JInt (Grant.expires_at_unix d));
   (b "delegation_sig_b64", JString (Grant.delegation_sig_b64 d))].

Definition delegation_of (v : json) : option Grant.GrantDelegation :=
  fs ← as_struct [b "repo_uid"; b "delegate_account"; b "delegate_fingerprint"; b "key_version";
                  b "timestamp_unix"; b "expires_at_unix"; b "delegation_sig_b64"] 7 v;
  uid ← required as_str (b "repo_uid") fs;
  account ← required as_str (b "delegate_account") fs;
  fp ← required as_str (b "delegate_fingerprint") fs;
  kv ← required as_u32 (b "key_version") fs;
  issued ← required as_i64 (b "timestamp_unix") fs;
  expires ← required as_i64 (b "expires_at_unix") fs;
  sig ← required as_str (b "delegation_sig_b64") fs;
  Some {| Grant.del_repo_uid := uid; Grant.delegate_account := account;
          Grant.delegate_fingerprint := fp; Grant.del_key_version := kv;
          Grant.del_timestamp_unix := issued; Grant.expires_at_unix := expires;
          Grant.delegation_sig_b64 := sig |}.

Definition grant_bundle_fields (g : Grant.GrantBundle) : list (bytes * json) :=
  [(b "v", JString (Grant.v g)); (b "repo_uid", JString (Grant.b_repo_uid g));
   (b "key_material_b64", JString (Grant.b_key_material_b64 g));
   (b "granter_fingerprint", JString (Grant.b_granter_fingerprint g));
   (b "timestamp_unix", JInt (Grant.b_timestamp_unix g));
   (b "grant_sig_b64", JString (Grant.grant_sig_b64 g))] ++
  unless_none (b "delegation") delegation_tree (Grant.delegation g).

Definition grant_bundle_tree (g : Grant.GrantBundle) : json := JObject (grant_bundle_fields g).

Definition grant_bundle_of (v : json) : option Grant.GrantBundle :=
  fs ← as_struct [b "v"; b "repo_uid"; b "key_material_b64"; b "granter_fingerprint";
                  b "timestamp_unix"; b "grant_sig_b64"; b "delegation"] 6 v;
  version ← required as_str (b "v") fs;
  uid ← defaulted as_str [] (b "repo_uid") fs;
  km ← required as_str (b "key_material_b64") fs;
  fp ← required as_str (b "granter_fingerprint") fs;
  issued ← required as_i64 (b "timestamp_unix") fs;
  sig ← required as_str (b "grant_sig_b64") fs;
  d ← optional delegation_of (b "delegation") fs;
  Some {| Grant.v := version; Grant.b_repo_uid := uid; Grant.b_key_material_b64 := km;
          Grant.b_granter_fingerprint := fp; Grant.b_timestamp_unix := issued;
          Grant.grant_sig_b64 := sig; Grant.delegation := d |}.

(** ** Cloud backups *)

Definition encrypted_fields (p : CloudBackup.EncryptedPayload) : list (bytes * json) :=
  [(b "salt", JString (CloudBackup.salt p)); (b "nonce", JString (CloudBackup.nonce p));
   (b "ciphertext", JString (CloudBackup.ciphertext p))].

Definition encrypted_of_fields (fs : list (bytes * json)) : option CloudBackup.EncryptedPayload :=
  s ← required as_str (b "salt") fs;
  n ← required as_str (b "nonce") fs;
  c ← required as_str (b "ciphertext") fs;
  Some {| CloudBackup.salt := s; CloudBackup.nonce := n; CloudBackup.ciphertext := c |}.

Definition encrypted_tree (p : CloudBackup.EncryptedPayload) : json := JObject (encrypted_fields p).

Definition encrypted_of (v : json) : option CloudBackup.EncryptedPayload :=
  as_struct [b "salt"; b "nonce"; b "ciphertext"] 3 v ≫= encrypted_of_fields.

(** [#[serde(flatten)]]: the payload's fields lie beside the credential's, and the
    structure is an object. *)
Definition passkey_tree (p : CloudBackup.PasskeyPayload) : json :=
  JObject ((b "credential_id", JString (CloudBackup.credential_id p)) ::
           encrypted_fields (CloudBackup.encrypted p)).

Definition passkey_of (v : json) : option CloudBackup.PasskeyPayload :=
  fs ← match v with JObject fs => Some fs | _ => None end;
  cred ← required as_str (b "credential_id") fs;
  enc ← encrypted_of_fields fs;
  Some {| CloudBackup.credential_id := cred; CloudBackup.encrypted := enc |}.

Definition backup_tree (s : CloudBackup.CloudBackupBundle) : json := JObject
  [(b "version", JString (CloudBackup.version s));
   (b "fingerprint", JString (CloudBackup.bundle_fingerprint s));
   (b "user_id", JString (CloudBackup.bundle_user_id s));
   (b "created_at", JString (CloudBackup.created_at s));
   (b "recovery_code", of_option encrypted_tree (CloudBackup.recovery_code s));
   (b "passkey", of_option passkey_tree (CloudBackup.passkey s))].

Definition backup_of (v : json) : option CloudBackup.CloudBackupBundle :=
  fs ← as_struct [b "version"; b "fingerprint"; b "user_id"; b "created_at"; b "recovery_code";
                  b "passkey"] 6 v;
  ver ← required as_str (b "version") fs;
  fp ← required as_str (b "fingerprint") fs;
  user ← required as_str (b "user_id") fs;
  created ← required as_str (b "created_at") fs;
  code ← optional encrypted_of (b "recovery_code") fs;
  pass ← optional passkey_of (b "passkey") fs;
  Some {| CloudBackup.version := ver; CloudBackup.bundle_fingerprint := fp;
          CloudBackup.bundle_user_id := user; CloudBackup.created_at := created;
          CloudBackup.recovery_code := code; CloudBackup.passkey := pass |}.

(** ** Broadcasts *)

(** [chrono]'s [DateTime<Utc>] as RFC 3339 text. *)
Class ChronoOps : Type := { rfc3339 : Z -> bytes; parse_rfc3339 : bytes -> option Z }.

Class ChronoLaws `{ChronoOps} : Prop := { parse_rfc3339_print t : parse_rfc3339 (rfc3339 t) = Some t }.

(** [rename_all = "snake_case"] *)
Definition tier_name (t : Broadcast.BroadcastTier) : bytes :=
  match t with
  | Broadcast.Incident => b "incident"
  | Broadcast.Warning => b "warning"
  | Broadcast.Announcement => b "announcement"
  end.
Definition tiers : list Broadcast.BroadcastTier :=
  [Broadcast.Incident; Broadcast.Warning; Broadcast.Announcement].

Definition manifest_states : list Broadcast.ManifestState := [Broadcast.Active; Broadcast.Clear].

Definition strings_tree (l : list bytes) : json := JArray (map JString l).

Definition targeting_tree (t : Broadcast.BroadcastTargeting) : json := JObject
  (unless_none (b "min_version") JString (Broadcast.min_version t) ++
   unless_none (b "platform") strings_tree (Broadcast.platform t) ++
   unless_none (b "plan_type") strings_tree (Broadcast.plan_type t) ++
   unless_none (b "email_verified") JBool (Broadcast.email_verified t)).

Definition targeting_of (v : json) : option Broadcast.BroadcastTargeting :=
  fs ← as_struct [b "min_version"; b "platform"; b "plan_type"; b "email_verified"] 4 v;
  ver ← optional as_str (b "min_version") fs;
  plat ← optional (as_list as_str) (b "platform") fs;
  plan ← optional (as_list as_str) (b "plan_type") fs;
  verified ← optional as_bool (b "email_verified") fs;
  Some {| Broadcast.min_version := ver; Broadcast.platform := plat; Broadcast.plan_type := plan;
          Broadcast.email_verified := verified |}.

Section Broadcasts.
  Context `{ChronoOps}.

Definition as_datetime (v : json) : option Z := s ← as_str v; parse_rfc3339 s.
Definition datetime_tree (t : Z) : json := JString (rfc3339 t).

Definition payload_tree (p : Broadcast.BroadcastPayload) : json := JObject
  ([(b "v", JInt (Broadcast.v p)); (b "id", JString (Broadcast.id p));
    (b "tier", JString (tier_name (Broadcast.tier p))); (b "title", JString (Broadcast.title p));
    (b "body", JString (Broadcast.body p))] ++
   unless_none (b "action_url") JString (Broadcast.action_url p) ++
   [(b "issued_at", datetime_tree (Broadcast.issued_at p))] ++
   unless_none (b "expires_at") datetime_tree (Broadcast.expires_at p) ++
   [(b "seq", JInt (Broadcast.seq p));
    (b "signer_fingerprint", JString (Broadcast.signer_fingerprint p))] ++
   unless_none (b "targeting") targeting_tree (Broadcast.targeting p)).

Definition payload_of (v : json) : option Broadcast.BroadcastPayload :=
  fs ← as_struct [b "v"; b "id"; b "tier"; b "title"; b "body"; b "action_url"; b "issued_at";
                  b "expires_at"; b "seq"; b "signer_fingerprint"; b "targeting"] 11 v;
  version ← required as_u32 (b "v") fs;
  ident ← required as_str (b "id") fs;
  t ← required (as_variant tier_name tiers) (b "tier") fs;
  ttl ← required as_str (b "title") fs;
  bdy ← required as_str (b "body") fs;
  url ← optional as_str (b "action_url") fs;
  issued ← required as_datetime (b "issued_at") fs;
  expires ← optional as_datetime (b "expires_at") fs;
  sq ← required as_i64 (b "seq") fs;
  fp ← required as_str (b "signer_fingerprint") fs;
  tg ← optional targeting_of (b "targeting") fs;
  Some {| Broadcast.v := version; Broadcast.id := ident; Broadcast.tier := t; Broadcast.title := ttl;
          Broadcast.body := bdy; Broadcast.action_url := url; Broadcast.issued_at := issued;
          Broadcast.expires_at := expires; Broadcast.seq := sq;
          Broadcast.signer_fingerprint := fp; Broadcast.targeting := tg |}.

Definition manifest_tree (m : Broadcast.IncidentManifest) : json := JObject
  [(b "manifest_v", JInt (Broadcast.manifest_v m));
   (b "state", JString (Broadcast.as_str (Broadcast.state m))); (b "seq", JInt (Broadcast.m_seq m));
   (b "payload", JString (Broadcast.payload m)); (b "signature", JString (Broadcast.signature m));
   (b "signer_fingerprint", JString (Broadcast.m_signer_fingerprint m));
   (b "issued_at", datetime_tree (Broadcast.m_issued_at m))].

Definition manifest_of (v : json) : option Broadcast.IncidentManifest :=
  fs ← as_struct [b "manifest_v"; b "state"; b "seq"; b "payload"; b "signature";
                  b "signer_fingerprint"; b "issued_at"] 7 v;
  version ← required as_u32 (b "manifest_v") fs;
  st ← required (as_variant Broadcast.as_str manifest_states) (b "state") fs;
  sq ← required as_i64 (b "seq") fs;
  pl ← required as_str (b "payload") fs;
  sig ← required as_str (b "signature") fs;
  fp ← required as_str (b "signer_fingerprint") fs;
  issued ← required as_datetime (b "issued_at") fs;
  Some {| Broadcast.manifest_v := version; Broadcast.state := st; Broadcast.m_seq := sq;
          Broadcast.payload := pl; Broadcast.signature := sig;
          Broadcast.m_signer_fingerprint := fp; Broadcast.m_issued_at := issued |}.
End Broadcasts.

(** ** Successions *)

Definition succession_tree (s : Succession.IdentitySuccession) : json := JObject
  [(b "account", JString (Succession.account s));
   (b "old_fingerprint", JString (Succession.old_fingerprint s));
   (b "new_fingerprint", JString (Succession.new_fingerprint s));
   (b "new_key_version", JInt (Succession.new_key_version s));
   (b "issued_at_unix", JInt (Succession.issued_at_unix s))].

Definition succession_of (v : json) : option Succession.IdentitySuccession :=
  fs ← as_struct [b "account"; b "old_fingerprint"; b "new_fingerprint"; b "new_key_version";
                  b "issued_at_unix"] 5 v;
  acc ← required as_str (b "account") fs;
  old ← required as_str (b "old_fingerprint") fs;
  nw ← required as_str (b "new_fingerprint") fs;
  kv ← required as_u32 (b "new_key_version") fs;
  issued ← required as_i64 (b "issued_at_unix") fs;
  Some {| Succession.account := acc; Succession.old_fingerprint := old;
          Succession.new_fingerprint := nw; Succession.new_key_version := kv;
          Succession.issued_at_unix := issued |}.

(** ** vault-core *)

Definition s3_config_tree (c : Storage.S3.S3Config) : json := JObject
  [(b "endpoint", JString (Storage.S3.endpoint c)); (b "bucket", JString (Storage.S3.bucket c));
   (b "access_key_id", JString (Storage.S3.access_key_id c));
   (b "secret_access_key", JString (Storage.S3.secret_access_key c));
   (b "region", JString (Storage.S3.region c)); (b "prefix", of_option JString (Storage.S3.prefix c));
   (b "max_object_bytes", JInt (Storage.S3.max_object_bytes c))].

(** [default = "default_max_object_bytes"] *)
Definition s3_config_of (v : json) : option Storage.S3.S3Config :=
  fs ← as_struct [b "endpoint"; b "bucket"; b "access_key_id"; b "secret_access_key"; b "region";
                  b "prefix"; b "max_object_bytes"] 6 v;
  ep ← required as_str (b "endpoint") fs;
  bk ← required as_str (b "bucket") fs;
  key ← required as_str (b "access_key_id") fs;
  secret ← required as_str (b "secret_access_key") fs;
  rg ← required as_str (b "region") fs;
  pre ← optional as_str (b "prefix") fs;
  ceiling ← defaulted as_u64 DEFAULT_MAX_OBJECT_BYTES (b "max_object_bytes") fs;
  Some {| Storage.S3.endpoint := ep; Storage.S3.bucket := bk; Storage.S3.access_key_id := key;
          Storage.S3.secret_access_key := secret; Storage.S3.region := rg;
          Storage.S3.prefix := pre; Storage.S3.max_object_bytes := ceiling |}.

Definition pack_location_tree (l : Pack.PackLocation) : json := JObject
  [(b "pack_id", JString (Pack.pack_id l)); (b "offset", JInt (Pack.offset l));
   (b "length", JInt (Pack.loc_length l))].

Definition pack_location_of (v : json) : option Pack.PackLocation :=
  fs ← as_struct [b "pack_id"; b "offset"; b "length"] 3 v;
  ident ← required as_str (b "pack_id") fs;
  off ← required as_u64 (b "offset") fs;
  len ← required as_u32 (b "length") fs;
  Some {| Pack.pack_id := ident; Pack.offset := off; Pack.loc_length := len |}.

Definition chunk_metadata_tree (m : Chunking.ChunkMetadata) : json := JObject
  [(b "hash", JString (Chunking.m_hash m)); (b "size", JInt (Chunking.m_size m));
   (b "offset", JInt (Chunking.m_offset m))].

Definition chunk_metadata_of (v : json) : option Chunking.ChunkMetadata :=
  fs ← as_struct [b "hash"; b "size"; b "offset"] 3 v;
  h ← required as_str (b "hash") fs;
  sz ← required as_u64 (b "size") fs;
  off ← required as_u64 (b "offset") fs;
  Some {| Chunking.m_hash := h; Chunking.m_size := sz; Chunking.m_offset := off |}.

(** ** Lemmas *)

(** Text-only types read back whatever they hold. *)
Lemma user_info_back u : user_info_of (user_info_tree u) = Some u.
Proof. by destruct u. Qed.

Lemma encrypted_back p : encrypted_of (encrypted_tree p) = Some p.
Proof. by destruct p. Qed.

Lemma passkey_back p : passkey_of (passkey_tree p) = Some p.
Proof. by destruct p as [c []]. Qed.

Lemma backup_back s : backup_of (backup_tree s) = Some s.
Proof. by destruct s as [? ? ? ? [[]|] [[? []]|]]. Qed.

Lemma backup_plain s : json_plain (backup_tree s) = true.
Proof. by destruct s as [? ? ? ? [[]|] [[? []]|]]. Qed.

(** The others within the ranges of their integers. *)
Lemma claims_back c :
  is_i64 (Jwt.iat c) -> is_i64 (Jwt.exp c) ->
  claims_of (claims_tree c) = Some c /\ json_plain (claims_tree c) = true.
Proof.
  intros Hi He. split; [|json_plain]. unfold claims_of, claims_tree. json_back. by destruct c.
Qed.

Record delegation_typed (d : Grant.GrantDelegation) : Prop := {
  gd_version : is_u32 (Grant.del_key_version d);
  gd_issued : is_i64 (Grant.del_timestamp_unix d);
  gd_expires : is_i64 (Grant.expires_at_unix d);
}.

Record grant_typed (g : Grant.GrantBundle) : Prop := {
  gt_issued : is_i64 (Grant.b_timestamp_unix g);
  gt_delegation d : Grant.delegation g = Some d -> delegation_typed d;
}.

Lemma delegation_back d : delegation_typed d -> delegation_of (delegation_tree d) = Some d.
Proof.
  intros []. unfold delegation_of, delegation_tree. json_back. by destruct d.
Qed.

Lemma grant_bundle_back g :
  grant_typed g -> grant_bundle_of (grant_bundle_tree g) = Some g /\ json_plain (grant_bundle_tree g) = true.
Proof.
  intros [Hi Hd]. unfold grant_bundle_of, grant_bundle_tree, grant_bundle_fields.
  destruct (Grant.delegation g) as [d|] eqn:Ed; cbn [unless_none app].
  - specialize (Hd d eq_refl). split.
    + json_back. change (as_option delegation_of (delegation_tree d)) with (Some <$> delegation_of (delegation_tree d)).
      rewrite delegation_back by done. cbn. rewrite <- Ed. by destruct g.
    + destruct Hd. json_plain.
  - split; [|json_plain]. json_back. rewrite <- Ed. by destruct g.
Qed.

Lemma succession_back s :
  is_u32 (Succession.new_key_version s) -> is_i64 (Succession.issued_at_unix s) ->
  succession_of (succession_tree s) = Some s /\ json_plain (succession_tree s) = true.
Proof.
  intros Hk Hi. split; [|json_plain]. unfold succession_of, succession_tree. json_back. by destruct s.
Qed.

Lemma s3_config_back c :
  is_u64 (Storage.S3.max_object_bytes c) ->
  s3_config_of (s3_config_tree c) = Some c /\ json_plain (s3_config_tree c) = true.
Proof.
  intros Hm. unfold s3_config_of, s3_config_tree. destruct (Storage.S3.prefix c) as [p|] eqn:Ep;
    cbn [of_option]; (split; [|json_plain]); json_back; rewrite <- Ep; by destruct c.
Qed.

Lemma pack_location_back l :
  is_u64 (Pack.offset l) -> is_u32 (Pack.loc_length l) ->
  pack_location_of (pack_location_tree l) = Some l /\ json_plain (pack_location_tree l) = true.
Proof.
  intros Ho Hl. split; [|json_plain]. unfold pack_location_of, pack_location_tree. json_back.
  by destruct l.
Qed.

Lemma chunk_metadata_back m :
  is_u64 (Chunking.m_size m) -> is_u64 (Chunking.m_offset m) ->
  chunk_metadata_of (chunk_metadata_tree m) = Some m /\ json_plain (chunk_metadata_tree m) = true.
Proof.
  intros Hs Ho. split; [|json_plain]. unfold chunk_metadata_of, chunk_metadata_tree. json_back.
  by destruct m.
Qed.

Lemma strings_back l : as_option (as_list as_str) (strings_tree l) = Some (Some l).
Proof. cbn. by rewrite (all_read_back JString). Qed.

Lemma strings_plain l : json_plain (strings_tree l) = true.
Proof. cbn. induction l; done. Qed.

Lemma targeting_back t : targeting_of (targeting_tree t) = Some t.
Proof.
  unfold targeting_of, targeting_tree.
  destruct t as [[?|] [?|] [?|] [?|]]; cbn [Broadcast.min_version Broadcast.platform
    Broadcast.plan_type Broadcast.email_verified unless_none app]; json_back;
    rewrite ?strings_back; reflexivity.
Qed.

Lemma targeting_plain t : json_plain (targeting_tree t) = true.
Proof.
  destruct t as [[?|] [?|] [?|] [?|]]; cbn; rewrite ?andb_true_r;
    repeat (apply andb_true_intro; split); try done; apply strings_plain.
Qed.

Section Chrono.
  Context `{ChronoLaws}.

Lemma datetime_back t : as_datetime (datetime_tree t) = Some t.
Proof. apply parse_rfc3339_print. Qed.

Lemma datetime_option t : as_option as_datetime (datetime_tree t) = Some (Some t).
Proof. cbn -[as_datetime]. by rewrite datetime_back. Qed.

Lemma targeting_option t : as_option targeting_of (targeting_tree t) = Some (Some t).
Proof.
  change (as_option targeting_of (targeting_tree t)) with (Some <$> targeting_of (targeting_tree t)).
  by rewrite targeting_back.
Qed.

Lemma tier_back t : as_variant tier_name tiers (JString (tier_name t)) = Some t.
Proof. by destruct t. Qed.

Lemma state_back st :
  as_variant Broadcast.as_str manifest_states (JString (Broadcast.as_str st)) = Some st.
Proof. by destruct st. Qed.

Lemma payload_back p :
  is_u32 (Broadcast.v p) -> is_i64 (Broadcast.seq p) ->
  payload_of (payload_tree p) = Some p /\ json_plain (payload_tree p) = true.
Proof.
  intros Hv Hq. destruct p as [v id t title body url issued expires sq fp tg]. cbn in Hv, Hq.
  unfold payload_of, payload_tree. cbn [Broadcast.v Broadcast.id Broadcast.tier Broadcast.title
    Broadcast.body Broadcast.action_url Broadcast.issued_at Broadcast.expires_at Broadcast.seq
    Broadcast.signer_fingerprint Broadcast.targeting].
  destruct url, expires, tg as [tg|]; cbn [unless_none app];
    (split; [json_back; rewrite ?tier_back, ?datetime_back, ?datetime_option, ?targeting_option; reflexivity
            |pose proof targeting_plain as Ht; cbn -[targeting_tree]; rewrite ?Ht, ?json_int_typed by auto; done]).
Qed.

Lemma manifest_back m :
  is_u32 (Broadcast.manifest_v m) -> is_i64 (Broadcast.m_seq m) ->
  manifest_of (manifest_tree m) = Some m /\ json_plain (manifest_tree m) = true.
Proof.
  intros Hv Hq. split; [|json_plain]. unfold manifest_of, manifest_tree. json_back.
  rewrite state_back, datetime_back. cbn [mbind option_bind]. by destruct m.
Qed.
End Chrono.

(** ** Codecs *)

Section Codecs.
  Context `{JsonOps}.

Definition user_info_codec : Codec UserInfo :=
  json_codec json_to_string_pretty user_info_tree user_info_of.
Definition backup_codec : Codec CloudBackup.CloudBackupBundle :=
  json_codec json_to_string_pretty backup_tree backup_of.
Definition grant_codec : Codec Grant.GrantBundle :=
  json_codec json_to_string grant_bundle_tree grant_bundle_of.
Definition payload_codec `{ChronoOps} : Codec Broadcast.BroadcastPayload :=
  json_codec json_to_string payload_tree payload_of.
End Codecs.

Lemma user_info_codec_laws `{JsonLaws} : @CodecLaws UserInfo user_info_codec.
Proof. apply json_codec_laws; [by right|done|apply user_info_back]. Qed.

Lemma backup_codec_laws `{JsonLaws} : @CodecLaws CloudBackup.CloudBackupBundle backup_codec.
Proof. apply json_codec_laws; [by right|apply backup_plain|apply backup_back]. Qed.

(** ** Properties *)

(** A text field that is there as text, or missing and empty. *)
Definition text_or_empty (fields : list (bytes * json)) (name value : bytes) : Prop :=
  lookup_field name fields = Some (Some (JString value)) \/
  (lookup_field name fields = Some None /\ value = []).

Lemma defaulted_text fields name value :
  defaulted as_str [] name fields = Some value <-> text_or_empty fields name value.
Proof.
  unfold defaulted, text_or_empty. destruct (lookup_field name fields) as [[v|]|]; cbn.
  - destruct v; cbn; split; (try done); (try by intros [[=]|[[=] _]]).
    + intros [= ->]. by left.
    + by intros [[= ->]|[[=] _]].
  - split; [intros [= <-]; by right|]. by intros [[=]|[_ ->]].
  - split; [done|]. by intros [[=]|[[=] _]].
Qed.

Section UserInfo.
  Context `{NoLinks} `{JsonLaws}.

#[local] Existing Instance user_info_codec.

(** C31: A user's details survive being saved, and an upgrade.  What
    [save_user_info] stored, [get_user_info] returns; and from the file of any
    build it returns details exactly when every field it knows is text or
    missing: a missing field is empty, a field it does not know is passed over,
    and a field of another type or given twice makes the whole file unreadable. *)
Theorem user_info_upgrade c f name :
  (forall info f', save_user_info c f name info = (Ok tt, f') -> get_user_info c f' name = Some info) /\
  (forall d s fields info, checked_user_dir c f name = Ok d ->
     fs_read f (d ++ [b "user_info.json"]) = Ok s -> valid_utf8 s = true ->
     json_parse s = Some (JObject fields) ->
     get_user_info c f name = Some info <->
     text_or_empty fields (b "email") (email info) /\
     text_or_empty fields (b "username") (username info) /\
     text_or_empty fields (b "machine_id") (machine_id info) /\
     text_or_empty fields (b "user_id") (user_id info)).
Proof.
  split.
  - intros info f' E. unfold save_user_info in E.
    destruct (checked_user_dir c f name) as [d|] eqn:Ed; [|done].
    apply io_then_ok in E as [(f1 & _ & E)|(e & _ & [=] & _)].
    cbn [ser user_info_codec json_codec] in E.
    apply io_then_ok in E as [(f2 & E2 & [= <-])|(e & _ & [=] & _)].
    assert (Ed' : checked_user_dir c f2 name = Ok d).
    { apply checked_user_dir_iff in Ed as (Hv & -> & _). apply checked_user_dir_iff.
      split; [done|]. split; [done|]. intros base real. rewrite !canonicalize_plain.
      destruct (exists_ f2 (users_dir c)); [|done]. destruct (exists_ f2 _); [|done].
      intros [= <-] [= <-]. apply parent_snoc. }
    assert (Hr : fs_read f2 (d ++ [b "user_info.json"]) = Ok (json_to_string_pretty (user_info_tree info)))
      by (rewrite (fs_read_write _ _ _ _ _ E2); by rewrite decide_True).
    unfold get_user_info, read_to_string. rewrite Ed', (exists_read _ _ _ Hr), Hr. cbn [negb rbind].
    unfold from_utf8. destruct (json_pretty_braces [(b "email", JString (email info));
      (b "username", JString (username info)); (b "machine_id", JString (machine_id info));
      (b "user_id", JString (user_id info))]) as (m & Em & Hm).
    fold (user_info_tree info) in Em.
    assert (Hu : valid_utf8 (json_to_string_pretty (user_info_tree info)) = true).
    { rewrite Em. by repeat (apply valid_utf8_app; [reflexivity || done|]). }
    rewrite Hu. cbn [ok_or]. cbn [de user_info_codec json_codec].
    rewrite json_parse_pretty by done. apply user_info_back.
  - intros d s fields info Ed Hr Hu Hp. unfold get_user_info, read_to_string.
    rewrite Ed, (exists_read _ _ _ Hr), Hr. cbn [negb rbind]. unfold from_utf8. rewrite Hu.
    cbn [ok_or de user_info_codec json_codec]. rewrite Hp. cbn [mbind option_bind].
    unfold user_info_of. cbn [as_struct mbind option_bind]. rewrite <- !defaulted_text. split.
    + intros E. repeat (apply bind_Some in E as (? & -> & E)). by injection E as <-.
    + intros (-> & -> & -> & ->). cbn. by destruct info.
Qed.
End UserInfo.

(** The keys of a bundle's document. *)
Definition grant_keys (g : Grant.GrantBundle) : list bytes :=
  [b "v"; b "repo_uid"; b "key_material_b64"; b "granter_fingerprint"; b "timestamp_unix";
   b "grant_sig_b64"] ++
  match Grant.delegation g with Some _ => [b "delegation"] | None => [] end.

Lemma required_int lo hi name fs z :
  required (as_int lo hi) name fs = Some z -> lo <= z < hi.
Proof. unfold required. intros (o & _ & (v & _ & [_ E]%as_int_Some)%bind_Some)%bind_Some. done. Qed.

Lemma delegation_of_typed v d : delegation_of v = Some d -> delegation_typed d.
Proof.
  unfold delegation_of. intros E. repeat (apply bind_Some in E as (? & ? & E)). injection E as <-.
  split; cbn; by eapply required_int.
Qed.

Lemma optional_Some {A} (read : json -> option A) name fs a :
  optional read name fs = Some (Some a) -> exists v, read v = Some a.
Proof.
  unfold optional. intros ([v|] & _ & E)%bind_Some; [|done]. exists v.
  destruct v; cbn in E; first [done | by apply fmap_Some in E as (? & E & [= <-])].
Qed.

Lemma grant_bundle_of_typed v g : grant_bundle_of v = Some g -> grant_typed g.
Proof.
  unfold grant_bundle_of. intros E. repeat (apply bind_Some in E as (? & ? & E)). injection E as <-.
  split; cbn; [by eapply required_int|]. intros d ->.
  match goal with Ho : optional delegation_of _ _ = _ |- _ => apply optional_Some in Ho as [? Ho] end.
  by eapply delegation_of_typed.
Qed.

Lemma grant_bundle_keys g : map fst (grant_bundle_fields g) = grant_keys g.
Proof. unfold grant_bundle_fields, grant_keys. by destruct (Grant.delegation g). Qed.

Section GrantWire.
  Context `{UnicodeOps} `{JsonLaws}.

#[local] Existing Instance grant_codec.

(** A bundle of this version that names a repository. *)
Definition grant_accepted (g : Grant.GrantBundle) : Prop :=
  Grant.v g = Grant.GRANT_CANONICAL_VERSION /\ trim (Grant.b_repo_uid g) <> [].

(** C28: A grant bundle travels as JSON and is typed on arrival.  Its document
    has the six fields of a bundle in order, and a delegation only for a
    delegated grant.  What was written is read back when it carries this version
    and names a repository.  Whatever is read has its integers in the range of
    their types, carries the version and names a repository; a document that is
    no bundle is refused as such, one of another version for its version
    (whether or not it names a repository), one without a repository for that. *)
Theorem grant_bundle_wire :
  (forall g, grant_typed g ->
     exists s fields, Grant.to_json g = Ok s /\ json_parse s = Some (JObject fields) /\
       map fst fields = grant_keys g /\ (grant_accepted g -> Grant.from_json s = Ok g)) /\
  (forall s g, Grant.from_json s = Ok g -> grant_typed g /\ grant_accepted g) /\
  (forall s, match json_parse s ≫= grant_bundle_of with
             | None => exists m, Grant.from_json s = Err (CryptoError.Decryption m) /\
                         String.prefix "grant payload is not a gc-grant bundle" m = true
             | Some g =>
                 (Grant.v g <> Grant.GRANT_CANONICAL_VERSION ->
                  Grant.from_json s =
                    Err (CryptoError.Decryption "unsupported grant bundle version {:?} (expected {:?})")) /\
                 (Grant.v g = Grant.GRANT_CANONICAL_VERSION -> trim (Grant.b_repo_uid g) = [] ->
                  Grant.from_json s =
                    Err (CryptoError.Decryption "grant bundle names no repo_uid; a gc-grant-v2 grant always binds one"))
             end).
Proof.
  unfold Grant.to_json, Grant.from_json, grant_accepted. cbn [ser de grant_codec json_codec ok_or].
  split; [|split].
  - intros g Hg. destruct (grant_bundle_back g Hg) as [Hr Hp]. eexists _, _. split; [done|].
    rewrite json_parse_print by done. split; [done|]. split; [apply grant_bundle_keys|].
    intros [Hv Hu]. cbn [mbind option_bind]. rewrite Hr. cbn [ok_or rbind].
    by rewrite bool_decide_true, bool_decide_false.
  - intros s g E. destruct (json_parse s) as [t|]; [|done]. cbn [mbind option_bind] in E.
    destruct (grant_bundle_of t) as [g'|] eqn:Eg; [|done]. cbn [ok_or rbind] in E.
    case_bool_decide as Hv; [|done]. case_bool_decide as Hu; [done|]. injection E as ->.
    split; [by eapply grant_bundle_of_typed|done].
  - intros s. destruct (json_parse s ≫= grant_bundle_of) as [g|]; cbn [ok_or rbind].
    + split; [intros Hv; by rewrite bool_decide_false|].
      intros Hv Hu. by rewrite !bool_decide_true.
    + by eexists.
Qed.
End GrantWire.

(** ** Witnesses *)

#[local] Existing Instance toy_json.
#[local] Existing Instance toy_json_laws.

(** The file of a build that knew fewer fields, and one this build does not know. *)
Definition demo_old_fields : list (bytes * json) :=
  [(b "email", JString (b "alice@example.org")); (b "theme", JNull)].

Definition demo_old_fs : fs :=
  <[demo_users ++ [b "alice"; b "user_info.json"] := File (toy_print (JObject demo_old_fields))]> demo_fs.

Lemma user_info_upgrade_witness :
  get_user_info (H0 := user_info_codec) gitcellar demo_old_fs (b "alice") =
    Some {| email := b "alice@example.org"; username := []; machine_id := []; user_id := [] |}.
Proof.
  apply (proj2 (user_info_upgrade gitcellar demo_old_fs (b "alice"))
    (demo_users ++ [b "alice"]) (toy_print (JObject demo_old_fields)) demo_old_fields).
  - vm_compute. reflexivity.
  - vm_compute. reflexivity.
  - vm_compute. reflexivity.
  - exact (toy_parse_print (JObject demo_old_fields)).
  - unfold text_or_empty. cbn. auto 10.
Defined.

Definition demo_delegated : Grant.GrantBundle := {|
  Grant.v := Grant.GRANT_CANONICAL_VERSION; Grant.b_repo_uid := b "repo";
  Grant.b_key_material_b64 := b "a2V5"; Grant.b_granter_fingerprint := b "AB";
  Grant.b_timestamp_unix := 1700000000; Grant.grant_sig_b64 := b "c2ln";
  Grant.delegation := Some {|
    Grant.del_repo_uid := b "repo"; Grant.delegate_account := b "bob";
    Grant.delegate_fingerprint := b "CD"; Grant.del_key_version := 3;
    Grant.del_timestamp_unix := 1690000000; Grant.expires_at_unix := 1800000000;
    Grant.delegation_sig_b64 := b "c2ln" |} |}.

Lemma grant_bundle_wire_witness :
  exists s, Grant.to_json (H2 := grant_codec) demo_delegated = Ok s /\
    Grant.from_json (H2 := grant_codec) s = Ok demo_delegated.
Proof.
  assert (Ht : grant_typed demo_delegated).
  { split; [by split|]. intros d [= <-]. by repeat split. }
  destruct (proj1 grant_bundle_wire demo_delegated Ht) as (s & fields & Es & _ & _ & Hs).
  exists s. split; [exact Es|]. apply Hs. split; [reflexivity|]. vm_compute. discriminate.
Defined.
