(* ===== verification/Ffi.v ===== *)
(** [vault-core/src/ffi.rs]: the C interface, over an explicit heap.

    A call runs on the heap of the library's allocations, the last error of
    each thread and the random generator.  An allocation is one block: the box
    of a buffer, the bytes of a vector, a string, an engine, an array of a chunk
    list.  (A vector without capacity owns no memory; its block is kept as
    bookkeeping.)  Using a pointer the library did not hand out, or handed back
    already, is undefined behaviour, a fourth outcome beside returning,
    panicking and looping. *)

From S2P Require Import Prelude Bytes Interfaces Toy VaultError Chunking ChunkFormat VaultEncryption.

Local Open Scope gc_scope.

Definition addr : Type := positive.
(** A pointer to a library object; [None] is NULL. *)
Definition ptr : Type := option addr.

(** A pointer to bytes the caller passes: NULL, the caller's own memory, or the
    [data] of a buffer. *)
Inductive data_ptr : Type :=
  | CNull
  | CHost (bs : bytes)
  | CData (a : addr).

Record VaultChunkInfo : Type := { i_hash : ptr; i_size : Z; i_offset : Z }.

Inductive block : Type :=
  | BBytes (bs : bytes)                                (* a vector's storage *)
  | BBuffer (data : addr) (len : Z)                    (* [VaultBuffer] *)
  | BString (s : bytes)                                (* [CString] *)
  | BAes (e : AesEncryptionEngine.t)                   (* [VaultAesEngine] *)
  | BChunker (e : ChunkEngine.t)                       (* [VaultChunkEngine] *)
  | BInfos (l : list VaultChunkInfo)
  | BPtrs (l : list ptr)
  | BList (chunks : addr) (count : Z) (data : addr).   (* [VaultChunkList] *)

Record state (R : Type) : Type := {
  heap : gmap addr block;
  errors : gmap Z string;      (* [LAST_ERROR], by thread *)
  rng : R;
}.
Arguments heap {R} _.
Arguments errors {R} _.
Arguments rng {R} _.

Inductive outcome (A : Type) : Type :=
  | Returns (x : A)
  | Aborts (why : string)
  | Hangs
  | Undefined.
Arguments Returns {A} _.
Arguments Aborts {A} _.
Arguments Hangs {A}.
Arguments Undefined {A}.

Definition ffi (R A : Type) : Type := state R -> outcome (A * state R).

#[export] Instance ffi_ret {R} : MRet (ffi R) := fun _ x s => Returns (x, s).
#[export] Instance ffi_bind {R} : MBind (ffi R) := fun _ _ k m s =>
  match m s with
  | Returns (x, s) => k x s
  | Aborts w => Aborts w
  | Hangs => Hangs
  | Undefined => Undefined
  end.

(** ** Memory and errors *)

Section Primitives.
  Context {R : Type}.
  Abbreviation ffi := (ffi R).

Definition with_heap (h : gmap addr block) (s : state R) : state R :=
  {| heap := h; errors := errors s; rng := rng s |}.
Definition with_errors (e : gmap Z string) (s : state R) : state R :=
  {| heap := heap s; errors := e; rng := rng s |}.

Definition undefined {A} : ffi A := fun _ => Undefined.

Definition of_run {A} (m : run A) : ffi A := fun s =>
  match m with Done x => Returns (x, s) | Panic w => Aborts w | OutOfFuel => Hangs end.

(** A fresh allocation. *)
Definition alloc (x : block) : ffi addr := fun s =>
  let a := fresh (dom (heap s)) in Returns (a, with_heap (<[a := x]> (heap s)) s).

(** Taking back an allocation ([Box::from_raw], [Vec::from_raw_parts]) frees it. *)
Definition take_back (a : addr) : ffi block := fun s =>
  match heap s !! a with
  | Some x => Returns (x, with_heap (delete a (heap s)) s)
  | None => Undefined
  end.

Definition load (a : addr) : ffi block := fun s =>
  match heap s !! a with Some x => Returns (x, s) | None => Undefined end.

(** Drawing random bytes. *)
Definition draw {A} (f : R -> A * R) : ffi A := fun s =>
  let '(x, r) := f (rng s) in Returns (x, {| heap := heap s; errors := errors s; rng := r |}).

(** [slice::from_raw_parts] on a non-null pointer. *)
Definition from_raw_parts (p : data_ptr) (len : Z) : ffi bytes :=
  match p with
  | CNull => undefined
  | CHost bs => if (0 <=? len) && (len <=? Zlen bs) then mret (take (Z.to_nat len) bs) else undefined
  | CData a =>
      x ← load a;
      match x with
      | BBytes bs => if (0 <=? len) && (len <=? Zlen bs) then mret (take (Z.to_nat len) bs) else undefined
      | _ => undefined
      end
  end.

Definition is_null (p : data_ptr) : bool := match p with CNull => true | _ => false end.

(** [VaultBuffer::from_vec] *)
Definition from_vec (v : bytes) : ffi ptr :=
  d ← alloc (BBytes v); a ← alloc (BBuffer d (Zlen v)); mret (Some a).

(** [VaultBuffer::into_vec] *)
Definition into_vec (p : ptr) : ffi bytes :=
  match p with
  | None => mret []
  | Some a =>
      x ← take_back a;
      match x with
      | BBuffer d len =>
          v ← take_back d;
          match v with
          | BBytes bs => if len <=? Zlen bs then mret (take (Z.to_nat len) bs) else undefined
          | _ => undefined
          end
      | _ => undefined
      end
  end.

(** [CString::new(s).unwrap().into_raw()] *)
Definition string_into_raw (s : bytes) : ffi ptr :=
  if bool_decide (NUL ∈ s) then of_run (Panic "called `Result::unwrap()` on an `Err` value")
  else a ← alloc (BString s); mret (Some a).

(** [CString::from_raw] *)
Definition string_from_raw (a : addr) : ffi unit :=
  x ← take_back a; match x with BString _ => mret tt | _ => undefined end.
End Primitives.

(** ** The exported functions, called on thread [tid] *)

Section Exports.
  Context {R : Type} `{HashOps, HexOps, AeadOps, Argon2Ops, RngOps R}.
  Variable tid : Z.
  Abbreviation ffi := (ffi R).

Definition set_last_error (msg : string) : ffi unit := fun s =>
  Returns (tt, with_errors (<[tid := msg]> (errors s)) s).

Definition clear_last_error : ffi unit := fun s =>
  Returns (tt, with_errors (delete tid (errors s)) s).

(** [set_last_error(..); return ptr::null_mut();] *)
Definition fail_with (msg : string) : ffi ptr := _ ← set_last_error msg; mret None.

Definition vault_buffer_free (buffer : ptr) : ffi unit :=
  match buffer with
  | Some _ => _ ← into_vec buffer; mret tt
  | None => mret tt
  end.

Definition vault_last_error : ffi ptr := fun s =>
  match errors s !! tid with
  | Some msg =>
      if bool_decide (NUL ∈ b msg) then Returns (None, s)
      else (a ← alloc (BString (b msg)); mret (Some a)) s
  | None => Returns (None, s)
  end.

Definition vault_error_free (error : ptr) : ffi unit :=
  match error with Some a => string_from_raw a | None => mret tt end.

Definition vault_aes_generate_key : ffi ptr :=
  _ ← clear_last_error; key ← draw AesEncryptionEngine.generate_key; from_vec key.

Definition vault_aes_generate_salt : ffi ptr :=
  _ ← clear_last_error; salt ← draw AesEncryptionEngine.generate_salt; from_vec salt.

Definition vault_aes_derive_key (passphrase : data_ptr) (passphrase_len : Z) (salt : data_ptr)
    (salt_len : Z) : ffi ptr :=
  _ ← clear_last_error;
  if is_null passphrase || is_null salt then fail_with "Null pointer argument"
  else
    passphrase_slice ← from_raw_parts passphrase passphrase_len;
    salt_slice ← from_raw_parts salt salt_len;
    match AesEncryptionEngine.derive_key passphrase_slice salt_slice with
    | Ok key => from_vec key
    | Err e => fail_with (to_string e)
    end.

Definition vault_aes_create (key : data_ptr) (key_len : Z) : ffi ptr :=
  _ ← clear_last_error;
  if is_null key then fail_with "Null key pointer"
  else
    key_slice ← from_raw_parts key key_len;
    match AesEncryptionEngine.new key_slice with
    | Ok engine => a ← alloc (BAes engine); mret (Some a)
    | Err e => fail_with (to_string e)
    end.

Definition vault_aes_free (engine : ptr) : ffi unit :=
  match engine with
  | Some a => x ← take_back a; match x with BAes _ => mret tt | _ => undefined end
  | None => mret tt
  end.

(** [&*engine] *)
Definition aes_ref (a : addr) : ffi AesEncryptionEngine.t :=
  x ← load a; match x with BAes e => mret e | _ => undefined end.

Definition vault_aes_encrypt (engine : ptr) (plaintext : data_ptr) (plaintext_len : Z) : ffi ptr :=
  _ ← clear_last_error;
  match engine with
  | Some a =>
      if is_null plaintext then fail_with "Null pointer argument"
      else
        e ← aes_ref a;
        plaintext_slice ← from_raw_parts plaintext plaintext_len;
        r ← draw (AesEncryptionEngine.encrypt_raw e plaintext_slice);
        match r with
        | Ok encrypted => from_vec encrypted
        | Err err => fail_with (to_string err)
        end
  | None => fail_with "Null pointer argument"
  end.

Definition vault_aes_decrypt (engine : ptr) (ciphertext : data_ptr) (ciphertext_len : Z) : ffi ptr :=
  _ ← clear_last_error;
  match engine with
  | Some a =>
      if is_null ciphertext then fail_with "Null pointer argument"
      else
        e ← aes_ref a;
        ciphertext_slice ← from_raw_parts ciphertext ciphertext_len;
        match AesEncryptionEngine.decrypt_raw e ciphertext_slice with
        | Ok decrypted => from_vec decrypted
        | Err err => fail_with (to_string err)
        end
  | None => fail_with "Null pointer argument"
  end.

Definition vault_chunker_create : ffi ptr :=
  _ ← clear_last_error;
  a ← alloc (BChunker (ChunkEngine.new Config.default)); mret (Some a).

Definition vault_chunker_create_custom (min_size avg_size max_size : Z) : ffi ptr :=
  _ ← clear_last_error;
  config ← of_run (Config.new min_size avg_size max_size);
  a ← alloc (BChunker (ChunkEngine.new config)); mret (Some a).

Definition vault_chunker_free (engine : ptr) : ffi unit :=
  match engine with
  | Some a => x ← take_back a; match x with BChunker _ => mret tt | _ => undefined end
  | None => mret tt
  end.

(** The slice of an input that may be NULL when it is empty. *)
Definition optional_slice (p : data_ptr) (len : Z) : ffi bytes :=
  if 0 <? len then from_raw_parts p len else mret [].

(** One element of [chunk_infos], and of [data_buffers]. *)
Definition chunk_info (c : Chunk) : ffi VaultChunkInfo :=
  h ← string_into_raw (hash c);
  mret {| i_hash := h; i_size := size c; i_offset := offset c |}.

Fixpoint collect {A B} (f : A -> ffi B) (l : list A) : ffi (list B) :=
  match l with
  | [] => mret []
  | x :: l => y ← f x; ys ← collect f l; mret (y :: ys)
  end.

Definition vault_chunker_chunk (engine : ptr) (data : data_ptr) (data_len : Z) : ffi ptr :=
  _ ← clear_last_error;
  match engine with
  | Some a =>
      if is_null data && (0 <? data_len) then fail_with "Null pointer argument"
      else
        x ← load a;
        match x with
        | BChunker e =>
            data_slice ← optional_slice data data_len;
            r ← of_run (ChunkEngine.chunk_data e data_slice);
            match r with
            | Ok chunks =>
                let count := Zlen chunks in
                chunk_infos ← collect chunk_info chunks;
                data_buffers ← collect (fun c => from_vec (Chunking.data c)) chunks;
                i ← alloc (BInfos chunk_infos);
                d ← alloc (BPtrs data_buffers);
                l ← alloc (BList i count d);
                mret (Some l)
            | Err err => fail_with (to_string err)
            end
        | _ => undefined
        end
  | None => fail_with "Null pointer argument"
  end.

(** [for i in 0..n] *)
Fixpoint for_range (body : nat -> ffi unit) (i n : nat) : ffi unit :=
  match n with
  | O => mret tt
  | S n => _ ← body i; for_range body (S i) n
  end.

Definition free_info (chunks : addr) (i : nat) : ffi unit :=
  x ← load chunks;
  match x with
  | BInfos l =>
      match l !! i with
      | Some info =>
          match i_hash info with Some h => string_from_raw h | None => mret tt end
      | None => undefined
      end
  | _ => undefined
  end.

Definition free_data (data : addr) (i : nat) : ffi unit :=
  x ← load data;
  match x with
  | BPtrs l => match l !! i with Some buffer => vault_buffer_free buffer | None => undefined end
  | _ => undefined
  end.

(** The arrays go back with the list's count as their length. *)
Definition vault_chunk_list_free (list : ptr) : ffi unit :=
  match list with
  | None => mret tt
  | Some a =>
      x ← take_back a;
      match x with
      | BList chunks count data =>
          _ ← for_range (free_info chunks) 0 (Z.to_nat count);
          _ ← for_range (free_data data) 0 (Z.to_nat count);
          infos ← take_back chunks;
          ptrs ← take_back data;
          match infos, ptrs with
          | BInfos l, BPtrs k => if (Zlen l =? count) && (Zlen k =? count) then mret tt else undefined
          | _, _ => undefined
          end
      | _ => undefined
      end
  end.

Definition vault_compute_hash (data : data_ptr) (data_len : Z) : ffi ptr :=
  _ ← clear_last_error;
  if is_null data && (0 <? data_len) then fail_with "Null pointer argument"
  else
    data_slice ← optional_slice data data_len;
    string_into_raw (ChunkEngine.compute_hash data_slice).
End Exports.

(** ** A program logic

    [cells] is the list of allocations of a heap; [wp m Q C e] says that from the
    allocations [C] and the last error [e] of this thread [m] returns, leaves the
    other threads' errors alone, and ends in [Q]. *)

Definition cells : Type := list (addr * block).

Definition has (C : cells) (h : gmap addr block) : Prop := NoDup C.*1 /\ h = list_to_map C.

Lemma has_perm C C' h : C ≡ₚ C' -> has C h -> has C' h.
Proof.
  intros Hp [Hd ->]. split; [by rewrite <- Hp | by apply list_to_map_proper].
Qed.

Lemma has_lookup C h a x : has C h -> (a, x) ∈ C -> h !! a = Some x.
Proof. intros [Hd ->] Hin. by apply elem_of_list_to_map_1. Qed.

Lemma has_elem C h a x : has C h -> h !! a = Some x -> (a, x) ∈ C.
Proof. intros [Hd ->] Hl. by apply elem_of_list_to_map_2. Qed.

Lemma has_nil h : has [] h <-> h = ∅.
Proof. split; [by intros [_ ->] | intros ->; split; [constructor | done]]. Qed.

Lemma has_alloc C h x : has C h -> has ((fresh (dom h), x) :: C) (<[fresh (dom h) := x]> h).
Proof.
  intros [Hd ->]. split; [|done]. cbn [fmap list_fmap fst]. constructor; [|done].
  intros Hin. apply (is_fresh (dom (list_to_map C : gmap addr block))).
  apply elem_of_dom. destruct (_ !! _) eqn:E; [by eexists|].
  by apply not_elem_of_list_to_map in E.
Qed.

Lemma has_take C h a x : has ((a, x) :: C) h -> h !! a = Some x /\ has C (delete a h).
Proof.
  intros [Hd ->]. cbn [fmap list_fmap fst list_to_map foldr uncurry] in *.
  apply NoDup_cons in Hd as [Hn Hd]. split; [apply lookup_insert_eq|]. split; [done|].
  change (list_to_map ((a, x) :: C)) with (<[a := x]> (list_to_map C : gmap addr block)).
  apply delete_insert_id. by apply not_elem_of_list_to_map.
Qed.

Section Logic.
  Context {R : Type}.
  Variable tid : Z.
  Abbreviation ffi := (ffi R).

Definition wp {A} (m : ffi A) (Q : A -> cells -> option string -> Prop) (C : cells)
    (e : option string) : Prop :=
  forall s, has C (heap s) -> errors s !! tid = e ->
    exists x s', m s = Returns (x, s') /\ (forall t, t <> tid -> errors s' !! t = errors s !! t) /\
      exists C', has C' (heap s') /\ Q x C' (errors s' !! tid).

Lemma wp_ret {A} (x : A) Q C e : Q x C e -> wp (mret x) Q C e.
Proof. intros HQ s Hs <-. exists x, s. split; [done|]. split; [done|]. by exists C. Qed.

Lemma wp_bind {A B} (m : ffi A) (k : A -> ffi B) Q C e :
  wp m (fun x => wp (k x) Q) C e -> wp (m ≫= k) Q C e.
Proof.
  intros Hm s Hs He. destruct (Hm s Hs He) as (x & s1 & E1 & F1 & C1 & H1 & Hk).
  destruct (Hk s1 H1 eq_refl) as (y & s2 & E2 & F2 & C2 & H2 & HQ).
  exists y, s2. split; [unfold mbind, ffi_bind; by rewrite E1|].
  split; [|by exists C2]. intros t Ht. by rewrite F2, F1.
Qed.

Lemma wp_mono {A} (m : ffi A) (Q Q' : A -> cells -> option string -> Prop) C e :
  wp m Q C e -> (forall x C' e', Q x C' e' -> Q' x C' e') -> wp m Q' C e.
Proof.
  intros Hm HQ s Hs He. destruct (Hm s Hs He) as (x & s1 & ? & ? & C1 & ? & ?).
  exists x, s1. split; [done|]. split; [done|]. exists C1. auto.
Qed.

Lemma wp_perm {A} (m : ffi A) Q C C' e : C ≡ₚ C' -> wp m Q C' e -> wp m Q C e.
Proof. intros Hp Hm s Hs He. apply Hm; [by eapply has_perm | done]. Qed.

Lemma wp_alloc x (Q : addr -> cells -> option string -> Prop) C e :
  (forall a, Q a ((a, x) :: C) e) -> wp (alloc x) Q C e.
Proof.
  intros HQ s Hs <-. eexists _, _. split; [reflexivity|]. split; [done|].
  eexists. split; [by apply has_alloc | apply HQ].
Qed.

Lemma wp_take a x Q C C' e : C ≡ₚ (a, x) :: C' -> Q x C' e -> wp (take_back a) Q C e.
Proof.
  intros Hp HQ s Hs <-. apply (has_perm _ _ _ Hp) in Hs. apply has_take in Hs as [Hl Hs].
  unfold take_back. rewrite Hl. eexists _, _. split; [reflexivity|]. split; [done|]. by exists C'.
Qed.

Lemma wp_load a x Q C e : (a, x) ∈ C -> Q x C e -> wp (load a) Q C e.
Proof.
  intros Hin HQ s Hs <-. unfold load. rewrite (has_lookup _ _ _ _ Hs Hin).
  eexists _, _. split; [reflexivity|]. split; [done|]. by exists C.
Qed.

Lemma wp_of_run {A} (m : run A) x Q C e : m = Done x -> Q x C e -> wp (of_run m) Q C e.
Proof. intros -> HQ. by apply wp_ret. Qed.

Lemma wp_draw {A} (f : R -> A * R) Q C e :
  (forall r, Q (f r).1 C e) -> wp (draw f) Q C e.
Proof.
  intros HQ s Hs <-. unfold draw. specialize (HQ (rng s)). destruct (f (rng s)) as [x r].
  eexists _, _. split; [reflexivity|]. split; [done|]. by exists C.
Qed.

Lemma wp_clear Q C e : Q tt C None -> wp (clear_last_error tid) Q C e.
Proof.
  intros HQ s Hs _. eexists _, _. split; [reflexivity|]. cbn [errors with_errors heap].
  split; [intros t Ht; by apply lookup_delete_ne|]. exists C. split; [done|]. by rewrite lookup_delete_eq.
Qed.

Lemma wp_fail msg Q C e : Q None C (Some msg) -> wp (fail_with tid msg) Q C e.
Proof.
  intros HQ s Hs _. eexists _, _. split; [reflexivity|]. cbn [errors with_errors heap].
  split; [intros t Ht; by apply lookup_insert_ne|]. exists C. split; [done|]. by rewrite lookup_insert_eq.
Qed.

Lemma wp_from_vec v (Q : ptr -> cells -> option string -> Prop) C e :
  (forall a d, Q (Some a) ((a, BBuffer d (Zlen v)) :: (d, BBytes v) :: C) e) -> wp (from_vec v) Q C e.
Proof.
  intros HQ. apply wp_bind, wp_alloc. intros d. apply wp_bind, wp_alloc. intros a.
  apply wp_ret, HQ.
Qed.

Lemma wp_buffer_free a d v Q C C' e :
  C ≡ₚ (a, BBuffer d (Zlen v)) :: (d, BBytes v) :: C' -> Q tt C' e ->
  wp (vault_buffer_free (Some a)) Q C e.
Proof.
  intros Hp HQ. apply wp_bind, wp_bind. eapply wp_take; [exact Hp|]. cbv beta iota.
  apply wp_bind. eapply wp_take; [done|]. cbv beta iota. rewrite Z.leb_refl. by apply wp_ret, wp_ret.
Qed.

Lemma wp_string_into_raw s (Q : ptr -> cells -> option string -> Prop) C e :
  (NUL ∉ s) -> (forall a, Q (Some a) ((a, BString s) :: C) e) -> wp (string_into_raw s) Q C e.
Proof.
  intros Hn HQ. unfold string_into_raw. rewrite bool_decide_false by done.
  apply wp_bind, wp_alloc. intros a. apply wp_ret, HQ.
Qed.

Lemma wp_string_from_raw a s Q C C' e :
  C ≡ₚ (a, BString s) :: C' -> Q tt C' e -> wp (string_from_raw a) Q C e.
Proof. intros Hp HQ. apply wp_bind. eapply wp_take; [exact Hp|]. by apply wp_ret. Qed.
End Logic.

(** ** What a caller owns *)

Inductive kind : Type := KBuffer | KString | KAes | KChunker | KList.

Definition handle : Type := kind * addr.

(** A chunk's entry in the array of a list, and the string it owns; its buffer. *)
Definition info_of (c : Chunk) (x : VaultChunkInfo * cells) : Prop :=
  exists h, x = ({| i_hash := Some h; i_size := size c; i_offset := offset c |}, [(h, BString (hash c))]).
Definition buffer_of (c : Chunk) (y : ptr * cells) : Prop :=
  exists a d, y = (Some a, [(a, BBuffer d (Zlen (data c))); (d, BBytes (data c))]).

Definition list_cells (a i d : addr) (cs : list Chunk) (xs : list (VaultChunkInfo * cells))
    (ys : list (ptr * cells)) : cells :=
  (a, BList i (Zlen cs) d) :: (i, BInfos xs.*1) :: (d, BPtrs ys.*1) ::
  concat xs.*2 ++ concat ys.*2.

(** The allocations behind each kind of handle. *)
Inductive footprint : handle -> cells -> Prop :=
  | fp_buffer a d v : footprint (KBuffer, a) [(a, BBuffer d (Zlen v)); (d, BBytes v)]
  | fp_string a s : footprint (KString, a) [(a, BString s)]
  | fp_aes a e : footprint (KAes, a) [(a, BAes e)]
  | fp_chunker a e : engine_ok e -> ChunkEngine.keying e = None ->
      footprint (KChunker, a) [(a, BChunker e)]
  | fp_list a i d cs xs ys :
      Forall2 info_of cs xs -> Forall2 buffer_of cs ys ->
      footprint (KList, a) (list_cells a i d cs xs ys).

(** [owns hs C]: the allocations [C] are those of the handles [hs], each apart
    from the others, and nothing else. *)
Inductive owns : list handle -> cells -> Prop :=
  | owns_nil : owns [] []
  | owns_cons h f hs C C' : footprint h f -> owns hs C -> C' ≡ₚ f ++ C -> owns (h :: hs) C'.

Lemma owns_perm hs C C' : C ≡ₚ C' -> owns hs C -> owns hs C'.
Proof.
  intros Hp Ho. destruct Ho as [|h f hs C C0 Hf Ho Hp'].
  - apply Permutation_nil in Hp. subst. constructor.
  - econstructor; [done..|]. by rewrite <- Hp.
Qed.

Lemma owns_handles hs hs' C : hs ≡ₚ hs' -> owns hs C -> owns hs' C.
Proof.
  intros Hp. revert C; induction Hp as [|h hs hs' _ IH|h1 h2 hs|hs1 hs2 hs3 _ IH1 _ IH2]; intros C Ho.
  - done.
  - inversion Ho as [|? f ? C0 ? Hf Ho' Hp']; subst. econstructor; eauto.
  - inversion Ho as [|? f1 ? C1 ? Hf1 Ho1 Hp1]; subst.
    inversion Ho1 as [|? f2 ? C2 ? Hf2 Ho2 Hp2]; subst.
    eapply owns_cons; [exact Hf2| |]; [eapply owns_cons; [exact Hf1|exact Ho2|reflexivity]|].
    rewrite Hp1, Hp2. rewrite !app_assoc. by rewrite (Permutation_app_comm f1 f2).
  - auto.
Qed.

Lemma owns_split h hs hs' C :
  hs ≡ₚ h :: hs' -> owns hs C -> exists f C0, footprint h f /\ owns hs' C0 /\ C ≡ₚ f ++ C0.
Proof.
  intros Hp Ho. apply (owns_handles _ _ _ Hp) in Ho. inversion Ho; subst. eauto.
Qed.

Lemma owns_member h hs C :
  h ∈ hs -> owns hs C -> exists f, footprint h f /\ forall x, x ∈ f -> x ∈ C.
Proof.
  intros (hs' & Hp)%elem_of_Permutation Ho. destruct (owns_split h hs hs' C Hp Ho) as (f & C0 & Hf & _ & E).
  exists f. split; [done|]. intros x Hx. rewrite E. apply elem_of_app. by left.
Qed.

(** ** The calls *)

(** The bytes an input pointer shows, if the caller may read them. *)
Definition reads (C : cells) (p : data_ptr) (len : Z) (bs : bytes) : Prop :=
  match p with
  | CNull => False
  | CHost all => 0 <= len <= Zlen all /\ bs = take (Z.to_nat len) all
  | CData d => exists all, (d, BBytes all) ∈ C /\ 0 <= len <= Zlen all /\ bs = take (Z.to_nat len) all
  end.

(** An answer in a new buffer, or NULL and the error. *)
Definition answers (C : cells) (res : VaultResult bytes) (r : ptr) (C' : cells) (e' : option string) : Prop :=
  match res with
  | Ok v => exists a d, r = Some a /\ C' = (a, BBuffer d (Zlen v)) :: (d, BBytes v) :: C /\ e' = None
  | Err err => r = None /\ C' = C /\ e' = Some (to_string err)
  end.

(** NULL and an error, with nothing allocated. *)
Definition refused (C : cells) (r : ptr) (C' : cells) (e' : option string) : Prop :=
  r = None /\ C' = C /\ exists msg, e' = Some msg.

Section Calls.
  Context {R : Type} `{HashLaws, HexLaws, AeadLaws, Argon2Ops, RngLaws R}.
  Variable tid : Z.
  Abbreviation wp := (wp (R := R) tid).

Lemma wp_reads p len bs Q C e : reads C p len bs -> Q bs C e -> wp (from_raw_parts p len) Q C e.
Proof.
  intros Hr HQ. destruct p as [|all|d]; cbn [from_raw_parts reads] in *; [done| |].
  - destruct Hr as [Hl ->]. replace ((0 <=? len) && (len <=? Zlen all)) with true by lia. by apply wp_ret.
  - destruct Hr as (all & Hin & Hl & ->). apply wp_bind. eapply wp_load; [exact Hin|]. cbv beta iota.
    replace ((0 <=? len) && (len <=? Zlen all)) with true by lia. by apply wp_ret.
Qed.

Lemma wp_answer (res : VaultResult bytes) C :
  wp (match res with Ok v => from_vec v | Err err => fail_with tid (to_string err) end)
    (answers C res) C None.
Proof.
  destruct res as [v|err].
  - apply wp_from_vec. intros a d. by exists a, d.
  - by apply wp_fail.
Qed.

Lemma wp_aes_ref a eng Q C e : (a, BAes eng) ∈ C -> Q eng C e -> wp (aes_ref a) Q C e.
Proof. intros Hin HQ. apply wp_bind. eapply wp_load; [exact Hin|]. by apply wp_ret. Qed.

Lemma wp_encrypt a eng p len bs C e :
  (a, BAes eng) ∈ C -> reads C p len bs ->
  wp (vault_aes_encrypt tid (Some a) p len)
    (fun r C' e' => exists rg : R, answers C (AesEncryptionEngine.encrypt_raw eng bs rg).1 r C' e') C e.
Proof.
  intros Ha Hr. apply wp_bind, wp_clear. cbv beta iota.
  assert (is_null p = false) as -> by (by destruct p).
  apply wp_bind. eapply wp_aes_ref; [exact Ha|]. apply wp_bind. eapply wp_reads; [exact Hr|].
  apply wp_bind, wp_draw. intros rg.
  eapply wp_mono; [apply wp_answer|]. cbv beta. eauto.
Qed.

Lemma wp_decrypt a eng p len bs C e :
  (a, BAes eng) ∈ C -> reads C p len bs ->
  wp (vault_aes_decrypt tid (Some a) p len) (answers C (AesEncryptionEngine.decrypt_raw eng bs)) C e.
Proof.
  intros Ha Hr. apply wp_bind, wp_clear. cbv beta iota.
  assert (is_null p = false) as -> by (by destruct p).
  apply wp_bind. eapply wp_aes_ref; [exact Ha|]. apply wp_bind. eapply wp_reads; [exact Hr|].
  apply wp_answer.
Qed.

Lemma wp_derive_key p plen s slen bs salt C e :
  reads C p plen bs -> reads C s slen salt ->
  wp (vault_aes_derive_key tid p plen s slen)
    (answers C (AesEncryptionEngine.derive_key bs salt)) C e.
Proof.
  intros Hp Hs. apply wp_bind, wp_clear. cbv beta iota.
  assert (is_null p || is_null s = false) as -> by (by destruct p, s).
  apply wp_bind. eapply wp_reads; [exact Hp|]. apply wp_bind. eapply wp_reads; [exact Hs|].
  apply wp_answer.
Qed.

Lemma wp_aes_create p len bs C e :
  reads C p len bs ->
  wp (vault_aes_create tid p len)
    (fun r C' e' => match AesEncryptionEngine.new bs with
       | Ok eng => exists a, r = Some a /\ C' = (a, BAes eng) :: C /\ e' = None
       | Err err => r = None /\ C' = C /\ e' = Some (to_string err) end) C e.
Proof.
  intros Hp. apply wp_bind, wp_clear. cbv beta iota.
  assert (is_null p = false) as -> by (by destruct p).
  apply wp_bind. eapply wp_reads; [exact Hp|]. destruct (AesEncryptionEngine.new bs) as [eng|err].
  - apply wp_bind, wp_alloc. intros a. apply wp_ret. eauto.
  - by apply wp_fail.
Qed.

Lemma wp_collect {A B} (f : A -> ffi R B) (rel : A -> B * cells -> Prop) (P : A -> Prop) l :
  (forall x Q C e, P x -> (forall y c, rel x (y, c) -> Q y (c ++ C) e) -> wp (f x) Q C e) ->
  Forall P l -> forall Q C e,
  (forall ys C', Forall2 rel l ys -> C' ≡ₚ concat ys.*2 ++ C -> Q ys.*1 C' e) ->
  wp (collect f l) Q C e.
Proof.
  intros Hf Hl. induction Hl as [|x l Hx Hl IH]; intros Q C e HQ; cbn [collect].
  - apply wp_ret. apply (HQ []); [constructor | done].
  - apply wp_bind, Hf; [done|]. intros y c Hy. apply wp_bind, IH. intros ys C' Hys Hp. apply wp_ret.
    apply (HQ ((y, c) :: ys)); [by constructor|]. cbn [fmap list_fmap snd concat]. rewrite Hp.
    rewrite !app_assoc. by rewrite (Permutation_app_comm (concat _) c).
Qed.

Lemma wp_for_range (body : nat -> ffi R unit) (I : nat -> cells -> Prop) e n :
  forall k C, (forall i C, (k <= i < k + n)%nat -> I i C -> wp (body i) (fun _ C' e' => I (S i) C' /\ e' = e) C e) ->
  I k C -> wp (for_range body k n) (fun _ C' e' => I (k + n)%nat C' /\ e' = e) C e.
Proof.
  induction n as [|n IH]; intros k C Hb Hk; cbn [for_range].
  - apply wp_ret. by rewrite Nat.add_0_r.
  - apply wp_bind. eapply wp_mono; [apply Hb; [lia|done]|]. intros [] C' e' [HI ->].
    replace (k + S n)%nat with (S k + n)%nat by lia. apply IH; [|done].
    intros i C0 Hi. apply Hb. lia.
Qed.

Lemma wp_optional p len Q C e :
  (0 < len -> p <> CNull) -> (forall bs, (len <= 0 /\ bs = [] \/ 0 < len /\ reads C p len bs) -> Q bs C e) ->
  (0 < len -> exists bs, reads C p len bs) ->
  wp (optional_slice p len) Q C e.
Proof.
  intros Hp HQ Hr. unfold optional_slice. destruct (Z.ltb_spec 0 len) as [Hl|Hl].
  - destruct (Hr Hl) as [bs Hbs]. eapply wp_reads; [exact Hbs|]. apply HQ. by right.
  - apply wp_ret, HQ. by left.
Qed.

Lemma hash_no_nul (x : bytes) : NUL ∉ ChunkEngine.compute_hash x.
Proof.
  unfold ChunkEngine.compute_hash. rewrite lower_hex_encode. intros Hin.
  pose proof (hex_encode_chars (sha256 x)) as Hf. rewrite Forall_forall in Hf. by apply Hf in Hin.
Qed.

(** A fresh list of chunks, each named by its hash. *)
Lemma wp_build_list (cs : list Chunk) C e :
  Forall (fun c => NUL ∉ hash c) cs ->
  wp (infos ← collect chunk_info cs;
      data_buffers ← collect (fun c => from_vec (data c)) cs;
      i ← alloc (BInfos infos); d ← alloc (BPtrs data_buffers);
      l ← alloc (BList i (Zlen cs) d); mret (Some l))
    (fun r C' e' => exists a i d xs ys, r = Some a /\ e' = e /\ Forall2 info_of cs xs /\
       Forall2 buffer_of cs ys /\ C' ≡ₚ list_cells a i d cs xs ys ++ C) C e.
Proof.
  intros Hn. apply wp_bind, (wp_collect chunk_info info_of (fun c => NUL ∉ hash c)); [|done|].
  { intros c Q C0 e0 Hc HQ. apply wp_bind, wp_string_into_raw; [done|]. intros h. apply wp_ret.
    apply (HQ _ [_]). by eexists. }
  intros xs C1 Hxs Hp1.
  apply wp_bind, (wp_collect (fun c => from_vec (data c)) buffer_of (fun _ => True)); [| by apply Forall_true |].
  { intros c Q C0 e0 _ HQ. apply wp_from_vec. intros a d. apply (HQ _ [_; _]). by eexists _, _. }
  intros ys C2 Hys Hp2. apply wp_bind, wp_alloc. intros i. apply wp_bind, wp_alloc. intros d.
  apply wp_bind, wp_alloc. intros a. apply wp_ret. exists a, i, d, xs, ys.
  split; [done|]. split; [done|]. split; [done|]. split; [done|]. unfold list_cells.
  cbn [app]. constructor. rewrite Permutation_swap. do 2 constructor.
  rewrite Hp2, Hp1, !app_assoc. by rewrite (Permutation_app_comm (concat ys.*2)).
Qed.

Lemma chunk_names_plain (eng : ChunkEngine.t) bs cs :
  engine_ok eng -> ChunkEngine.keying eng = None -> ChunkEngine.chunk_data eng bs = Done (Ok cs) ->
  Forall (fun c => NUL ∉ hash c) cs.
Proof.
  intros [Hg Hc] Hk E. destruct (chunk_data_cut eng Hg Hc bs) as (ps & _ & E'). rewrite E in E'.
  injection E' as ->. generalize 0. clear E. induction ps as [|p ps IH]; intros off; [constructor|].
  cbn [mk_chunks]. constructor; [|apply IH]. cbn [hash mk_chunk]. unfold ChunkEngine.name. rewrite Hk.
  apply hash_no_nul.
Qed.

(** What an input that may be NULL when empty shows. *)
Definition shows (C : cells) (p : data_ptr) (len : Z) (bs : bytes) : Prop :=
  len <= 0 /\ bs = [] \/ 0 < len /\ reads C p len bs.

Lemma wp_shows p len bs Q C e :
  shows C p len bs -> Q bs C e -> wp (optional_slice p len) Q C e.
Proof.
  intros [[Hl ->]|[Hl Hr]] HQ; unfold optional_slice.
  - replace (0 <? len) with false by lia. by apply wp_ret.
  - replace (0 <? len) with true by lia. by eapply wp_reads.
Qed.

Lemma shows_not_null C p len bs : shows C p len bs -> is_null p && (0 <? len) = false.
Proof.
  intros [[Hl ->]|[Hl Hr]]; [replace (0 <? len) with false by lia; apply andb_false_r|].
  by destruct p.
Qed.

Lemma wp_chunk a eng p len bs C e :
  (a, BChunker eng) ∈ C -> engine_ok eng -> ChunkEngine.keying eng = None -> shows C p len bs ->
  wp (vault_chunker_chunk tid (Some a) p len)
    (fun r C' e' => exists cs a i d xs ys, ChunkEngine.chunk_data eng bs = Done (Ok cs) /\
       r = Some a /\ e' = None /\ Forall2 info_of cs xs /\ Forall2 buffer_of cs ys /\
       C' ≡ₚ list_cells a i d cs xs ys ++ C) C e.
Proof.
  intros Ha He Hk Hs. apply wp_bind, wp_clear. cbv beta iota. rewrite (shows_not_null _ _ _ _ Hs).
  apply wp_bind. eapply wp_load; [exact Ha|]. cbv beta iota.
  apply wp_bind. eapply wp_shows; [exact Hs|].
  assert (exists cs, ChunkEngine.chunk_data eng bs = Done (Ok cs)) as [cs E].
  { destruct He as [Hg Hc]. destruct (chunk_data_cut eng Hg Hc bs) as (ps & _ & E). eauto. }
  apply wp_bind. eapply wp_of_run; [exact E|]. cbv beta iota zeta.
  eapply wp_mono; [apply wp_build_list; by eapply chunk_names_plain|].
  intros r C' e' (a' & i & d & xs & ys & ? & ? & ? & ? & ?). by exists cs, a', i, d, xs, ys.
Qed.

(** A loop over a list's strings, and one over its buffers: each turn frees the
    object of its index, past which the objects are still allocated. *)
Lemma wp_free_infos cs xs i C C' e :
  Forall2 info_of cs xs -> C ≡ₚ (i, BInfos xs.*1) :: concat xs.*2 ++ C' ->
  wp (for_range (free_info i) 0 (length xs)) (fun _ C0 e0 => C0 ≡ₚ (i, BInfos xs.*1) :: C' /\ e0 = e) C e.
Proof.
  intros Hx Hp. eapply wp_mono; [apply (wp_for_range _ (fun k C0 => C0 ≡ₚ
    (i, BInfos xs.*1) :: concat (drop k xs.*2) ++ C'))|]; [|by rewrite drop_0|].
  - intros k C0 Hk HI. apply wp_bind. eapply wp_load; [rewrite HI; by left|]. cbv beta iota.
    destruct (lookup_lt_is_Some_2 xs k) as [x Ex]; [lia|].
    destruct (Forall2_lookup_r _ _ _ _ _ Hx Ex) as (c & _ & h & ->).
    rewrite list_lookup_fmap, Ex. cbn [fmap option_fmap option_map fst i_hash].
    assert (Hp' : C0 ≡ₚ (h, BString (hash c)) :: (i, BInfos xs.*1) :: concat (drop (S k) xs.*2) ++ C').
    { rewrite HI, (drop_S _ [(h, BString (hash c))] k) by (by rewrite list_lookup_fmap, Ex).
      cbn [concat app]. constructor. }
    eapply wp_string_from_raw; [exact Hp'|]. by split.
  - cbv beta. intros _ C0 e0 [HI ->]. split; [|done]. rewrite HI, drop_ge by (rewrite length_fmap; lia).
    done.
Qed.

Lemma wp_free_buffers cs ys d C C' e :
  Forall2 buffer_of cs ys -> C ≡ₚ (d, BPtrs ys.*1) :: concat ys.*2 ++ C' ->
  wp (for_range (free_data d) 0 (length ys)) (fun _ C0 e0 => C0 ≡ₚ (d, BPtrs ys.*1) :: C' /\ e0 = e) C e.
Proof.
  intros Hy Hp. eapply wp_mono; [apply (wp_for_range _ (fun k C0 => C0 ≡ₚ
    (d, BPtrs ys.*1) :: concat (drop k ys.*2) ++ C'))|]; [|by rewrite drop_0|].
  - intros k C0 Hk HI. apply wp_bind. eapply wp_load; [rewrite HI; by left|]. cbv beta iota.
    destruct (lookup_lt_is_Some_2 ys k) as [y Ey]; [lia|].
    destruct (Forall2_lookup_r _ _ _ _ _ Hy Ey) as (c & _ & a & v & ->).
    rewrite list_lookup_fmap, Ey. cbn [fmap option_fmap option_map fst].
    assert (Hp' : C0 ≡ₚ (a, BBuffer v (Zlen (data c))) :: (v, BBytes (data c)) ::
              (d, BPtrs ys.*1) :: concat (drop (S k) ys.*2) ++ C').
    { rewrite HI, (drop_S _ [(a, BBuffer v (Zlen (data c))); (v, BBytes (data c))] k)
        by (by rewrite list_lookup_fmap, Ey).
      cbn [concat app]. rewrite Permutation_swap. constructor. apply Permutation_swap. }
    eapply wp_buffer_free; [exact Hp'|]. by split.
  - cbv beta. intros _ C0 e0 [HI ->]. split; [|done]. rewrite HI, drop_ge by (rewrite length_fmap; lia).
    done.
Qed.

Lemma wp_list_free a i d cs xs ys C C' e :
  Forall2 info_of cs xs -> Forall2 buffer_of cs ys -> C ≡ₚ list_cells a i d cs xs ys ++ C' ->
  wp (vault_chunk_list_free (Some a)) (fun _ C0 e0 => C0 ≡ₚ C' /\ e0 = e) C e.
Proof.
  intros Hx Hy Hp. pose proof (Forall2_length _ _ _ Hx) as Lx. pose proof (Forall2_length _ _ _ Hy) as Ly.
  unfold list_cells in Hp. cbn [app] in Hp. rewrite <- app_assoc in Hp.
  apply wp_bind. eapply wp_take; [exact Hp|]. cbv beta iota. rewrite Nat2Z.id.
  apply wp_bind. eapply wp_mono; [rewrite Lx; apply (wp_free_infos cs _ _ _ ((d, BPtrs ys.*1) :: concat ys.*2 ++ C')); [done|]|].
  { constructor. apply Permutation_middle. }
  intros _ C1 e1 [Hp1 ->]. apply wp_bind.
  eapply wp_mono; [rewrite Ly; apply (wp_free_buffers cs _ _ _ ((i, BInfos xs.*1) :: C')); [done|]|].
  { rewrite Hp1, Permutation_swap. constructor. apply Permutation_middle. }
  intros _ C2 e2 [Hp2 ->]. apply wp_bind. eapply wp_take; [rewrite Hp2; apply Permutation_swap|].
  cbv beta. apply wp_bind. eapply wp_take; [done|]. cbv beta iota.
  rewrite !length_fmap, <- Lx, <- Ly, Z.eqb_refl. by apply wp_ret.
Qed.
End Calls.

(** ** The interface as a whole *)

Inductive call : Type :=
  | BufferFree (p : ptr)
  | LastError
  | ErrorFree (p : ptr)
  | AesGenerateKey
  | AesGenerateSalt
  | AesDeriveKey (passphrase : data_ptr) (passphrase_len : Z) (salt : data_ptr) (salt_len : Z)
  | AesCreate (key : data_ptr) (key_len : Z)
  | AesFree (p : ptr)
  | AesEncrypt (p : ptr) (plaintext : data_ptr) (len : Z)
  | AesDecrypt (p : ptr) (ciphertext : data_ptr) (len : Z)
  | ChunkerCreate
  | ChunkerCreateCustom (min_size avg_size max_size : Z)
  | ChunkerFree (p : ptr)
  | ChunkerChunk (p : ptr) (input : data_ptr) (len : Z)
  | ChunkListFree (p : ptr)
  | ComputeHash (input : data_ptr) (len : Z).

(** The kind of the object a call returns when it returns one. *)
Definition gives (c : call) : kind :=
  match c with
  | LastError | ComputeHash _ _ => KString
  | AesCreate _ _ => KAes
  | ChunkerCreate | ChunkerCreateCustom _ _ _ => KChunker
  | ChunkerChunk _ _ _ => KList
  | _ => KBuffer
  end.

(** The object a call takes back, and the one it borrows. *)
Definition frees (c : call) : option handle :=
  match c with
  | BufferFree (Some a) => Some (KBuffer, a)
  | ErrorFree (Some a) => Some (KString, a)
  | AesFree (Some a) => Some (KAes, a)
  | ChunkerFree (Some a) => Some (KChunker, a)
  | ChunkListFree (Some a) => Some (KList, a)
  | _ => None
  end.
Definition borrows (c : call) : option handle :=
  match c with
  | AesEncrypt (Some a) _ _ | AesDecrypt (Some a) _ _ => Some (KAes, a)
  | ChunkerChunk (Some a) _ _ => Some (KChunker, a)
  | _ => None
  end.
Definition inputs (c : call) : list (data_ptr * Z) :=
  match c with
  | AesDeriveKey p n s m => [(p, n); (s, m)]
  | AesCreate p n | AesEncrypt _ p n | AesDecrypt _ p n | ChunkerChunk _ p n | ComputeHash p n => [(p, n)]
  | _ => []
  end.

(** Every exported call but the frees and [vault_last_error] resets the error. *)
Definition reports (c : call) : bool :=
  match c with
  | BufferFree _ | LastError | ErrorFree _ | AesFree _ | ChunkerFree _ | ChunkListFree _ => false
  | _ => true
  end.

Section Client.
  Context {R : Type} `{HashOps, HexOps, AeadOps, Argon2Ops, RngOps R}.

Definition exec (tid : Z) (c : call) : ffi R ptr :=
  let void (m : ffi R unit) : ffi R ptr := _ ← m; mret None in
  match c with
  | BufferFree p => void (vault_buffer_free p)
  | LastError => vault_last_error tid
  | ErrorFree p => void (vault_error_free p)
  | AesGenerateKey => vault_aes_generate_key tid
  | AesGenerateSalt => vault_aes_generate_salt tid
  | AesDeriveKey p n s m => vault_aes_derive_key tid p n s m
  | AesCreate p n => vault_aes_create tid p n
  | AesFree p => void (vault_aes_free p)
  | AesEncrypt a p n => vault_aes_encrypt tid a p n
  | AesDecrypt a p n => vault_aes_decrypt tid a p n
  | ChunkerCreate => vault_chunker_create tid
  | ChunkerCreateCustom a v m => vault_chunker_create_custom tid a v m
  | ChunkerFree p => void (vault_chunker_free p)
  | ChunkerChunk a p n => vault_chunker_chunk tid a p n
  | ChunkListFree p => void (vault_chunk_list_free p)
  | ComputeHash p n => vault_compute_hash tid p n
  end.

(** A pointer and length the caller may pass: NULL, its own memory, or the bytes
    of a buffer it holds. *)
Definition readable (hs : list handle) (s : state R) (x : data_ptr * Z) : Prop :=
  0 <= x.2 /\
  match x.1 with
  | CNull => True
  | CHost all => x.2 <= Zlen all
  | CData d => exists a n, (KBuffer, a) ∈ hs /\ heap s !! a = Some (BBuffer d n) /\ x.2 <= n
  end.

(** The calls the documented contract allows a caller that holds [hs]; [hs'] is
    what it holds besides the result.  The sizes of a custom chunker are those
    of a usable configuration. *)
Definition permitted (hs : list handle) (s : state R) (c : call) (hs' : list handle) : Prop :=
  match frees c with Some h => hs ≡ₚ h :: hs' | None => hs' = hs end /\
  match borrows c with Some h => h ∈ hs | None => True end /\
  Forall (readable hs s) (inputs c) /\
  match c with
  | ChunkerCreateCustom lo avg hi => 1 <= lo /\ lo <= avg <= hi /\ hi <= USIZE_MAX
  | _ => True
  end.

Definition after (c : call) (hs : list handle) (r : ptr) : list handle :=
  match r with Some a => (gives c, a) :: hs | None => hs end.

(** What the caller may do next, from a library with nothing allocated. *)
Inductive reachable : list handle -> state R -> Prop :=
  | reach_start s : heap s = ∅ -> reachable [] s
  | reach_call hs s tid c hs' r s' :
      reachable hs s -> permitted hs s c hs' -> exec tid c s = Returns (r, s') ->
      reachable (after c hs' r) s'.

(** The heap is made of what the caller's handles own. *)
Definition well_typed (hs : list handle) (s : state R) : Prop :=
  exists C, owns hs C /\ has C (heap s).
End Client.

Section Safety.
  Context {R : Type} `{HashLaws, HexLaws, AeadLaws, Argon2Ops, RngLaws R}.
  Variable tid : Z.
  Implicit Types s : state R.
  Abbreviation wp := (wp (R := R) tid).

(** What a call must end in. *)
Definition ends_well (c : call) (hs : list handle) (r : ptr) (C : cells) (e : option string) : Prop :=
  owns (after c hs r) C /\ (reports c = true -> r = None <-> is_Some e).

Lemma readable_reads hs C s p n :
  owns hs C -> has C (heap s) -> readable hs s (p, n) -> p <> CNull -> exists bs, reads C p n bs.
Proof.
  intros Ho Hh [Hn Hp] Hnull. cbn [fst snd] in *. destruct p as [|all|d]; [done| |].
  - by exists (take (Z.to_nat n) all).
  - destruct Hp as (a & k & Ha & Hl & Hk).
    destruct (owns_member _ _ _ Ha Ho) as (f & Hf & Hin). inversion Hf; subst.
    assert (Hl' : heap s !! a = Some (BBuffer d0 (Zlen v)))
      by (eapply has_lookup; [exact Hh|]; apply Hin; by left).
    rewrite Hl' in Hl. injection Hl as -> <-. exists (take (Z.to_nat n) v), v.
    split; [|done]. apply Hin. right. by left.
Qed.

Lemma readable_shows hs C s p n :
  owns hs C -> has C (heap s) -> readable hs s (p, n) -> is_null p && (0 <? n) = false ->
  exists bs, shows C p n bs.
Proof.
  intros Ho Hh Hr Hnull. destruct (Z.ltb_spec 0 n) as [Hn|Hn]; [|exists []; by left].
  destruct (readable_reads _ _ _ _ _ Ho Hh Hr) as [bs Hbs]; [by intros ->|].
  exists bs. by right.
Qed.

Lemma answers_end c hs C res r C' e' :
  gives c = KBuffer -> owns hs C -> answers C res r C' e' -> ends_well c hs r C' e'.
Proof.
  intros Hg Ho. unfold answers, ends_well, after. destruct res as [v|err].
  - intros (a & d & -> & -> & ->). rewrite Hg. split.
    + eapply owns_cons; [apply (fp_buffer a d v)|exact Ho|done].
    + intros _. split; [done | by intros []].
  - intros (-> & -> & ->). split; [done|]. intros _. split; [eauto | done].
Qed.

Lemma failed_end c hs C e' : owns hs C -> is_Some e' -> ends_well c hs None C e'.
Proof. intros Ho He. split; [done|]. by intros _. Qed.

Lemma made_end c hs C a x :
  footprint (gives c, a) [(a, x)] -> owns hs C -> ends_well c hs (Some a) ((a, x) :: C) None.
Proof.
  intros Hf Ho. split; [by eapply owns_cons|]. intros _. split; [done | by intros []].
Qed.

Lemma wp_void (m : ffi R unit) c hs C e :
  reports c = false -> wp m (fun _ C' _ => owns hs C') C e ->
  wp (_ ← m; mret None) (ends_well c hs) C e.
Proof.
  intros Hc Hm. apply wp_bind. eapply wp_mono; [exact Hm|]. intros [] C' e' Ho. apply wp_ret.
  split; [done|]. by rewrite Hc.
Qed.

(** Giving an object back leaves what the caller holds besides it. *)
Lemma wp_free_call c h hs hs' C e :
  owns hs C -> frees c = Some h -> hs ≡ₚ h :: hs' -> wp (exec tid c) (ends_well c hs') C e.
Proof.
  intros Ho Hf Hp. destruct (owns_split _ _ _ _ Hp Ho) as (f & C0 & Hfp & Ho0 & HC).
  destruct c as [[a|]| |[a|]| | | | |[a|]| | | | |[a|]| |[a|]|]; try discriminate Hf;
    injection Hf as <-; apply wp_void; try done; inversion Hfp; subst.
  - eapply wp_buffer_free; [exact HC | done].
  - eapply wp_string_from_raw; [exact HC | done].
  - apply wp_bind. eapply wp_take; [exact HC|]. by apply wp_ret.
  - apply wp_bind. eapply wp_take; [exact HC|]. by apply wp_ret.
  - eapply wp_mono; [by eapply (wp_list_free tid)|]. intros [] C' e' [HC' _].
    eapply owns_perm; [symmetry; exact HC' | done].
Qed.

Lemma borrowed_aes hs C a : owns hs C -> (KAes, a) ∈ hs -> exists eng, (a, BAes eng) ∈ C.
Proof.
  intros Ho Ha. destruct (owns_member _ _ _ Ha Ho) as (f & Hf & Hin). inversion Hf; subst.
  eexists. apply Hin. by left.
Qed.

Lemma borrowed_chunker hs C a :
  owns hs C -> (KChunker, a) ∈ hs ->
  exists eng, (a, BChunker eng) ∈ C /\ engine_ok eng /\ ChunkEngine.keying eng = None.
Proof.
  intros Ho Ha. destruct (owns_member _ _ _ Ha Ho) as (f & Hf & Hin). inversion Hf; subst.
  eexists. split; [apply Hin; by left | done].
Qed.

Lemma wp_refused msg c hs C e : owns hs C -> wp (fail_with tid msg) (ends_well c hs) C e.
Proof. intros Ho. apply wp_fail. by apply failed_end. Qed.

Lemma wp_encrypt_call a p n hs s C e :
  owns hs C -> has C (heap s) -> (forall a', a = Some a' -> (KAes, a') ∈ hs) -> readable hs s (p, n) ->
  wp (vault_aes_encrypt tid a p n) (ends_well (AesEncrypt a p n) hs) C e /\
  wp (vault_aes_decrypt tid a p n) (ends_well (AesDecrypt a p n) hs) C e.
Proof.
  intros Ho Hh Ha Hr. destruct a as [a|].
  2: { split; apply wp_bind, wp_clear; by apply wp_refused. }
  destruct (borrowed_aes hs C a Ho (Ha a eq_refl)) as [eng Heng].
  destruct (decide (is_null p = true)) as [Hn|Hn].
  { split; apply wp_bind, wp_clear; cbv beta iota; rewrite Hn; by apply wp_refused. }
  destruct (readable_reads hs C s p n Ho Hh Hr) as [bs Hbs]; [by intros ->|]. split.
  - eapply wp_mono; [by eapply (wp_encrypt tid)|]. intros r C' e' [rg Hans]. by eapply answers_end.
  - eapply wp_mono; [by eapply (wp_decrypt tid)|]. intros r C' e' Hans. by eapply answers_end.
Qed.

Lemma wp_derive_call p n q m hs s C e :
  owns hs C -> has C (heap s) -> readable hs s (p, n) -> readable hs s (q, m) ->
  wp (vault_aes_derive_key tid p n q m) (ends_well (AesDeriveKey p n q m) hs) C e.
Proof.
  intros Ho Hh Hp Hq.
  destruct (decide (is_null p || is_null q = true)) as [Hn|[Hn1 Hn2]%not_true_is_false%orb_false_iff].
  { apply wp_bind, wp_clear. cbv beta iota. rewrite Hn. by apply wp_refused. }
  destruct (readable_reads hs C s p n Ho Hh Hp) as [bs Hbs]; [by intros ->|].
  destruct (readable_reads hs C s q m Ho Hh Hq) as [salt Hsalt]; [by intros ->|].
  eapply wp_mono; [by eapply (wp_derive_key tid)|]. intros r C' e' Hans. by eapply answers_end.
Qed.

Lemma wp_create_call p n hs s C e :
  owns hs C -> has C (heap s) -> readable hs s (p, n) ->
  wp (vault_aes_create tid p n) (ends_well (AesCreate p n) hs) C e.
Proof.
  intros Ho Hh Hp. destruct (decide (is_null p = true)) as [Hn|Hn].
  { apply wp_bind, wp_clear. cbv beta iota. rewrite Hn. by apply wp_refused. }
  destruct (readable_reads hs C s p n Ho Hh Hp) as [bs Hbs]; [by intros ->|].
  eapply wp_mono; [by eapply (wp_aes_create tid)|]. cbv beta. intros r C' e'.
  destruct (AesEncryptionEngine.new bs) as [eng|err].
  - intros (a & -> & -> & ->). apply made_end; [constructor | done].
  - intros (-> & -> & ->). by apply failed_end.
Qed.

Lemma wp_chunk_call a p n hs s C e :
  owns hs C -> has C (heap s) -> (forall a', a = Some a' -> (KChunker, a') ∈ hs) -> readable hs s (p, n) ->
  wp (vault_chunker_chunk tid a p n) (ends_well (ChunkerChunk a p n) hs) C e.
Proof.
  intros Ho Hh Ha Hr. destruct a as [a|]; [|apply wp_bind, wp_clear; by apply wp_refused].
  destruct (borrowed_chunker hs C a Ho (Ha a eq_refl)) as (eng & Heng & Hok & Hk).
  destruct (is_null p && (0 <? n)) eqn:Hn.
  { apply wp_bind, wp_clear. cbv beta iota. rewrite Hn. by apply wp_refused. }
  destruct (readable_shows hs C s p n Ho Hh Hr Hn) as [bs Hbs].
  eapply wp_mono; [by eapply (wp_chunk tid)|]. cbv beta.
  intros r C' e' (cs & b0 & i & d & xs & ys & _ & -> & -> & Hx & Hy & HC).
  split; [|intros _; split; [done | by intros []]]. eapply owns_cons; [by apply fp_list|exact Ho|exact HC].
Qed.

Lemma wp_hash_call p n hs s C e :
  owns hs C -> has C (heap s) -> readable hs s (p, n) ->
  wp (vault_compute_hash tid p n) (ends_well (ComputeHash p n) hs) C e.
Proof.
  intros Ho Hh Hr. apply wp_bind, wp_clear. cbv beta iota.
  destruct (is_null p && (0 <? n)) eqn:Hn; [by apply wp_refused|].
  destruct (readable_shows hs C s p n Ho Hh Hr Hn) as [bs Hbs].
  apply wp_bind. eapply wp_shows; [exact Hbs|]. apply wp_string_into_raw; [apply hash_no_nul|].
  intros a. apply made_end; [constructor | done].
Qed.

Lemma wp_last_error hs C e : owns hs C -> wp (vault_last_error tid) (ends_well LastError hs) C e.
Proof.
  intros Ho s Hs He. unfold vault_last_error. destruct (errors s !! tid) as [msg|] eqn:Em.
  - case_bool_decide.
    + exists None, s. split; [done|]. split; [done|]. exists C. split; [done|]. by split.
    + assert (Hw : wp (a ← alloc (BString (b msg)); mret (Some a)) (ends_well LastError hs) C e).
      { apply wp_bind, wp_alloc. intros a. apply wp_ret. split; [|done].
        by eapply owns_cons; [apply (fp_string a (b msg))|exact Ho|]. }
      apply Hw; [done | by rewrite Em].
  - exists None, s. split; [done|]. split; [done|]. exists C. split; [done|]. by split.
Qed.

(** Every permitted call returns, and what it leaves is owned. *)
Lemma wp_call c hs s hs' C e :
  owns hs C -> has C (heap s) -> permitted hs s c hs' -> wp (exec tid c) (ends_well c hs') C e.
Proof.
  intros Ho Hh (Hf & Hb & Hi & Hc). destruct (frees c) as [h|] eqn:Ef; [by eapply wp_free_call|].
  subst hs'. destruct c as [[a|]| |[a|]| | |p n q m|p n|[a|]|a p n|a p n| |lo avg hi|[a|]|a p n|[a|]|p n];
    try discriminate Ef; cbn [exec inputs] in *;
    try (apply wp_void; [done|]; by apply wp_ret).
  - by apply wp_last_error.
  - apply wp_bind, wp_clear, wp_bind, wp_draw. intros rg. apply wp_from_vec. intros a d.
    by eapply (answers_end _ _ C (Ok _)); [done..|]; exists a, d.
  - apply wp_bind, wp_clear, wp_bind, wp_draw. intros rg. apply wp_from_vec. intros a d.
    by eapply (answers_end _ _ C (Ok _)); [done..|]; exists a, d.
  - apply Forall_cons in Hi as [Hp [Hq _]%Forall_cons]. by eapply wp_derive_call.
  - apply Forall_cons in Hi as [Hp _]. by eapply wp_create_call.
  - apply Forall_cons in Hi as [Hp _]. eapply (wp_encrypt_call a); try done. by intros a' ->.
  - apply Forall_cons in Hi as [Hp _]. eapply (wp_encrypt_call a); try done. by intros a' ->.
  - apply wp_bind, wp_clear, wp_bind, wp_alloc. intros a. apply wp_ret, made_end; [|done].
    constructor; [|done]. apply engine_new_ok. split; cbn; unfold USIZE_MAX; lia.
  - destruct Hc as (Hlo & Havg & Hhi). apply wp_bind, wp_clear, wp_bind.
    assert (Ec : Config.new lo avg hi = Done {| min_size := lo; avg_size := avg; max_size := hi |}).
    { unfold Config.new. replace (lo <=? avg) with true by lia. by replace (avg <=? hi) with true by lia. }
    eapply wp_of_run; [exact Ec|]. apply wp_bind, wp_alloc. intros a. apply wp_ret, made_end; [|done].
    constructor; [|done]. by apply engine_new_ok.
  - apply Forall_cons in Hi as [Hp _]. eapply wp_chunk_call; try done. by intros a' ->.
  - apply Forall_cons in Hi as [Hp _]. by eapply wp_hash_call.
Qed.
End Safety.

(** ** Properties *)

Section Properties.
  Context {R : Type} `{HashLaws, HexLaws, AeadLaws, Argon2Ops, RngLaws R}.
  Implicit Types s : state R.

Lemma call_safe tid c hs hs' s :
  well_typed hs s -> permitted hs s c hs' ->
  exists r s', exec tid c s = Returns (r, s') /\ well_typed (after c hs' r) s' /\
    (forall t, t <> tid -> errors s' !! t = errors s !! t) /\
    (reports c = true -> r = None <-> is_Some (errors s' !! tid)).
Proof.
  intros (C & Ho & Hh) Hp.
  destruct (wp_call tid c hs s hs' C (errors s !! tid) Ho Hh Hp s Hh eq_refl)
    as (r & s' & E & Ht & C' & Hh' & Ho' & He). exists r, s'. split; [done|].
  split; [by exists C'|]. done.
Qed.

(** C7: A caller that keeps to the documented contract (it passes objects it was
    given and has not freed, of the right kind, and readable memory) never
    causes undefined behaviour, a panic or an endless loop: every exported
    call returns, the heap afterwards is exactly what the handles the caller
    now holds own, no other thread's error changes, and a call that reports
    errors returns NULL exactly when it left one. *)
Theorem ffi_call_safe tid c hs hs' s :
  well_typed hs s -> permitted hs s c hs' ->
  exists r s', exec tid c s = Returns (r, s') /\ well_typed (after c hs' r) s' /\
    (forall t, t <> tid -> errors s' !! t = errors s !! t) /\
    (reports c = true -> r = None <-> is_Some (errors s' !! tid)).
Proof. apply call_safe. Qed.

Lemma reachable_typed hs s : reachable hs s -> well_typed hs s.
Proof.
  induction 1 as [s Hs|hs s tid c hs' r s' _ IH Hp E].
  - exists []. split; [constructor | by apply has_nil].
  - destruct (call_safe tid c hs hs' s IH Hp) as (r0 & s0 & E0 & Hw & _).
    rewrite E0 in E. by injection E as -> ->.
Qed.

(** [vault_*_free] on a handle. *)
Definition free_of (h : handle) : call :=
  match h with
  | (KBuffer, a) => BufferFree (Some a)
  | (KString, a) => ErrorFree (Some a)
  | (KAes, a) => AesFree (Some a)
  | (KChunker, a) => ChunkerFree (Some a)
  | (KList, a) => ChunkListFree (Some a)
  end.

Fixpoint exec_all (tid : Z) (cs : list call) : ffi R unit :=
  match cs with
  | [] => mret tt
  | c :: cs => _ ← exec tid c; exec_all tid cs
  end.

Lemma free_permitted h hs s : permitted (h :: hs) s (free_of h) hs.
Proof. unfold permitted. destruct h as [[] a]; cbn [free_of frees borrows inputs]; by split; [reflexivity|]. Qed.

Lemma void_null (m : ffi R unit) (s s' : state R) (r : ptr) :
  (_ ← m; mret None) s = Returns (r, s') -> r = None.
Proof. unfold mbind, ffi_bind, mret, ffi_ret. destruct (m s) as [[u s1]| | |]; congruence. Qed.

Lemma free_returns_null tid h (s s' : state R) r : exec tid (free_of h) s = Returns (r, s') -> r = None.
Proof. destruct h as [[] a]; apply void_null. Qed.

Lemma aes_raw_roundtrip (eng : AesEncryptionEngine.t) bs (rg : R) :
  Zlen bs <= 2 ^ 36 ->
  exists v, (AesEncryptionEngine.encrypt_raw eng bs rg).1 = Ok v /\
    AesEncryptionEngine.decrypt_raw eng v = Ok bs.
Proof.
  intros Hl. destruct (law_encrypt_decrypt (R := R) (E := AesEncryptionEngine.t) eng bs rg I Hl)
    as (v & rg' & E & D). exists v. split; [|exact D].
  change (AesEncryptionEngine.encrypt_raw eng bs rg) with (encrypt eng bs rg). by rewrite E.
Qed.

(** C34: Nothing leaks: from every state a caller can reach, when it holds nothing
    the heap is empty; and from every such state it can get there, by freeing
    what it holds, each handle once, in any order. *)
Theorem ffi_release_all tid hs s order :
  reachable hs s -> order ≡ₚ hs ->
  (hs = [] -> heap s = ∅) /\
  exists s', exec_all tid (map free_of order) s = Returns (tt, s') /\ heap s' = ∅.
Proof.
  intros Hr Hp. apply reachable_typed in Hr.
  assert (Hempty : forall s, well_typed [] s -> heap s = ∅).
  { intros s0 (C & Ho & Hh). inversion Ho. subst. by apply has_nil in Hh. }
  split; [intros ->; auto|].
  assert (Hw : well_typed order s).
  { destruct Hr as (C & Ho & Hh). exists C. split; [|done]. eapply owns_handles; [symmetry; exact Hp | exact Ho]. }
  clear Hp Hr hs. revert s Hw. induction order as [|h order IH]; intros s Hw.
  - exists s. split; [done|]. auto.
  - destruct (call_safe tid (free_of h) (h :: order) order s Hw (free_permitted h order s))
      as (r & s1 & E & Hw1 & _). pose proof (free_returns_null tid h s s1 r E) as ->.
    destruct (IH s1 Hw1) as (s' & Es & Hs). exists s'. split; [|done].
    cbn [map exec_all]. unfold mbind, ffi_bind. rewrite E. exact Es.
Qed.

(** Through the interface: what an engine's handle encrypts, read from the
    buffer that was returned, the same handle decrypts to the plaintext, in a
    second buffer; both calls leave no error. *)
Theorem ffi_aes_roundtrip tid a hs s bs :
  reachable hs s -> (KAes, a) ∈ hs -> Zlen bs <= 2 ^ 36 ->
  exists b1 d1 v1 s1 b2 d2 s2,
    exec tid (AesEncrypt (Some a) (CHost bs) (Zlen bs)) s = Returns (Some b1, s1) /\
    heap s1 !! b1 = Some (BBuffer d1 (Zlen v1)) /\ heap s1 !! d1 = Some (BBytes v1) /\
    exec tid (AesDecrypt (Some a) (CData d1) (Zlen v1)) s1 = Returns (Some b2, s2) /\
    heap s2 !! b2 = Some (BBuffer d2 (Zlen bs)) /\ heap s2 !! d2 = Some (BBytes bs) /\
    errors s2 !! tid = None.
Proof.
  intros (C & Ho & Hh)%reachable_typed Ha Hl.
  destruct (borrowed_aes hs C a Ho Ha) as [eng Heng].
  destruct (wp_encrypt tid a eng (CHost bs) (Zlen bs) bs C (errors s !! tid) Heng)
    with (s := s) as (r1 & s1 & E1 & _ & C1 & Hh1 & rg & Hans1); [|done|done|].
  { split; [lia|]. by rewrite Nat2Z.id, firstn_all. }
  destruct (aes_raw_roundtrip eng bs rg Hl) as (v1 & Ev & Dv). rewrite Ev in Hans1.
  destruct Hans1 as (b1 & d1 & -> & -> & _).
  assert (Heng1 : (a, BAes eng) ∈ (b1, BBuffer d1 (Zlen v1)) :: (d1, BBytes v1) :: C)
    by (do 2 right; exact Heng).
  destruct (wp_decrypt (R := R) tid a eng (CData d1) (Zlen v1) v1 _ (errors s1 !! tid) Heng1) with (s := s1) as (r2 & s2 & E2 & _ & C2 & Hh2 & Hans2); [|exact Hh1|done|].
  { exists v1. split; [right; by left|]. split; [lia|]. by rewrite Nat2Z.id, firstn_all. }
  rewrite Dv in Hans2. destruct Hans2 as (b2 & d2 & -> & -> & He).
  exists b1, d1, v1, s1, b2, d2, s2.
  split; [done|]. split; [eapply has_lookup; [exact Hh1|by left]|].
  split; [eapply has_lookup; [exact Hh1|right; by left]|]. split; [done|].
  split; [eapply has_lookup; [exact Hh2|by left]|].
  split; [eapply has_lookup; [exact Hh2|right; by left]|done].
Qed.

(** A custom chunker's sizes are not reported as the documented NULL: the call
    aborts exactly when they are not in order. *)
Theorem chunker_custom_aborts_iff tid lo avg hi s :
  (exists why, exec tid (ChunkerCreateCustom lo avg hi) s = Aborts why) <-> ~ (lo <= avg <= hi).
Proof.
  cbn [exec]. unfold vault_chunker_create_custom, mbind, ffi_bind, clear_last_error, of_run, Config.new.
  destruct (Z.leb_spec lo avg), (Z.leb_spec avg hi); cbn [negb]; split; try lia;
    try (by eexists); intros [why E]; done.
Qed.
End Properties.

(** ** On concrete input *)

Definition start_state : state Z := {| heap := ∅; errors := ∅; rng := 7 |}.
Definition ffi_key : data_ptr := CHost (replicate 32 (as_u8 1)).

Lemma started : well_typed [] start_state.
Proof. exists []. split; [constructor | by apply has_nil]. Qed.

(** An engine created, and held. *)
Definition created : outcome (ptr * state Z) := exec 1 (AesCreate ffi_key 32) start_state.
Definition created_state : state Z :=
  match created with Returns (_, s) => s | _ => start_state end.

Lemma created_reachable : reachable [(KAes, 1%positive)] created_state.
Proof.
  apply (reach_call [] start_state 1 (AesCreate ffi_key 32) [] (Some 1%positive) created_state).
  - by constructor.
  - split; [done|]. split; [done|]. split; [|done]. by repeat constructor.
  - vm_compute. reflexivity.
Qed.

Lemma ffi_call_safe_witness :
  exists r s', exec 1 (AesCreate ffi_key 31) start_state = Returns (r, s') /\
    (r = None <-> is_Some (errors s' !! 1)).
Proof.
  destruct (ffi_call_safe 1 (AesCreate ffi_key 31) [] [] start_state) as (r & s' & E & _ & _ & He).
  - exact started.
  - split; [done|]. split; [done|]. split; [|done]. by repeat constructor.
  - exists r, s'. split; [exact E | by apply He].
Defined.

Lemma ffi_release_all_witness :
  exists s', exec_all 1 [AesFree (Some 1%positive)] created_state = Returns (tt, s') /\ heap s' = ∅.
Proof.
  apply (ffi_release_all 1 [(KAes, 1%positive)] created_state [(KAes, 1%positive)]);
    [exact created_reachable | reflexivity].
Defined.

Lemma ffi_aes_roundtrip_witness :
  exists b1 d1 (v1 : bytes) s1 b2 s2,
    exec 1 (AesEncrypt (Some 1%positive) (CHost (b "Hello, FFI!")) 11) created_state = Returns (Some b1, s1) /\
    exec 1 (AesDecrypt (Some 1%positive) (CData d1) (Zlen v1)) s1 = Returns (Some b2, s2) /\
    exists d2, heap s2 !! b2 = Some (BBuffer d2 11) /\ heap s2 !! d2 = Some (BBytes (b "Hello, FFI!")).
Proof.
  destruct (ffi_aes_roundtrip 1 1%positive [(KAes, 1%positive)] created_state (b "Hello, FFI!"))
    as (b1 & d1 & v1 & s1 & b2 & d2 & s2 & E1 & _ & _ & E2 & Hb & Hd & _).
  - exact created_reachable.
  - by left.
  - vm_compute. discriminate.
  - exists b1, d1, v1, s1, b2, s2. split; [exact E1|]. split; [exact E2|]. exists d2. split; [exact Hb | exact Hd].
Defined.
