(* ===== verification/Legacy.v ===== *)
(** [gitcellar-crypto/src/legacy_extract.rs]: the raw Ed25519 keypair of an
    OpenPGP certificate whose primary key it is. *)

From S2P Require Import Prelude Bytes Utf8 Interfaces Toy.

Inductive LegacyExtractError : Type :=
  | BadCert (m : string)
  | NotEd25519 (m : string)
  | NoSecretMaterial
  | EncryptedSecret
  | PubkeyMismatch.

Record LegacyEd25519Keypair : Type := { secret_seed : bytes; public_key : bytes }.

(** What [sequoia_openpgp] shows of a primary key: its public and secret numbers,
    as stored (without leading zeros). *)
Inductive curve : Type := Ed25519 | OtherCurve.
Inductive public_mpis : Type := PubEdDSA (c : curve) (q : bytes) | PubOther.
Inductive secret_mpis : Type := SecEdDSA (scalar : bytes) | SecOther.
Inductive primary_secret : Type := Unencrypted (s : secret_mpis) | Encrypted.

Class PrimaryOps (Cert : Type) : Type := {
  primary_mpis : Cert -> public_mpis;
  optional_secret : Cert -> option primary_secret;
  (* [MPI::value_padded] fails on a longer value, [ProtectedMPI]'s returns it *)
  value_padded : nat -> bytes -> option bytes;
  protected_padded : nat -> bytes -> bytes;
}.

(** Both pad with zeros in front. *)
Class PrimaryLaws (Cert : Type) `{PrimaryOps Cert} : Prop := {
  value_padded_spec n k x : (k + length x = n)%nat -> value_padded n x = Some (replicate k NUL ++ x);
  protected_padded_spec n k x : (k + length x = n)%nat -> protected_padded n x = replicate k NUL ++ x;
}.

Section Extract.
  Context {Cert : Type} `{PgpOps Cert, PrimaryOps Cert, Ed25519Ops}.

Definition ed25519_public_from_cert (c : Cert) : result LegacyExtractError bytes :=
  let? public_bytes :=
    (match primary_mpis c with
     | PubEdDSA cv q =>
         match cv with
         | Ed25519 =>
             let? padded := ok_or (value_padded 33 q) (BadCert "{}") in
             match padded with
             | p0 :: rest =>
                 if negb (Zlen padded =? 33) || negb (bool_decide (p0 = Byte.x40))
                 then Err (BadCert "unexpected Ed25519 public-point encoding (len={}, prefix=0x{:02x})")
                 else Ok (take 32 rest)
             | [] => Err (BadCert "unexpected Ed25519 public-point encoding (len={}, prefix=0x{:02x})")
             end
         | OtherCurve => Err (NotEd25519 "{:?}")
         end
     | PubOther => Err (NotEd25519 "{:?}")
     end) in
  if ed_point public_bytes then Ok public_bytes else Err (BadCert "{}").

Definition extract_ed25519_keypair (secret_pgp_bytes : bytes)
    : result LegacyExtractError LegacyEd25519Keypair :=
  let? c := ok_or (cert_parse secret_pgp_bytes) (BadCert "{}") in
  let? public_bytes := ed25519_public_from_cert c in
  let? seed :=
    (match optional_secret c with
     | Some (Unencrypted (SecEdDSA scalar)) =>
         let padded := protected_padded 32 scalar in
         if negb (Zlen padded =? 32) then Err (BadCert "Ed25519 scalar has unexpected length {}")
         else Ok padded
     | Some (Unencrypted SecOther) => Err (NotEd25519 "{:?}")
     | Some Encrypted => Err EncryptedSecret
     | None => Err NoSecretMaterial
     end) in
  if negb (bool_decide (ed_public seed = public_bytes)) then Err PubkeyMismatch
  else if negb (ed_point public_bytes) then Err (BadCert "{}")
  else Ok {| secret_seed := seed; public_key := public_bytes |}.

Definition extract_ed25519_public_key (public_pgp_bytes : bytes) : result LegacyExtractError bytes :=
  let? c := ok_or (cert_parse public_pgp_bytes) (BadCert "{}") in
  ed25519_public_from_cert c.

Definition armored_public_key (public_pgp_bytes : bytes) : result LegacyExtractError bytes :=
  let? c := ok_or (cert_parse public_pgp_bytes) (BadCert "{}") in
  let? buf := ok_or (cert_public_armor c) (BadCert "{}") in
  ok_or (from_utf8 buf) (BadCert "{}").
End Extract.

(** ** Lemmas *)

(** A number as OpenPGP stores it. *)
Fixpoint strip_zeros (x : bytes) : bytes :=
  match x with
  | c :: x' => if bool_decide (c = NUL) then strip_zeros x' else x
  | [] => []
  end.

Lemma strip_zeros_pad x : exists k, (k + length (strip_zeros x) = length x)%nat /\
  replicate k NUL ++ strip_zeros x = x.
Proof.
  induction x as [|c x IH]; cbn [strip_zeros]; [by exists O|].
  case_bool_decide as Hc.
  - destruct IH as (k & Hk & E). exists (S k). cbn. split; [lia|]. by rewrite E, Hc.
  - by exists O.
Qed.

Section Correct.
  Context {Cert : Type} `{PrimaryLaws Cert, Ed25519Laws} `{!PgpOps Cert}.

Lemma public_from_cert_stored (c : Cert) (seed : bytes) :
  primary_mpis c = PubEdDSA Ed25519 (strip_zeros (Byte.x40 :: ed_public seed)) ->
  ed25519_public_from_cert c = Ok (ed_public seed).
Proof.
  intros Hp. unfold ed25519_public_from_cert. rewrite Hp.
  destruct (strip_zeros_pad (Byte.x40 :: ed_public seed)) as (k & Hk & E).
  rewrite (value_padded_spec _ k) by (cbn [length] in Hk; rewrite ed_public_length in Hk; lia).
  rewrite E. cbn [ok_or rbind length]. rewrite ed_public_length. cbn [Z.of_nat negb orb].
  rewrite bool_decide_true, take_ge by (done || by rewrite ed_public_length).
  change (negb (Z.of_nat 33 =? 33) || negb true) with false. cbn [rbind]. by rewrite ed_point_public.
Qed.

(** Migrating a legacy certificate: whatever is extracted is a 32-byte seed
    and the public key it derives, the one the public part of the certificate
    shows; and of a certificate that stores an Ed25519 key unencrypted the
    seed itself is extracted, leading zeros included. *)
Theorem legacy_extract_spec (bs : bytes) (c : Cert) (seed : bytes) :
  cert_parse bs = Some c ->
  (forall kp, extract_ed25519_keypair bs = Ok kp ->
     length (secret_seed kp) = 32%nat /\ public_key kp = ed_public (secret_seed kp) /\
     extract_ed25519_public_key bs = Ok (public_key kp)) /\
  (length seed = 32%nat ->
   primary_mpis c = PubEdDSA Ed25519 (strip_zeros (Byte.x40 :: ed_public seed)) ->
   optional_secret c = Some (Unencrypted (SecEdDSA (strip_zeros seed))) ->
   extract_ed25519_keypair bs = Ok {| secret_seed := seed; public_key := ed_public seed |}) /\
  (optional_secret c = None -> is_err (extract_ed25519_keypair bs) = true).
Proof.
  intros Hc. unfold extract_ed25519_keypair, extract_ed25519_public_key. rewrite Hc.
  cbn [ok_or rbind]. split; [|split].
  - intros kp E. destruct (ed25519_public_from_cert c) as [pk|]; [|done]. cbn [rbind] in E.
    destruct (optional_secret c) as [[[scalar|]|]|]; try done. cbn zeta in E.
    destruct (Z.eqb_spec (Zlen (protected_padded 32 scalar)) 32) as [Hl|]; [|done].
    cbn [negb rbind] in E. case_bool_decide as Hk; [|done]. cbn [negb] in E.
    destruct (ed_point pk); [|done]. injection E as <-. cbn. split; [lia|]. by rewrite Hk.
  - intros Hl Hp Hs. rewrite (public_from_cert_stored c seed Hp), Hs. cbn [rbind]. cbn zeta.
    destruct (strip_zeros_pad seed) as (k & Hk & E).
    rewrite (protected_padded_spec _ k), E, Hl by lia.
    change (negb (Z.of_nat 32 =? 32)) with false. cbn [rbind].
    rewrite bool_decide_true by done. cbn [negb]. by rewrite ed_point_public.
  - intros ->. by destruct (ed25519_public_from_cert c).
Qed.
End Correct.

(** ** On concrete input *)

Definition legacy_seed : bytes := NUL :: replicate 31 (as_u8 9).

#[local] Instance toy_primary : PrimaryOps bytes := {|
  primary_mpis _ := PubEdDSA Ed25519 (strip_zeros (Byte.x40 :: ed_public legacy_seed));
  optional_secret c := match c with [] => None | _ => Some (Unencrypted (SecEdDSA (strip_zeros legacy_seed))) end;
  value_padded n x := if (length x <=? n)%nat then Some (replicate (n - length x) NUL ++ x) else None;
  protected_padded n x := replicate (n - length x) NUL ++ x;
|}.

#[local] Instance toy_primary_laws : PrimaryLaws bytes.
Proof.
  split; cbn [value_padded protected_padded toy_primary]; intros n k x <-.
  - replace (length x <=? k + length x)%nat with true by (symmetry; apply Nat.leb_le; lia).
    by rewrite Nat.add_sub.
  - by rewrite Nat.add_sub.
Qed.

Lemma legacy_extract_spec_witness :
  extract_ed25519_keypair (b "secret.pgp") =
    Ok {| secret_seed := legacy_seed; public_key := ed_public legacy_seed |}.
Proof. apply (legacy_extract_spec (b "secret.pgp") (b "secret.pgp") legacy_seed); reflexivity. Defined.
