(* ===== verification/Engine.v ===== *)
(** The [EncryptionEngine] constructors of [gitcellar-crypto/src/encryption.rs],
    and [gitcellar-identity/src/lib.rs], which fixes GitCellar's configuration
    for the operations of passkey-core. *)

From S2P Require Import Prelude Bytes Utf8 Interfaces Toy Fs PasskeyError Users MultiUser.
From S2P Require Import KeyWrap Identity MachineId Signing Account Credentials.

Local Open Scope gc_scope.

(** ** The engine of an identity *)

Section Engine.
  Context {Cert K R : Type} `{PgpOps Cert, CertOps Cert R}.
  Context `{HashOps, AeadOps, Base64Ops, Platform, LpkStore K, RngOps R}.
  Variable env : Env.

(** The engine keeps the identity's certificate; its user id is not used. *)
Definition engine_new (i : Identity Cert) : result CryptoError (EncryptionEngine Cert) :=
  if negb (has_encryption_key i) then Err CryptoError.NoEncryptionKey
  else Ok {| ee_cert := cert i; key_version := None |}.

Definition from_default_identity : stateful (Host K R) CryptoError (EncryptionEngine Cert) :=
  let* identity := of_passkey (load_active env) in
  sret (engine_new identity).

Definition engine_fingerprint (e : EncryptionEngine Cert) : bytes := cert_fingerprint (ee_cert e).

Definition engine_key_id (e : EncryptionEngine Cert) : bytes :=
  key_id {| cert := ee_cert e; user_id := first_user_id (ee_cert e) |}.

Definition engine_export_public_key (e : EncryptionEngine Cert) : result CryptoError bytes :=
  map_err CryptoError.from_passkey
    (export_public_key {| cert := ee_cert e; user_id := first_user_id (ee_cert e) |}).
End Engine.

(** ** GitCellar's identities *)

Module GcIdentity.
Section GcIdentity.
  Context {Cert K R : Type} `{PgpOps Cert, CertOps Cert R, Codec UserInfo, UnicodeOps}.
  Context `{HashOps, AeadOps, Base64Ops, Platform, LpkStore K, RngOps R}.
  Variable env : Env.

Definition config : PasskeyConfig := gitcellar.

Definition gitcellar_config : PasskeyConfig := config.

Definition machine_id (i : Identity Cert) : bytes := derive_machine_id_from_identity config i.
Definition is_valid_gcm_machine_id (m : bytes) : bool := is_valid_machine_id config m.

Definition identity_exists (f : fs) (username : bytes) : bool := exists_for_user config f username.
Definition exists_user (f : fs) (username : bytes) : bool := exists_for_user config f username.
Definition generate (uid : bytes) : stateful (Host K R) PasskeyError (Identity Cert) :=
  Identity.generate uid.
Definition load (username : bytes) : stateful (Host K R) PasskeyError (Identity Cert) :=
  load_user env config username.
Definition save (i : Identity Cert) (username : bytes) : stateful (Host K R) PasskeyError unit :=
  save_for_user env config i username.

Definition evaluate_state (f : fs) : IdentityState := MultiUser.evaluate_state config f.
Definition repair_state (f : fs) : result PasskeyError IdentityState * fs :=
  MultiUser.repair_state config f.
Definition list_users (f : fs) : list bytes := MultiUser.list_users config f.
Definition get_active_user (f : fs) : option bytes := MultiUser.get_active_user config f.
Definition set_active_user (f : fs) (username : bytes) : result PasskeyError unit * fs :=
  MultiUser.set_active_user config f username.
Definition clear_active_user (f : fs) : result PasskeyError unit * fs :=
  MultiUser.clear_active_user config f.
Definition is_multi_user (f : fs) : bool := MultiUser.is_multi_user config f.
Definition get_user_info (f : fs) (username : bytes) : option UserInfo :=
  MultiUser.get_user_info config f username.
Definition save_user_info (f : fs) (username : bytes) (info : UserInfo) : result PasskeyError unit * fs :=
  MultiUser.save_user_info config f username info.
Definition get_current_user_info (f : fs) : option UserInfo :=
  MultiUser.get_current_user_info config f.
Definition create_user (f : fs) (username : bytes) : result PasskeyError unit * fs :=
  MultiUser.create_user config f username.
Definition delete_user (f : fs) (username : bytes) : result PasskeyError unit * fs :=
  MultiUser.delete_user config f username.
Definition user_exists (f : fs) (username : bytes) : bool := MultiUser.user_exists config f username.
Definition user_has_identity (f : fs) (username : bytes) : bool :=
  MultiUser.user_has_identity config f username.

Definition derive_machine_id_from_public_key (public_key : bytes) : result PasskeyError bytes :=
  derive_machine_id config public_key.
Definition verify_machine_id (public_key claimed : bytes) : result PasskeyError bool :=
  MachineId.verify_machine_id config public_key claimed.
Definition auth_machine_id (i : Identity Cert) : bytes := derive_machine_id_from_identity config i.
Definition is_valid_machine_id (m : bytes) : bool := MachineId.is_valid_machine_id config m.

Definition credential_store `{KeyringOps K} : CredentialBackend K := keyring_backend (app_name config).

Definition config_dir : path := Users.config_dir config.
Definition users_dir : path := Users.users_dir config.
Definition user_dir (username : bytes) : path := Users.user_dir config username.
Definition identity_dir (username : bytes) : path := Users.identity_dir config username.
End GcIdentity.
End GcIdentity.

(** ** Lemmas *)

Section Keys.
  Context {Cert R : Type} `{PgpOps Cert, CertOps Cert R}.

(** A usable transport key is both a recipient and able to decrypt. *)
Lemma has_encryption_key_iff (i : Identity Cert) :
  has_encryption_key i = true ->
  exists k, k ∈ encryption_recipients (cert i) /\ k ∈ decryption_keys (cert i).
Proof.
  unfold has_encryption_key, usable_secret. rewrite existsb_exists. intros (k & Hk & Hu).
  exists k. rewrite !list_elem_of_In. unfold encryption_recipients, decryption_keys.
  rewrite !filter_In. unfold live, has_secret.
  destruct (kv_supported k), (kv_alive k), (kv_revoked k), (kv_for_transport k), (kv_secret k); done.
Qed.
End Keys.

Section Default.
  Context {Cert K R : Type} `{CertLaws Cert R}.
  Context `{HashOps, AeadLaws, Base64Ops, NoLinks, LpkStoreLaws K, RngLaws R}.
  Context `{!PgpMessageOps, !PgpMessageLaws Cert}.
  Variable env : Env.

(** C33: From a saved identity to readable data: after a save, a later process that
    starts from the files finds the identity, makes its engine exactly when it
    has a usable encryption key, and with it reads whatever was encrypted to
    the identity's certificate. *)
Theorem default_engine_decrypts (i : Identity Cert) (h h1 : Host K R) data msg :
  h_cache h = None -> save_identity env i h = (Ok tt, h1) ->
  (exists k, h_cache h1 = Some (k, OsKeyring)) \/
  (os_keyring_persistent env = false /\ headless_secret_file env = None) ->
  Forall (fun k => kv_secret k <> Some EncryptedSecret) (decryption_keys (cert i)) ->
  encrypt_data {| ee_cert := cert i; key_version := None |} data = Ok msg ->
  exists h2,
    if has_encryption_key i
    then exists e, from_default_identity env (with_cache None h1) = (Ok e, h2) /\
           decrypt_data e msg = Ok data
    else from_default_identity env (with_cache None h1) = (Err CryptoError.NoEncryptionKey, h2).
Proof.
  intros Hc Hs Hsrc Hf He. destruct (saved_active_loads env i h h1 Hc Hs Hsrc) as (_ & h2 & Hl).
  exists h2. unfold load_active_identity in Hl.
  assert (E : from_default_identity env (with_cache None h1) =
    (engine_new {| cert := cert i; user_id := first_user_id (cert i) |}, h2)).
  { unfold from_default_identity, sbind. by rewrite Hl. }
  rewrite E. unfold engine_new.
  change (has_encryption_key {| cert := cert i; user_id := first_user_id (cert i) |})
    with (has_encryption_key i).
  destruct (has_encryption_key i) eqn:Hk; cbn [negb]; [|done].
  destruct (has_encryption_key_iff i Hk) as (k & Hr & Hd).
  eexists. split; [reflexivity|].
  by eapply (encrypted_decrypts {| ee_cert := cert i; key_version := None |} _ data msg k k).
Qed.
End Default.

Lemma default_engine_decrypts_witness :
  exists h2 e, from_default_identity (demo_env true)
    (with_cache None (save_identity (demo_env true) alice account_host).2) = (Ok e, h2) /\
    decrypt_data e (b "for alice") = Ok (b "for alice").
Proof.
  pose (s := save_identity (demo_env true) alice account_host).
  assert (Es : s.1 = Ok tt) by (vm_compute; reflexivity).
  destruct (default_engine_decrypts (demo_env true) alice account_host s.2 (b "for alice") (b "for alice"))
    as (h2 & e & E & D).
  - reflexivity.
  - rewrite <- Es. apply surjective_pairing.
  - left. exists (replicate 32 (as_u8 9)). vm_compute. reflexivity.
  - repeat constructor; by intros [=].
  - reflexivity.
  - exists h2, e. split; [exact E | exact D].
Defined.
