(* ===== verification/Installation.v ===== *)
(** An installation over time: any sequence of the user operations of
    [passkey-core/src/multi_user], with any names, on any file system.

    [session] is the reachability relation of the operations; its invariants are
    proved by induction on it from what one operation changes. *)

From S2P Require Import Prelude Bytes Utf8 Interfaces Toy Fs PasskeyError Users MultiUser.

(** ** File trees: an entry's parent is a directory *)

Definition tree (f : fs) : Prop :=
  forall d x, is_Some (node_at f (d ++ [x])) -> node_at f d = Some Dir.

Lemma prefix_parent p d x : d ++ [x] ∈ prefixes p -> d = [] \/ d ∈ prefixes p.
Proof.
  unfold prefixes. intros (n & E & Hn)%list_elem_of_fmap. apply elem_of_seq in Hn.
  destruct (decide (d = [])) as [|Hd]; [by left|]. right. apply list_elem_of_fmap.
  assert (Hl : length (d ++ [x]) = n) by (rewrite E, length_take; lia).
  rewrite length_app in Hl. cbn in Hl. exists (length d). split.
  - apply (f_equal (take (length d))) in E. rewrite take_app_length, take_take in E.
    by rewrite E at 1; f_equal; lia.
  - apply elem_of_seq. destruct d; [done|]. cbn in *. lia.
Qed.

Lemma create_dir_all_tree f p f' : create_dir_all f p = Ok f' -> tree f -> tree f'.
Proof.
  intros E Ht d x Hs. destruct (mkdirs_ok _ _ _ (prefixes_ne p) E) as [H1 H2].
  destruct (H2 (d ++ [x])) as [Hx|(_ & Hp & _)].
  - rewrite Hx in Hs. apply Ht in Hs. destruct (H2 d) as [->|(? & _)]; congruence.
  - apply prefix_parent in Hp as [->|Hp]; [done | auto].
Qed.

Lemma fs_write_parent f p c f' :
  fs_write f p c = Ok f' -> exists d x, p = d ++ [x] /\ node_at f d = Some Dir.
Proof.
  destruct (decide (p = [])) as [->|Hp]; [done|]. destruct (exists_last Hp) as (d & x & ->).
  unfold fs_write. rewrite parent_snoc. destruct (node_at f d) as [[?| |]|] eqn:E; try done.
  intros _. by exists d, x.
Qed.

Lemma fs_write_tree f p c f' : fs_write f p c = Ok f' -> tree f -> tree f'.
Proof.
  intros E Ht d x Hs. apply (fs_write_dir _ _ _ _ _ E).
  destruct (fs_write_parent _ _ _ _ E) as (d0 & x0 & -> & Hd).
  apply fs_write_ok in E as [Hne ->].
  destruct (decide (d0 ++ [x0] = d ++ [x])) as [[-> _]%app_inj_tail|Hq]; [done|].
  apply (Ht d x). by rewrite node_at_insert_ne in Hs by done.
Qed.

Lemma remove_file_tree f p f' : remove_file f p = Ok f' -> tree f -> tree f'.
Proof.
  intros (Hne & -> & c & Hc)%remove_file_ok Ht d x Hs.
  destruct (decide (p = d ++ [x])) as [->|Hq]; [by rewrite node_at_delete in Hs by done; destruct Hs|].
  rewrite node_at_delete_ne in Hs by done. apply Ht in Hs. rewrite node_at_delete_ne; congruence.
Qed.

Lemma under_snoc p d x : under p d = true -> under p (d ++ [x]) = true.
Proof.
  unfold under. intros (r & ->)%starts_with_true. apply starts_with_true.
  exists (r ++ [x]). by rewrite app_assoc.
Qed.

Lemma remove_dir_all_tree f p f' : remove_dir_all f p = Ok f' -> tree f -> tree f'.
Proof.
  intros E Ht d x Hs. rewrite (remove_dir_all_node _ _ _ _ E) in Hs by (by destruct d).
  destruct (under p (d ++ [x])) eqn:Eu; [by destruct Hs|]. apply Ht in Hs.
  destruct (decide (d = [])) as [->|Hd]; [done|]. rewrite (remove_dir_all_node _ _ _ _ E) by done.
  destruct (under p d) eqn:Ed; [|done]. by rewrite (under_snoc p d x) in Eu.
Qed.

(** ** Sessions *)

Inductive operation : Type :=
  | CreateUser (name : bytes)
  | DeleteUser (name : bytes)
  | SetActiveUser (name : bytes)
  | ClearActiveUser
  | SaveUserInfo (name : bytes) (info : UserInfo)
  | RepairState.

(** The user whose directory an operation is for. *)
Definition directory_of (o : operation) : option bytes :=
  match o with
  | CreateUser name | DeleteUser name | SaveUserInfo name _ => Some name
  | SetActiveUser _ | ClearActiveUser | RepairState => None
  end.

Section Session.
  Context `{NoLinks} `{Codec UserInfo}.
  Variable c : PasskeyConfig.

Definition perform (o : operation) (f : fs) : fs :=
  match o with
  | CreateUser name => (create_user c f name).2
  | DeleteUser name => (delete_user c f name).2
  | SetActiveUser name => (set_active_user c f name).2
  | ClearActiveUser => (clear_active_user c f).2
  | SaveUserInfo name info => (save_user_info c f name info).2
  | RepairState => (repair_state c f).2
  end.

Inductive session (f : fs) : list operation -> fs -> Prop :=
  | session_start : session f [] f
  | session_step ops f1 o : session f ops f1 -> session f (ops ++ [o]) (perform o f1).

(** A pointer file that no operation wrote, or one that names a valid directory. *)
Definition valid_pointer (n : option node) : Prop :=
  n = None \/ exists u, n = Some (File u) /\ validate_user_dir_name u = Ok tt.

(** What operations for the users [owner] may do to the entry at [q]. *)
Definition confined (owner : bytes -> Prop) (f f' : fs) (q : path) : Prop :=
  node_at f' q = node_at f q \/
  (q = active_user_path c /\ valid_pointer (node_at f' q)) \/
  (q ∈ prefixes (users_dir c) /\ node_at f q = None /\ node_at f' q = Some Dir) \/
  (exists u, owner u /\ validate_user_dir_name u = Ok tt /\
     under (users_dir c ++ [u]) q = true).

Record step_ok (owner : bytes -> Prop) (f f' : fs) : Prop := {
  step_tree : tree f -> tree f';
  step_confined q : confined owner f f' q;
}.

Lemma step_same owner f : step_ok owner f f.
Proof. split; [done|]. by left. Qed.

(** The missing prefixes of a path in a user's directory, or of the users
    directory. *)
Lemma prefix_below u l q :
  q ∈ prefixes (users_dir c ++ [u] ++ l) ->
  q ∈ prefixes (users_dir c) \/ under (users_dir c ++ [u]) q = true.
Proof.
  unfold prefixes. intros (n & -> & Hn)%list_elem_of_fmap. apply elem_of_seq in Hn.
  destruct (decide (n <= length (users_dir c))%nat) as [Hle|Hgt].
  - left. apply list_elem_of_fmap. exists n. split; [by rewrite take_app_le|].
    apply elem_of_seq. lia.
  - right. apply starts_with_true. exists (take (n - S (length (users_dir c))) l).
    rewrite app_assoc. rewrite !length_app in Hn. cbn in Hn.
    replace n with (length (users_dir c ++ [u]) + (n - S (length (users_dir c))))%nat at 1
      by (rewrite length_app; cbn; lia).
    by rewrite take_app_add.
Qed.

Lemma create_below_ok (owner : bytes -> Prop) u l f f' :
  owner u -> validate_user_dir_name u = Ok tt ->
  create_dir_all f (users_dir c ++ [u] ++ l) = Ok f' -> step_ok owner f f'.
Proof.
  intros Ho Hv E. split; [by eapply create_dir_all_tree|]. intros q.
  destruct (mkdirs_ok _ _ _ (prefixes_ne _) E) as [_ H2].
  destruct (H2 q) as [|(Hn & Hp & Hd)]; [by left|]. right; right.
  apply prefix_below in Hp as [Hp|Hu]; [by left|]. right. by exists u.
Qed.

Lemma active_not_prefix : active_user_path c ∉ prefixes (users_dir c).
Proof.
  unfold prefixes. intros (n & E & _)%list_elem_of_fmap. pose proof (f_equal length E) as Hl.
  unfold active_user_path, users_dir in *. rewrite length_take, !length_app in Hl. cbn in Hl.
  rewrite take_ge in E by (rewrite length_app; cbn; lia). by apply app_inv_head in E.
Qed.

Lemma confined_trans owner f1 f2 f3 q :
  confined owner f1 f2 q -> confined owner f2 f3 q -> confined owner f1 f3 q.
Proof.
  unfold confined. pose proof active_not_prefix as Hap.
  intros C1 [E|[?|[(Hp & Hn & Hd)|?]]]; [by rewrite E | tauto | | tauto].
  destruct C1 as [C1|[[-> _]|[(_ & _ & Hd')|?]]]; [|done|congruence|tauto].
  rewrite <- C1. tauto.
Qed.

Lemma step_trans owner f1 f2 f3 : step_ok owner f1 f2 -> step_ok owner f2 f3 -> step_ok owner f1 f3.
Proof. intros [T1 C1] [T2 C2]. split; [auto|]. intros q. by eapply confined_trans. Qed.

Lemma step_mono (P Q : bytes -> Prop) f f' : (forall u, P u -> Q u) -> step_ok P f f' -> step_ok Q f f'.
Proof.
  intros Hpq [Ht Hc]. split; [done|]. intros q. destruct (Hc q) as [?|[?|[?|(u & ? & ? & ?)]]];
    [by left | by right; left | by right; right; left | right; right; right; eauto].
Qed.

Lemma write_below_ok (owner : bytes -> Prop) u n s f f' :
  owner u -> validate_user_dir_name u = Ok tt ->
  fs_write f (users_dir c ++ [u; n]) s = Ok f' -> step_ok owner f f'.
Proof.
  intros Ho Hv E. split; [by eapply fs_write_tree|]. intros q.
  apply fs_write_ok in E as [Hne ->].
  destruct (decide (q = users_dir c ++ [u; n])) as [->|Hq].
  - right; right; right. exists u. split; [done|]. split; [done|]. apply starts_with_true.
    exists [n]. by rewrite <- app_assoc.
  - left. by apply node_at_insert_ne.
Qed.

(** ** Every operation stays within its bounds *)

Lemma set_active_ok owner f name : step_ok owner f (set_active_user c f name).2.
Proof.
  unfold set_active_user. destruct (validate_user_dir_name name) as [[]|] eqn:Hv; [|apply step_same].
  unfold create_parent. rewrite active_path_parent. unfold io_then.
  destruct (create_dir_all f (config_dir c)) as [f1|] eqn:E1; [|apply step_same].
  assert (S1 : step_ok owner f f1).
  { split; [by eapply create_dir_all_tree|]. intros q.
    destruct (mkdirs_ok _ _ _ (prefixes_ne _) E1) as [_ H2].
    destruct (H2 q) as [|(Hn & Hp & Hd)]; [by left|]. right; right; left. split; [|done].
    unfold prefixes, users_dir in *. apply list_elem_of_fmap in Hp as (n & -> & Hn').
    apply elem_of_seq in Hn'. apply list_elem_of_fmap. exists n.
    split; [by rewrite take_app_le by lia|]. apply elem_of_seq. rewrite length_app. lia. }
  destruct (fs_write f1 _ name) as [f2|] eqn:E2; cbn [snd]; [|done].
  apply (step_trans _ _ f1); [done|]. split; [by eapply fs_write_tree|]. intros q.
  apply fs_write_ok in E2 as [Hne ->]. destruct (decide (q = active_user_path c)) as [->|Hq].
  - right; left. split; [done|]. right. exists name. by rewrite node_at_insert.
  - left. by apply node_at_insert_ne.
Qed.

Lemma clear_active_ok owner f : step_ok owner f (clear_active_user c f).2.
Proof.
  unfold clear_active_user. destruct (exists_ f _); [|apply step_same]. unfold io_then.
  destruct (remove_file f _) as [f1|] eqn:E; cbn [snd]; [|apply step_same].
  split; [by eapply remove_file_tree|]. intros q. apply remove_file_ok in E as (Hne & -> & _).
  destruct (decide (q = active_user_path c)) as [->|Hq].
  - right; left. split; [done|]. left. by apply node_at_delete.
  - left. by apply node_at_delete_ne.
Qed.

Lemma repair_ok owner f : step_ok owner f (repair_state c f).2.
Proof.
  assert (Hs : forall u, step_ok owner f
    (let '(r, f') := set_active_user c f u in (let? _ := r in Ok (Ready u), f')).2).
  { intros u. pose proof (set_active_ok owner f u) as Hu. by destruct (set_active_user c f u). }
  unfold repair_state. destruct (evaluate_state c f) as [| | |[|? [|]]|? [|? [|]]|];
    first [apply step_same | apply Hs].
Qed.

Lemma create_user_ok (owner : bytes -> Prop) f name :
  owner name -> step_ok owner f (create_user c f name).2.
Proof.
  intros Ho. unfold create_user. destruct (checked_user_dir c f name) as [d|] eqn:Ed; [|apply step_same].
  apply checked_user_dir_iff in Ed as (Hv & -> & _). unfold io_then.
  destruct (create_dir_all f _) as [f1|] eqn:E; [|apply step_same].
  rewrite <- app_assoc in E. by eapply create_below_ok.
Qed.

Lemma save_info_ok (owner : bytes -> Prop) f name info :
  owner name -> step_ok owner f (save_user_info c f name info).2.
Proof.
  intros Ho. unfold save_user_info.
  destruct (checked_user_dir c f name) as [d|] eqn:Ed; [|apply step_same].
  apply checked_user_dir_iff in Ed as (Hv & -> & _). unfold io_then, create_parent.
  rewrite parent_snoc. destruct (create_dir_all f _) as [f1|] eqn:E1; [|apply step_same].
  assert (S1 : step_ok owner f f1) by (by apply (create_below_ok owner name [])).
  destruct (ser info) as [s|]; [|done].
  destruct (fs_write f1 _ s) as [f2|] eqn:E2; cbn [snd]; [|done].
  apply (step_trans _ _ f1); [done|]. rewrite <- app_assoc in E2. by apply (write_below_ok _ name _ _ _ _ Ho Hv E2).
Qed.

Lemma delete_user_ok (owner : bytes -> Prop) f name :
  owner name -> step_ok owner f (delete_user c f name).2.
Proof.
  intros Ho. unfold delete_user. destruct (checked_user_dir c f name) as [d|] eqn:Ed; [|apply step_same].
  apply checked_user_dir_iff in Ed as (Hv & -> & _). unfold io_then.
  set (d := users_dir c ++ [name]).
  destruct (if exists_ f d then remove_dir_all f d else Ok f) as [f1|] eqn:E; [|apply step_same].
  assert (S1 : step_ok owner f f1).
  { destruct (exists_ f d); [|by injection E as ->; apply step_same].
    split; [by eapply remove_dir_all_tree|]. intros q.
    destruct (decide (q = [])) as [->|Hq]; [by left|]. unfold confined.
    rewrite (remove_dir_all_node _ _ _ q E) by done.
    destruct (under d q) eqn:Eu; [|by left]. right; right; right. by exists name. }
  case_bool_decide; [|done]. apply (step_trans _ _ f1); [done | apply clear_active_ok].
Qed.

Lemma perform_ok o f : step_ok (fun u => directory_of o = Some u) f (perform o f).
Proof.
  destruct o; cbn [perform directory_of];
    auto using create_user_ok, delete_user_ok, set_active_ok, clear_active_ok, save_info_ok, repair_ok.
Qed.

Lemma session_ok f ops f' :
  session f ops f' -> step_ok (fun u => exists o, o ∈ ops /\ directory_of o = Some u) f f'.
Proof.
  induction 1 as [|ops f1 o _ IH]; [apply step_same|]. eapply step_trans.
  - eapply step_mono; [|exact IH]. cbn. intros u (o' & Ho & Hu). exists o'. split; [|done].
    apply elem_of_app. by left.
  - eapply step_mono; [|apply perform_ok]. cbn. intros u Hu. exists o. split; [|done].
    apply elem_of_app. right. left.
Qed.
(** ** What a session can reach *)

Lemma prefix_outside q :
  q ∈ prefixes (users_dir c) -> under (config_dir c) q = false -> under q (config_dir c) = true.
Proof.
  unfold prefixes. intros (n & -> & Hn)%list_elem_of_fmap Hu. apply elem_of_seq in Hn.
  destruct (decide (n <= length (config_dir c))%nat) as [Hle|Hgt].
  - apply starts_with_true. exists (drop n (config_dir c)). unfold users_dir.
    by rewrite take_app_le, take_drop.
  - exfalso. apply not_true_iff_false in Hu. apply Hu. apply starts_with_true. exists [b "users"].
    rewrite take_ge; [done|]. unfold users_dir in *. rewrite length_app in *. cbn in *. lia.
Qed.

Lemma below_config d l : under (config_dir c ++ d) l = true -> under (config_dir c) l = true.
Proof.
  unfold under. intros (r & ->)%starts_with_true. apply starts_with_true. exists (d ++ r).
  by rewrite app_assoc.
Qed.

Lemma one_user u v q :
  under (users_dir c ++ [u]) q = true -> under (users_dir c ++ [v]) q = true -> u = v.
Proof.
  unfold under. intros (r & ->)%starts_with_true (r' & E)%starts_with_true.
  rewrite <- !app_assoc in E. apply app_inv_head in E. by injection E.
Qed.

(** C19: However the operations on users are called, with any names and over any
    file system, an installation stays in bounds.  A well-formed file tree stays
    one.  Nothing outside the configuration directory changes, but for its
    missing ancestors, which become directories.  The directory of a user no
    operation named is untouched.  And on an installation without an active
    user, a session leaves a pointer only to a name the rules accept. *)
Theorem session_invariant f ops f' :
  session f ops f' ->
  (tree f -> tree f') /\
  (forall q, under (config_dir c) q = false -> node_at f' q = node_at f q \/
     (under q (config_dir c) = true /\ node_at f q = None /\ node_at f' q = Some Dir)) /\
  (forall u q, under (users_dir c ++ [u]) q = true ->
     (forall o, o ∈ ops -> directory_of o <> Some u) -> node_at f' q = node_at f q) /\
  (forall u, get_active_user c f = None -> get_active_user c f' = Some u ->
     validate_user_dir_name u = Ok tt).
Proof.
  intros [Ht Hc]%session_ok. split; [done | split; [|split]].
  - intros q Hq. destruct (Hc q) as [?|[[-> _]|[(Hp & Hn & Hd)|(u & _ & _ & Hu)]]]; [by left| | |].
    + rewrite (below_config [b "active_user"]) in Hq; [done|]. apply starts_with_true. exists [].
      by rewrite app_nil_r.
    + right. split; [by apply prefix_outside | done].
    + unfold users_dir in Hu. rewrite <- app_assoc in Hu. by rewrite (below_config _ _ Hu) in Hq.
  - intros u q Hq Ho. destruct (Hc q) as [?|[[-> _]|[(Hp & _)|(v & (o & Hin & Hv) & _ & Hu)]]]; [done| | |].
    + by rewrite active_path_not_under in Hq.
    + apply prefixes_length in Hp. apply starts_with_true in Hq as (r & ->).
      rewrite !length_app in Hp. cbn in Hp. lia.
    + rewrite (one_user u v q Hq Hu) in Ho. by apply Ho in Hin.
  - intros u Hno Hu. destruct (Hc (active_user_path c))
      as [E|[[_ [E|(v & E & Hv)]]|[(Hp & _)|(v & _ & _ & Hv)]]].
    + rewrite <- (get_active_user_node c f f') in Hu; congruence.
    + unfold get_active_user, exists_ in Hu. by rewrite E in Hu.
    + rewrite (get_active_user_written c f' v Hv E) in Hu. congruence.
    + by apply active_not_prefix in Hp.
    + by rewrite active_path_not_under in Hv.
Qed.
End Session.

(** ** A concrete session *)

#[export] Instance user_info_eq_dec : EqDecision UserInfo.
Proof. solve_decision. Defined.
#[export] Program Instance user_info_countable : Countable UserInfo :=
  inj_countable' (fun i => (email i, username i, machine_id i, user_id i))
    (fun '(e, u, m, i) => {| email := e; username := u; machine_id := m; user_id := i |}) _.
Next Obligation. by intros []. Qed.
#[local] Instance user_info_codec : Codec UserInfo := countable_codec.

Definition demo_ops : list operation :=
  [CreateUser (b "carol"); SetActiveUser (b "../alice"); SetActiveUser (b "carol"); DeleteUser (b "bob")].

Lemma session_invariant_witness :
  exists f', session gitcellar demo_fs demo_ops f' /\
    node_at f' (demo_users ++ [b "alice"; b "identity"; b "secret.pgp"]) = Some (File (b "sealed")).
Proof.
  assert (Hs : session gitcellar demo_fs demo_ops (foldl (fun f o => perform gitcellar o f) demo_fs demo_ops)).
  { apply (session_step gitcellar demo_fs [_; _; _]), (session_step gitcellar demo_fs [_; _]),
      (session_step gitcellar demo_fs [_]), (session_step gitcellar demo_fs []), session_start. }
  eexists. split; [exact Hs|].
  destruct (session_invariant gitcellar demo_fs demo_ops _ Hs) as (_ & _ & Hu & _).
  rewrite (Hu (b "alice")).
  - vm_compute. reflexivity.
  - vm_compute. reflexivity.
  - intros o Ho. repeat (apply elem_of_cons in Ho as [->|Ho]; [discriminate|]).
    by apply elem_of_nil in Ho.
Defined.
