(* ===== verification/Flows.v ===== *)
(** Handing a repository to a collaborator, from the granter's engine to the
    recipient's first fetch.

    [send_grant] and [receive_grant] compose [gitcellar-crypto/src/grant_signing.rs]
    and [encryption.rs] the way the former's documentation describes the
    hand-over: the granter signs a bundle around the repository key and encrypts
    it to the recipient; the recipient decrypts, parses, verifies, and only then
    imports the key.  Like {!Pipeline}, they specify a use and have no source of
    their own. *)

From S2P Require Import Prelude Bytes Utf8 Interfaces Toy VaultError Pack Chunking ChunkFormat.
From S2P Require Import VaultEncryption CryptoError Canonical Signing Grant RepoEncryption Pipeline.
From S2P Require Import Json.
From S2P Require JsonTypes.

(** A bundle travels as JSON. *)
#[local] Existing Instance JsonTypes.grant_codec.

Section Flow.
  Context `{UnicodeOps, Base64Ops} {Cert : Type} `{PgpOps Cert, PgpMessageOps}.
  Context `{JsonOps}.

(** The granter sends the key material [km] of version [kv] to [recipient], an
    engine over the recipient's public certificate. *)
Definition send_grant (granter recipient : EncryptionEngine Cert) (uid : bytes) (kv : Z)
    (km : bytes) (ts : Z) (d : option GrantDelegation) : result CryptoError bytes :=
  let? bundle := build_signed_repo_grant_bundle granter uid kv
                   (cert_fingerprint (ee_cert recipient)) (b64_encode km) ts d in
  let? json := Grant.to_json bundle in
  encrypt_data recipient json.

(** The recipient's verdict on a relayed message, and the repository engine it
    imports when the verdict allows one. *)
Definition receive_grant (me : EncryptionEngine Cert) (armor served uid : bytes) (kv : Z)
    (msg : bytes) : result CryptoError (GrantVerifyOutcome * option (EncryptionEngine Cert)) :=
  let? json := decrypt_data me msg in
  let? bundle := Grant.from_json json in
  let outcome := verify_grant_bundle bundle armor served uid kv (cert_fingerprint (ee_cert me)) in
  Ok (outcome,
      if allow outcome then
        option_map (fun c => with_key_version (from_cert c) kv)
          (b64_decode (b_key_material_b64 bundle) ≫= cert_parse)
      else None).
End Flow.

Section Handover.
  Context `{UnicodeLaws, Base64Laws} {Cert : Type} `{PgpLaws Cert} `{!PgpMessageOps}.
  Context `{!PgpMessageLaws Cert} `{JsonLaws}.

(** The recipient's engine holds a secret for the certificate the granter sees. *)
Definition addressed (view me : EncryptionEngine Cert) : Prop :=
  cert_fingerprint (ee_cert view) = cert_fingerprint (ee_cert me) /\
  (exists k k', k ∈ encryption_recipients (ee_cert view) /\
     k' ∈ decryption_keys (ee_cert me) /\ kv_handle k' = kv_handle k) /\
  Forall (fun k => kv_secret k <> Some EncryptedSecret) (decryption_keys (ee_cert me)).

(** A granter: it signs, under a certificate with a plain fingerprint. *)
Definition granter_ok (e : EncryptionEngine Cert) (armor : bytes) : Prop :=
  signer e armor /\ Forall (fun c => ascii_fp c = true) (cert_fingerprint (ee_cert e)) /\
  (forall data sig, sign_data e data = Ok sig -> sig <> []).

Lemma built_bundle_fields (e : EncryptionEngine Cert) uid kv rf km ts d bundle :
  build_signed_repo_grant_bundle e uid kv rf km ts d = Ok bundle ->
  Grant.v bundle = GRANT_CANONICAL_VERSION /\ b_repo_uid bundle = uid /\
  b_key_material_b64 bundle = km.
Proof.
  unfold build_signed_repo_grant_bundle. intros (sig & _ & [= <-])%rbind_Ok_inv. done.
Qed.

Lemma built_bundle_typed (e : EncryptionEngine Cert) uid kv rf km ts d bundle :
  is_i64 ts -> (forall x, d = Some x -> JsonTypes.delegation_typed x) ->
  build_signed_repo_grant_bundle e uid kv rf km ts d = Ok bundle -> JsonTypes.grant_typed bundle.
Proof.
  unfold build_signed_repo_grant_bundle. intros Ht Hd (sig & _ & [= <-])%rbind_Ok_inv. by split.
Qed.

Lemma relabelled_refused bundle armor served uid uid' kv rf :
  b_repo_uid bundle = uid -> uid' <> uid ->
  normalize_fingerprint (b_granter_fingerprint bundle) = normalize_fingerprint served ->
  verify_grant_bundle (Cert:=Cert) bundle armor served uid' kv rf = SignatureInvalid.
Proof.
  intros Hb Hu Hf. unfold verify_grant_bundle. rewrite (bool_decide_true _ Hf). cbn [negb].
  rewrite (bool_decide_false (b_repo_uid bundle = uid')) by congruence.
  cbn [negb]. by rewrite orb_true_r.
Qed.

Lemma valid_claims bundle armor served uid kv rf :
  verify_grant_bundle (Cert:=Cert) bundle armor served uid kv rf = Valid ->
  normalize_fingerprint (b_granter_fingerprint bundle) = normalize_fingerprint served.
Proof. unfold verify_grant_bundle. by case_bool_decide. Qed.

Lemma receive_sent granter view me armor uid kv km ts d msg repo :
  granter_ok granter armor -> addressed view me -> trim uid <> [] ->
  is_i64 ts -> (forall x, d = Some x -> JsonTypes.delegation_typed x) ->
  cert_parse km = Some repo -> send_grant granter view uid kv km ts d = Ok msg ->
  let served := cert_fingerprint (ee_cert granter) in
  receive_grant me armor served uid kv msg = Ok (Valid, Some (with_key_version (from_cert repo) kv)) /\
  (forall uid', uid' <> uid ->
     receive_grant me armor served uid' kv msg = Ok (SignatureInvalid, None)).
Proof.
  intros (Hs & Hfp & Hne) (Hme & (k & k' & Hk & Hk' & Hh) & Hf) Hu Ht Hd' Hkm E served.
  unfold send_grant in E. apply rbind_Ok_inv in E as (bundle & Eb & E).
  apply rbind_Ok_inv in E as (json & Ej & E).
  assert (Hu' : uid <> []) by (intros ->; by apply Hu).
  destruct (grant_build_verify granter armor uid kv (cert_fingerprint (ee_cert view))
              (b64_encode km) ts d Hs Hu' Hfp Hne) as (bundle' & Eb' & Ev).
  assert (bundle' = bundle) as -> by congruence.
  destruct (built_bundle_fields _ _ _ _ _ _ _ _ Eb) as (Hv & Hb & Hkm').
  assert (Hd : receive_grant me armor served = fun u kv m =>
    let? json := decrypt_data me m in let? bundle := Grant.from_json json in
    let outcome := verify_grant_bundle bundle armor served u kv (cert_fingerprint (ee_cert view)) in
    Ok (outcome, if allow outcome then
      option_map (fun c => with_key_version (from_cert c) kv)
        (b64_decode (b_key_material_b64 bundle) ≫= cert_parse) else None))
    by (unfold receive_grant; by rewrite Hme).
  rewrite Hd, (encrypted_decrypts view me json msg k k') by done. cbn [rbind].
  assert (Hj : Grant.from_json json = Ok bundle).
  { unfold Grant.to_json in Ej. cbn in Ej. injection Ej as <-.
    destruct (JsonTypes.grant_bundle_back bundle) as [Hr Hp]; [by eapply built_bundle_typed|].
    unfold Grant.from_json. cbn [de JsonTypes.grant_codec json_codec].
    rewrite json_parse_print by done. cbn [mbind option_bind]. rewrite Hr. cbn [ok_or rbind].
    rewrite (bool_decide_true _ Hv). cbn [negb]. by rewrite Hb, bool_decide_false. }
  rewrite Hj. cbn [rbind]. split.
  - fold served in Ev. rewrite Ev. cbn [allow]. rewrite Hkm', b64_decode_encode. cbn [mbind option_bind].
    by rewrite Hkm.
  - intros uid' Hne'. rewrite (relabelled_refused bundle armor served uid) by
      (done || by apply valid_claims in Ev). done.
Qed.
End Handover.

Section Sharing.
  Context `{UnicodeLaws, Base64Laws} {Cert : Type} `{PgpLaws Cert} `{!PgpMessageOps}.
  Context `{!PgpMessageLaws Cert} `{JsonLaws}.
  Context `{HashLaws, HexLaws, AeadLaws} {R : Type} `{RngLaws R}.

(** C1: A shared repository is readable.  When a granter sends a collaborator the
    key of a repository as a JSON bundle (times and versions in the range of
    their types), the message the collaborator receives verifies and
    yields an engine that reads, byte for byte, every stream the repository's
    holder publishes at that key version (its random pack identifiers distinct,
    its keyed names without a collision); and the same message offered for any
    other repository is refused as a forgery, and imports nothing. *)
Theorem shared_repository granter view me armor uid v km repo k ts d msg c stream target (r : R) :
  granter_ok granter armor -> addressed view me -> trim uid <> [] -> NUL ∉ uid -> 1 <= v ->
  is_i64 ts -> (forall x, d = Some x -> JsonTypes.delegation_typed x) ->
  cert_parse km = Some repo -> derive_k_repo (from_cert repo) = Ok k ->
  config_ok c -> max_size c <= 2 ^ 31 -> Zlen (concat stream) <= 2 ^ 58 ->
  send_grant granter view uid v km ts d = Ok msg ->
  exists mine chunks ps r',
    receive_grant me armor (cert_fingerprint (ee_cert granter)) uid v msg = Ok (Valid, Some mine) /\
    publish (with_key_version (from_cert repo) v) uid c stream target r = Done (Ok (chunks, ps), r') /\
    (NoDup (map built_id (packs ps)) ->
     (forall c1 c2, c1 ∈ chunks -> c2 ∈ chunks -> hash c1 = hash c2 -> data c1 = data c2) ->
     fetch mine uid v (ChunkEngine.get_metadata chunks) ps = Some (concat stream)) /\
    (forall uid', uid' <> uid ->
       receive_grant me armor (cert_fingerprint (ee_cert granter)) uid' v msg
         = Ok (SignatureInvalid, None)).
Proof.
  intros Hg Ha Hu Hn Hv Ht Hd Hkm Hk Hc Hm Hl E.
  destruct (receive_sent granter view me armor uid v km ts d msg repo Hg Ha Hu Ht Hd Hkm E) as [Er Ho].
  set (w := with_key_version (from_cert repo) v) in *.
  assert (Hw : derive_k_repo w = Ok k) by exact Hk.
  destruct (published_fetched w w k v uid c stream target r) as (chunks & ps & r' & Ep & Hf);
    [done..|]. exists w, chunks, ps, r'. auto.
Qed.
End Sharing.

(** ** A concrete hand-over *)

#[local] Existing Instance toy_json.
#[local] Existing Instance toy_json_laws.

Definition bob : EncryptionEngine bytes := from_cert (b "bob").

Lemma demo_granter : granter_ok demo_engine (b "alice").
Proof.
  split; [exact demo_signer | split; [|exact demo_signature_nonempty]]. repeat constructor.
Qed.

Lemma demo_addressed : addressed bob bob.
Proof.
  split; [done | split].
  - exists (toy_key true false (b "bob")), (toy_key true false (b "bob")).
    repeat split; by left.
  - repeat constructor; by intros [=].
Qed.

Lemma shared_repository_witness :
  exists msg mine chunks ps r', send_grant demo_engine bob (b "uid") 2 (b "repo") 9 None = Ok msg /\
    receive_grant bob (b "alice") (cert_fingerprint (b "alice")) (b "uid") 2 msg
      = Ok (Valid, Some mine) /\
    publish demo_repo (b "uid") demo_config demo_stream 80 7 = Done (Ok (chunks, ps), r') /\
    receive_grant bob (b "alice") (cert_fingerprint (b "alice")) (b "other") 2 msg
      = Ok (SignatureInvalid, None).
Proof.
  assert (Hs : is_ok (send_grant demo_engine bob (b "uid") 2 (b "repo") 9 None) = true)
    by (vm_compute; reflexivity).
  destruct (send_grant _ _ _ _ _ _ _) as [msg|] eqn:E in Hs; [|discriminate].
  destruct (shared_repository demo_engine bob bob (b "alice") (b "uid") 2 (b "repo") (b "repo")
    demo_root 9 None msg demo_config demo_stream 80 7) as (mine & chunks & ps & r' & Er & Ep & _ & Ho).
  - exact demo_granter.
  - exact demo_addressed.
  - by vm_compute.
  - by_eval.
  - lia.
  - by split.
  - discriminate.
  - reflexivity.
  - exact demo_root_ok.
  - exact demo_config_ok.
  - by vm_compute.
  - by vm_compute.
  - exact E.
  - exists msg, mine, chunks, ps, r'. repeat split; [exact E | exact Er | exact Ep|].
    apply Ho. discriminate.
Defined.
