(* ===== verification/Enrolment.v ===== *)
(** From the recovery phrase to the user's devices: the phrase written down once
    ([passkey-core/src/recovery]) recovers the master key
    ([gitcellar-crypto/src/master.rs]) that enrols and revokes devices
    ([device_cert.rs], [revocation_cert.rs]). *)

From S2P Require Import Prelude Bytes Utf8 Interfaces Toy Master Certs Words Recovery.

Section Enrolment.
  Context {Mnemonic R : Type} `{Bip39Laws Mnemonic, UnicodeLaws, HashLaws, HexLaws, RngLaws R}.
  Context `{Ed25519Laws} `{CodecLaws DeviceCert.payload} `{CodecLaws DeviceCert.DeviceCertificate}.
  Context `{CodecLaws RevocationCert.payload}.

(** The master key of a phrase, with the BIP39 library the recovery codes use. *)
Definition master_of (p : bytes) : result MasterKeyError MaterializedMaster :=
  @Master.from_phrase _ _ _ bip39_mnemonic p.

Lemma master_of_code (c : RecoveryCode Mnemonic) typed :
  split_whitespace (str_to_lowercase typed) = split_whitespace (phrase c) ->
  exists m, master_of typed = Ok m /\ master_ok m /\ master_of (phrase c) = Ok m.
Proof.
  intros Ht. unfold master_of, Master.from_phrase.
  assert (Hn : Master.normalize_phrase typed = Master.normalize_phrase (phrase c)).
  { unfold Master.normalize_phrase. by rewrite Ht, phrase_lowercase. }
  rewrite Hn.
  assert (Hp : parse_in_normalized (Master.normalize_phrase (phrase c)) = Some (mnemonic c)).
  { unfold Master.normalize_phrase. rewrite phrase_lowercase.
    destruct (mnemonic_split (mnemonic c)) as (ws & Hs & E & _ & _). unfold phrase.
    rewrite Hs, <- E. apply parse_mnemonic_string. }
  cbn [mnemonic_seed bip39_mnemonic]. rewrite Hp. cbn [fmap option_fmap option_map ok_or rbind].
  destruct (hkdf_sha256_Some None (mnemonic_to_seed (mnemonic c)) Master.DERIVATION_INFO 32)
    as (s & Es & _); [lia|]. rewrite Es. cbn [ok_or rbind]. eexists. split; [done|]. by split.
Qed.
Lemma master_signed m dev lbl plat t :
  master_ok m -> Zlen lbl <= MAX_LABEL_BYTES ->
  exists c, DeviceCert.sign_with_master m dev lbl plat t = Ok c /\
    DeviceCert.verify c (public_key m) [] = Ok tt.
Proof.
  intros Hm Hl. unfold DeviceCert.sign_with_master, DeviceCert.encode_payload.
  rewrite label_ok by done. cbn [rbind].
  encoded bs. eexists. split; [done|]. apply device_verify_iff. cbn.
  destruct (master_verifies m bs Hm). eauto 10.
Qed.

Lemma master_revokes m dev t reason :
  master_ok m -> exists c, RevocationCert.sign_with_master m dev t reason = Ok c /\
    RevocationCert.verify c (public_key m) [] = Ok tt.
Proof.
  intros Hm. unfold RevocationCert.sign_with_master, RevocationCert.encode_payload.
  encoded bs. eexists. split; [done|]. apply revocation_verify_iff. cbn.
  destruct (master_verifies m bs Hm). eauto 10.
Qed.

(** A device's certificate for another device stands as long as the device is
    eligible. *)
Lemma device_signed m sk dev lbl plat t el :
  Zlen lbl <= MAX_LABEL_BYTES -> ed_public sk <> public_key m ->
  exists c, DeviceCert.sign_with_device sk (public_key m) dev lbl plat t = Ok c /\
    (ed_public sk ∈ el -> DeviceCert.verify c (public_key m) el = Ok tt) /\
    (ed_public sk ∉ el -> DeviceCert.verify c (public_key m) el = Err DeviceCert.UnknownSigner).
Proof.
  intros Hl Hne. pose proof (label_ok _ Hl) as Hv.
  unfold DeviceCert.sign_with_device, DeviceCert.encode_payload. rewrite Hv. cbn [rbind].
  encoded bs. eexists. split; [done|]. split; intros Hin.
  - apply device_verify_iff. cbn. rewrite ed_point_public. eauto 10 using ed_verify_sign.
  - unfold DeviceCert.verify. cbn [DeviceCert.body DeviceCert.cert_version DeviceCert.master_pubkey
      DeviceCert.label]. rewrite Z.eqb_refl, bool_decide_true, Hv by done. cbn [negb rbind].
    unfold DeviceCert.check_signer. cbn [DeviceCert.signer_role DeviceCert.signer_pubkey].
    destruct (existsb _ el) eqn:Ex; [by apply existsb_elem_of in Ex | done].
Qed.

(** C14: The written-down phrase carries the whole device hierarchy.  Typed back
    as it was printed, or with other case and spacing, it gives the recovery
    code and the master key again; certificates and revocations that master signs verify under the public
    key recorded at first, after a trip over the wire, with no device vouching;
    and a device it enrolled vouches for another exactly while it is eligible. *)
Theorem recovered_master_enrols (r : R) (c : RecoveryCode Mnemonic) typed sk dev2 lbl plat t el :
  (generate_recovery_code r).1 = Ok c ->
  typed = format_for_display c \/
    split_whitespace (str_to_lowercase typed) = split_whitespace (phrase c) ->
  Zlen lbl <= MAX_LABEL_BYTES ->
  from_phrase typed = Ok c /\
  exists m, master_of (phrase c) = Ok m /\ master_of typed = Ok m /\
    (exists cert wire,
       DeviceCert.sign_with_master m (ed_public sk) lbl plat t = Ok cert /\
       DeviceCert.to_cbor cert = Ok wire /\
       rbind (DeviceCert.from_cbor wire)
         (fun cert => DeviceCert.verify cert (public_key m) []) = Ok tt) /\
    (exists rev,
       RevocationCert.sign_with_master m (ed_public sk) t RevocationCert.Compromise = Ok rev /\
       RevocationCert.verify rev (public_key m) [] = Ok tt) /\
    (ed_public sk <> public_key m -> exists cert2,
       DeviceCert.sign_with_device sk (public_key m) dev2 lbl plat t = Ok cert2 /\
       (ed_public sk ∈ el -> DeviceCert.verify cert2 (public_key m) el = Ok tt) /\
       (ed_public sk ∉ el ->
          DeviceCert.verify cert2 (public_key m) el = Err DeviceCert.UnknownSigner)).
Proof.
  intros Hc%generate_count Ht Hl.
  assert (Hw : split_whitespace (str_to_lowercase typed) = split_whitespace (phrase c))
    by (destruct Ht as [->|]; [apply display_words | done]).
  split; [by apply from_phrase_words|].
  destruct (master_of_code c typed Hw) as (m & Em & Hm & Em').
  exists m. repeat split; [done|done| | |by intros; apply device_signed].
  - destruct (master_signed m (ed_public sk) lbl plat t Hm Hl) as (cert & Ec & Hv).
    destruct (ser_total cert) as [wire Ew]. exists cert, wire.
    unfold DeviceCert.to_cbor, DeviceCert.from_cbor. rewrite Ew, (de_ser _ _ Ew). auto.
  - by apply master_revokes.
Qed.
End Enrolment.

(** ** A concrete enrolment *)

#[local] Instance device_codec : Codec DeviceCert.payload := countable_codec.
#[local] Instance device_codec_laws : CodecLaws DeviceCert.payload := countable_codec_laws.
#[local] Instance revocation_codec : Codec RevocationCert.payload := countable_codec.
#[local] Instance revocation_codec_laws : CodecLaws RevocationCert.payload := countable_codec_laws.

#[export] Instance certificate_eq_dec : EqDecision DeviceCert.DeviceCertificate.
Proof. solve_decision. Defined.
#[export] Program Instance certificate_countable : Countable DeviceCert.DeviceCertificate :=
  inj_countable' (fun c => (DeviceCert.body c, DeviceCert.signature c))
    (fun '(p, s) => {| DeviceCert.body := p; DeviceCert.signature := s |}) _.
Next Obligation. by intros []. Qed.
#[local] Instance certificate_codec : Codec DeviceCert.DeviceCertificate := countable_codec.
#[local] Instance certificate_codec_laws : CodecLaws DeviceCert.DeviceCertificate :=
  countable_codec_laws.

Lemma recovered_master_enrols_witness :
  match (generate_recovery_code (Mnemonic := list bool) (R := Z) 3).1 with
  | Ok c => exists m, master_of (phrase c) = Ok m /\ master_of (format_for_display c) = Ok m /\
      exists rev, RevocationCert.sign_with_master m (ed_public (b "seed")) 5
          RevocationCert.Compromise = Ok rev /\
        RevocationCert.verify rev (public_key m) [] = Ok tt
  | Err _ => False
  end.
Proof.
  destruct (generate_recovery_code 3).1 as [c|e] eqn:E; [|by vm_compute in E].
  destruct (recovered_master_enrols (Mnemonic := list bool) (R := Z) 3 c (format_for_display c)
    (b "seed") (b "new device") (b "laptop") (b "linux") 5 []) as (_ & m & Em & Em' & _ & Hr & _).
  - exact E.
  - by left.
  - by vm_compute.
  - exists m. split; [exact Em | split; [exact Em' | exact Hr]].
Defined.
